(* ===== verification/_CoqProject ===== *)
-Q . S2P
Prelude.v
CxxString.v
Calendar.v
Date.v
Regex.v
ByteBuffer.v
TimeStamp.v
HttpRequest.v
HttpContext.v
HttpParse.v
OrdMap.v
HttpResponse.v
World.v
Sample.v
Session.v
Accounts.v
Upload.v
Download.v
Files.v
Share.v
Routes.v
Handlers.v
Access.v
Streaming.v
Uploading.v
UploadMessages.v
Serving.v
FileMapping.v
Requests.v
Accounting.v
SessionStore.v
Sharing.v
Channel.v
Poller.v
TcpConnection.v
TcpStream.v
Lifecycle.v
EPollPoller.v
PollPoller.v
TimerQueue.v
TimerFacts.v
HttpServer.v
HttpServing.v
Wire.v
Delivery.v
Program.v
ProgramFacts.v
SqlSafety.v
EventLoop.v
LoopObject.v
Connector.v
TcpServer.v
ServerLoops.v
ServerFacts.v
ServerSteps.v
FileUtil.v
LogFile.v
LogStream.v
AsyncLogging.v
Logging.v
Sync.v
Queues.v
ThreadPool.v
Threads.v
LinkedBuffer.v
Support.v
Sockets.v
Acceptor.v
Startup.v
WellTyped.v
ProgramTyped.v
Downloads.v
UtilTheorems.v
AppTheorems.v
HttpTheorems.v
AccountTheorems.v
NetTheorems.v
ProgramTheorems.v
ServerTheorems.v
