(* ===== verification/Prelude.v ===== *)
(** * Verification of the cloud-storage server

    The program is an HTTP file server in C++: accounts, uploads, downloads,
    shares, on a small reactor library written for it.  This development models
    it in Rocq, from the source under src/, and proves what its parts promise.

    ** The program and the files

    From the bottom up; a file models the sources named with it.

    - Strings, numbers, regular expressions: [CxxString] (the conversions of the
      C++ library, and snprintf into arrays), [Regex] (the patterns the program
      compiles), [OrdMap] (std::map with string keys).
    - Dates: [Calendar] (the Gregorian calendar, the reference), [Date]
      (utils/date/Date), [TimeStamp] (utils/date/TimeStamp).
    - Buffers: [ByteBuffer] (network/Buffer), [LinkedBuffer]
      (network/LinkedBuffer.hpp).
    - HTTP: [HttpRequest], [HttpContext] (the incremental parser),
      [HttpResponse], [HttpServer], all of network/http; [HttpParse] proves the
      parser, [HttpServing] the message handler.
    - The application, app/HttpUploader.hpp and the two context classes beside
      it: [World] is the state its handlers share (request, response,
      connection context, name mapping, files, database connection, random
      draws) with a state monad whose outcomes are a value, an exception, or
      undefined behaviour; [Session], [Accounts], [Upload], [Download], [Files],
      [Share] are the handlers, [Routes] the dispatcher, [Startup] the
      construction and the tables.  [Sample] is a concrete platform to run
      them on.
    - Their proofs: [Handlers] (the invariant tactic [keeps]), [Access],
      [Streaming], [Uploading], [UploadMessages], [Serving] (with the plain
      specification of the routes), [FileMapping], [Requests] (what every
      request keeps), [WellTyped], [Accounting], [SessionStore], [Sharing],
      [SqlSafety] (how a statement reads outside its literals); [Wire] composes
      the server with the application, [Delivery] with the write events of the
      connection and the turns of its loop.
    - The whole of app/main.cpp: [Program] is the one loop with the application
      and all its connections, which share the application's state and queue
      functors; [ProgramFacts] shows what a connection leaves alone whatever it
      does, [ProgramTyped] that the program stays well typed and uses nothing
      that was freed, [Downloads] that a download goes on among other
      connections.
    - The reactor: [Channel], [Poller] (the interface and its contract, a type
      class), [EPollPoller], [PollPoller] (with the choice between the two of
      DefaultPoller.cpp), [TcpConnection] with [TcpStream] (its bytes) and [Lifecycle] (its
      states and the events it asks for), [TimerQueue] with [TimerFacts],
      [EventLoop], [LoopObject] (the loop with its thread, its poller and its
      timers), [Connector] (with TcpClient), [TcpServer] (with the pool of
      loops), [Sockets], [Acceptor]; network/ has a source of the same name for
      each.  [ServerLoops] composes server, loops, pollers and
      connections into one system whose threads are interleaved; [ServerFacts]
      has its invariant and [ServerSteps] that every step keeps it.
    - Logging: [LogStream], [Logging], [AsyncLogging], [LogFile], [FileUtil]
      (utils/log, utils/FileUtil).
    - Threads: [Sync] (PMutex, PCondition, CountDownLatch), [Queues]
      (BlockingQueue, BoundedBlockingQueue), [ThreadPool], [Threads] (Thread,
      CurrentThread, ThreadLocal, and network/EventLoopThread), [Support] (FKString, Atomic, FKException,
      ProcessInfo).

    How they interact: bytes arrive in the input buffer of a connection;
    HttpServer.onMessage runs the parser over them and calls
    HttpUploadHandler::onRequest ([Routes.onRequest]), which dispatches by the
    route table to a handler; the response is serialized into the output of the
    connection.  The loop calls the connection back when the descriptor is
    writable, and a handler may have left a callback that produces the next
    chunk of a download.

    ** How the code is modelled

    A record for each class, with its members' names; a function for each
    method, that takes the object and gives it back.  A failed assert, a null
    dereference or an access outside an array is [None] (for handlers, [Undef]).
    Integers are [Z] with their width written out ([wrap], [swrap]) wherever it
    can matter.  What the system, MySQL, the JSON library or the C library
    answers is an argument or a field of the class [Platform].  MySQL is a state
    and a function of it; what is assumed of its tables is a class of its own
    ([SessionStore.SessionTable]: the statements of the session code on tables
    with the unique key and the foreign key of the schema), which has an
    instance.  The open stream of a download holds what its file holds now: a
    write to the file changes it, a removal of the name does not
    ([World.put_file], [World.remove_file]).  In [Program] a download context
    lives as long as a context, a callback or a functor holds it, and a closed
    connection until its connectDestroyed has run and no functor holds it; the
    use of one that is gone is the crash [CFreed].  Threads are
    interleaved: a section that holds a mutex is one step, a run is a list of
    steps in any order, and condition variables count their sleepers, with
    spurious wake-ups ([Sync.PCondition]).

    ** What is proved

    - [AppTheorems]: who may download, delete or upload; that an upload is
      stored as it was sent while its session lasts, and a download delivers the
      file, whatever becomes of its name; that no request
      can change a statement to the database.
    - [ProgramTheorems], about the whole program with any number of connections:
      no functor and no callback ever uses an object that was freed, and none is
      leaked; a download reaches its end whatever the other connections do.
    - [AccountTheorems]: sessions implement an abstract store; what logins,
      registrations and shares do on success and on refusal; the route table
      against a plain specification; ranges.
    - [HttpTheorems]: the parser inverts a client's rendering; until it has
      refused a line it fails no assertion and reads outside its buffer only for
      a Content-Length without a value, and after that the next byte can end the
      process; it hangs on a header block in two pieces; requests
      are answered; buffers refine queues.  Three theorems cross all layers: a
      request without a login, from its bytes to the bytes of the refusal; an
      upload, from the bytes of the form to the file on disk; a download, from
      the bytes of the request to the last byte of the file, however the kernel
      takes the writes.
    - [NetTheorems]: no byte of a connection is lost, both pollers implement
      their contract, timers run when they are due, any thread may add and
      cancel them, and the connector's descriptors are accounted for.
    - [ServerTheorems], about the composed server over any poller that keeps the
      contract, in every interleaving: no step of any thread fails and no loop is
      stuck; table, connections and pollers agree; a connection that closes is
      out of the table and out of its poller once the two loops have run the
      functors they had.
    - [UtilTheorems]: both buffers are equivalent; no log line is lost on the
      way to its file; queues and the pool keep order and lose no wake-up (who
      sleeps at a queue has others awake for every element or place), a
      stopped pool ends; the acceptor's descriptors; dates against the calendar;
      log lines.

    ** Fuel and bounds

    The parser's loop takes fuel: three turns suffice for a complete request
    ([HttpParse.parse_complete_request]), and for a header block in two pieces
    no fuel does, which is a property of the code.  The header loop gets as much
    fuel as there are bytes and takes two bytes a turn.  Decimal conversion gets
    one more than the binary logarithm, log-stream conversion 20 and 16 digits,
    enough for 64 bits.  [LinkedBuffer.append] gets the length of the data and
    takes a byte a turn.  Download streams get one turn more than the file has
    bytes.  A download on the wire ends after at most as many write events as
    twice the bytes of the file plus those of the header.

    ** What is not modelled

    The bodies of system calls and of the libraries; the options given to
    sockets; the browser pages.  The composed server has the
    acceptor and the pool's threads running, and in [Program] the poller is the
    sequence of events of open connections; its end, with connections open, and
    calls from threads that are not loops are not part of it.  The components
    file of the manifest lists what is left out of each part.

    ** Next

    [Program] on top of [ServerLoops], so that its events are those the pollers
    report; the start and the end of the threads of the pool. *)

From Stdlib Require Export Ascii String.
From stdpp Require Export base tactics numbers option list gmap sets strings.

#[export] Set Default Goal Selector "!".

(** ** Byte strings

    [std::string], [const char *] ranges and [std::vector<char>] are byte
    sequences.  [$"..."] is a C++ string literal: its bytes, in UTF-8. *)
Abbreviation bytes := (list ascii).

Definition s2b (s : string) : bytes := String.list_ascii_of_string s.

Declare Scope bytes_scope.
Delimit Scope bytes_scope with bytes.
Notation "$ s" := (s2b s%string) (at level 1, s at level 0, format "$ s") : bytes_scope.
#[export] Set Warnings "-notation-overridden,-clear-no-such-hyp".
Open Scope bytes_scope.

(** ** Machine integers *)

Definition wrap (w z : Z) : Z := (z mod 2 ^ w)%Z.
(** [static_cast] to a signed integer of [w] bits (two's complement). *)
Definition swrap (w z : Z) : Z :=
  let m := wrap w z in if (m <? 2 ^ (w - 1))%Z then m else (m - 2 ^ w)%Z.

Lemma wrap_bound w z : (0 <= w)%Z -> (0 <= wrap w z < 2 ^ w)%Z.
Proof. intros. apply Z.mod_pos_bound. lia. Qed.

Lemma wrap_small w z : (0 <= z < 2 ^ w)%Z -> wrap w z = z.
Proof. apply Z.mod_small. Qed.

Lemma swrap_small w z : (0 < w)%Z -> (- 2 ^ (w - 1) <= z < 2 ^ (w - 1))%Z -> swrap w z = z.
Proof.
  intros Hw Hz. unfold swrap, wrap.
  assert (2 ^ w = 2 * 2 ^ (w - 1))%Z as E.
  { rewrite <- Z.pow_succ_r by lia. f_equal. lia. }
  destruct (decide (0 <= z)%Z).
  - rewrite Z.mod_small by lia. destruct (Z.ltb_spec z (2 ^ (w - 1))); lia.
  - rewrite <- (Z.mod_unique z (2 ^ w) (-1) (z + 2 ^ w)) by lia.
    destruct (Z.ltb_spec (z + 2 ^ w) (2 ^ (w - 1))); lia.
Qed.

(** ** Lists *)

Section lists.
Context {A : Type}.
Implicit Types (l k : list A) (n m : nat).

Lemma drop_take_app l n m : n <= m -> m <= length l ->
  take n l ++ drop n (take m l) = take m l.
Proof.
  intros. rewrite <- (take_drop n (take m l)) at 2.
  rewrite take_take. by rewrite Nat.min_l by lia.
Qed.

End lists.

(** ** Tactics *)

(** Case analysis on the scrutinee of a [match] in the goal, remembering the equation. *)
Ltac split_match :=
  match goal with
  | |- context [ match ?x with _ => _ end ] => destruct x eqn:?
  end.

(** The same for a hypothesis. *)
Ltac split_match_in H :=
  match type of H with
  | context [ match ?x with _ => _ end ] => destruct x eqn:?
  end.

(** Decide a natural-number test in the goal by arithmetic. *)
Ltac nat_test :=
  match goal with
  | |- context [?a =? ?b] =>
      first [ replace (a =? b) with false by (symmetry; apply Nat.eqb_neq; lia)
            | replace (a =? b) with true by (symmetry; apply Nat.eqb_eq; lia) ]
  | |- context [?a <=? ?b] =>
      first [ replace (a <=? b) with true by (symmetry; apply Nat.leb_le; lia)
            | replace (a <=? b) with false by (symmetry; apply Nat.leb_gt; lia) ]
  | |- context [?a <? ?b] =>
      first [ replace (a <? b) with true by (symmetry; apply Nat.ltb_lt; lia)
            | replace (a <? b) with false by (symmetry; apply Nat.ltb_ge; lia) ]
  end.

Create Rewrite HintDb bytes.
#[export] Hint Rewrite @length_app @length_take @length_drop @take_drop @app_nil_r : bytes.
