(* ===== verification/CxxString.v ===== *)
(** * The C++ string and number operations the program uses

    [std::string] members ([find], [substr], [find_last_of], ...), the
    character classes of [<cctype>], [std::to_string], [std::stoi],
    [std::stoull], [atoi] and [sscanf "%x"].  A position is a [nat];
    [std::string::npos] is [None]. *)

From S2P Require Import Prelude.

(** ** Characters *)

Definition code (c : ascii) : Z := Z.of_N (N_of_ascii c).
Definition chr (z : Z) : ascii := ascii_of_N (Z.to_N (wrap 8 z)).

Definition isspace (c : ascii) : bool :=
  let z := code c in ((9 <=? z) && (z <=? 13) || (z =? 32))%Z.
Definition isdigit (c : ascii) : bool :=
  let z := code c in ((48 <=? z) && (z <=? 57))%Z.
Definition tolower (c : ascii) : ascii :=
  let z := code c in if ((65 <=? z) && (z <=? 90))%Z then chr (z + 32) else c.

Definition digit_val (c : ascii) : Z := (code c - 48)%Z.

Lemma code_bound c : (0 <= code c < 256)%Z.
Proof. unfold code. pose proof (N_ascii_bounded c). lia. Qed.

Lemma code_chr z : (0 <= z < 256)%Z -> code (chr z) = z.
Proof.
  intros. unfold code, chr. rewrite wrap_small by lia.
  rewrite N_ascii_embedding; lia.
Qed.

Lemma chr_code c : chr (code c) = c.
Proof.
  unfold chr. rewrite wrap_small by apply code_bound.
  unfold code. rewrite N2Z.id. apply ascii_N_embedding.
Qed.

Lemma code_inj c d : code c = code d -> c = d.
Proof. intros E. by rewrite <- (chr_code c), E, chr_code. Qed.

Lemma isdigit_chr d : (0 <= d <= 9)%Z -> isdigit (chr (48 + d)) = true.
Proof. intros. unfold isdigit. rewrite code_chr by lia. lia. Qed.

Lemma digit_val_chr d : (0 <= d <= 9)%Z -> digit_val (chr (48 + d)) = d.
Proof. intros. unfold digit_val. rewrite code_chr by lia. lia. Qed.

Lemma isdigit_not_space c : isdigit c = true -> isspace c = false.
Proof. unfold isdigit, isspace. lia. Qed.

(** ** Searching *)

Fixpoint prefixb (p s : bytes) : bool :=
  match p, s with
  | [], _ => true
  | c :: p', d :: s' => bool_decide (c = d) && prefixb p' s'
  | _ :: _, [] => false
  end.

(** Index of the first occurrence of [p] in [s]. *)
Fixpoint search (p s : bytes) : option nat :=
  if prefixb p s then Some 0
  else match s with
       | [] => None
       | _ :: s' => S <$> search p s'
       end.

(** [s.find(p, pos)]. *)
Definition find (p s : bytes) (pos : nat) : option nat :=
  if pos <=? length s then Nat.add pos <$> search p (drop pos s) else None.

(** [std::find(begin, end, c)] as an index; the end when absent. *)
Fixpoint find_char (c : ascii) (s : bytes) : nat :=
  match s with
  | [] => 0
  | d :: s' => if bool_decide (c = d) then 0 else S (find_char c s')
  end.

(** [s.find_last_of(c)] for one character. *)
Fixpoint find_last_of (c : ascii) (s : bytes) : option nat :=
  match s with
  | [] => None
  | d :: s' =>
      match find_last_of c s' with
      | Some i => Some (S i)
      | None => if bool_decide (c = d) then Some 0 else None
      end
  end.

(** [s.substr(pos, n)] for [pos <= s.size()]. *)
Definition substr (s : bytes) (pos n : nat) : bytes := take n (drop pos s).

Lemma prefixb_spec p s : prefixb p s = true <-> exists t, s = p ++ t.
Proof.
  revert s. induction p as [|c p IH]; intros s; simpl.
  - split; eauto.
  - destruct s as [|d s].
    + split; [done|]. intros [t Ht]. done.
    + rewrite andb_true_iff, bool_decide_eq_true, IH. split.
      * intros [-> [t ->]]. by exists t.
      * intros [t Ht]. simplify_eq/=. eauto.
Qed.

Lemma search_Some p s i :
  search p s = Some i <->
  prefixb p (drop i s) = true /\ i <= length s /\
  (forall j, j < i -> prefixb p (drop j s) = false).
Proof.
  revert i. induction s as [|c s IH]; intros i; simpl.
  - destruct (prefixb p []) eqn:E; split.
    + intros [= <-]. simpl. auto with lia.
    + intros (? & ? & ?). by replace i with 0 by lia.
    + done.
    + intros (H & ? & ?). replace i with 0 in H by lia. simpl in H. congruence.
  - destruct (prefixb p (c :: s)) eqn:E; split.
    + intros [= <-]. simpl. split; [done|]. split; [lia|]. lia.
    + intros (? & ? & H). destruct i as [|i]; [done|].
      specialize (H 0 ltac:(lia)). simpl in H. congruence.
    + rewrite fmap_Some. intros (k & (Hk & ? & Hj)%IH & ->). simpl.
      split; [done|]. split; [lia|].
      intros [|j] ?; simpl; [done|]. apply Hj. lia.
    + intros (H & ? & Hj). destruct i as [|i]; simpl in H; [congruence|].
      apply fmap_Some. exists i. split; [|done]. apply IH.
      split; [done|]. split; [lia|]. intros j ?. apply (Hj (S j)). lia.
Qed.

Lemma search_None p s :
  search p s = None <-> (forall j, j <= length s -> prefixb p (drop j s) = false).
Proof.
  induction s as [|c s IH]; simpl.
  - destruct (prefixb p []) eqn:E; split; try done.
    + intros H. specialize (H 0 ltac:(lia)). simpl in H. congruence.
    + intros _ j ?. by replace j with 0 by lia.
  - destruct (prefixb p (c :: s)) eqn:E; split; try done.
    + intros H. specialize (H 0 ltac:(lia)). simpl in H. congruence.
    + rewrite fmap_None, IH. intros H [|j] ?; simpl; [done|]. apply H. lia.
    + intros H. rewrite fmap_None. apply IH. intros j ?. apply (H (S j)). lia.
Qed.

(** What [find] finds: an occurrence at or after [pos], and the first one. *)
Lemma find_Some p s pos i :
  find p s pos = Some i <->
  (exists t, drop i s = p ++ t) /\ pos <= i <= length s /\
  (forall j, pos <= j < i -> prefixb p (drop j s) = false).
Proof.
  unfold find. destruct (Nat.leb_spec pos (length s)).
  - rewrite fmap_Some. split.
    + intros (k & (Hp & Hk & Hj)%search_Some & ->).
      rewrite drop_drop in Hp. rewrite length_drop in Hk.
      split; [by apply prefixb_spec|]. split; [lia|].
      intros j ?. specialize (Hj (j - pos) ltac:(lia)).
      rewrite drop_drop in Hj. by replace (pos + (j - pos)) with j in Hj by lia.
    + intros (Hp & ? & Hj). exists (i - pos). split; [|lia].
      apply search_Some. rewrite drop_drop, length_drop.
      replace (pos + (i - pos)) with i by lia.
      split; [by apply prefixb_spec|]. split; [lia|].
      intros j ?. rewrite drop_drop. apply Hj. lia.
  - split; [done|]. intros (_ & ? & _). lia.
Qed.

Lemma find_None p s pos :
  find p s pos = None <->
  (forall j, pos <= j <= length s -> prefixb p (drop j s) = false).
Proof.
  unfold find. destruct (Nat.leb_spec pos (length s)).
  - rewrite fmap_None, search_None, length_drop. split.
    + intros H' j ?. specialize (H' (j - pos) ltac:(lia)).
      rewrite drop_drop in H'. by replace (pos + (j - pos)) with j in H' by lia.
    + intros H' j ?. rewrite drop_drop. apply H'. lia.
  - split; [|done]. intros _ j ?. lia.
Qed.

Lemma find_bound p s pos i : find p s pos = Some i -> i + length p <= length s.
Proof.
  intros ((t & Ht) & ? & _)%find_Some.
  apply (f_equal length) in Ht. rewrite length_drop, length_app in Ht. lia.
Qed.

(** The text up to the occurrence, the occurrence, and what follows it. *)
Lemma find_split p s pos i :
  find p s pos = Some i -> s = take i s ++ p ++ drop (i + length p) s.
Proof.
  intros H. pose proof H as ((t & Ht) & ? & _)%find_Some.
  rewrite <- (take_drop i s) at 1. f_equal.
  rewrite Nat.add_comm, <- drop_drop, drop_drop, Nat.add_comm, <- drop_drop, Ht.
  by rewrite drop_app_length.
Qed.

(** The first occurrence in a string is the first one in any extension of it. *)
Lemma find_first p pre post :
  find p (pre ++ p) 0 = Some (length pre) -> find p (pre ++ p ++ post) 0 = Some (length pre).
Proof.
  intros (_ & _ & Hj)%find_Some. apply find_Some. split; [|split].
  - exists post. by rewrite drop_app_length.
  - rewrite !length_app. lia.
  - intros j Hlt. apply not_true_is_false. intros [t Ht]%prefixb_spec.
    specialize (Hj j Hlt). rewrite (proj2 (prefixb_spec _ _)) in Hj; [done|].
    exists (take (length pre - j) t).
    rewrite drop_app_le in Ht |- * by lia.
    apply (f_equal (take (length (drop j pre) + length p))) in Ht.
    rewrite take_app_add, take_app_length, Nat.add_comm, take_app_add, length_drop in Ht. exact Ht.
Qed.

Lemma find_from_0 p s : find p s 0 = search p s.
Proof. unfold find. cbn [Nat.leb]. rewrite drop_0. by destruct (search p s). Qed.

Lemma find_extended p s t i : find p s 0 = Some i -> find p (s ++ t) 0 = Some i.
Proof.
  intros H. pose proof (find_bound _ _ _ _ H) as Hb. apply find_Some in H as ((u & Hu) & Hle & Hj).
  apply find_Some. split; [|split].
  - exists (u ++ t). rewrite drop_app_le by lia. by rewrite Hu, app_assoc.
  - rewrite length_app. lia.
  - intros j Hlt. specialize (Hj j Hlt). apply not_true_is_false. intros [v Hv]%prefixb_spec.
    rewrite (proj2 (prefixb_spec _ _)) in Hj; [done|].
    rewrite drop_app_le in Hv by lia.
    destruct (app_eq_inv _ _ _ _ Hv) as [(k & Es & _)|(k & Ep & _)]; [by exists k|].
    exists []. rewrite app_nil_r. pose proof (f_equal length Ep) as El.
    rewrite length_app, length_drop in El. destruct k; [by rewrite app_nil_r in Ep|simpl in El; lia].
Qed.

Lemma find_char_le c s : find_char c s <= length s.
Proof. induction s as [|d s IH]; simpl; [lia|]. case_bool_decide; simpl; lia. Qed.

Lemma find_char_absent c s : find_char c s = length s <-> c ∉ s.
Proof.
  induction s as [|d s IH]; simpl; [split; [intros _; apply not_elem_of_nil|done]|].
  case_bool_decide as E; [subst; split; [done|]; intros []; left|].
  rewrite not_elem_of_cons. split.
  - intros [= ?]. split; [done|]. by apply IH.
  - intros [_ ?]. f_equal. by apply IH.
Qed.

Lemma find_char_app c s t : c ∉ s -> find_char c (s ++ c :: t) = length s.
Proof.
  induction s as [|d s IH]; simpl; intros Hn.
  - by rewrite bool_decide_true.
  - apply not_elem_of_cons in Hn as [? ?].
    rewrite bool_decide_false by done. by rewrite IH.
Qed.

(** ** Decimal numbers *)

(** Decimal digits of [n >= 0], most significant first, in front of [acc]. *)
Fixpoint udigits (fuel : nat) (n : Z) (acc : bytes) : bytes :=
  match fuel with
  | O => acc
  | S fuel' =>
      let acc' := chr (48 + n mod 10) :: acc in
      if (n <? 10)%Z then acc' else udigits fuel' (n / 10) acc'
  end.

(** [std::to_string]. *)
Definition to_string (z : Z) : bytes :=
  let u := udigits (S (Z.to_nat (Z.log2 (Z.abs z)))) (Z.abs z) [] in
  if (z <? 0)%Z then $"-" ++ u else u.

(** The longest digit prefix of [s], its value continuing [acc], and the rest. *)
Fixpoint scan_digits (acc : Z) (s : bytes) : Z * bytes :=
  match s with
  | c :: s' =>
      if isdigit c then scan_digits (acc * 10 + digit_val c) s' else (acc, s)
  | [] => (acc, [])
  end.

Fixpoint skip_spaces (s : bytes) : bytes :=
  match s with
  | c :: s' => if isspace c then skip_spaces s' else s
  | [] => []
  end.

(** The subject sequence of [strtol]/[strtoull] in base 10: white space, an
    optional sign, digits.  [None] when there is no digit. *)
Definition strtoz (s : bytes) : option (bool * Z) :=
  let s1 := skip_spaces s in
  let '(neg, s2) :=
    match s1 with
    | c :: s' =>
        if bool_decide (c = "-"%char) then (true, s')
        else if bool_decide (c = "+"%char) then (false, s') else (false, s1)
    | [] => (false, [])
    end in
  match s2 with
  | c :: _ => if isdigit c then Some (neg, fst (scan_digits 0 s2)) else None
  | [] => None
  end.

(** [std::stoi]: the value, or the exception's [what()]. *)
Definition stoi (s : bytes) : bytes + Z :=
  match strtoz s with
  | None => inl ($"stoi")
  | Some (neg, v) =>
      let z := if neg then (- v)%Z else v in
      if ((- 2 ^ 31 <=? z) && (z <? 2 ^ 31))%Z then inr z else inl ($"stoi")
  end.

(** [std::stoull]: a negative number is negated in the unsigned type. *)
Definition stoull (s : bytes) : bytes + Z :=
  match strtoz s with
  | None => inl ($"stoull")
  | Some (neg, v) =>
      if (v <? 2 ^ 64)%Z then inr (if neg then wrap 64 (- v) else v)
      else inl ($"stoull")
  end.

(** [atoi], as glibc computes it: [(int) strtol(s)], with [strtol] saturating. *)
Definition atoi (s : bytes) : Z :=
  match strtoz s with
  | None => 0
  | Some (neg, v) =>
      let z := if neg then (- v)%Z else v in
      swrap 32 (Z.max (- 2 ^ 63) (Z.min (2 ^ 63 - 1) z))
  end.

(** What the scan of [atoi] leaves of the memory [s]: it stops at the first
    character that belongs to no number, or at the end of [s]. *)
Definition atoi_rest (s : bytes) : bytes :=
  let s1 := skip_spaces s in
  let s2 := match s1 with
            | c :: s' => if bool_decide (c = "-"%char) || bool_decide (c = "+"%char) then s' else s1
            | [] => []
            end in
  snd (scan_digits 0 s2).

(** [s.c_str()] as a C string. *)
Definition c_str (s : bytes) : bytes := take (find_char (chr 0) s) s.

(** [strcasecmp(a.c_str(), b) == 0]. *)
Definition strcaseeq (a b : bytes) : bool := bool_decide (map tolower (c_str a) = map tolower (c_str b)).

Lemma find_char_split c s :
  find_char c s <> length s -> s = take (find_char c s) s ++ c :: drop (S (find_char c s)) s.
Proof.
  induction s as [|d s IH]; [done|]. cbn [find_char]. case_bool_decide as E; [by subst|].
  cbn [length take drop app]. intros Hn. f_equal. apply IH. lia.
Qed.

Lemma skip_spaces_split s : exists sp, s = sp ++ skip_spaces s /\ Forall (fun c => isspace c = true) sp.
Proof.
  induction s as [|c s (sp & E & Hs)]; [by exists []|]. cbn [skip_spaces].
  destruct (isspace c) eqn:Ec; [|by exists []]. exists (c :: sp). cbn. rewrite <- E. split; [done|by constructor].
Qed.

Lemma skip_spaces_head s c s' : skip_spaces s = c :: s' -> isspace c = false.
Proof.
  induction s as [|d s IH]; [done|]. cbn [skip_spaces]. destruct (isspace d) eqn:E; [apply IH|].
  by intros [= -> ->].
Qed.

Lemma scan_digits_stops acc s c t : isdigit c = false -> snd (scan_digits acc (s ++ c :: t)) <> [].
Proof.
  intros Hc. revert acc. induction s as [|d s IH]; intros acc; cbn [app scan_digits]; [by rewrite Hc|].
  destruct (isdigit d); [apply IH|done].
Qed.

(** The scan stops inside the memory when a value comes before a character
    that is not a digit. *)
Lemma atoi_rest_stops d v c t :
  isspace d = false -> isdigit c = false -> atoi_rest ((d :: v) ++ c :: t) <> [].
Proof.
  intros Hd Hc. unfold atoi_rest. cbn [app skip_spaces]. rewrite Hd.
  destruct (_ || _)%bool; [by apply scan_digits_stops|].
  rewrite app_comm_cons. by apply scan_digits_stops.
Qed.

Lemma scan_digits_app acc s t :
  Forall (fun c => isdigit c = true) s ->
  scan_digits acc (s ++ t) = scan_digits (fst (scan_digits acc s)) t.
Proof.
  revert acc. induction s as [|c s IH]; intros acc H; [done|].
  apply Forall_cons in H as [Hc Hs]. simpl. rewrite Hc. by apply IH.
Qed.

Lemma udigits_app fuel n acc : udigits fuel n acc = udigits fuel n [] ++ acc.
Proof.
  revert n acc. induction fuel as [|f IH]; intros n acc; [done|]. cbn [udigits].
  destruct (n <? 10)%Z; [done|].
  rewrite IH, (IH _ [_]), <- app_assoc. done.
Qed.

Lemma udigits_digits fuel n : Forall (fun c => isdigit c = true) (udigits fuel n []).
Proof.
  revert n. induction fuel as [|f IH]; intros n; [by constructor|]. cbn [udigits].
  pose proof (Z.mod_pos_bound n 10 ltac:(lia)).
  assert (isdigit (chr (48 + n mod 10)) = true) by (apply isdigit_chr; lia).
  destruct (n <? 10)%Z; [by repeat constructor|].
  rewrite udigits_app. apply Forall_app. split; [done|by repeat constructor].
Qed.

Lemma udigits_nonempty fuel n : udigits (S fuel) n [] <> [].
Proof.
  cbn [udigits]. destruct (n <? 10)%Z; [done|]. rewrite udigits_app.
  intros [_ ?]%app_eq_nil. done.
Qed.

Lemma scan_udigits fuel n :
  (0 <= n < 10 ^ Z.of_nat fuel)%Z -> fst (scan_digits 0 (udigits fuel n [])) = n.
Proof.
  revert n. induction fuel as [|f IH]; intros n Hn; [simpl in *; lia|].
  cbn [udigits]. pose proof (Z.mod_pos_bound n 10 ltac:(lia)).
  assert (isdigit (chr (48 + n mod 10)) = true) as Hd by (apply isdigit_chr; lia).
  destruct (Z.ltb_spec n 10).
  - cbn [scan_digits]. rewrite Hd. cbn [fst scan_digits].
    rewrite digit_val_chr by lia. rewrite Z.mod_small; lia.
  - rewrite udigits_app, scan_digits_app by apply udigits_digits.
    rewrite IH; cycle 1.
    { rewrite Nat2Z.inj_succ, Z.pow_succ_r in Hn by lia.
      split; [apply Z.div_pos; lia|apply Z.div_lt_upper_bound; lia]. }
    cbn [scan_digits]. rewrite Hd. cbn [fst scan_digits].
    rewrite digit_val_chr by lia. pose proof (Z.div_mod n 10 ltac:(lia)). lia.
Qed.

Lemma log2_fuel z : (0 <= z)%Z -> (0 <= z < 10 ^ Z.of_nat (S (Z.to_nat (Z.log2 z))))%Z.
Proof.
  intros. split; [done|]. rewrite Nat2Z.inj_succ, Z2Nat.id by apply Z.log2_nonneg.
  destruct (decide (z = 0%Z)) as [->|]; [done|].
  pose proof (Z.log2_spec z ltac:(lia)) as [_ ?]. pose proof (Z.log2_nonneg z).
  eapply Z.lt_le_trans; [done|]. apply Z.pow_le_mono_l. lia.
Qed.

Lemma strtoz_udigits fuel n s c t :
  udigits fuel n [] = c :: t -> s = udigits fuel n [] -> isdigit c = true ->
  (0 <= n < 10 ^ Z.of_nat fuel)%Z -> strtoz s = Some (false, n).
Proof.
  intros Hu -> Hc Hn. unfold strtoz. rewrite Hu. cbn [skip_spaces].
  rewrite isdigit_not_space by done.
  rewrite !bool_decide_false by (intros ->; done).
  cbv beta iota. rewrite Hc, <- Hu. by rewrite scan_udigits.
Qed.

Lemma strtoz_to_string z : strtoz (to_string z) = Some ((z <? 0)%Z, Z.abs z).
Proof.
  unfold to_string. set (fuel := S _).
  pose proof (log2_fuel (Z.abs z) ltac:(lia)) as Hf. fold fuel in Hf.
  destruct (udigits fuel (Z.abs z) []) as [|c t] eqn:E;
    [by apply udigits_nonempty in E|].
  assert (isdigit c = true) as Hc.
  { pose proof (udigits_digits fuel (Z.abs z)) as H. rewrite E in H.
    by apply Forall_cons in H as [? _]. }
  destruct (Z.ltb_spec z 0).
  - unfold strtoz. change ($"-" ++ c :: t) with ("-"%char :: c :: t).
    cbn [skip_spaces]. change (isspace "-") with false. cbv beta iota.
    rewrite bool_decide_true by done. rewrite Hc, <- E. by rewrite scan_udigits.
  - by eapply strtoz_udigits.
Qed.

(** [std::stoi] inverts [std::to_string] on [int]. *)
Lemma stoi_to_string z : (- 2 ^ 31 <= z < 2 ^ 31)%Z -> stoi (to_string z) = inr z.
Proof.
  intros. unfold stoi. rewrite strtoz_to_string.
  destruct (Z.ltb_spec z 0); simpl.
  - rewrite Z.abs_neq, Z.opp_involutive by lia.
    destruct (_ && _) eqn:E; [done|]. lia.
  - rewrite Z.abs_eq by lia. destruct (_ && _) eqn:E; [done|]. lia.
Qed.

Lemma stoull_to_string z : (0 <= z < 2 ^ 64)%Z -> stoull (to_string z) = inr z.
Proof.
  intros. unfold stoull. rewrite strtoz_to_string, Z.abs_eq by lia.
  destruct (Z.ltb_spec z 0); [lia|]. destruct (Z.ltb_spec z (2 ^ 64)); [done|lia].
Qed.

(** ** [sscanf("%x")] on the two characters after a percent sign *)

Definition hex_val (c : ascii) : option Z :=
  let z := code c in
  if ((48 <=? z) && (z <=? 57))%Z then Some (z - 48)%Z
  else if ((65 <=? z) && (z <=? 70))%Z then Some (z - 55)%Z
  else if ((97 <=? z) && (z <=? 102))%Z then Some (z - 87)%Z else None.

Fixpoint scan_hexdigits (acc : Z) (s : bytes) : Z :=
  match s with
  | c :: s' =>
      match hex_val c with
      | Some d => scan_hexdigits (acc * 16 + d) s'
      | None => acc
      end
  | [] => acc
  end.

(** The converted value; [None] is a matching or input failure, which leaves
    the target variable as it was.  A lone ["0x"] is a matching failure. *)
Definition sscanf_x (s : bytes) : option Z :=
  let s1 := skip_spaces s in
  let '(neg, s2) :=
    match s1 with
    | c :: s' =>
        if bool_decide (c = "-"%char) then (true, s')
        else if bool_decide (c = "+"%char) then (false, s') else (false, s1)
    | [] => (false, [])
    end in
  match s2 with
  | c :: s' =>
      match hex_val c with
      | None => None
      | Some _ =>
          match s' with
          | x :: _ =>
              if (code c =? 48)%Z && bool_decide (tolower x = "x"%char) then None
              else Some (if neg then (- scan_hexdigits 0 s2)%Z else scan_hexdigits 0 s2)
          | [] => Some (if neg then (- scan_hexdigits 0 s2)%Z else scan_hexdigits 0 s2)
          end
      end
  | [] => None
  end.

(** * [snprintf] and the fixed-size buffers it fills

    The conversions the program uses: [%d] with a minimal width, padded with
    zeros or spaces, and the cut of the output at the size of the buffer. *)

(** [%0<w>d] ([zero = true]) and [%<w>d]: the sign counts for the width and
    stands before padding zeros, after padding spaces. *)
Definition fmt_d (zero : bool) (w : nat) (z : Z) : bytes :=
  let s := to_string z in
  if zero then
    let d := to_string (Z.abs z) in
    if (z <? 0)%Z then $"-" ++ replicate (w - 1 - length d) "0"%char ++ d
    else replicate (w - length d) "0"%char ++ d
  else replicate (w - length s) " "%char ++ s.

(** The string that [snprintf(buf, size, ...)] leaves in [buf]. *)
Definition snprintf (size : nat) (text : bytes) : bytes := take (size - 1) text.

(** ** Lengths *)

Lemma udigits_length fuel n d :
  (0 <= n < 10 ^ Z.of_nat (S d))%Z -> length (udigits fuel n []) <= S d.
Proof.
  revert n d. induction fuel as [|f IH]; intros n d Hn; simpl; [lia|].
  destruct (Z.ltb_spec n 10); [simpl; lia|].
  rewrite udigits_app, length_app. simpl. destruct d as [|d].
  - replace (10 ^ Z.of_nat 1)%Z with 10%Z in Hn by done. lia.
  - enough (length (udigits f (n / 10) []) <= S d) by lia. apply IH.
    rewrite (Nat2Z.inj_succ (S d)), Z.pow_succ_r in Hn by lia.
    split; [apply Z.div_pos; lia|apply Z.div_lt_upper_bound; lia].
Qed.

Lemma to_string_length z d :
  (- 10 ^ Z.of_nat (S d) < z < 10 ^ Z.of_nat (S d))%Z ->
  length (to_string z) <= S d + (if (z <? 0)%Z then 1 else 0).
Proof.
  intros Hz. unfold to_string.
  pose proof (udigits_length (S (Z.to_nat (Z.log2 (Z.abs z)))) (Z.abs z) d ltac:(lia)).
  destruct (z <? 0)%Z; simpl in *; lia.
Qed.

(** 64-bit integers need at most 20 characters. *)
Lemma to_string_64 z : (- 2 ^ 63 <= z < 2 ^ 64)%Z -> length (to_string z) <= 20.
Proof.
  intros. destruct (Z.ltb_spec z 0) as [Hn|Hn].
  - pose proof (to_string_length z 18 ltac:(simpl in *; lia)) as Hl.
    destruct (Z.ltb_spec z 0); lia.
  - pose proof (to_string_length z 19 ltac:(simpl in *; lia)) as Hl.
    destruct (Z.ltb_spec z 0); lia.
Qed.

Lemma snprintf_fits size text : length text < size -> snprintf size text = text.
Proof. intros. apply take_ge. lia. Qed.

Lemma snprintf_length size text : 0 < size -> length (snprintf size text) < size.
Proof. intros. unfold snprintf. rewrite length_take. lia. Qed.
