(* ===== verification/Calendar.v ===== *)
(** * The Gregorian calendar

    What the C library and the program's date class are measured against:
    month lengths, valid dates, the day after a date, and [gmtime_r]. *)

From S2P Require Import Prelude.

Local Open Scope Z_scope.

Record civil := Civil { c_year : Z; c_month : Z; c_day : Z }.

#[global] Instance civil_eq_dec : EqDecision civil.
Proof. solve_decision. Defined.

Definition leap (y : Z) : bool :=
  (y mod 4 =? 0) && (negb (y mod 100 =? 0) || (y mod 400 =? 0)).

Definition month_days (y m : Z) : Z :=
  if m =? 2 then if leap y then 29 else 28
  else if (m =? 4) || (m =? 6) || (m =? 9) || (m =? 11) then 30 else 31.

Definition valid_date (d : civil) : Prop :=
  1 <= c_month d <= 12 /\ 1 <= c_day d <= month_days (c_year d) (c_month d).

#[global] Instance valid_date_dec d : Decision (valid_date d).
Proof. unfold valid_date. apply _. Defined.

(** The calendar's own rule for the day after. *)
Definition next_day (d : civil) : civil :=
  let '(Civil y m dd) := d in
  if dd <? month_days y m then Civil y m (dd + 1)
  else if m <? 12 then Civil y (m + 1) 1
  else Civil (y + 1) 1 1.

Lemma next_day_valid d : valid_date d -> valid_date (next_day d).
Proof.
  destruct d as [y m dd]. unfold valid_date, next_day. cbn. intros [? ?].
  destruct (Z.ltb_spec dd (month_days y m)); cbn; [lia|].
  destruct (Z.ltb_spec m 12); cbn; split; try lia;
    unfold month_days; repeat case_match; lia.
Qed.

(** ** Days since 0000-03-01

    A year that starts in March ends with its leap day, so the days before a
    month do not depend on the year. *)
Definition march_year (d : civil) : Z := if c_month d <=? 2 then c_year d - 1 else c_year d.
Definition march_month (d : civil) : Z := (c_month d + 9) mod 12.

Definition day_number (d : civil) : Z :=
  let y := march_year d in
  365 * y + y / 4 - y / 100 + y / 400 + (153 * march_month d + 2) / 5 + c_day d - 1.

(** The day of the week, 0 for Sunday: 1970-01-01, day 719468, was a Thursday. *)
Definition weekday (d : civil) : Z := (day_number d + 3) mod 7.

(** The date of a day number. *)
Definition civil_of_day (n : Z) : civil :=
  let era := n / 146097 in
  let doe := n mod 146097 in
  let yoe := (doe - doe / 1460 + doe / 36524 - doe / 146096) / 365 in
  let doy := doe - (365 * yoe + yoe / 4 - yoe / 100) in
  let mp := (5 * doy + 2) / 153 in
  let m := if mp <? 10 then mp + 3 else mp - 9 in
  Civil (yoe + era * 400 + (if m <=? 2 then 1 else 0)) m (doy - (153 * mp + 2) / 5 + 1).

(** [gmtime_r]: the broken-down time of a number of seconds since 1970. *)
Record tm := Tm { tm_date : civil; tm_hour : Z; tm_min : Z; tm_sec : Z }.

Definition gmtime (t : Z) : tm :=
  let s := t mod 86400 in
  Tm (civil_of_day (719468 + t / 86400)) (s / 3600) (s mod 3600 / 60) (s mod 60).

Lemma leap_spec y :
  leap y = true <-> y mod 4 = 0 /\ (y mod 100 <> 0 \/ y mod 400 = 0).
Proof. unfold leap. lia. Qed.

Lemma month_days_bound y m : 28 <= month_days y m <= 31.
Proof. unfold month_days. repeat case_match; lia. Qed.

(** One case per month. *)
Ltac by_month m H :=
  let K := fresh in
  assert (m = 1 \/ m = 2 \/ m = 3 \/ m = 4 \/ m = 5 \/ m = 6 \/ m = 7 \/ m = 8 \/
          m = 9 \/ m = 10 \/ m = 11 \/ m = 12) as K by (clear - H; lia);
  repeat destruct K as [K|K]; subst m.

Lemma leap_year_step y :
  365 * y + y / 4 - y / 100 + y / 400 -
  (365 * (y - 1) + (y - 1) / 4 - (y - 1) / 100 + (y - 1) / 400) =
  if leap y then 366 else 365.
Proof.
  destruct (leap y) eqn:E; [apply leap_spec in E|apply not_true_iff_false in E; rewrite leap_spec in E];
    Z.div_mod_to_equations; lia.
Qed.

(** Evaluate the comparisons between literals in the goal. *)
Ltac eval_tests :=
  repeat match goal with
  | |- context [Z.leb ?a ?b] =>
      let v := eval vm_compute in (Z.leb a b) in
      first [constr_eq v true | constr_eq v false]; change (Z.leb a b) with v; cbv iota
  end.

(** The numbering counts days: it moves by one to the next day. *)
Lemma day_number_next d : valid_date d -> day_number (next_day d) = day_number d + 1.
Proof.
  destruct d as [y m dd]. unfold valid_date, next_day. cbn. intros [Hm Hd].
  destruct (Z.ltb_spec dd (month_days y m)) as [|Hlast];
    [unfold day_number, march_year, march_month; cbn; lia|].
  assert (dd = month_days y m) as -> by lia. clear Hd Hlast.
  pose proof (leap_year_step y) as Hy.
  by_month m Hm; unfold day_number, march_year, march_month, month_days; cbn -[Z.add Z.mul Z.div Z.modulo];
    eval_tests; destruct (leap y); Z.div_mod_to_equations; lia.
Qed.
