(* ===== verification/Date.v ===== *)
(** * [Date] (inc/utils/date/Date.hpp, src/utils/date/Date.cpp)

    A date is its Julian day number, an unsigned 64-bit integer.  C++ division
    truncates towards zero: [Z.quot] and [Z.rem]. *)

From S2P Require Import Prelude CxxString Calendar.

Module Date.
Local Open Scope Z_scope.

Record YearMonthDay := YMD { day : Z; month : Z; year : Z }.

(** [year] is 16 bits wide, [month] and [day] 8 bits; the result is 64 bits. *)
Definition getJulianDayNumber (year month day : Z) : Z :=
  let a := Z.quot (14 - month) 12 in
  let y := year + 4800 - a in
  let m := month + 12 * a - 3 in
  day + Z.quot (153 * m + 2) 5 + y * 365 + Z.quot y 4 - Z.quot y 100 + Z.quot y 400 - 32045.

Definition getYearMonthDay (julianDayNumber : Z) : YearMonthDay :=
  let a := julianDayNumber + 32044 in
  let b := Z.quot (4 * a + 3) 146097 in
  let c := a - Z.quot (146097 * b) 4 in
  let d := Z.quot (4 * c + 3) 1461 in
  let e := c - Z.quot (1461 * d) 4 in
  let m := Z.quot (5 * e + 2) 153 in
  YMD (swrap 8 (e - Z.quot (153 * m + 2) 5 + 1))
      (swrap 8 (m + 3 - 12 * Z.quot m 10))
      (swrap 16 (100 * b + d - 4800 + Z.quot m 10)).

(** The member [julianDayNumber_]. *)
Definition t : Type := Z.

Definition default : t := 0.
(** [Date(uint32_t)]. *)
Definition of_number (n : Z) : t := wrap 32 n.
(** [Date(const struct tm &)]: the arguments are cut to the widths of the
    parameters of [getJulianDayNumber]. *)
Definition of_tm (tm_year tm_mon tm_mday : Z) : t :=
  wrap 64 (getJulianDayNumber (swrap 16 (tm_year + 1900)) (swrap 8 (tm_mon + 1)) (swrap 8 tm_mday)).

(** The signed value of the member. *)
Definition julianDayNumber (d : t) : Z := swrap 64 d.
Definition yearMonthDay (d : t) : YearMonthDay := getYearMonthDay (julianDayNumber d).
Definition year_of (d : t) : Z := year (yearMonthDay d).
Definition month_of (d : t) : Z := month (yearMonthDay d).
Definition day_of (d : t) : Z := day (yearMonthDay d).

(** The member is unsigned, and so are the sum and the remainder. *)
Definition weekOfDay (d : t) : Z := swrap 8 (wrap 64 (d + 4) mod 7).

Definition toString (d : t) : bytes :=
  let ymd := yearMonthDay d in
  snprintf 32 (fmt_d false 4 (year ymd) ++ $"-" ++ fmt_d true 2 (month ymd) ++ $"-" ++
               fmt_d true 2 (day ymd)).

Definition ltb (a b : t) : bool := julianDayNumber a <? julianDayNumber b.
Definition eqb (a b : t) : bool := julianDayNumber a =? julianDayNumber b.

(** ** The day number and the calendar *)

(** The dates the class can represent. *)
Definition in_range (d : civil) : Prop := -4800 < c_year d <= 32767.

Definition of_civil (d : civil) : t := of_tm (c_year d - 1900) (c_month d - 1) (c_day d).

Definition civil_of (ymd : YearMonthDay) : civil := Civil (year ymd) (month ymd) (day ymd).

(** The day number counts days from a fixed one. *)
Lemma jdn_day_number d : valid_date d -> in_range d ->
  getJulianDayNumber (c_year d) (c_month d) (c_day d) = day_number d + 1721120.
Proof.
  destruct d as [y m dd]. unfold valid_date, in_range, getJulianDayNumber, day_number, march_year,
    march_month. cbn [c_year c_month c_day]. intros [Hm Hd] Hy. clear Hd.
  by_month m Hm; eval_tests; cbn -[Z.add Z.mul Z.div Z.modulo Z.quot Z.sub];
    Z.to_euclidean_division_equations; lia.
Qed.

(** The steps of [getYearMonthDay] on a year [y] that starts in March, counted
    from -4800, and the day [e] of that year. *)
Section steps.
Context (y e : Z) (Hy : 0 <= y) (He : 0 <= e <= 365)
  (Hleap : e = 365 -> leap (y + 1) = true).
Let a := 365 * y + y / 4 - y / 100 + y / 400 + e.

Lemma century_step : (4 * a + 3) / 146097 = y / 100.
Proof.
  rewrite leap_spec in Hleap. subst a. symmetry.
  apply Z.div_unique with (r := 4 * (365 * y + y / 4 - y / 100 + y / 400 + e) + 3 - 146097 * (y / 100));
    [left|ring]. Z.div_mod_to_equations. lia.
Qed.

Lemma year_step : let c := a - 146097 * (y / 100) / 4 in (4 * c + 3) / 1461 = y mod 100.
Proof.
  cbv zeta. rewrite leap_spec in Hleap. subst a. symmetry.
  apply Z.div_unique with (r := 4 * (365 * y + y / 4 - y / 100 + y / 400 + e - 146097 * (y / 100) / 4) + 3
                                - 1461 * (y mod 100)); [left|ring].
  Z.div_mod_to_equations. lia.
Qed.

Lemma day_step : a - 146097 * (y / 100) / 4 - 1461 * (y mod 100) / 4 = e.
Proof. subst a. Z.div_mod_to_equations. lia. Qed.
End steps.

(** The day of the March year of a valid date. *)
Definition day_of_year (d : civil) : Z := (153 * march_month d + 2) / 5 + c_day d - 1.

Lemma day_of_year_bound d : valid_date d ->
  0 <= day_of_year d <= 365 /\ (day_of_year d = 365 -> leap (march_year d + 1) = true).
Proof.
  destruct d as [y m dd]. unfold valid_date, day_of_year, march_year, march_month, month_days.
  cbn [c_year c_month c_day]. intros [Hm Hd]. revert Hd.
  by_month m Hm; cbn -[Z.add Z.mul Z.div Z.modulo Z.sub]; eval_tests; intros Hd;
    try (split; [|intros]; Z.div_mod_to_equations; lia).
  replace (y - 1 + 1) with y by lia. destruct (leap y); split; try done; Z.div_mod_to_equations; lia.
Qed.

(** The month and the day of the month, from the day of the year. *)
Lemma month_step d : valid_date d ->
  let e := day_of_year d in let m := (5 * e + 2) / 153 in
  m = march_month d /\ e - (153 * m + 2) / 5 + 1 = c_day d /\
  m + 3 - 12 * (m / 10) = c_month d /\ march_year d + m / 10 = c_year d.
Proof.
  destruct d as [y m dd]. unfold valid_date, day_of_year, march_year, march_month, month_days.
  cbn [c_year c_month c_day]. intros [Hm Hd]. revert Hd.
  by_month m Hm; cbn -[Z.add Z.mul Z.div Z.modulo Z.sub]; eval_tests; intros Hd;
    try destruct (leap y); repeat split; Z.div_mod_to_equations; lia.
Qed.

Lemma getYearMonthDay_inverse d : valid_date d -> in_range d ->
  getYearMonthDay (getJulianDayNumber (c_year d) (c_month d) (c_day d)) =
  YMD (c_day d) (c_month d) (c_year d).
Proof.
  intros Hv Hr. rewrite jdn_day_number by done. unfold getYearMonthDay.
  pose proof (day_of_year_bound d Hv) as [He Hleap].
  pose proof (month_step d Hv) as (_ & Hd & Hm & Hy).
  assert (0 <= march_year d + 4800) as Hpos.
  { unfold march_year, in_range in *. case_match; lia. }
  assert (leap (march_year d + 1) = leap (march_year d + 4800 + 1)) as Hl4.
  { apply eq_true_iff_eq. rewrite !leap_spec. Z.div_mod_to_equations. lia. }
  rewrite Hl4 in Hleap.
  pose proof (century_step (march_year d + 4800) (day_of_year d) He Hleap) as Hb.
  pose proof (year_step (march_year d + 4800) (day_of_year d) He Hleap) as Hd'.
  pose proof (day_step (march_year d + 4800) (day_of_year d)) as He'.
  set (y := march_year d + 4800) in *.
  replace (day_number d + 1721120 + 32044)
    with (365 * y + y / 4 - y / 100 + y / 400 + day_of_year d)
    by (unfold day_number, day_of_year, y; cbv zeta; Z.div_mod_to_equations; lia).
  set (a := 365 * y + y / 4 - y / 100 + y / 400 + day_of_year d) in *.
  assert (0 <= a) by (subst a; Z.div_mod_to_equations; lia).
  assert (0 <= y / 100 /\ 0 <= y mod 100 < 100) by (Z.div_mod_to_equations; lia).
  assert (0 <= a - 146097 * (y / 100) / 4) by (Z.div_mod_to_equations; lia).
  rewrite (Z.quot_div_nonneg (4 * a + 3)), Hb by lia.
  rewrite (Z.quot_div_nonneg (146097 * _)) by lia.
  rewrite (Z.quot_div_nonneg (4 * _ + 3)), Hd' by lia.
  rewrite (Z.quot_div_nonneg (1461 * _)), He' by lia.
  set (e := day_of_year d) in *. set (mm := (5 * e + 2) / 153) in *.
  assert (0 <= mm) by (subst mm; Z.div_mod_to_equations; lia).
  rewrite !(Z.quot_div_nonneg (5 * e + 2)) by lia. fold mm.
  rewrite (Z.quot_div_nonneg (153 * mm + 2)), (Z.quot_div_nonneg mm) by lia.
  rewrite Hd, Hm. replace (100 * (y / 100) + y mod 100 - 4800 + mm / 10) with (c_year d)
    by (pose proof (Z.div_mod y 100); lia).
  destruct Hv as [? ?]. pose proof (month_days_bound (c_year d) (c_month d)).
  unfold in_range in *. rewrite !swrap_small; try done; lia.
Qed.

Lemma julianDayNumber_of_civil d : valid_date d -> in_range d ->
  julianDayNumber (of_civil d) = day_number d + 1721120 /\ of_civil d = wrap 64 (day_number d + 1721120).
Proof.
  intros Hv Hr. pose proof Hv as [? ?]. pose proof (month_days_bound (c_year d) (c_month d)).
  unfold julianDayNumber, of_civil, of_tm. unfold in_range in Hr.
  replace (c_year d - 1900 + 1900) with (c_year d) by lia.
  replace (c_month d - 1 + 1) with (c_month d) by lia.
  rewrite (swrap_small 16), !(swrap_small 8), jdn_day_number by (done || lia).
  split; [|done]. unfold swrap at 1, wrap. rewrite Zmod_mod. apply (swrap_small 64); [done|].
  unfold day_number, march_year. cbv zeta.
  pose proof (Z.mod_pos_bound (c_month d + 9) 12 ltac:(lia)) as Hm. fold (march_month d) in Hm.
  case_match; Z.div_mod_to_equations; lia.
Qed.

Lemma yearMonthDay_of_civil d : valid_date d -> in_range d ->
  yearMonthDay (of_civil d) = YMD (c_day d) (c_month d) (c_year d).
Proof.
  intros Hv Hr. unfold yearMonthDay. rewrite (proj1 (julianDayNumber_of_civil d Hv Hr)).
  rewrite <- jdn_day_number by done. by apply getYearMonthDay_inverse.
Qed.

Lemma weekOfDay_of_civil d : valid_date d -> in_range d -> 0 <= day_number d + 1721120 ->
  weekOfDay (of_civil d) = (weekday d + 3) mod 7.
Proof.
  intros Hv Hr Hn. unfold weekOfDay. destruct (julianDayNumber_of_civil d Hv Hr) as [Hj ->].
  assert (day_number d < 2 ^ 40) as Hb.
  { destruct Hv as [? ?]. pose proof (month_days_bound (c_year d) (c_month d)). unfold in_range in *.
    unfold day_number, march_year. cbv zeta.
    pose proof (Z.mod_pos_bound (c_month d + 9) 12 ltac:(lia)) as Hm. fold (march_month d) in Hm.
    case_match; Z.div_mod_to_equations; lia. }
  rewrite !wrap_small by (rewrite ?wrap_small; lia).
  rewrite swrap_small by (pose proof (Z.mod_pos_bound (day_number d + 1721120 + 4) 7); lia).
  unfold weekday. Z.div_mod_to_equations. lia.
Qed.

End Date.
