(* ===== verification/Regex.v ===== *)
(** * The regular expressions the program uses

    [std::regex] (ECMAScript grammar) restricted to what the program's
    patterns contain: literal characters and identity escapes, [.], [\d],
    negated bracket classes, the greedy quantifiers [*] and [+] on one
    character, capture groups that do not nest, and the anchors [^] and [$].
    [parse_regex] reads a pattern; [regex_match] and [regex_search] are the
    backtracking semantics with captures (leftmost, greedy first).  A pattern
    outside this subset parses to [None]. *)

From S2P Require Import Prelude CxxString.

Inductive charset :=
  | Chr (c : ascii)
  | Dot
  | Digit
  | NoneOf (cs : bytes).

Definition in_set (x : ascii) (cs : charset) : bool :=
  match cs with
  | Chr c => bool_decide (c = x)
  | Dot => negb (bool_decide (x = chr 10) || bool_decide (x = chr 13))
  | Digit => isdigit x
  | NoneOf l => negb (bool_decide (x ∈ l))
  end.

Inductive item :=
  | IOne (cs : charset)
  | IRep (nonempty : bool) (cs : charset)
  | IOpen
  | IClose
  | IBegin
  | IEnd.

(** ** Reading a pattern *)

Fixpoint parse_class (s : bytes) : option (bytes * bytes) :=
  match s with
  | [] => None
  | c :: s' =>
      if bool_decide (c = "]"%char) then Some ([], s')
      else '(cs, r) ← parse_class s'; Some (c :: cs, r)
  end.

(** A quantifier after the atom [cs], if there is one. *)
Definition quantified (cs : charset) (s : bytes) : item * bytes :=
  match s with
  | c :: s' =>
      if bool_decide (c = "*"%char) then (IRep false cs, s')
      else if bool_decide (c = "+"%char) then (IRep true cs, s')
      else (IOne cs, s)
  | [] => (IOne cs, [])
  end.

(** []?{}|*+] outside the positions the subset gives them a meaning. *)
Definition unsupported (c : ascii) : bool :=
  bool_decide (c ∈ $"]?{}|*+").

Fixpoint parse_items (fuel : nat) (s : bytes) : option (list item) :=
  match fuel, s with
  | _, [] => Some []
  | O, _ => None
  | S fuel', c :: s' =>
      let atom cs r :=
        let '(it, r') := quantified cs r in
        its ← parse_items fuel' r'; Some (it :: its) in
      let mark it := its ← parse_items fuel' s'; Some (it :: its) in
      if bool_decide (c = "^"%char) then mark IBegin
      else if bool_decide (c = "$"%char) then mark IEnd
      else if bool_decide (c = "("%char) then mark IOpen
      else if bool_decide (c = ")"%char) then mark IClose
      else if bool_decide (c = "."%char) then atom Dot s'
      else if bool_decide (c = "\"%char) then
        match s' with
        | d :: s'' => if bool_decide (d = "d"%char) then atom Digit s'' else atom (Chr d) s''
        | [] => None
        end
      else if bool_decide (c = "["%char) then
        match s' with
        | d :: s'' =>
            if bool_decide (d = "^"%char) then
              '(cs, r) ← parse_class s''; atom (NoneOf cs) r
            else None
        | [] => None
        end
      else if unsupported c then None
      else atom (Chr c) s'
  end.

Definition parse_regex (p : bytes) : option (list item) := parse_items (length p) p.

(** ** Matching *)

(** [rep cs k s]: as many characters of [cs] as possible, then [k]; one fewer
    on every backtrack. *)
Fixpoint rep {R} (cs : charset) (k : bytes -> option R) (s : bytes) : option R :=
  match s with
  | c :: s' =>
      if in_set c cs then
        match rep cs k s' with
        | Some r => Some r
        | None => k s
        end
      else k s
  | [] => k []
  end.

(** [mtch n its open caps s]: match [its] at the suffix [s] of a subject of
    length [n].  [open] is the suffix at which the current group started. *)
Fixpoint mtch (n : nat) (its : list item) (open : bytes) (caps : list bytes)
    (s : bytes) : option (list bytes * bytes) :=
  match its with
  | [] => Some (caps, s)
  | IOne cs :: its' =>
      match s with
      | c :: s' => if in_set c cs then mtch n its' open caps s' else None
      | [] => None
      end
  | IRep false cs :: its' => rep cs (mtch n its' open caps) s
  | IRep true cs :: its' =>
      match s with
      | c :: s' => if in_set c cs then rep cs (mtch n its' open caps) s' else None
      | [] => None
      end
  | IOpen :: its' => mtch n its' s caps s
  | IClose :: its' => mtch n its' [] (caps ++ [take (length open - length s) open]) s
  | IBegin :: its' => if length s =? n then mtch n its' open caps s else None
  | IEnd :: its' => match s with [] => mtch n its' open caps s | _ => None end
  end.

(** [std::regex_match]: the whole subject; the captures. *)
Definition regex_match (its : list item) (s : bytes) : option (list bytes) :=
  fst <$> mtch (length s) (its ++ [IEnd]) [] [] s.

(** [std::regex_search]: the leftmost match; the captures. *)
Fixpoint search_at (n : nat) (its : list item) (s : bytes) : option (list bytes) :=
  match mtch n its [] [] s with
  | Some (caps, _) => Some caps
  | None => match s with [] => None | _ :: s' => search_at n its s' end
  end.

Definition regex_search (its : list item) (s : bytes) : option (list bytes) :=
  search_at (length s) its s.

(** The pattern text compiled: [std::regex re(p)]. *)
Definition compile (p : bytes) : list item := default [] (parse_regex p).

(** ** Literal patterns *)

Definition lits (p : bytes) : list item := (fun c => IOne (Chr c)) <$> p.

Lemma mtch_lits n p its open caps s :
  mtch n (lits p ++ its) open caps s =
  if prefixb p s then mtch n its open caps (drop (length p) s) else None.
Proof.
  revert s. induction p as [|c p IH]; intros s; simpl; [done|].
  destruct s as [|d s]; [done|]. case_bool_decide; simpl; [|done]. apply IH.
Qed.

(** [^literal$] matches the literal and nothing else. *)
Lemma regex_match_literal p s :
  regex_match (IBegin :: lits p ++ [IEnd]) s = if bool_decide (s = p) then Some [] else None.
Proof.
  unfold regex_match. simpl. rewrite Nat.eqb_refl, <- app_assoc, mtch_lits.
  case_bool_decide as E.
  - subst s. rewrite (proj2 (prefixb_spec p p)) by (exists []; by rewrite app_nil_r).
    by rewrite drop_all.
  - destruct (prefixb p s) eqn:Hp; [|done].
    apply prefixb_spec in Hp as [t ->]. rewrite drop_app_length.
    destruct t as [|c t]; [|done]. by rewrite app_nil_r in E.
Qed.

(** A greedy repetition up to the end of the subject. *)
Lemma rep_end {R} cs (k : bytes -> option R) s :
  Forall (fun c => in_set c cs = true) s -> is_Some (k []) -> rep cs k s = k [].
Proof.
  intros H [r Hr]. induction H as [|c s Hc Hs IH]; simpl; [done|].
  by rewrite Hc, IH, Hr.
Qed.

(** When only the empty suffix is accepted, a repetition must take everything. *)
Lemma rep_only_end {R} cs (k : bytes -> option R) s :
  (forall c t, k (c :: t) = None) ->
  rep cs k s = if bool_decide (Forall (fun c => in_set c cs = true) s) then k [] else None.
Proof.
  intros Hk. induction s as [|c s IH].
  - done.
  - cbn [rep]. rewrite IH, Hk. destruct (in_set c cs) eqn:E.
    + case_bool_decide as Hs.
      * rewrite bool_decide_true by (by constructor). by destruct (k []).
      * rewrite bool_decide_false; [done|]. by intros [_ ?]%Forall_cons.
    + rewrite bool_decide_false; [done|]. intros [? _]%Forall_cons. congruence.
Qed.

(** [prefix(C+)] with a character class: the shape of the parameterised routes. *)
Lemma regex_match_param p cs s :
  regex_match (lits p ++ [IOpen; IRep true cs; IClose]) s =
  if prefixb p s
     && bool_decide (drop (length p) s <> [])
     && bool_decide (Forall (fun c => in_set c cs = true) (drop (length p) s))
  then Some [drop (length p) s] else None.
Proof.
  unfold regex_match. rewrite <- app_assoc, mtch_lits.
  destruct (prefixb p s); [|done]. simpl.
  destruct (drop (length p) s) as [|c t]; [done|].
  rewrite (bool_decide_true (c :: t <> [])) by done. simpl andb.
  destruct (in_set c cs) eqn:Hc.
  - rewrite rep_only_end by done. case_bool_decide as Ht.
    + rewrite bool_decide_true by (by constructor). simpl. by rewrite firstn_all.
    + rewrite bool_decide_false; [done|]. by intros [_ ?]%Forall_cons.
  - rewrite bool_decide_false; [done|]. intros [? _]%Forall_cons. congruence.
Qed.
