(* ===== verification/ByteBuffer.v ===== *)
(** * [Buffer]: the contiguous network buffer (src/network/Buffer.cpp)

    The vector with its read and write positions.  A pointer into the buffer
    is its index in [buffer_].  An operation that fails one of the code's
    [assert]s returns [None]. *)

From S2P Require Import Prelude CxxString.

Module Buffer.

Definition kCheapPrepend : nat := 8.
Definition kInitialSize : nat := 1024.
(** [BUFFER_LEN], the size of [readFd]'s stack buffer. *)
Definition BUFFER_LEN : nat := Z.to_nat 65536.

Record t := mk {
  buffer_ : bytes;
  readIndex_ : nat;
  writeIndex_ : nat
}.

Definition readableBytes (b : t) : nat := writeIndex_ b - readIndex_ b.
Definition writableBytes (b : t) : nat := length (buffer_ b) - writeIndex_ b.
Definition prependableBytes (b : t) : nat := readIndex_ b.

(** [Buffer(initialSize)]; the vector is sized from [kInitialSize] whatever
    the argument, which the second [assert] compares with it. *)
Definition create (initialSize : nat) : option t :=
  let b := mk (replicate (kCheapPrepend + kInitialSize) (chr 0)) kCheapPrepend kCheapPrepend in
  if (readableBytes b =? 0) && (writableBytes b =? initialSize)
     && (prependableBytes b =? kCheapPrepend)
  then Some b else None.

Definition create_default : t :=
  mk (replicate (kCheapPrepend + kInitialSize) (chr 0)) kCheapPrepend kCheapPrepend.

(** The readable bytes [[peek(), beginWrite())]. *)
Definition content (b : t) : bytes := take (readableBytes b) (drop (readIndex_ b) (buffer_ b)).

Definition kCRLF : bytes := [chr 13; chr 10].

Definition findCRLF (b : t) : option nat :=
  Nat.add (readIndex_ b) <$> search kCRLF (content b).

Definition findCRLF_from (b : t) (start : nat) : option (option nat) :=
  if (readIndex_ b <=? start) && (start <=? writeIndex_ b) then
    Some (Nat.add start <$> search kCRLF (take (writeIndex_ b - start) (drop start (buffer_ b))))
  else None.

Definition findEOL (b : t) : option nat :=
  Nat.add (readIndex_ b) <$> search [chr 10] (content b).

Definition findEOL_from (b : t) (start : nat) : option (option nat) :=
  if (readIndex_ b <=? start) && (start <=? writeIndex_ b) then
    Some (Nat.add start <$> search [chr 10] (take (writeIndex_ b - start) (drop start (buffer_ b))))
  else None.

Definition retrieveAll (b : t) : t := mk (buffer_ b) kCheapPrepend kCheapPrepend.

Definition retrieve (b : t) (len : nat) : option t :=
  if len <=? readableBytes b then
    if len <? readableBytes b then Some (mk (buffer_ b) (readIndex_ b + len) (writeIndex_ b))
    else Some (retrieveAll b)
  else None.

Definition retrieveUntil (b : t) (end_ : nat) : option t :=
  if (readIndex_ b <=? end_) && (end_ <=? writeIndex_ b)
  then retrieve b (end_ - readIndex_ b) else None.

Definition retrieveAsString (b : t) (len : nat) : option (bytes * t) :=
  if len <=? readableBytes b then
    b' ← retrieve b len; Some (take len (drop (readIndex_ b) (buffer_ b)), b')
  else None.

Definition retrieveAllAsString (b : t) : option (bytes * t) :=
  retrieveAsString b (readableBytes b).

(** [std::copy(d, d + len, begin() + i)]. *)
Definition overwrite (l : bytes) (i : nat) (d : bytes) : bytes :=
  take i l ++ d ++ drop (i + length d) l.

(** [buffer_.resize(n)]: new elements are zero. *)
Definition resize (l : bytes) (n : nat) : bytes := take n l ++ replicate (n - length l) (chr 0).

Definition makeSpace (b : t) (len : nat) : option t :=
  if writableBytes b + prependableBytes b <? len + kCheapPrepend then
    Some (mk (resize (buffer_ b) (writeIndex_ b + len)) (readIndex_ b) (writeIndex_ b))
  else if kCheapPrepend <? readIndex_ b then
    let readable := readableBytes b in
    let b' := mk (overwrite (buffer_ b) kCheapPrepend (content b))
                 kCheapPrepend (kCheapPrepend + readable) in
    if readable =? readableBytes b' then Some b' else None
  else None.

Definition checkWritableSpace (b : t) (len : nat) : option t :=
  b' ← (if writableBytes b <? len then makeSpace b len else Some b);
  if len <=? writableBytes b' then Some b' else None.

Definition hasWritten (b : t) (len : nat) : option t :=
  if len <=? writableBytes b
  then Some (mk (buffer_ b) (readIndex_ b) (writeIndex_ b + len)) else None.

Definition unWrite (b : t) (len : nat) : option t :=
  if len <=? readableBytes b
  then Some (mk (buffer_ b) (readIndex_ b) (writeIndex_ b - len)) else None.

Definition append (b : t) (data : bytes) : option t :=
  b1 ← checkWritableSpace b (length data);
  hasWritten (mk (overwrite (buffer_ b1) (writeIndex_ b1) data) (readIndex_ b1) (writeIndex_ b1))
             (length data).

Definition prepend (b : t) (data : bytes) : option t :=
  if length data <=? prependableBytes b then
    let r := readIndex_ b - length data in
    Some (mk (overwrite (buffer_ b) r data) r (writeIndex_ b))
  else None.

Definition swap (a b : t) : t * t := (b, a).

Definition shrink (b : t) (reserve : nat) : option t :=
  other ← checkWritableSpace create_default (readableBytes b + reserve);
  other' ← append other (content b);
  Some (fst (swap b other')).

(** What [readv] may be asked to fill: the writable space, and the stack
    buffer too when the writable space is the smaller of the two. *)
Definition readv_room (b : t) : nat :=
  if writableBytes b <? BUFFER_LEN then writableBytes b + BUFFER_LEN else writableBytes b.

(** [readFd] on the outcome of [readv]: an [errno], or the bytes it stored,
    the writable space first, then the stack buffer.  The result is the
    return value, [*savedErrno] when it is set, and the buffer. *)
Definition readFd (b : t) (outcome : Z + bytes) : option (Z * option Z * t) :=
  match outcome with
  | inl errno => Some ((-1)%Z, Some errno, b)
  | inr data =>
      let writable := writableBytes b in
      let n := length data in
      let b1 := mk (overwrite (buffer_ b) (writeIndex_ b) (take writable data))
                   (readIndex_ b) (writeIndex_ b) in
      if n <=? writable then
        Some (Z.of_nat n, None, mk (buffer_ b1) (readIndex_ b1) (writeIndex_ b1 + n))
      else
        b2 ← append (mk (buffer_ b1) (readIndex_ b1) (length (buffer_ b1))) (drop writable data);
        Some (Z.of_nat n, None, b2)
  end.

(** ** Invariant and abstraction *)

(** The picture in Buffer.hpp: prependable, readable and writable regions. *)
Definition wf (b : t) : Prop :=
  readIndex_ b <= writeIndex_ b /\ writeIndex_ b <= length (buffer_ b) /\
  kCheapPrepend <= length (buffer_ b).

(** [b] holds exactly the bytes [c]. *)
Definition holds (b : t) (c : bytes) : Prop := wf b /\ content b = c.

Lemma length_content b : wf b -> length (content b) = readableBytes b.
Proof.
  intros (? & ? & ?). unfold content, readableBytes.
  rewrite length_take, length_drop. lia.
Qed.

Lemma length_overwrite l i d : i + length d <= length l -> length (overwrite l i d) = length l.
Proof. intros. unfold overwrite. rewrite !length_app, length_take, length_drop. lia. Qed.

Lemma length_resize l n : length l <= n -> length (resize l n) = n.
Proof.
  intros. unfold resize. rewrite length_app, length_take, length_replicate. lia.
Qed.

Lemma take_overwrite l i d n :
  i + length d <= length l -> n <= i -> take n (overwrite l i d) = take n l.
Proof.
  intros. unfold overwrite. rewrite take_app_le, take_take by (rewrite length_take; lia).
  f_equal. lia.
Qed.

(** Writing at [i] is what a window that starts before [i] and ends after the
    data reads. *)
Lemma window_overwrite l i d r :
  r <= i -> i + length d <= length l ->
  take (i + length d - r) (drop r (overwrite l i d)) = take (i - r) (drop r l) ++ d.
Proof.
  intros. unfold overwrite.
  rewrite drop_app_le by (rewrite length_take; lia).
  rewrite take_app, length_drop, length_take.
  replace (i + length d - r - (i `min` length l - r)) with (length d) by lia.
  rewrite take_app_length. f_equal.
  replace i with (r + (i - r)) at 2 by lia.
  rewrite <- take_drop_commute, take_take. f_equal. lia.
Qed.

Lemma window_resize l n r w :
  w <= length l -> length l <= n -> take (w - r) (drop r (resize l n)) = take (w - r) (drop r l).
Proof.
  intros. unfold resize. rewrite (take_ge l n) by lia.
  destruct (decide (r <= w)).
  - rewrite drop_app_le by lia. apply take_app_le. rewrite length_drop. lia.
  - by replace (w - r) with 0 by lia.
Qed.

Lemma buffer_wf_create : wf create_default.
Proof.
  unfold wf, create_default. cbn [buffer_ readIndex_ writeIndex_].
  rewrite length_replicate. lia.
Qed.

Lemma content_create : content create_default = [].
Proof. done. Qed.

(** ** Reading *)

Lemma retrieve_spec b len :
  wf b -> len <= readableBytes b ->
  exists b', retrieve b len = Some b' /\ holds b' (drop len (content b)).
Proof.
  intros (? & ? & ?) Hl. unfold retrieve.
  destruct (Nat.leb_spec len (readableBytes b)); [|lia].
  destruct (Nat.ltb_spec len (readableBytes b)) as [Hlt|Hge].
  - eexists. split; [done|]. unfold holds, wf, content, readableBytes in *. simpl.
    split; [lia|]. rewrite skipn_firstn_comm, drop_drop. f_equal; lia.
  - eexists. split; [done|]. unfold holds, wf, content, readableBytes, retrieveAll in *. simpl.
    split; [unfold kCheapPrepend in *; lia|].
    symmetry. apply drop_ge. rewrite length_take, length_drop. lia.
Qed.

Lemma retrieveUntil_spec b i :
  wf b -> i <= readableBytes b ->
  exists b', retrieveUntil b (readIndex_ b + i) = Some b' /\ holds b' (drop i (content b)).
Proof.
  intros Hwf Hi. unfold retrieveUntil.
  pose proof Hwf as (? & ? & ?). unfold readableBytes in *.
  destruct (Nat.leb_spec (readIndex_ b) (readIndex_ b + i)); [|lia].
  destruct (Nat.leb_spec (readIndex_ b + i) (writeIndex_ b)); [|lia].
  replace (readIndex_ b + i - readIndex_ b) with i by lia. by apply retrieve_spec.
Qed.

Lemma retrieveAsString_spec b len :
  wf b -> len <= readableBytes b ->
  exists b', retrieveAsString b len = Some (take len (content b), b') /\
             holds b' (drop len (content b)).
Proof.
  intros Hwf Hl. destruct (retrieve_spec b len Hwf Hl) as (b' & Hr & Hb').
  exists b'. split; [|done]. unfold retrieveAsString.
  destruct (Nat.leb_spec len (readableBytes b)); [|lia].
  rewrite Hr. simpl. unfold content. rewrite take_take. by rewrite Nat.min_l by lia.
Qed.

Lemma findCRLF_Some b i :
  findCRLF b = Some i <-> exists k, i = readIndex_ b + k /\ search kCRLF (content b) = Some k.
Proof. unfold findCRLF. rewrite fmap_Some. split; intros (k & H1 & H2); by exists k. Qed.

(** ** Writing *)

Lemma makeSpace_spec b len :
  wf b -> writableBytes b < len ->
  exists b', makeSpace b len = Some b' /\ holds b' (content b) /\ len <= writableBytes b'.
Proof.
  intros (? & ? & ?) Hw. unfold makeSpace.
  destruct (Nat.ltb_spec (writableBytes b + prependableBytes b) (len + kCheapPrepend)) as [Hlt|Hge].
  - eexists. split; [done|].
    assert (length (resize (buffer_ b) (writeIndex_ b + len)) = writeIndex_ b + len) as E.
    { apply length_resize. unfold writableBytes in *. lia. }
    unfold holds, wf, content, writableBytes, readableBytes in *. simpl. rewrite E.
    split; [|lia]. split; [lia|]. apply window_resize; lia.
  - unfold prependableBytes, writableBytes in *.
    destruct (Nat.ltb_spec kCheapPrepend (readIndex_ b)); [|lia].
    assert (length (content b) = readableBytes b) as Hc by (by apply length_content).
    cbv zeta. case (Nat.eqb_spec (readableBytes b)); intros Hr;
      [|exfalso; apply Hr; unfold readableBytes; cbn [readIndex_ writeIndex_]; lia].
    eexists. split; [done|].
    assert (kCheapPrepend + length (content b) <= length (buffer_ b)).
    { rewrite Hc. unfold readableBytes. lia. }
    unfold holds, wf. cbn [buffer_ readIndex_ writeIndex_].
    rewrite length_overwrite by done.
    split; [split; [lia|]|unfold readableBytes; lia].
    unfold content at 1. unfold readableBytes at 1. cbn [buffer_ readIndex_ writeIndex_].
    rewrite <- Hc at 1. rewrite window_overwrite by (try done; lia).
    by rewrite Nat.sub_diag.
Qed.

Lemma checkWritableSpace_spec b len :
  wf b -> exists b', checkWritableSpace b len = Some b' /\ holds b' (content b) /\ len <= writableBytes b'.
Proof.
  intros Hwf. unfold checkWritableSpace.
  destruct (Nat.ltb_spec (writableBytes b) len) as [Hlt|Hge].
  - destruct (makeSpace_spec b len Hwf Hlt) as (b' & -> & Hb' & Hl). simpl.
    destruct (Nat.leb_spec len (writableBytes b')); [|lia]. eauto.
  - simpl. destruct (Nat.leb_spec len (writableBytes b)); [|lia].
    exists b. unfold holds. auto.
Qed.

Lemma hasWritten_spec b c d :
  holds b c -> length d <= writableBytes b ->
  exists b', hasWritten (mk (overwrite (buffer_ b) (writeIndex_ b) d) (readIndex_ b) (writeIndex_ b))
               (length d) = Some b' /\ holds b' (c ++ d).
Proof.
  intros [(? & ? & ?) <-] Hd. unfold writableBytes in Hd.
  assert (length (overwrite (buffer_ b) (writeIndex_ b) d) = length (buffer_ b)) as E
    by (apply length_overwrite; lia).
  unfold hasWritten, writableBytes. simpl. rewrite E.
  destruct (Nat.leb_spec (length d) (length (buffer_ b) - writeIndex_ b)); [|lia].
  eexists. split; [done|]. split.
  - unfold wf. simpl. rewrite E. lia.
  - unfold content, readableBytes. simpl. apply window_overwrite; lia.
Qed.

Lemma append_spec b c d : holds b c -> exists b', append b d = Some b' /\ holds b' (c ++ d).
Proof.
  intros [Hwf <-]. unfold append.
  destruct (checkWritableSpace_spec b (length d) Hwf) as (b1 & -> & Hb1 & Hl).
  by apply hasWritten_spec.
Qed.

Lemma prepend_spec b c d :
  holds b c -> length d <= prependableBytes b ->
  exists b', prepend b d = Some b' /\ holds b' (d ++ c).
Proof.
  intros [(? & ? & ?) <-] Hd. unfold prepend, prependableBytes in *.
  destruct (Nat.leb_spec (length d) (readIndex_ b)); [|lia].
  eexists. split; [done|]. set (r := readIndex_ b - length d).
  assert (length (overwrite (buffer_ b) r d) = length (buffer_ b)) as E
    by (apply length_overwrite; lia).
  split.
  - unfold wf. simpl. rewrite E. lia.
  - unfold content, readableBytes. simpl. unfold overwrite.
    rewrite drop_app_length' by (rewrite length_take; lia).
    rewrite take_app, take_ge by lia. f_equal. f_equal; [lia|]. f_equal. lia.
Qed.

Lemma shrink_spec b reserve :
  wf b -> exists b', shrink b reserve = Some b' /\ holds b' (content b).
Proof.
  intros Hwf. unfold shrink.
  destruct (checkWritableSpace_spec create_default (readableBytes b + reserve) buffer_wf_create)
    as (b1 & -> & Hb1 & _). simpl.
  rewrite content_create in Hb1.
  destruct (append_spec b1 [] (content b) Hb1) as (b2 & -> & Hb2). simpl. eauto.
Qed.

(** [readFd] appends what the socket delivered, whichever of the two areas
    the kernel stored it in. *)
Lemma readFd_spec b c data :
  holds b c -> length data <= readv_room b ->
  exists b', readFd b (inr data) = Some (Z.of_nat (length data), None, b') /\
             holds b' (c ++ data).
Proof.
  intros Hb Hroom. unfold readFd. pose proof Hb as [(? & ? & ?) <-].
  destruct (Nat.leb_spec (length data) (writableBytes b)) as [Hle|Hgt].
  - rewrite take_ge by done.
    destruct (hasWritten_spec b _ data Hb Hle) as (b' & Hw & Hb'). exists b'.
    unfold hasWritten in Hw. split_match_in Hw; simplify_eq. done.
  - destruct (hasWritten_spec b _ (take (writableBytes b) data) Hb) as (b1 & Hw & Hb1).
    { rewrite length_take. lia. }
    unfold hasWritten in Hw. split_match_in Hw; simplify_eq. simpl in Hb1.
    rewrite length_take, Nat.min_l in Hb1 by lia. simpl.
    rewrite length_overwrite by (rewrite length_take; unfold writableBytes in *; lia).
    replace (writeIndex_ b + writableBytes b) with (length (buffer_ b)) in Hb1
      by (unfold writableBytes; lia).
    destruct (append_spec _ _ (drop (writableBytes b) data) Hb1) as (b2 & -> & Hb2).
    exists b2. split; [done|]. by rewrite <- app_assoc, take_drop in Hb2.
Qed.

Lemma unWrite_spec b n :
  wf b -> n <= readableBytes b ->
  exists b', unWrite b n = Some b' /\
             holds b' (take (length (content b) - n) (content b)).
Proof.
  intros Hwf Hn. unfold unWrite.
  destruct (Nat.leb_spec n (readableBytes b)); [|lia].
  eexists. split; [done|]. pose proof (length_content b Hwf) as Hc.
  destruct Hwf as (? & ? & ?).
  unfold holds, wf, content, readableBytes in *. simpl. split; [lia|].
  rewrite take_take. f_equal. lia.
Qed.

(** ** The abstract specification: a queue of bytes *)

Inductive op :=
  | OAppend (d : bytes)
  | ORetrieve (n : nat)
  | ORetrieveAll
  | ORetrieveAsString (n : nat)
  | OUnWrite (n : nat)
  | OEnsure (n : nat)
  | OShrink (n : nat).

(** One operation of the implementation: its output and the new buffer. *)
Definition step (b : t) (o : op) : option (bytes * t) :=
  match o with
  | OAppend d => b' ← append b d; Some ([], b')
  | ORetrieve n => b' ← retrieve b n; Some ([], b')
  | ORetrieveAll => Some ([], retrieveAll b)
  | ORetrieveAsString n => retrieveAsString b n
  | OUnWrite n => b' ← unWrite b n; Some ([], b')
  | OEnsure n => b' ← checkWritableSpace b n; Some ([], b')
  | OShrink n => b' ← shrink b n; Some ([], b')
  end.

(** The same operation on the queue: appends go to the back, reads take from
    the front; only reading more than there is fails. *)
Definition queue_step (c : bytes) (o : op) : option (bytes * bytes) :=
  match o with
  | OAppend d => Some ([], c ++ d)
  | ORetrieve n => if n <=? length c then Some ([], drop n c) else None
  | ORetrieveAll => Some ([], [])
  | ORetrieveAsString n => if n <=? length c then Some (take n c, drop n c) else None
  | OUnWrite n => if n <=? length c then Some ([], take (length c - n) c) else None
  | OEnsure _ => Some ([], c)
  | OShrink _ => Some ([], c)
  end.

Fixpoint run {S} (stp : S -> op -> option (bytes * S)) (s : S) (os : list op) :
    option (bytes * S) :=
  match os with
  | [] => Some ([], s)
  | o :: os' =>
      '(out, s1) ← stp s o;
      '(outs, s2) ← run stp s1 os';
      Some (out ++ outs, s2)
  end.

(** [stp] on [b] simulates the queue holding [c]: they fail together, and
    otherwise give the same output and stay related. *)
Definition simulates (r : option (bytes * t)) (q : option (bytes * bytes)) : Prop :=
  match q with
  | None => r = None
  | Some (out, c') => exists b', r = Some (out, b') /\ holds b' c'
  end.

Lemma retrieve_None b n : readableBytes b < n -> retrieve b n = None.
Proof. intros. unfold retrieve. by destruct (Nat.leb_spec n (readableBytes b)); [lia|]. Qed.

Lemma step_simulates b c o : holds b c -> simulates (step b o) (queue_step c o).
Proof.
  intros Hb. pose proof Hb as [Hwf <-]. pose proof (length_content b Hwf) as Hl.
  destruct o as [d|n| |n|n|n|n]; cbn [step queue_step simulates]; rewrite ?Hl.
  - destruct (append_spec b _ d Hb) as (b' & -> & ?). eauto.
  - destruct (Nat.leb_spec n (readableBytes b)); simpl.
    + destruct (retrieve_spec b n) as (b' & -> & ?); eauto.
    + by rewrite retrieve_None.
  - eexists. split; [done|]. pose proof Hwf as (? & ? & ?).
    unfold holds, wf, content, readableBytes, retrieveAll. simpl. unfold kCheapPrepend in *.
    split; [lia|done].
  - destruct (Nat.leb_spec n (readableBytes b)); simpl.
    + destruct (retrieveAsString_spec b n) as (b' & -> & ?); eauto.
    + unfold retrieveAsString. by destruct (Nat.leb_spec n (readableBytes b)); [lia|].
  - destruct (Nat.leb_spec n (readableBytes b)); simpl.
    + destruct (unWrite_spec b n) as (b' & -> & Hb'); [done..|].
      rewrite Hl in Hb'. eauto.
    + unfold unWrite. by destruct (Nat.leb_spec n (readableBytes b)); [lia|].
  - destruct (checkWritableSpace_spec b n Hwf) as (b' & -> & ? & ?). eauto.
  - destruct (shrink_spec b n Hwf) as (b' & -> & ?). eauto.
Qed.

Lemma run_simulates os b c : holds b c -> simulates (run step b os) (run queue_step c os).
Proof.
  revert b c. induction os as [|o os IH]; intros b c Hb; simpl; [by eauto|].
  pose proof (step_simulates b c o Hb) as Hs. unfold simulates in Hs.
  destruct (queue_step c o) as [[out c1]|]; simpl; [|by rewrite Hs].
  destruct Hs as (b1 & -> & Hb1). simpl.
  specialize (IH b1 c1 Hb1). unfold simulates in IH.
  destruct (run queue_step c1 os) as [[outs c2]|]; simpl; [|by rewrite IH].
  destruct IH as (b2 & -> & ?). simpl. eauto.
Qed.
End Buffer.
