(* ===== verification/TimeStamp.v ===== *)
(** * [TimeStamp] (inc/utils/date/TimeStamp.hpp, src/utils/date/TimeStamp.cpp)

    A count of microseconds.  A number of seconds is a [double], an IEEE number
    with 53 bits ([spec_float]). *)

From Stdlib Require Import SpecFloat.
From S2P Require Import Prelude CxxString Calendar.

Module TimeStamp.

Definition kMicroSecondsPerSec : Z := 1000 * 1000.

Record t := mk { microSecondsSinceEpoch : Z }.

(** The default constructor, and the constructor from a number of
    microseconds, whose initialiser does not mention its argument. *)
Definition default : t := mk 0.
Definition of_micro (microSec : Z) : t := mk 0.

Definition invalid : t := default.
Definition swap (a b : t) : t * t := (b, a).

Definition fromUnixTime (seconds microseconds : Z) : t :=
  of_micro (seconds * kMicroSecondsPerSec + microseconds).

(** [now()]: the expression is [seconds & (kMicroSecondsPerSec + tv_usec)]. *)
Definition now (tv_sec tv_usec : Z) : t :=
  of_micro (Z.land tv_sec (kMicroSecondsPerSec + tv_usec)).

(** ** Numbers of seconds *)

Abbreviation double := spec_float.

(** [static_cast<double>] of an integer, and of a double to [int64_t]: the
    fraction is cut off, and what does not fit is undefined behaviour. *)
Definition double_of_Z (z : Z) : double := binary_normalize 53 1024 z 0 false.
Definition int64_of_double (f : double) : option Z :=
  match f with
  | S754_zero _ => Some 0%Z
  | S754_finite s m e =>
      let z := Z.shiftl (Zpos m) e in
      let z := if s then (- z)%Z else z in
      if bool_decide (- 2 ^ 63 <= z < 2 ^ 63)%Z then Some z else None
  | _ => None
  end.

(** [static_cast<int64_t>(seconds * kMicroSecondsPerSec)]. *)
Definition micros_of (seconds : double) : option Z :=
  int64_of_double (SFmul 53 1024 seconds (double_of_Z kMicroSecondsPerSec)).

(** What [add] and [addTime] do with that integer. *)
Definition addMicros (ts : t) (delta : Z) : t := mk (swrap 64 (microSecondsSinceEpoch ts + delta)).
Definition addTime (ts : t) (delta : Z) : t := of_micro (microSecondsSinceEpoch ts + delta).

Definition add (ts : t) (sec : double) : option t := addMicros ts <$> micros_of sec.
Definition addSeconds (ts : t) (seconds : double) : option t := addTime ts <$> micros_of seconds.

Definition timeDiff (ts1 ts2 : t) : double :=
  SFdiv 53 1024 (double_of_Z (swrap 64 (microSecondsSinceEpoch ts1 - microSecondsSinceEpoch ts2)))
    (double_of_Z kMicroSecondsPerSec).

Definition ltb (a b : t) : bool := (microSecondsSinceEpoch a <? microSecondsSinceEpoch b)%Z.

Definition secondsSinceEpoch (ts : t) : Z := Z.quot (microSecondsSinceEpoch ts) kMicroSecondsPerSec.

Definition eqb (a b : t) : bool := (microSecondsSinceEpoch a =? microSecondsSinceEpoch b)%Z.

Definition toString (ts : t) : bytes :=
  let seconds := Z.quot (microSecondsSinceEpoch ts) kMicroSecondsPerSec in
  let microSecs := Z.rem (microSecondsSinceEpoch ts) kMicroSecondsPerSec in
  snprintf 32 (to_string seconds ++ $"." ++ fmt_d true 6 microSecs).

(** ["%4d%02d%02d %02d:%02d:%02d"] of a broken-down time, the year padded with
    spaces or zeros. *)
Definition fmt_tm (zero : bool) (tm : tm) : bytes :=
  fmt_d zero 4 (c_year (tm_date tm)) ++ fmt_d true 2 (c_month (tm_date tm)) ++
  fmt_d true 2 (c_day (tm_date tm)) ++ $" " ++ fmt_d true 2 (tm_hour tm) ++ $":" ++
  fmt_d true 2 (tm_min tm) ++ $":" ++ fmt_d true 2 (tm_sec tm).

Definition toFormattedString (ts : t) (showMicroSec : bool) : bytes :=
  let seconds := Z.quot (microSecondsSinceEpoch ts) kMicroSecondsPerSec in
  let tm := gmtime seconds in
  if showMicroSec then
    let microseconds := swrap 32 (Z.rem (microSecondsSinceEpoch ts) kMicroSecondsPerSec) in
    snprintf 64 (fmt_tm false tm ++ $"." ++ fmt_d true 6 microseconds)
  else snprintf 64 (fmt_tm false tm).

#[export] Instance eq_dec : EqDecision t.
Proof. solve_decision. Defined.

(** ** Differences *)

Lemma rounded_opp s m e l : SFopp (binary_round_aux 53 1024 s m e l) = binary_round_aux 53 1024 (negb s) m e l.
Proof.
  unfold binary_round_aux. destruct (shr_fexp _ _ m e l) as [r e1].
  destruct (shr_fexp _ _ _ e1 _) as [r' e2]. destruct (shr_m r'); [done| |done]. by destruct (_ <=? _)%Z.
Qed.

Lemma double_opp z : z <> 0%Z -> double_of_Z (- z) = SFopp (double_of_Z z).
Proof.
  intros Hz. unfold double_of_Z, binary_normalize, binary_round.
  destruct z as [|p|p]; [done|change (- Z.pos p)%Z with (Z.neg p)|change (- Z.neg p)%Z with (Z.pos p)];
    cbv beta iota; destruct (shl_align _ _ _); by rewrite rounded_opp.
Qed.

Lemma div_opp x m e : SFdiv 53 1024 (SFopp x) (S754_finite false m e) = SFopp (SFdiv 53 1024 x (S754_finite false m e)).
Proof.
  destruct x as [s|s| |s m1 e1]; cbn [SFopp SFdiv]; [by destruct s..|done|].
  destruct (SFdiv_core_binary _ _ _ _ _ _) as [[mz ez] lz]. rewrite rounded_opp. by destruct s.
Qed.

(** The difference changes its sign with the order of the stamps. *)
Lemma timeDiff_opp a b :
  a <> b -> (- 2 ^ 63 < microSecondsSinceEpoch a - microSecondsSinceEpoch b < 2 ^ 63)%Z ->
  timeDiff b a = SFopp (timeDiff a b).
Proof.
  intros Hne Hb. unfold timeDiff. rewrite !swrap_small by lia.
  replace (microSecondsSinceEpoch b - microSecondsSinceEpoch a)%Z
    with (- (microSecondsSinceEpoch a - microSecondsSinceEpoch b))%Z by lia.
  rewrite double_opp; [apply div_opp|]. destruct a as [x], b as [y]; cbn. intros E. apply Hne. f_equal. lia.
Qed.

Lemma timeDiff_same a : timeDiff a a = S754_zero false.
Proof. unfold timeDiff. rewrite Z.sub_diag. reflexivity. Qed.

(** A second and a half. *)
Example half_second : timeDiff (mk 1500000) (mk 0) = S754_finite false 6755399441055744 (-52).
Proof. reflexivity. Qed.
Example half_second_back : micros_of (S754_finite false 6755399441055744 (-52)) = Some 1500000%Z.
Proof. reflexivity. Qed.
End TimeStamp.
