(* ===== verification/HttpRequest.v ===== *)
(** * [HttpRequest] (inc/network/http/HttpRequest.hpp)

    The parsed request: its fields, the header and query accessors, and the
    percent decoder. *)

From S2P Require Import Prelude CxxString TimeStamp.

Inductive Method := kInvalid | kGet | kPost | kHead | kPut | kDelete.
Inductive Version := kUnknown | kHttp10 | kHttp11.

#[export] Instance Method_eq_dec : EqDecision Method.
Proof. solve_decision. Defined.
#[export] Instance Version_eq_dec : EqDecision Version.
Proof. solve_decision. Defined.

(** The text of a request line's method. *)
Definition method_of (m : bytes) : Method :=
  if bool_decide (m = $"GET") then kGet
  else if bool_decide (m = $"POST") then kPost
  else if bool_decide (m = $"HEAD") then kHead
  else if bool_decide (m = $"PUT") then kPut
  else if bool_decide (m = $"DELETE") then kDelete
  else kInvalid.

Definition methodString (m : Method) : bytes :=
  match m with
  | kGet => $"GET" | kPost => $"POST" | kHead => $"HEAD" | kPut => $"PUT"
  | kDelete => $"DELETE" | kInvalid => $"UNKNOWN"
  end.

Module HttpRequest.

Record t := mk {
  method_ : Method;
  version_ : Version;
  path_ : bytes;
  query_ : bytes;
  body_ : bytes;
  receiveTime_ : TimeStamp.t;
  headers_ : gmap bytes bytes;
  pathParams_ : gmap bytes bytes
}.

Definition create : t := mk kInvalid kUnknown [] [] [] TimeStamp.default ∅ ∅.

Definition setVersion (r : t) (v : Version) : t :=
  mk (method_ r) v (path_ r) (query_ r) (body_ r) (receiveTime_ r) (headers_ r) (pathParams_ r).
Definition setPath (r : t) (p : bytes) : t :=
  mk (method_ r) (version_ r) p (query_ r) (body_ r) (receiveTime_ r) (headers_ r) (pathParams_ r).
Definition setQuery (r : t) (q : bytes) : t :=
  mk (method_ r) (version_ r) (path_ r) q (body_ r) (receiveTime_ r) (headers_ r) (pathParams_ r).
Definition setBody (r : t) (b : bytes) : t :=
  mk (method_ r) (version_ r) (path_ r) (query_ r) b (receiveTime_ r) (headers_ r) (pathParams_ r).
Definition setReceiveTime (r : t) (ts : TimeStamp.t) : t :=
  mk (method_ r) (version_ r) (path_ r) (query_ r) (body_ r) ts (headers_ r) (pathParams_ r).
Definition setHeaders (r : t) (h : gmap bytes bytes) : t :=
  mk (method_ r) (version_ r) (path_ r) (query_ r) (body_ r) (receiveTime_ r) h (pathParams_ r).
Definition setPathParams (r : t) (ps : gmap bytes bytes) : t :=
  mk (method_ r) (version_ r) (path_ r) (query_ r) (body_ r) (receiveTime_ r) (headers_ r) ps.

(** [setMethod]: [None] when the [assert] fails. *)
Definition setMethod (r : t) (m : bytes) : option (t * bool) :=
  if bool_decide (method_ r = kInvalid) then
    let k := method_of m in
    Some (mk k (version_ r) (path_ r) (query_ r) (body_ r) (receiveTime_ r) (headers_ r)
             (pathParams_ r),
          negb (bool_decide (k = kInvalid)))
  else None.

Definition appendToBody (r : t) (data : bytes) : t := setBody r (body_ r ++ data).

Definition rtrim (s : bytes) : bytes := reverse (skip_spaces (reverse s)).

(** [addHeader(start, colon, end)] on the line [[start, end)] whose colon is at
    index [colon]. *)
Definition addHeader (r : t) (line : bytes) (colon : nat) : t :=
  let field := take colon line in
  let value := rtrim (skip_spaces (drop (S colon) line)) in
  setHeaders r (<[field := value]> (headers_ r)).

Definition getHeader (r : t) (field : bytes) : bytes := default [] (headers_ r !! field).

(** [request.swap(that)]: [path_] is exchanged with the other's [query_], then
    [that.query_] with [query_]; [pathParams_] stays. *)
Definition swap (r that : t) : t * t :=
  (mk (method_ that) (version_ that) (query_ that) (path_ r) (body_ that)
      (receiveTime_ that) (headers_ that) (pathParams_ r),
   mk (method_ r) (version_ r) (path_ that) (query_ r) (body_ r)
      (receiveTime_ r) (headers_ r) (pathParams_ that)).

(** [urlDecode]: [None] when a conversion fails and the uninitialised [value]
    is used.  A percent sign with fewer than two characters after it is dropped. *)
Fixpoint urlDecode (s : bytes) : option bytes :=
  match s with
  | [] => Some []
  | c :: s' =>
      if bool_decide (c = "%"%char) then
        match s' with
        | a :: ((b :: s'') as _) =>
            value ← sscanf_x [a; b];
            r ← urlDecode s''; Some (chr value :: r)
        | _ => urlDecode s'
        end
      else
        r ← urlDecode s';
        Some ((if bool_decide (c = "+"%char) then " "%char else c) :: r)
  end.

(** The pieces between the ampersands. *)
Fixpoint split_amp (s : bytes) : list bytes :=
  match s with
  | [] => [[]]
  | c :: s' =>
      if bool_decide (c = "&"%char) then [] :: split_amp s'
      else match split_amp s' with
           | p :: ps => (c :: p) :: ps
           | [] => [[c]]
           end
  end.

(** The loop over the parameters: the first one with the key [key]. *)
Fixpoint find_param (key : bytes) (params : list bytes) : option (option bytes) :=
  match params with
  | [] => Some None
  | param :: ps =>
      let pos := find_char "="%char param in
      if pos <? length param then
        if bool_decide (take pos param = key)
        then v ← urlDecode (drop (S pos) param); Some (Some v)
        else find_param key ps
      else if bool_decide (param = key) then Some (Some ($"true"))
      else find_param key ps
  end.

Definition getQuery (r : t) (key defaultValue : bytes) : option bytes :=
  match query_ r with
  | c :: q =>
      if bool_decide (c = "?"%char)
      then v ← find_param key (split_amp q); Some (default defaultValue v)
      else Some defaultValue
  | [] => Some defaultValue
  end.

Definition getPathParam (r : t) (name : bytes) : bytes := default [] (pathParams_ r !! name).

End HttpRequest.

Abbreviation HttpReq := HttpRequest.t.

(** ** Percent encoding round trip *)

(** The unreserved characters [encodeURIComponent] leaves alone. *)
Definition unreserved (c : ascii) : bool :=
  let z := code c in
  ((48 <=? z) && (z <=? 57) || (65 <=? z) && (z <=? 90) || (97 <=? z) && (z <=? 122))%Z
  || bool_decide (c ∈ $"-_.!~*'()").

Definition hex_digit (d : Z) : ascii := if (d <? 10)%Z then chr (48 + d) else chr (55 + d).

(** The client's [encodeURIComponent] on bytes: the specification side. *)
Fixpoint urlEncode (s : bytes) : bytes :=
  match s with
  | [] => []
  | c :: s' =>
      (if unreserved c then [c]
       else ["%"%char; hex_digit (code c / 16); hex_digit (code c mod 16)]) ++ urlEncode s'
  end.

(** Every byte written as two hexadecimal digits is read back. *)
Lemma sscanf_hex_digits c :
  sscanf_x [hex_digit (code c / 16); hex_digit (code c mod 16)] = Some (code c).
Proof. destruct c as [[] [] [] [] [] [] [] []]; reflexivity. Qed.

Lemma unreserved_not_special c :
  unreserved c = true -> c <> "%"%char /\ c <> "+"%char.
Proof. intros H. split; intros ->; discriminate H. Qed.

(** Decoding undoes [encodeURIComponent], for every byte string. *)
Lemma urlDecode_urlEncode_app s t r :
  HttpRequest.urlDecode t = Some r -> HttpRequest.urlDecode (urlEncode s ++ t) = Some (s ++ r).
Proof.
  intros Ht. induction s as [|c s IH]; [done|]. cbn [urlEncode].
  destruct (unreserved c) eqn:Hu.
  - apply unreserved_not_special in Hu as [? ?]. cbn -[bool_decide].
    rewrite !bool_decide_false by done. by rewrite IH.
  - cbn -[bool_decide hex_digit code]. rewrite bool_decide_true by done.
    rewrite sscanf_hex_digits. cbn -[bool_decide hex_digit code].
    by rewrite IH, chr_code.
Qed.

(** The accessors the handlers rely on: the last header line of a name wins. *)
Lemma getHeader_addHeader r line colon f :
  HttpRequest.getHeader (HttpRequest.addHeader r line colon) f =
  if bool_decide (f = take colon line)
  then HttpRequest.rtrim (skip_spaces (drop (S colon) line))
  else HttpRequest.getHeader r f.
Proof.
  unfold HttpRequest.getHeader, HttpRequest.addHeader. simpl.
  case_bool_decide as E.
  - subst. by rewrite lookup_insert_eq.
  - by rewrite lookup_insert_ne by done.
Qed.

(** * Query strings: the parser inverts a client's rendering *)

(** A client's rendering of parameters, with [encodeURIComponent]. *)
Definition render_param (kv : bytes * bytes) : bytes := kv.1 ++ ("="%char :: urlEncode kv.2).
Fixpoint render_query (kv : bytes * bytes) (l : list (bytes * bytes)) : bytes :=
  match l with
  | [] => render_param kv
  | kv' :: l' => render_param kv ++ ("&"%char :: render_query kv' l')
  end.

(** A parameter name. *)
Definition good_key (k : bytes) : Prop := ("="%char ∉ k) /\ ("&"%char ∉ k).

(** The value of the first parameter of that name. *)
Fixpoint first_param (key : bytes) (l : list (bytes * bytes)) : option bytes :=
  match l with
  | [] => None
  | (k, v) :: l' => if bool_decide (k = key) then Some v else first_param key l'
  end.

Lemma hex_digit_plain d : (0 <= d < 16)%Z -> hex_digit d <> "&"%char.
Proof.
  intros Hd. unfold hex_digit. intros E. apply (f_equal code) in E. revert E.
  destruct (Z.ltb_spec d 10); rewrite code_chr by lia; change (code "&") with 38%Z; lia.
Qed.

Lemma urlEncode_no_amp s : "&"%char ∉ urlEncode s.
Proof.
  induction s as [|c s IH]; cbn [urlEncode]; [apply not_elem_of_nil|].
  rewrite elem_of_app. intros [Hin|Hin]; [|done]. revert Hin. pose proof (code_bound c) as Hc.
  destruct (unreserved c) eqn:E.
  - intros Hin%list_elem_of_singleton. subst c. discriminate E.
  - rewrite !elem_of_cons. intros [H|[H|[H|H]]]; [done| | |by apply not_elem_of_nil in H].
    + symmetry in H. apply hex_digit_plain in H; [done|].
      split; [apply Z.div_pos; lia|apply Z.div_lt_upper_bound; lia].
    + symmetry in H. apply hex_digit_plain in H; [done|]. apply Z.mod_pos_bound. lia.
Qed.

Lemma render_param_no_amp kv : good_key kv.1 -> "&"%char ∉ render_param kv.
Proof.
  intros [_ Hk]. unfold render_param. rewrite elem_of_app, elem_of_cons.
  intros [?|[?|?]]; [done|done|by eapply urlEncode_no_amp].
Qed.

Lemma split_amp_app s t :
  "&"%char ∉ s -> HttpRequest.split_amp (s ++ "&"%char :: t) = s :: HttpRequest.split_amp t.
Proof.
  induction s as [|c s IH]; intros Hs; [done|]. apply not_elem_of_cons in Hs as [Hc Hs].
  cbn [app HttpRequest.split_amp]. rewrite bool_decide_false by congruence. by rewrite IH.
Qed.

Lemma split_amp_last s : "&"%char ∉ s -> HttpRequest.split_amp s = [s].
Proof.
  induction s as [|c s IH]; intros Hs; [done|]. apply not_elem_of_cons in Hs as [Hc Hs].
  cbn [HttpRequest.split_amp]. rewrite bool_decide_false by congruence. by rewrite IH.
Qed.

Lemma split_render kv l :
  Forall (fun kv => good_key kv.1) (kv :: l) ->
  HttpRequest.split_amp (render_query kv l) = render_param <$> (kv :: l).
Proof.
  revert kv. induction l as [|kv' l IH]; intros kv [Hk Hl]%Forall_cons; cbn [render_query].
  - by apply split_amp_last, render_param_no_amp.
  - rewrite split_amp_app by (by apply render_param_no_amp). by rewrite IH.
Qed.

Lemma urlDecode_urlEncode s : HttpRequest.urlDecode (urlEncode s) = Some s.
Proof.
  rewrite <- (app_nil_r (urlEncode s)). rewrite (urlDecode_urlEncode_app s [] []) by done.
  by rewrite app_nil_r.
Qed.

Lemma find_param_render key l :
  Forall (fun kv => good_key kv.1) l ->
  HttpRequest.find_param key (render_param <$> l) = Some (first_param key l).
Proof.
  induction l as [|[k v] l IH]; intros Hl; [done|]. apply Forall_cons in Hl as [[Hk _] Hl].
  cbn [fmap list_fmap HttpRequest.find_param first_param]. change (render_param (k, v)) with (k ++ ("="%char :: urlEncode v)).
  cbn [fst snd] in Hk. cbv zeta. rewrite !(find_char_app "="%char k) by done. rewrite length_app. cbn [length].
  destruct (Nat.ltb_spec (length k) (length k + S (length (urlEncode v)))); [|lia].
  rewrite take_app_length. case_bool_decide; [|by apply IH].
  assert (drop (S (length k)) (k ++ ("="%char :: urlEncode v)) = urlEncode v) as ->
    by (by rewrite <- Nat.add_1_r, <- drop_drop, drop_app_length).
  by rewrite urlDecode_urlEncode.
Qed.

Lemma getQuery_render r key d kv l :
  Forall (fun kv => good_key kv.1) (kv :: l) ->
  HttpRequest.query_ r = "?"%char :: render_query kv l ->
  HttpRequest.getQuery r key d = Some (default d (first_param key (kv :: l))).
Proof.
  intros Hl Hq. unfold HttpRequest.getQuery. rewrite Hq, bool_decide_true by done.
  by rewrite split_render, find_param_render.
Qed.
