(* ===== verification/HttpContext.v ===== *)
(** * [HttpContext]: the incremental request parser (src/network/http/HttpContext.cpp)

    The parser state and its steps over a [Buffer].  The body of the main
    [while] loop is [parse_step]; [parseRequest] iterates it.  [C] is the type
    of what handlers store in [customContext_]. *)

From S2P Require Import Prelude CxxString TimeStamp ByteBuffer HttpRequest.

Inductive ParseState := kExpectRequestLine | kExpectHeaders | kExpectBody | kGotAll.
Inductive ParseResult := kError | kNeedMore | kHeadersComplete | kGotRequest.

#[export] Instance ParseState_eq_dec : EqDecision ParseState.
Proof. solve_decision. Defined.
#[export] Instance ParseResult_eq_dec : EqDecision ParseResult.
Proof. solve_decision. Defined.

(** The outcome of running a loop of the source: its result, an [assert]
    that fails, a read past the end of the buffer's memory, or a budget of
    iterations that is used up. *)
Inductive run_result (A : Type) :=
  | Finished (a : A)
  | Aborted
  | Overrun
  | OutOfFuel.
Arguments Finished {A} a.
Arguments Aborted {A}.
Arguments Overrun {A}.
Arguments OutOfFuel {A}.

Module HttpContext.
Section context.
Context {C : Type}.

Record t := mk {
  state_ : ParseState;
  request_ : HttpReq;
  contentLength_ : Z;
  bodyReceived_ : Z;
  isChunked_ : bool;
  customContext_ : option C
}.

Definition create : t := mk kExpectRequestLine HttpRequest.create 0 0 false None.

Definition setState (c : t) (s : ParseState) : t :=
  mk s (request_ c) (contentLength_ c) (bodyReceived_ c) (isChunked_ c) (customContext_ c).
Definition setRequest (c : t) (r : HttpReq) : t :=
  mk (state_ c) r (contentLength_ c) (bodyReceived_ c) (isChunked_ c) (customContext_ c).
Definition setContentLength (c : t) (n : Z) : t :=
  mk (state_ c) (request_ c) n (bodyReceived_ c) (isChunked_ c) (customContext_ c).
Definition setBodyReceived (c : t) (n : Z) : t :=
  mk (state_ c) (request_ c) (contentLength_ c) n (isChunked_ c) (customContext_ c).
Definition setChunked (c : t) (b : bool) : t :=
  mk (state_ c) (request_ c) (contentLength_ c) (bodyReceived_ c) b (customContext_ c).
Definition setContext (c : t) (x : option C) : t :=
  mk (state_ c) (request_ c) (contentLength_ c) (bodyReceived_ c) (isChunked_ c) x.

Definition gotAll (c : t) : bool := bool_decide (state_ c = kGotAll).
Definition expectBody (c : t) : bool := bool_decide (state_ c = kExpectBody).
Definition headersComplete (c : t) : bool := expectBody c || gotAll c.
(** A [size_t] subtraction. *)
Definition remainingLength (c : t) : Z := wrap 64 (contentLength_ c - bodyReceived_ c).

Definition reset (c : t) : t :=
  mk kExpectRequestLine (fst (HttpRequest.swap (request_ c) HttpRequest.create)) 0 0 false None.

(** [processRequestLine] on the line [[begin, end)]: the updated request and
    whether the line is well formed; [None] when [setMethod]'s [assert] fails. *)
Definition processRequestLine (r : HttpReq) (line : bytes) : option (HttpReq * bool) :=
  let sp := find_char " "%char line in
  if sp =? length line then Some (r, false)
  else
    '(r1, ok) ← HttpRequest.setMethod r (take sp line);
    if negb ok then Some (r1, false)
    else
      let rest := drop (S sp) line in
      let sp2 := find_char " "%char rest in
      if sp2 =? length rest then Some (r1, false)
      else
        let target := take sp2 rest in
        let q := find_char "?"%char target in
        let r2 :=
          if negb (q =? length target)
          then HttpRequest.setQuery (HttpRequest.setPath r1 (take q target)) (drop q target)
          else HttpRequest.setPath r1 target in
        let vers := drop (S sp2) rest in
        if (length vers =? 8) && bool_decide (take 7 vers = $"HTTP/1.") then
          match drop 7 vers with
          | c :: _ =>
              if bool_decide (c = "1"%char) then Some (HttpRequest.setVersion r2 kHttp11, true)
              else if bool_decide (c = "0"%char) then Some (HttpRequest.setVersion r2 kHttp10, true)
              else Some (r2, false)
          | [] => Some (r2, false)
          end
        else Some (r2, false).

(** One header line, whose colon is at index [colon].  [mem] is the memory
    that starts at the line: [atoi] reads on from the value until the first
    character that is not part of a number.  [None]: it reads past the end of
    the memory. *)
Definition processHeaderLine (c : t) (line mem : bytes) (colon : nat) : option t :=
  let c1 := setRequest c (HttpRequest.addHeader (request_ c) line colon) in
  let field := take colon line in
  let value := skip_spaces (drop (S colon) line) in
  if strcaseeq field ($"Content-Length") then
    let from := drop (length line - length value) mem in
    if bool_decide (atoi_rest from = []) then None else Some (setContentLength c1 (wrap 64 (atoi from)))
  else if strcaseeq field ($"Transfer-Encoding") then
    if strcaseeq value ($"chunked") then Some (setChunked c1 true) else Some c1
  else Some c1.

(** [processHeaders]: header lines up to the first line without a colon, which
    ends the headers.  Every turn takes at least the two bytes of a CRLF, so
    [S (readableBytes)] turns are enough. *)
Fixpoint processHeaders (fuel : nat) (c : t) (b : Buffer.t) : run_result (t * Buffer.t) :=
  match fuel with
  | O => OutOfFuel
  | S fuel' =>
      match Buffer.findCRLF b with
      | None => Finished (c, b)
      | Some crlf =>
          let line := take (crlf - Buffer.readIndex_ b) (Buffer.content b) in
          let colon := find_char ":"%char line in
          match Buffer.retrieveUntil b (crlf + 2) with
          | None => Aborted
          | Some b' =>
              if negb (colon =? length line) then
                let mem := drop (Buffer.readIndex_ b) (Buffer.buffer_ b) in
                match processHeaderLine c line mem colon with
                | Some c' => processHeaders fuel' c' b'
                | None => Overrun
                end
              else Finished (setState c kExpectBody, b')
          end
      end
  end.

(** [processBody]: as much of the body as the buffer holds; whether it is
    complete.  A chunked body is never complete. *)
Definition processBody (c : t) (b : Buffer.t) : option (t * Buffer.t * bool) :=
  if isChunked_ c then Some (c, b, false)
  else
    let readable := Buffer.readableBytes b in
    let toRead := Z.to_nat (Z.min (Z.of_nat readable) (remainingLength c)) in
    '(c', b') ← (if 0 <? toRead then
                   b' ← Buffer.retrieve b toRead;
                   Some (setBodyReceived
                           (setRequest c (HttpRequest.appendToBody (request_ c)
                                            (take toRead (Buffer.content b))))
                           (bodyReceived_ c + Z.of_nat toRead)%Z, b')
                 else Some (c, b));
    Some (c', b', (contentLength_ c' <=? bodyReceived_ c')%Z).

(** One turn of the [while (hasMore)] loop: context, buffer, [result], [hasMore]. *)
Definition parse_step (now : TimeStamp.t) (c : t) (b : Buffer.t) (result : ParseResult) :
    run_result (t * Buffer.t * ParseResult * bool) :=
  match state_ c with
  | kExpectRequestLine =>
      match Buffer.findCRLF b with
      | None => Finished (c, b, result, false)
      | Some crlf =>
          let line := take (crlf - Buffer.readIndex_ b) (Buffer.content b) in
          match processRequestLine (request_ c) line with
          | None => Aborted
          | Some (r, true) =>
              match Buffer.retrieveUntil b (crlf + 2) with
              | None => Aborted
              | Some b' =>
                  Finished (setState (setRequest c (HttpRequest.setReceiveTime r now)) kExpectHeaders,
                            b', result, true)
              end
          | Some (r, false) => Finished (setRequest c r, b, kError, false)
          end
      end
  | kExpectHeaders =>
      match processHeaders (S (Buffer.readableBytes b)) c b with
      | OutOfFuel => OutOfFuel
      | Aborted => Aborted
      | Overrun => Overrun
      | Finished (c', b') =>
          if bool_decide (state_ c' = kExpectBody) then
            if (contentLength_ c' =? 0)%Z && negb (isChunked_ c') then
              Finished (setState c' kGotAll, b', kGotRequest, false)
            else if 0 <? Buffer.readableBytes b' then Finished (c', b', kHeadersComplete, true)
            else Finished (c', b', kHeadersComplete, false)
          else Finished (c', b', result, true)
      end
  | kExpectBody =>
      match processBody c b with
      | None => Aborted
      | Some (c', b', true) => Finished (setState c' kGotAll, b', kGotRequest, false)
      | Some (c', b', false) =>
          Finished (c', b',
                    if (bodyReceived_ c' <? contentLength_ c')%Z then kHeadersComplete else result,
                    false)
      end
  | kGotAll => Finished (c, b, result, true)
  end.

Fixpoint parse_loop (fuel : nat) (now : TimeStamp.t) (c : t) (b : Buffer.t)
    (result : ParseResult) : run_result (t * Buffer.t * ParseResult) :=
  match fuel with
  | O => OutOfFuel
  | S fuel' =>
      match parse_step now c b result with
      | Finished (c', b', result', true) => parse_loop fuel' now c' b' result'
      | Finished (c', b', result', false) => Finished (c', b', result')
      | Aborted => Aborted
      | Overrun => Overrun
      | OutOfFuel => OutOfFuel
      end
  end.

Definition parseRequest (fuel : nat) (now : TimeStamp.t) (c : t) (b : Buffer.t) :
    run_result (t * Buffer.t * ParseResult) :=
  parse_loop fuel now c b kNeedMore.

End context.
Arguments t : clear implicits.
End HttpContext.
