(* ===== verification/HttpParse.v ===== *)
(** * Correctness of the request parser

    What [parseRequest] does with a complete request (it inverts the client's
    rendering), with a partial header block (it does not return), and what
    [reset] leaves for the next request of the connection. *)

From S2P Require Import Prelude CxxString TimeStamp ByteBuffer HttpRequest HttpContext.

Import HttpContext.

(** ** Lines *)

Lemma search_CRLF line rest :
  chr 13 ∉ line -> search Buffer.kCRLF (line ++ Buffer.kCRLF ++ rest) = Some (length line).
Proof.
  intros Hn. induction line as [|c l IH]; [done|].
  apply not_elem_of_cons in Hn as [Hc Hl].
  change (search _ _) with
    (if prefixb Buffer.kCRLF (c :: l ++ Buffer.kCRLF ++ rest) then Some 0
     else S <$> search Buffer.kCRLF (l ++ Buffer.kCRLF ++ rest)).
  rewrite IH by done. cbn [prefixb Buffer.kCRLF].
  by rewrite bool_decide_false.
Qed.

(** A line at the head of the buffer: where it ends, what it is, and the
    buffer after taking it. *)
Lemma buffer_line b line rest :
  Buffer.holds b (line ++ Buffer.kCRLF ++ rest) -> chr 13 ∉ line ->
  Buffer.findCRLF b = Some (Buffer.readIndex_ b + length line) /\
  take (Buffer.readIndex_ b + length line - Buffer.readIndex_ b) (Buffer.content b) = line /\
  exists b', Buffer.retrieveUntil b (Buffer.readIndex_ b + length line + 2) = Some b' /\
             Buffer.holds b' rest.
Proof.
  intros [Hwf Hc] Hn. split; [|split].
  - unfold Buffer.findCRLF. by rewrite Hc, search_CRLF.
  - rewrite Hc. replace (_ + _ - _) with (length line) by lia. by rewrite take_app_length.
  - rewrite <- Nat.add_assoc.
    destruct (Buffer.retrieveUntil_spec b (length line + 2)) as (b' & Hr & Hb'); [done| |].
    { rewrite <- Buffer.length_content, Hc, !length_app by done. simpl. lia. }
    exists b'. split; [done|]. rewrite Hc in Hb'.
    rewrite Nat.add_comm, <- drop_drop in Hb'.
    assert (drop (length line + 2) (line ++ Buffer.kCRLF ++ rest) = rest) as E.
    { by rewrite <- drop_drop, drop_app_length. }
    rewrite drop_drop in Hb'. rewrite (Nat.add_comm 2) in Hb'. by rewrite E in Hb'.
Qed.

Lemma mem_of_holds b c :
  Buffer.holds b c -> exists g, drop (Buffer.readIndex_ b) (Buffer.buffer_ b) = c ++ g.
Proof.
  intros [_ <-]. unfold Buffer.content. eexists. symmetry. apply take_drop.
Qed.

(** ** The request line *)

(** A request target as the server splits it: path, then the query with its
    question mark, or nothing. *)
Record good_target (path query : bytes) : Prop := {
  path_no_space : " "%char ∉ path;
  path_no_question : "?"%char ∉ path;
  query_no_space : " "%char ∉ query;
  path_no_cr : chr 13 ∉ path;
  query_no_cr : chr 13 ∉ query;
  query_question : query = [] \/ exists q, query = "?"%char :: q
}.

Definition version_text (v : Version) : bytes :=
  match v with kHttp11 => $"HTTP/1.1" | kHttp10 => $"HTTP/1.0" | kUnknown => [] end.

Definition request_line (m : Method) (path query : bytes) (v : Version) : bytes :=
  methodString m ++ " "%char :: (path ++ query) ++ " "%char :: version_text v.

Lemma methodString_no_space m : " "%char ∉ methodString m.
Proof. destruct m; apply (bool_decide_unpack _); vm_compute; done. Qed.

Lemma method_of_methodString m : method_of (methodString m) = m.
Proof. by destruct m. Qed.

Section request_line.
Context {C : Type}.

Lemma find_char_target path query :
  good_target path query ->
  find_char "?"%char (path ++ query) = length path.
Proof.
  intros [? Hp ? ? ? [->|[q ->]]].
  - rewrite app_nil_r. by apply find_char_absent.
  - by apply find_char_app.
Qed.

Lemma processRequestLine_spec (r : HttpReq) m path query v :
  HttpRequest.method_ r = kInvalid -> m <> kInvalid -> v <> kUnknown ->
  good_target path query ->
  processRequestLine r (request_line m path query v) =
  Some (HttpRequest.mk m v path (if bool_decide (query = []) then HttpRequest.query_ r else query)
          (HttpRequest.body_ r) (HttpRequest.receiveTime_ r) (HttpRequest.headers_ r)
          (HttpRequest.pathParams_ r), true).
Proof.
  intros Hr Hm Hv Ht. unfold processRequestLine, request_line.
  rewrite find_char_app by apply methodString_no_space.
  rewrite length_app; cbn [length].
  nat_test.
  rewrite take_app_length. unfold HttpRequest.setMethod.
  rewrite method_of_methodString.
  rewrite (bool_decide_true (HttpRequest.method_ r = kInvalid)) by done.
  rewrite (bool_decide_false (m = kInvalid)) by done. cbn [negb mbind option_bind].
  replace (drop (S (length (methodString m))) _)
    with ((path ++ query) ++ " "%char :: version_text v); cycle 1.
  { rewrite <- Nat.add_1_r, <- drop_drop, drop_app_length. done. }
  rewrite find_char_app by (rewrite elem_of_app; intros []; by destruct Ht).
  rewrite (length_app (path ++ query)); cbn [length].
  nat_test.
  rewrite take_app_length, find_char_target by done.
  replace (drop (S (length (path ++ query))) _) with (version_text v); cycle 1.
  { rewrite <- Nat.add_1_r, <- drop_drop, drop_app_length. done. }
  rewrite length_app.
  destruct Ht as [? ? ? ? ? [->|[q ->]]].
  - rewrite (bool_decide_true ([] = [])) by done. cbn [length]. rewrite Nat.add_0_r, Nat.eqb_refl.
    cbn [negb]. rewrite app_nil_r. destruct v; done.
  - rewrite (bool_decide_false ("?"%char :: q = [])) by done. cbn [length].
    nat_test. cbn [negb]. rewrite take_app_length, drop_app_length. destruct v; done.
Qed.
End request_line.

Lemma request_line_no_cr m path query v :
  good_target path query -> chr 13 ∉ request_line m path query v.
Proof.
  intros [? ? ? ? ? _]. unfold request_line. rewrite !elem_of_app, !elem_of_cons, !elem_of_app.
  assert (chr 13 ∉ methodString m) by (destruct m; apply (bool_decide_unpack _); vm_compute; done).
  rewrite elem_of_cons.
  assert (chr 13 ∉ version_text v) by (destruct v; apply (bool_decide_unpack _); vm_compute; done).
  intuition discriminate.
Qed.

(** ** Header lines *)

Definition header : Type := bytes * bytes.

Definition header_line (h : header) : bytes := h.1 ++ ":"%char :: " "%char :: h.2.

(** A header as a client sends it: no colon in the name, no carriage return,
    and a value without surrounding white space. *)
Record good_header (h : header) : Prop := {
  name_no_colon : ":"%char ∉ h.1;
  name_no_cr : chr 13 ∉ h.1;
  value_no_cr : chr 13 ∉ h.2;
  value_trimmed : HttpRequest.rtrim h.2 = h.2;
  value_no_lead : skip_spaces h.2 = h.2
}.

(** A header that does not frame the body. *)
Definition plain (h : header) : Prop :=
  strcaseeq h.1 ($"Content-Length") = false /\ strcaseeq h.1 ($"Transfer-Encoding") = false.

Definition render_headers (hs : list header) : bytes :=
  concat ((fun h => header_line h ++ Buffer.kCRLF) <$> hs).

Definition add_headers (m : gmap bytes bytes) (hs : list header) : gmap bytes bytes :=
  foldl (fun m h => <[h.1 := h.2]> m) m hs.

Lemma header_line_colon h : good_header h -> find_char ":"%char (header_line h) = length h.1.
Proof. intros [? _ _ _ _]. by apply find_char_app. Qed.

Lemma header_line_value h :
  good_header h -> skip_spaces (drop (S (length h.1)) (header_line h)) = h.2.
Proof.
  intros [_ _ _ _ Hv]. unfold header_line.
  rewrite <- Nat.add_1_r, <- drop_drop, drop_app_length. done.
Qed.

Lemma header_line_no_cr h : good_header h -> chr 13 ∉ header_line h.
Proof.
  intros [_ ? ? _ _]. unfold header_line. rewrite elem_of_app, !elem_of_cons.
  intuition discriminate.
Qed.

Lemma header_line_length h : length h.1 < length (header_line h).
Proof. unfold header_line. rewrite length_app. simpl. lia. Qed.

Section headers.
Context {C : Type}.
Implicit Types (c : HttpContext.t C) (b : Buffer.t) (h : header).

Definition with_headers c (hs : list header) : HttpContext.t C :=
  setRequest c (HttpRequest.setHeaders (request_ c)
                  (add_headers (HttpRequest.headers_ (request_ c)) hs)).

Lemma with_headers_nil c : with_headers c [] = c.
Proof. destruct c as [? []]. done. Qed.

Lemma with_headers_cons c h hs : with_headers (with_headers c [h]) hs = with_headers c (h :: hs).
Proof. done. Qed.

Lemma processHeaderLine_plain c h mem :
  good_header h -> plain h -> processHeaderLine c (header_line h) mem (length h.1) = Some (with_headers c [h]).
Proof.
  intros Hg [Hcl Hte]. unfold processHeaderLine.
  assert (take (length h.1) (header_line h) = h.1) as E by apply take_app_length.
  rewrite E, Hcl, Hte. unfold with_headers, HttpRequest.addHeader. do 3 f_equal.
  rewrite E, header_line_value by done. destruct Hg as [_ _ _ Ht _]. by rewrite Ht.
Qed.

(** One turn of the loop of [processHeaders]. *)
Lemma processHeaders_step fuel c b h rest :
  Buffer.holds b (header_line h ++ Buffer.kCRLF ++ rest) -> good_header h ->
  exists b' g, Buffer.holds b' rest /\
    processHeaders (S fuel) c b =
    match processHeaderLine c (header_line h) (header_line h ++ Buffer.kCRLF ++ rest ++ g) (length h.1) with
    | Some c' => processHeaders fuel c' b'
    | None => Overrun
    end.
Proof.
  intros Hb Hg.
  destruct (buffer_line b _ _ Hb (header_line_no_cr h Hg)) as (Hf & Hl & b' & Hr & Hb').
  destruct (mem_of_holds _ _ Hb) as [g Hmem].
  exists b', g. split; [done|]. cbn [processHeaders].
  rewrite Hf, Hl, Hr, header_line_colon, Hmem by done.
  pose proof (header_line_length h). nat_test. cbn [negb]. by rewrite <- !app_assoc.
Qed.

Lemma processHeaders_plain hs fuel c b rest :
  Buffer.holds b (render_headers hs ++ rest) ->
  Forall good_header hs -> Forall plain hs ->
  exists b', Buffer.holds b' rest /\
    processHeaders (length hs + fuel) c b = processHeaders fuel (with_headers c hs) b'.
Proof.
  intros Hb Hg Hp. revert c b Hb. induction hs as [|h hs IH]; intros c b Hb.
  - exists b. rewrite with_headers_nil. done.
  - apply Forall_cons in Hg as [Hg Hgs]. apply Forall_cons in Hp as [Hp Hps].
    unfold render_headers in Hb. cbn [fmap list_fmap concat] in Hb.
    rewrite <- !app_assoc in Hb.
    destruct (processHeaders_step (length hs + fuel) c b h _ Hb Hg) as (b1 & g & Hb1 & E).
    destruct (IH Hgs Hps (with_headers c [h]) b1 Hb1) as (b' & Hb' & E').
    exists b'. split; [done|]. cbn [length Nat.add].
    rewrite E, processHeaderLine_plain by done. by rewrite E'.
Qed.

(** The blank line ends the headers. *)
Lemma processHeaders_end fuel c b rest :
  Buffer.holds b (Buffer.kCRLF ++ rest) ->
  exists b', Buffer.holds b' rest /\
    processHeaders (S fuel) c b = Finished (setState c kExpectBody, b').
Proof.
  intros Hb.
  destruct (buffer_line b [] rest Hb (not_elem_of_nil _)) as (Hf & Hl & b' & Hr & Hb').
  exists b'. split; [done|]. cbn [processHeaders]. by rewrite Hf, Hl, Hr.
Qed.
End headers.

(** ** Content-Length *)

Lemma scan_digits_stop acc s c t :
  isdigit c = false -> Forall (fun c => isdigit c = true) s ->
  scan_digits acc (s ++ c :: t) = (fst (scan_digits acc s), c :: t).
Proof.
  intros Hc Hs. rewrite scan_digits_app by done. cbn [scan_digits]. by rewrite Hc.
Qed.

Lemma to_string_nonneg n : (0 <= n)%Z -> exists c s,
  to_string n = c :: s /\ Forall (fun c => isdigit c = true) (c :: s) /\
  fst (scan_digits 0 (c :: s)) = n.
Proof.
  intros Hn. unfold to_string. destruct (Z.ltb_spec n 0); [lia|].
  rewrite Z.abs_eq by done. set (fuel := S _).
  destruct (udigits fuel n []) as [|c s] eqn:E; [by apply udigits_nonempty in E|].
  exists c, s. split; [done|]. rewrite <- E. split; [apply udigits_digits|].
  apply scan_udigits. by apply log2_fuel.
Qed.

Lemma atoi_to_string n c t :
  (0 <= n < 2 ^ 31)%Z -> isdigit c = false -> atoi (to_string n ++ c :: t) = n.
Proof.
  intros Hn Hc. destruct (to_string_nonneg n) as (d & s & -> & Hs & Hv); [lia|].
  pose proof Hs as [Hd _]%Forall_cons.
  unfold atoi, strtoz. cbn [app skip_spaces]. rewrite isdigit_not_space by done.
  rewrite !bool_decide_false by (intros ->; done). cbv beta iota zeta. rewrite Hd.
  rewrite (app_comm_cons s (c :: t) d), scan_digits_stop, Hv by done. cbn [fst].
  rewrite Z.min_r, Z.max_r by lia. apply swrap_small; lia.
Qed.

Lemma to_string_no_space n : (0 <= n)%Z -> skip_spaces (to_string n) = to_string n.
Proof.
  intros. destruct (to_string_nonneg n) as (c & s & -> & Hs & _); [done|].
  apply Forall_cons in Hs as [? _]. simpl. by rewrite isdigit_not_space.
Qed.

Lemma skip_spaces_reverse_digits s :
  Forall (fun c => isdigit c = true) s -> skip_spaces (reverse s) = reverse s.
Proof.
  intros H. destruct (reverse s) as [|c r] eqn:E; [done|]. simpl.
  rewrite isdigit_not_space; [done|]. rewrite Forall_forall in H. apply H.
  apply elem_of_reverse. rewrite E. left.
Qed.

Lemma content_length_good n : (0 <= n)%Z -> good_header ($"Content-Length", to_string n).
Proof.
  intros Hn. destruct (to_string_nonneg n Hn) as (c & s & E & Hs & _).
  split; cbn [fst snd].
  - apply (bool_decide_unpack _). vm_compute. done.
  - apply (bool_decide_unpack _). vm_compute. done.
  - rewrite E. intros Hin. rewrite Forall_forall in Hs. apply Hs in Hin. done.
  - unfold HttpRequest.rtrim. rewrite E, skip_spaces_reverse_digits by done.
    apply reverse_involutive.
  - by apply to_string_no_space.
Qed.

(** ** A complete request *)

(** What a client writes: the request line, its headers, then the length of
    the body and the body. *)
Definition complete_request (m : Method) (path query : bytes) (v : Version)
    (hs : list header) (body : bytes) : bytes :=
  request_line m path query v ++ Buffer.kCRLF ++
  render_headers hs ++
  header_line ($"Content-Length", to_string (Z.of_nat (length body))) ++ Buffer.kCRLF ++
  Buffer.kCRLF ++ body.

Lemma length_render_headers hs : length hs <= length (render_headers hs).
Proof.
  induction hs as [|h hs IH]; [done|]. unfold render_headers in *.
  cbn [fmap list_fmap concat length]. rewrite !length_app. simpl. lia.
Qed.

Section parse.
Context {C : Type}.
Implicit Types (c : HttpContext.t C) (b : Buffer.t).

(** The state in which a request is expected. *)
Record fresh c : Prop := {
  fresh_state : state_ c = kExpectRequestLine;
  fresh_method : HttpRequest.method_ (request_ c) = kInvalid;
  fresh_body : HttpRequest.body_ (request_ c) = [];
  fresh_length : contentLength_ c = 0%Z;
  fresh_received : bodyReceived_ c = 0%Z;
  fresh_chunked : isChunked_ c = false
}.

Lemma with_headers_snoc c hs h : with_headers (with_headers c hs) [h] = with_headers c (hs ++ [h]).
Proof. unfold with_headers, add_headers, setRequest. simpl. by rewrite foldl_app. Qed.

(** The Content-Length line sets the expected length of the body. *)
Lemma processHeaderLine_content_length c n t :
  (0 <= n < 2 ^ 31)%Z ->
  let h := ($"Content-Length", to_string n) in
  processHeaderLine c (header_line h) (header_line h ++ Buffer.kCRLF ++ t) (length h.1) =
  Some (setContentLength (with_headers c [h]) n).
Proof.
  intros Hn h. assert (good_header h) as Hh by (apply content_length_good; lia).
  unfold processHeaderLine.
  assert (take (length h.1) (header_line h) = h.1) as E by apply take_app_length.
  rewrite E. change (strcaseeq h.1 ($"Content-Length")) with true. cbv iota.
  rewrite header_line_value by done.
  replace (drop _ _) with (to_string n ++ chr 13 :: chr 10 :: t); cycle 1.
  { unfold header_line.
    change (h.1 ++ ":"%char :: " "%char :: h.2) with ((h.1 ++ [":"%char; " "%char]) ++ h.2).
    rewrite length_app, Nat.add_sub, <- app_assoc. by rewrite drop_app_length. }
  rewrite bool_decide_false; cycle 1.
  { destruct (to_string_nonneg n) as (d & v & -> & [Hd _]%Forall_cons & _); [lia|].
    apply atoi_rest_stops; [by apply isdigit_not_space|done]. }
  rewrite atoi_to_string, wrap_small by (try done; lia).
  do 2 f_equal. unfold with_headers, HttpRequest.addHeader. do 2 f_equal.
  rewrite E, header_line_value by done. destruct Hh as [_ _ _ Ht _]. by rewrite Ht.
Qed.

Lemma processHeaders_all hs n fuel c b rest :
  let h := ($"Content-Length", to_string n) in
  Buffer.holds b (render_headers hs ++ header_line h ++ Buffer.kCRLF ++ Buffer.kCRLF ++ rest) ->
  Forall good_header hs -> Forall plain hs -> (0 <= n < 2 ^ 31)%Z ->
  length hs + 2 <= fuel ->
  exists b', Buffer.holds b' rest /\
    processHeaders fuel c b =
    Finished (setState (setContentLength (with_headers c (hs ++ [h])) n) kExpectBody, b').
Proof.
  intros h Hb Hg Hp Hn Hf. replace fuel with (length hs + S (S (fuel - length hs - 2))) by lia.
  destruct (processHeaders_plain hs (S (S (fuel - length hs - 2))) c b _ Hb Hg Hp)
    as (b1 & Hb1 & ->).
  destruct (processHeaders_step (S (fuel - length hs - 2)) (with_headers c hs) b1 h _ Hb1)
    as (b2 & g & Hb2 & ->); [apply content_length_good; lia|].
  pose proof (processHeaderLine_content_length (with_headers c hs) n
                ((Buffer.kCRLF ++ rest) ++ g) Hn) as E. cbv zeta in E. fold h in E.
  rewrite E, with_headers_snoc.
  destruct (processHeaders_end (fuel - length hs - 2)
    (setContentLength (with_headers c (hs ++ [h])) n) b2 _ Hb2) as (b3 & Hb3 & E3).
  by exists b3.
Qed.

(** The body, once all of it is in the buffer. *)
Lemma processBody_all c b body rest :
  Buffer.holds b (body ++ rest) -> isChunked_ c = false -> bodyReceived_ c = 0%Z ->
  contentLength_ c = Z.of_nat (length body) -> (Z.of_nat (length body) < 2 ^ 31)%Z ->
  body <> [] ->
  exists b', Buffer.holds b' rest /\
    processBody c b =
    Some (setBodyReceived (setRequest c (HttpRequest.appendToBody (request_ c) body))
            (Z.of_nat (length body)), b', true).
Proof.
  intros Hb Hch Hbr Hcl Hlt Hne. pose proof Hb as [Hwf Hc].
  unfold processBody, remainingLength. rewrite Hch, Hbr, Hcl, Z.sub_0_r, wrap_small by lia.
  rewrite <- (Buffer.length_content b Hwf), Hc, length_app.
  rewrite Z.min_r by lia. rewrite Nat2Z.id.
  destruct body as [|x body]; [done|]. set (bd := x :: body) in *.
  assert (0 < length bd) by (subst bd; simpl; lia). nat_test.
  destruct (Buffer.retrieve_spec b (length bd) Hwf) as (b' & -> & Hb').
  { rewrite <- Buffer.length_content, Hc, length_app by done. lia. }
  exists b'. rewrite Hc, drop_app_length in Hb'. split; [done|].
  rewrite take_app_length. cbn. by rewrite Hcl, Z.leb_refl.
Qed.

(** What the parser delivers for [complete_request]. *)
Definition parsed c now m path query v hs body : HttpReq :=
  HttpRequest.mk m v path (if bool_decide (query = []) then HttpRequest.query_ (request_ c) else query)
    body now
    (add_headers (HttpRequest.headers_ (request_ c))
       (hs ++ [($"Content-Length", to_string (Z.of_nat (length body)))]))
    (HttpRequest.pathParams_ (request_ c)).

Lemma parse_complete_request fuel now c b m path query v hs body rest :
  fresh c -> m <> kInvalid -> v <> kUnknown -> good_target path query ->
  Forall good_header hs -> Forall plain hs -> (Z.of_nat (length body) < 2 ^ 31)%Z ->
  Buffer.holds b (complete_request m path query v hs body ++ rest) ->
  exists c' b', parseRequest (S (S (S fuel))) now c b = Finished (c', b', kGotRequest) /\
    state_ c' = kGotAll /\ request_ c' = parsed c now m path query v hs body /\
    customContext_ c' = customContext_ c /\ Buffer.holds b' rest.
Proof.
  intros [Hst Hme Hbo Hcl Hbr Hch] Hm Hv Ht Hg Hp Hlen Hb.
  unfold complete_request in Hb. rewrite <- !app_assoc in Hb.
  destruct (buffer_line b _ _ Hb (request_line_no_cr m path query v Ht))
    as (Hf & Hl & b1 & Hr & Hb1).
  unfold parseRequest. cbn [parse_loop]. unfold parse_step at 1.
  rewrite Hst, Hf, Hl, processRequestLine_spec, Hr by done. cbv beta iota zeta.
  set (c1 := setState _ kExpectHeaders).
  pose proof (length_render_headers hs).
  destruct (processHeaders_all hs (Z.of_nat (length body)) (S (Buffer.readableBytes b1)) c1 b1
              (body ++ rest) Hb1 Hg Hp) as (b2 & Hb2 & E); [lia| |].
  { destruct Hb1 as [Hwf Hc]. rewrite <- (Buffer.length_content b1 Hwf), Hc, !length_app.
    simpl. lia. }
  unfold parse_step at 1. change (state_ c1) with kExpectHeaders. cbv iota. rewrite E.
  cbv beta iota. set (c2 := setState _ kExpectBody).
  rewrite (bool_decide_true (state_ c2 = kExpectBody)) by done.
  change (contentLength_ c2) with (Z.of_nat (length body)).
  change (isChunked_ c2) with (isChunked_ c). rewrite Hch, andb_true_r.
  destruct (Z.eqb_spec (Z.of_nat (length body)) 0) as [Hz|Hz].
  - destruct body; [|done]. eexists _, b2. split; [done|].
    split; [done|]. split; [|done]. unfold parsed. simpl. by rewrite Hbo.
  - assert (0 < Buffer.readableBytes b2).
    { destruct Hb2 as [Hwf Hc]. rewrite <- (Buffer.length_content b2 Hwf), Hc, length_app. lia. }
    nat_test. unfold parse_step at 1. change (state_ c2) with kExpectBody. cbv iota.
    destruct (processBody_all c2 b2 body rest Hb2) as (b3 & Hb3 & E3);
      [done|done|done|done|by intros ->|].
    rewrite E3. eexists _, b3. split; [done|]. split; [done|].
    split; [|done]. unfold parsed. simpl. by rewrite Hbo.
Qed.
End parse.

(** ** A request whose headers have not all arrived *)

Lemma search_no_CR s : chr 13 ∉ s -> search Buffer.kCRLF s = None.
Proof.
  induction s as [|c s IH]; [done|]. intros [Hc Hs]%not_elem_of_cons.
  change (search Buffer.kCRLF (c :: s)) with
    (if prefixb Buffer.kCRLF (c :: s) then Some 0 else S <$> search Buffer.kCRLF s).
  rewrite IH by done. cbn [prefixb Buffer.kCRLF]. by rewrite bool_decide_false.
Qed.

Section partial.
Context {C : Type}.
Implicit Types (c : HttpContext.t C) (b : Buffer.t).

(** In [kExpectHeaders] with no line to read, a turn changes nothing and asks
    for another turn. *)
Lemma parse_step_stuck now c b res :
  state_ c = kExpectHeaders -> Buffer.findCRLF b = None ->
  parse_step now c b res = Finished (c, b, res, true).
Proof.
  intros Hs Hf. unfold parse_step. rewrite Hs. cbn [processHeaders]. rewrite Hf.
  by rewrite bool_decide_false by (by rewrite Hs).
Qed.

Lemma parse_loop_stuck fuel now c b res :
  state_ c = kExpectHeaders -> Buffer.findCRLF b = None ->
  parse_loop fuel now c b res = OutOfFuel.
Proof.
  intros Hs Hf. induction fuel as [|f IH]; [done|]. cbn [parse_loop].
  by rewrite parse_step_stuck.
Qed.

Lemma parse_partial_headers fuel now c b m path query v hs part :
  fresh c -> m <> kInvalid -> v <> kUnknown -> good_target path query ->
  Forall good_header hs -> Forall plain hs -> chr 13 ∉ part ->
  Buffer.holds b (request_line m path query v ++ Buffer.kCRLF ++ render_headers hs ++ part) ->
  parseRequest fuel now c b = OutOfFuel.
Proof.
  intros [Hst Hme _ _ _ _] Hm Hv Ht Hg Hp Hpart Hb.
  destruct (buffer_line b _ _ Hb (request_line_no_cr m path query v Ht))
    as (Hf & Hl & b1 & Hr & Hb1).
  destruct fuel as [|fuel]; [done|].
  unfold parseRequest. cbn [parse_loop]. unfold parse_step at 1.
  rewrite Hst, Hf, Hl, processRequestLine_spec, Hr by done. cbv beta iota zeta.
  set (c1 := setState _ kExpectHeaders).
  destruct fuel as [|fuel]; [done|]. cbn [parse_loop]. unfold parse_step at 1.
  change (state_ c1) with kExpectHeaders. cbv iota.
  pose proof (length_render_headers hs).
  assert (length hs <= Buffer.readableBytes b1).
  { destruct Hb1 as [Hwf Hc]. rewrite <- (Buffer.length_content b1 Hwf), Hc, length_app. lia. }
  replace (S (Buffer.readableBytes b1)) with (length hs + S (Buffer.readableBytes b1 - length hs))
    by lia.
  destruct (processHeaders_plain hs (S (Buffer.readableBytes b1 - length hs)) c1 b1 part Hb1 Hg Hp)
    as (b2 & [Hwf2 Hc2] & ->).
  assert (Buffer.findCRLF b2 = None) as Hn
    by (unfold Buffer.findCRLF; by rewrite Hc2, search_no_CR).
  cbn [processHeaders]. rewrite Hn. cbn -[parse_loop]. by apply parse_loop_stuck.
Qed.
End partial.

(** ** The parser's [assert]s *)

Section asserts.
Context {C : Type}.
Implicit Types (c : HttpContext.t C) (b : Buffer.t).

(** A request line is only read into a request without a method. *)
Definition ready c : Prop :=
  state_ c = kExpectRequestLine -> HttpRequest.method_ (request_ c) = kInvalid.

Lemma findCRLF_retrieve b i :
  Buffer.wf b -> Buffer.findCRLF b = Some i ->
  exists b', Buffer.retrieveUntil b (i + 2) = Some b' /\ Buffer.wf b' /\
             Buffer.readableBytes b' + 2 <= Buffer.readableBytes b.
Proof.
  intros Hwf (k & -> & Hk)%Buffer.findCRLF_Some.
  assert (find Buffer.kCRLF (Buffer.content b) 0 = Some k) as Hfind.
  { unfold find. simpl. by rewrite drop_0, Hk. }
  apply find_bound in Hfind. rewrite Buffer.length_content in Hfind by done. simpl in Hfind.
  rewrite <- Nat.add_assoc.
  destruct (Buffer.retrieveUntil_spec b (k + 2) Hwf) as (b' & Hr & Hwf' & Hc'); [lia|].
  exists b'. split; [done|]. split; [done|].
  rewrite <- !Buffer.length_content, Hc', length_drop, Buffer.length_content by done. lia.
Qed.

(** What the line is that [findCRLF] ends. *)
Lemma findCRLF_line b i :
  Buffer.wf b -> Buffer.findCRLF b = Some i ->
  let line := take (i - Buffer.readIndex_ b) (Buffer.content b) in
  exists b' post, Buffer.retrieveUntil b (i + 2) = Some b' /\ Buffer.holds b' post /\
    Buffer.content b = line ++ Buffer.kCRLF ++ post.
Proof.
  intros Hwf (k & -> & Hk)%Buffer.findCRLF_Some line.
  assert (find Buffer.kCRLF (Buffer.content b) 0 = Some k) as Hfind.
  { unfold find. simpl. by rewrite drop_0, Hk. }
  pose proof (find_bound _ _ _ _ Hfind) as Hb. rewrite Buffer.length_content in Hb by done. simpl in Hb.
  destruct (Buffer.retrieveUntil_spec b (k + 2) Hwf) as (b' & Hr & Hb'); [lia|].
  exists b', (drop (k + 2) (Buffer.content b)). rewrite <- Nat.add_assoc. split; [done|]. split; [done|].
  unfold line. replace (Buffer.readIndex_ b + k - Buffer.readIndex_ b) with k by lia.
  exact (find_split _ _ _ _ Hfind).
Qed.

(** A Content-Length line without a value. *)
Definition blank_length (line : bytes) : Prop :=
  exists name sp, line = name ++ ":"%char :: sp /\ strcaseeq name ($"Content-Length") = true /\
    Forall (fun x => isspace x = true) sp.

Definition has_blank_length (s : bytes) : Prop :=
  exists pre line post, s = pre ++ line ++ Buffer.kCRLF ++ post /\ blank_length line.

Lemma has_blank_length_app s t : has_blank_length t -> has_blank_length (s ++ t).
Proof. intros (pre & line & post & -> & Hl). exists (s ++ pre), line, post. by rewrite app_assoc. Qed.

(** Only the value of such a line is read for beyond the line. *)
Lemma processHeaderLine_overrun c line mem post :
  mem = line ++ Buffer.kCRLF ++ post -> find_char ":"%char line <> length line ->
  processHeaderLine c line mem (find_char ":"%char line) = None -> blank_length line.
Proof.
  intros Hmem Hc. unfold processHeaderLine. set (colon := find_char _ _) in *.
  destruct (strcaseeq _ _) eqn:En; [|by repeat case_match]. case_bool_decide as Ha; [|done]. intros _.
  pose proof (find_char_split _ _ Hc) as Hl. fold colon in Hl.
  destruct (skip_spaces_split (drop (S colon) line)) as (sp & Esp & Hsp).
  set (value := skip_spaces _) in *.
  assert (line = (take colon line ++ ":"%char :: sp) ++ value) as Hline
    by (rewrite <- app_assoc; cbn; by rewrite <- Esp).
  exists (take colon line), sp. split; [|done]. rewrite Hline at 1.
  destruct value as [|d v] eqn:Ev; [by rewrite app_nil_r|]. exfalso. apply skip_spaces_head in Ev.
  revert Ha. rewrite Hmem. rewrite Hline at 2. rewrite <- app_assoc.
  replace (length line - length (d :: v)) with (length (take colon line ++ ":"%char :: sp))
    by (rewrite Hline at 2; rewrite (length_app (_ ++ _ :: sp)); lia).
  rewrite drop_app_length. by apply atoi_rest_stops.
Qed.

(** [processHeaders] returns within the budget the parser gives it, and
    never back in [kExpectRequestLine]; or it meets a Content-Length without a
    value. *)
Lemma processHeaders_total fuel c b :
  Buffer.wf b -> Buffer.readableBytes b < fuel -> state_ c = kExpectHeaders ->
  (processHeaders fuel c b = Overrun /\ has_blank_length (Buffer.content b)) \/
  exists c' b', processHeaders fuel c b = Finished (c', b') /\ Buffer.wf b' /\
    Buffer.content b' `suffix_of` Buffer.content b /\
    (state_ c' = kExpectHeaders \/ state_ c' = kExpectBody).
Proof.
  revert c b. induction fuel as [|f IH]; intros c b Hwf Hf Hs; [lia|]. cbn [processHeaders].
  destruct (Buffer.findCRLF b) as [i|] eqn:Hi; [|right; by eauto 7].
  destruct (findCRLF_line b i Hwf Hi) as (b' & post & -> & Hb' & Hcon). pose proof Hb' as [Hwf' Hpost].
  set (line := take _ _) in *. destruct (Nat.eqb_spec (find_char ":"%char line) (length line)) as [Ec|Ec].
  { cbn [negb]. right. do 2 eexists. split; [done|]. split; [done|]. split; [|by right].
    rewrite Hcon, Hpost, app_assoc. by exists (line ++ Buffer.kCRLF). }
  cbn [negb]. destruct (mem_of_holds b _ (conj Hwf eq_refl)) as [g Hg]. rewrite Hg, Hcon.
  destruct (processHeaderLine _ _ _ _) as [c1|] eqn:El.
  - destruct (IH c1 b') as [[E Hbl]|(c' & b2 & E & Hw & Hsuf & Hs')]; [done| | |left|right].
    + rewrite <- !Buffer.length_content in * by done. rewrite Hcon, !length_app, Hpost in *. simpl in *. lia.
    + revert El. unfold processHeaderLine. by repeat case_match; intros [= <-].
    + split; [done|]. rewrite app_assoc. apply has_blank_length_app. by rewrite <- Hpost.
    + exists c', b2. do 2 (split; [done|]). split; [|done]. rewrite Hpost in Hsuf.
      etransitivity; [exact Hsuf|]. exists (line ++ Buffer.kCRLF). by rewrite <- app_assoc.
  - left. split; [done|]. exists [], line, post. split; [done|].
    eapply processHeaderLine_overrun; [|done|exact El]. by rewrite <- !app_assoc.
Qed.

Lemma processBody_total c b :
  Buffer.wf b -> state_ c = kExpectBody ->
  exists c' b' d, processBody c b = Some (c', b', d) /\ Buffer.wf b' /\
    Buffer.content b' `suffix_of` Buffer.content b /\ state_ c' = kExpectBody.
Proof.
  intros Hwf Hs. unfold processBody. destruct (isChunked_ c); [by eauto 9|].
  set (n := Z.to_nat _). assert (n <= Buffer.readableBytes b) by (subst n; lia).
  destruct (0 <? n); [|by eauto 9].
  destruct (Buffer.retrieve_spec b n Hwf) as (b' & -> & Hwf' & Hc'); [done|].
  do 3 eexists. split; [done|]. split; [done|]. split; [|done]. exists (take n (Buffer.content b)).
  by rewrite Hc', take_drop.
Qed.

(** A request line that was refused: it stays in the buffer, and the request
    keeps what was read of it. *)
Definition refused c b : Prop :=
  state_ c = kExpectRequestLine /\
  exists i r, Buffer.findCRLF b = Some i /\ HttpRequest.method_ r = kInvalid /\
    processRequestLine r (take (i - Buffer.readIndex_ b) (Buffer.content b)) = Some (request_ c, false).

(** Refusing it leaves the method that was read; with a method in the request,
    reading the line again fails the [assert] of [setMethod]. *)
Lemma refused_line r line r' :
  HttpRequest.method_ r = kInvalid -> processRequestLine r line = Some (r', false) ->
  processRequestLine r' line =
    if decide (HttpRequest.method_ r' = kInvalid) then Some (r', false) else None.
Proof.
  intros Hr. unfold processRequestLine. set (sp := find_char " "%char line).
  destruct (sp =? length line) eqn:Esp.
  { intros [= <-]. by rewrite decide_True. }
  unfold HttpRequest.setMethod at 1. rewrite (bool_decide_true (HttpRequest.method_ r = kInvalid)) by done.
  cbn [mbind option_bind]. set (k := method_of (take sp line)). destruct (decide (k = kInvalid)) as [Ek|Ek].
  - rewrite (bool_decide_true (k = kInvalid)) by done. cbn [negb]. intros [= <-].
    rewrite decide_True by done. unfold HttpRequest.setMethod. cbn [HttpRequest.method_].
    rewrite (bool_decide_true (k = kInvalid)) by done. cbn [mbind option_bind]. fold k.
    by rewrite (bool_decide_true (k = kInvalid)) by done.
  - rewrite (bool_decide_false (k = kInvalid)) by done. cbn [negb]. intros E.
    assert (HttpRequest.method_ r' = k) as Em by (repeat (case_match; simplify_eq/=; try done)).
    rewrite decide_False by by rewrite Em. unfold HttpRequest.setMethod.
    by rewrite (bool_decide_false (HttpRequest.method_ r' = kInvalid)) by by rewrite Em.
Qed.

Lemma findCRLF_append b i more b2 :
  Buffer.wf b -> Buffer.findCRLF b = Some i -> Buffer.append b more = Some b2 ->
  exists j, Buffer.findCRLF b2 = Some j /\ Buffer.wf b2 /\
    take (j - Buffer.readIndex_ b2) (Buffer.content b2) = take (i - Buffer.readIndex_ b) (Buffer.content b).
Proof.
  intros Hwf (k & -> & Hk)%Buffer.findCRLF_Some Ha.
  destruct (Buffer.append_spec b _ more (conj Hwf eq_refl)) as (b' & Eb & Hwf2 & Hc2).
  assert (b' = b2) as -> by congruence.
  assert (find Buffer.kCRLF (Buffer.content b) 0 = Some k) as Hfind.
  { unfold find. simpl. by rewrite drop_0, Hk. }
  assert (find Buffer.kCRLF (Buffer.content b2) 0 = Some k) as Hfind2
    by (rewrite Hc2; by apply find_extended).
  exists (Buffer.readIndex_ b2 + k). split; [|split; [done|]].
  - apply Buffer.findCRLF_Some. exists k. split; [done|]. by rewrite <- find_from_0.
  - replace (Buffer.readIndex_ b2 + k - Buffer.readIndex_ b2) with k by lia.
    replace (Buffer.readIndex_ b + k - Buffer.readIndex_ b) with k by lia. rewrite Hc2.
    apply take_app_le. apply find_bound in Hfind. lia.
Qed.

(** What the parser does after an error, whatever arrives. *)
Lemma refused_again fuel now c b more b2 :
  Buffer.wf b -> refused c b -> Buffer.append b more = Some b2 ->
  parseRequest (S fuel) now c b2 =
    if decide (HttpRequest.method_ (request_ c) = kInvalid) then Finished (c, b2, kError) else Aborted.
Proof.
  intros Hwf (Hst & i & r & Hi & Hr & E) Ha.
  destruct (findCRLF_append b i more b2 Hwf Hi Ha) as (j & Hj & _ & Hline).
  unfold parseRequest. cbn [parse_loop]. unfold parse_step. rewrite Hst, Hj, Hline.
  rewrite (refused_line r _ _ Hr E). destruct (decide _); [|done].
  do 3 f_equal. by destruct c.
Qed.

Lemma parse_step_safe now c b res :
  ready c -> Buffer.wf b -> res <> kError ->
  (parse_step now c b res = Overrun /\ has_blank_length (Buffer.content b)) \/
  exists c' b' res' more, parse_step now c b res = Finished (c', b', res', more) /\
    Buffer.wf b' /\ Buffer.content b' `suffix_of` Buffer.content b /\
    if decide (res' = kError) then more = false /\ refused c' b' else ready c'.
Proof.
  intros Hrd Hwf Hres. unfold parse_step. destruct (state_ c) eqn:Hs.
  - right. destruct (Buffer.findCRLF b) as [i|] eqn:Hi.
    2: { do 4 eexists. split; [done|]. split; [done|]. split; [done|]. by rewrite decide_False. }
    destruct (findCRLF_line b i Hwf Hi) as (b' & post & Hr & [Hwf' Hp] & Hcon).
    destruct (processRequestLine (request_ c) _) as [[r ok]|] eqn:E.
    + destruct ok.
      * rewrite Hr. do 4 eexists. split; [done|]. split; [done|]. split.
        { rewrite Hcon, Hp, app_assoc. by eexists. }
        rewrite decide_False by done. by intros ?.
      * do 4 eexists. split; [done|]. split; [done|]. split; [done|]. rewrite decide_True by done.
        split; [done|]. split; [done|]. exists i, (request_ c). split; [done|]. split; [by apply Hrd|done].
    + exfalso. revert E. unfold processRequestLine, HttpRequest.setMethod.
      rewrite (bool_decide_true (HttpRequest.method_ (request_ c) = kInvalid)) by auto.
      repeat (case_match; simplify_eq/=; try done).
  - destruct (processHeaders_total (S (Buffer.readableBytes b)) c b)
      as [[-> Hb]|(c' & b' & -> & Hwf' & Hsuf & Hs')]; [done|lia|done|by left|right].
    repeat case_match; (do 4 eexists); (split; [done|]); (split; [done|]); (split; [done|]);
      rewrite decide_False by done; intros ?; simpl in *; destruct Hs'; congruence.
  - right. destruct (processBody_total c b) as (c' & b' & d & -> & Hwf' & Hsuf & Hs'); [done..|].
    destruct d; (do 4 eexists); (split; [done|]); (split; [done|]); (split; [done|]);
      (rewrite decide_False by (try case_match; done)); intros ?; simpl in *; congruence.
  - right. do 4 eexists. split; [done|]. split; [done|]. split; [done|]. rewrite decide_False by done. congruence.
Qed.

(** A step that goes on has not reported an error. *)
Lemma parse_step_more now c b res c' b' res' :
  parse_step now c b res = Finished (c', b', res', true) -> res' = res \/ res' = kHeadersComplete.
Proof. unfold parse_step. repeat (case_match; simplify_eq/=; auto). all: intros; simplify_eq; auto. Qed.

(** What [parseRequest] can come to. *)
Lemma parse_loop_safe fuel now : forall c b res,
  ready c -> Buffer.wf b -> res <> kError ->
  parse_loop fuel now c b res = OutOfFuel \/
  (parse_loop fuel now c b res = Overrun /\ has_blank_length (Buffer.content b)) \/
  exists c' b' res', parse_loop fuel now c b res = Finished (c', b', res') /\ Buffer.wf b' /\
    if decide (res' = kError) then refused c' b' else ready c'.
Proof.
  induction fuel as [|f IH]; intros c b res Hr Hb Hres; [by left|]. cbn [parse_loop].
  destruct (parse_step_safe now c b res Hr Hb Hres) as [[-> Hbl]|(c' & b' & res' & more & E & Hb' & Hsuf & H')].
  { right. left. done. }
  rewrite E. destruct more.
  - assert (res' <> kError) as Hne by (apply parse_step_more in E as [->| ->]; done).
    rewrite decide_False in H' by done.
    destruct (IH c' b' res' H' Hb' Hne) as [->|[[-> Hbl]|Hok]]; [by left| |by right; right].
    right. left. split; [done|]. destruct Hsuf as [pre ->]. by apply has_blank_length_app.
  - right. right. exists c', b', res'. split; [done|]. split; [done|]. destruct (decide _); [by destruct H'|done].
Qed.

(** The states of a connection's parser before an error: messages arrive and
    are parsed, and the handlers change the request and what the context
    stores, or the context is reset. *)
Inductive conversing : HttpContext.t C -> Buffer.t -> Prop :=
  | conv_start b : Buffer.wf b -> conversing create b
  | conv_message c b more b1 fuel now c' b' r :
      conversing c b -> Buffer.append b more = Some b1 ->
      parseRequest fuel now c b1 = Finished (c', b', r) -> r <> kError -> conversing c' b'
  | conv_request c b r :
      conversing c b -> HttpRequest.method_ r = HttpRequest.method_ (request_ c) -> conversing (setRequest c r) b
  | conv_context c b x : conversing c b -> conversing (setContext c x) b
  | conv_reset c b : conversing c b -> conversing (reset c) b.

Lemma conversing_ready c b : conversing c b -> ready c /\ Buffer.wf b.
Proof.
  induction 1 as [b Hb|c b more b1 fuel now c' b' r _ [Hr Hb] Ha E Hne|c b r _ [Hr Hb] Hm|c b x _ [Hr Hb]|c b _ [Hr Hb]];
    [by split| | | |by split].
  - destruct (Buffer.append_spec b _ more (conj Hb eq_refl)) as (b2 & Eb & Hb1 & _).
    assert (b2 = b1) as -> by congruence.
    destruct (parse_loop_safe fuel now c b1 kNeedMore Hr Hb1) as [E'|[[E' _]|(x & y & z & E' & Hy & Hz)]];
      [done|unfold parseRequest in E; congruence..|].
    unfold parseRequest in E. rewrite E' in E. injection E as -> -> ->. by rewrite decide_False in Hz.
  - split; [|done]. intros Hs. cbn. rewrite Hm. by apply Hr.
  - by split.
Qed.
End asserts.
