(* ===== verification/OrdMap.v ===== *)
(** * [std::map<std::string, V>]

    An ordered map as the list of its entries by increasing key, in the order
    of [std::string]'s [operator<] (bytes compared as unsigned characters).
    The order is what iteration shows, for instance in a serialized response. *)

From Stdlib Require Import Sorted.
From S2P Require Import Prelude CxxString.

(** [a < b] in the order of [std::string]. *)
Fixpoint bytes_ltb (a b : bytes) : bool :=
  match a, b with
  | _, [] => false
  | [], _ :: _ => true
  | c :: a', d :: b' => (code c <? code d)%Z || (bool_decide (c = d) && bytes_ltb a' b')
  end.

Definition bytes_lt (a b : bytes) : Prop := bytes_ltb a b = true.

Lemma bytes_ltb_irrefl a : bytes_ltb a a = false.
Proof. induction a as [|c a IH]; [done|]. simpl. rewrite IH, andb_false_r. lia. Qed.

Lemma bytes_lt_trans : Transitive bytes_lt.
Proof.
  intros a b c. unfold bytes_lt. revert b c.
  induction a as [|x a IH]; intros [|y b] [|z c]; simpl; try done.
  rewrite !orb_true_iff, !andb_true_iff, !bool_decide_eq_true, !Z.ltb_lt.
  intros [?|[-> ?]] [?|[-> ?]]; [left; lia|left; lia|left; lia|].
  right. split; [done|]. by eapply IH.
Qed.

Lemma bytes_lt_total a b : bytes_ltb a b = false -> a <> b -> bytes_lt b a.
Proof.
  unfold bytes_lt. revert b. induction a as [|x a IH]; intros [|y b]; simpl; try done.
  rewrite orb_false_iff, andb_false_iff, bool_decide_eq_false, Z.ltb_ge.
  intros [Hle H] Hne. rewrite orb_true_iff, andb_true_iff, bool_decide_eq_true, Z.ltb_lt.
  destruct (decide (x = y)) as [->|Hxy].
  - right. split; [done|]. destruct H as [?|H]; [done|]. apply IH; congruence.
  - left. assert (code x <> code y) by (intros ?; by apply Hxy, code_inj). lia.
Qed.

Module OrdMap.
Section ordmap.
Context {V : Type}.
Implicit Types (m : list (bytes * V)) (k : bytes) (v : V).

Fixpoint lookup m k : option V :=
  match m with
  | [] => None
  | (k', v) :: m' => if bool_decide (k = k') then Some v else lookup m' k
  end.

(** [m[k] = v]. *)
Fixpoint insert k v m : list (bytes * V) :=
  match m with
  | [] => [(k, v)]
  | (k', v') :: m' =>
      if bool_decide (k = k') then (k, v) :: m'
      else if bytes_ltb k k' then (k, v) :: m
      else (k', v') :: insert k v m'
  end.

(** [m.erase(k)]. *)
Fixpoint erase k m : list (bytes * V) :=
  match m with
  | [] => []
  | (k', v') :: m' => if bool_decide (k = k') then m' else (k', v') :: erase k m'
  end.

(** The representation invariant: keys strictly increase. *)
Definition sorted m : Prop := StronglySorted bytes_lt m.*1.

Lemma lookup_insert_eq k v m : lookup (insert k v m) k = Some v.
Proof.
  induction m as [|[k' v'] m IH]; simpl; [by rewrite bool_decide_true|].
  repeat case_match; simpl; rewrite ?bool_decide_true by done; try done.
  by case_bool_decide.
Qed.

Lemma lookup_insert_ne k k' v m : k <> k' -> lookup (insert k v m) k' = lookup m k'.
Proof.
  intros Hne. induction m as [|[k1 v1] m IH]; simpl.
  - by rewrite bool_decide_false.
  - case_bool_decide; simplify_eq/=.
    + by rewrite !(bool_decide_false (k' = k1)) by done.
    + destruct (bytes_ltb k k1); simpl; [by rewrite (bool_decide_false (k' = k))|].
      by rewrite IH.
Qed.

Lemma lookup_None_keys m k : k ∉ m.*1 -> lookup m k = None.
Proof.
  induction m as [|[k1 v1] m IH]; simpl; [done|].
  intros [? ?]%not_elem_of_cons. rewrite bool_decide_false by done. by apply IH.
Qed.

Lemma lookup_erase_eq k m : sorted m -> lookup (erase k m) k = None.
Proof.
  unfold sorted. induction m as [|[k1 v1] m IH]; simpl; intros Hs; [done|].
  apply StronglySorted_inv in Hs as [Hs Hall].
  case_bool_decide as E; simplify_eq/=.
  - apply lookup_None_keys. intros Hin. rewrite Forall_forall in Hall.
    apply Hall in Hin. unfold bytes_lt in Hin. by rewrite bytes_ltb_irrefl in Hin.
  - rewrite bool_decide_false by done. by apply IH.
Qed.

Lemma lookup_erase_ne k k' m : k <> k' -> lookup (erase k m) k' = lookup m k'.
Proof.
  intros Hne. induction m as [|[k1 v1] m IH]; simpl; [done|].
  case_bool_decide as E; simplify_eq/=; [by rewrite bool_decide_false|]. by rewrite IH.
Qed.

Lemma insert_keys k v m x : x ∈ (insert k v m).*1 -> x = k \/ x ∈ m.*1.
Proof.
  induction m as [|[k1 v1] m IH]; simpl; [set_solver|]. repeat case_match; set_solver.
Qed.

Lemma insert_sorted k v m : sorted m -> sorted (insert k v m).
Proof.
  unfold sorted. induction m as [|[k1 v1] m IH]; simpl; intros Hs; [by repeat constructor|].
  pose proof Hs as [Hs' Hall]%StronglySorted_inv.
  case_bool_decide as E; simplify_eq/=; [done|].
  destruct (bytes_ltb k k1) eqn:Hlt; simpl; constructor.
  - done.
  - constructor; [done|]. eapply Forall_impl; [exact Hall|]. intros x. by apply bytes_lt_trans.
  - by apply IH.
  - apply Forall_forall. intros x [->|Hx]%insert_keys.
    + by apply bytes_lt_total.
    + by eapply Forall_forall in Hx.
Qed.

Lemma erase_keys k m x : x ∈ (erase k m).*1 -> x ∈ m.*1.
Proof. induction m as [|[k1 v1] m IH]; simpl; [done|]. case_bool_decide; set_solver. Qed.

Lemma erase_sorted k m : sorted m -> sorted (erase k m).
Proof.
  unfold sorted. induction m as [|[k1 v1] m IH]; simpl; intros Hs; [done|].
  pose proof Hs as [Hs' Hall]%StronglySorted_inv.
  case_bool_decide; simpl; [done|]. constructor; [by apply IH|].
  apply Forall_forall. intros x Hx%erase_keys. by eapply Forall_forall in Hx.
Qed.
End ordmap.
End OrdMap.
