(* ===== verification/HttpResponse.v ===== *)
(** * [HttpResponse] (inc/network/http/HttpResponse.hpp)

    The response under construction and its serialization.  The function in
    [responseCallback_] is given by an identity: the class stores it and gives it
    back, and nothing calls it. *)

From S2P Require Import Prelude CxxString OrdMap ByteBuffer.

Inductive HttpStatusCode :=
  | kUnknownStatus | k200Ok | k206PartialContent | k301MovedPermanently | k400BadRequest
  | k401Unauthorized | k403Forbidden | k404NotFound | k416RangeNotSatisfiable
  | k500InternalServerError.

#[export] Instance HttpStatusCode_eq_dec : EqDecision HttpStatusCode.
Proof. solve_decision. Defined.

(** [static_cast<int>(code)]. *)
Definition status_int (c : HttpStatusCode) : Z :=
  match c with
  | kUnknownStatus => 0 | k200Ok => 200 | k206PartialContent => 206
  | k301MovedPermanently => 301 | k400BadRequest => 400 | k401Unauthorized => 401
  | k403Forbidden => 403 | k404NotFound => 404 | k416RangeNotSatisfiable => 416
  | k500InternalServerError => 500
  end.

Module HttpResponse.

Record t := mk {
  headers_ : list (bytes * bytes);
  statusCode_ : HttpStatusCode;
  statusMessage_ : bytes;
  closeConnection_ : bool;
  body_ : bytes;
  async_ : bool;
  responseCallback_ : option nat
}.

Definition create (close : bool) : t := mk [] kUnknownStatus [] close [] false None.

Definition setStatusCode (r : t) (c : HttpStatusCode) : t :=
  mk (headers_ r) c (statusMessage_ r) (closeConnection_ r) (body_ r) (async_ r) (responseCallback_ r).
Definition setStatusMessage (r : t) (m : bytes) : t :=
  mk (headers_ r) (statusCode_ r) m (closeConnection_ r) (body_ r) (async_ r) (responseCallback_ r).
Definition setCloseConnection (r : t) (on : bool) : t :=
  mk (headers_ r) (statusCode_ r) (statusMessage_ r) on (body_ r) (async_ r) (responseCallback_ r).
Definition addHeader (r : t) (k v : bytes) : t :=
  mk (OrdMap.insert k v (headers_ r)) (statusCode_ r) (statusMessage_ r) (closeConnection_ r)
     (body_ r) (async_ r) (responseCallback_ r).
Definition setContentType (r : t) (ct : bytes) : t := addHeader r ($"Content-Type") ct.
Definition setBody (r : t) (b : bytes) : t :=
  mk (headers_ r) (statusCode_ r) (statusMessage_ r) (closeConnection_ r) b (async_ r) (responseCallback_ r).
Definition setAsync (r : t) (a : bool) : t :=
  mk (headers_ r) (statusCode_ r) (statusMessage_ r) (closeConnection_ r) (body_ r) a (responseCallback_ r).
Definition setResponseCallback (r : t) (cb : nat) : t :=
  mk (headers_ r) (statusCode_ r) (statusMessage_ r) (closeConnection_ r) (body_ r) (async_ r) (Some cb).

Definition getHeader (r : t) (k : bytes) : option bytes := OrdMap.lookup (headers_ r) k.

Definition crlf : bytes := Buffer.kCRLF.

(** The loop over the headers. *)
Fixpoint append_headers (hs : list (bytes * bytes)) (out : Buffer.t) : option Buffer.t :=
  match hs with
  | [] => Some out
  | (k, v) :: hs' =>
      o1 ← Buffer.append out k;
      o2 ← Buffer.append o1 ($": ");
      o3 ← Buffer.append o2 v;
      o4 ← Buffer.append o3 crlf;
      append_headers hs' o4
  end.

(** [appendToBuffer]; the status line's [snprintf] always fits its 32 bytes. *)
Definition appendToBuffer (r : t) (output : Buffer.t) : option Buffer.t :=
  o1 ← Buffer.append output ($"HTTP/1.1 " ++ to_string (status_int (statusCode_ r)) ++ $" ");
  o2 ← Buffer.append o1 (statusMessage_ r);
  o3 ← Buffer.append o2 crlf;
  o4 ← (if closeConnection_ r then Buffer.append o3 ($"Connection: close" ++ crlf)
        else Buffer.append o3 ($"Connection: Keep-Alive" ++ crlf));
  o5 ← append_headers (headers_ r) o4;
  o6 ← Buffer.append o5 crlf;
  Buffer.append o6 (body_ r).

(** The bytes on the wire. *)
Definition serialize (r : t) : bytes :=
  ($"HTTP/1.1 " ++ to_string (status_int (statusCode_ r)) ++ $" ") ++ statusMessage_ r ++ crlf ++
  (if closeConnection_ r then $"Connection: close" else $"Connection: Keep-Alive") ++ crlf ++
  concat ((fun kv : bytes * bytes => kv.1 ++ $": " ++ kv.2 ++ crlf) <$> headers_ r) ++
  crlf ++ body_ r.

Lemma append_headers_spec hs out c :
  Buffer.holds out c ->
  exists out', append_headers hs out = Some out' /\
    Buffer.holds out' (c ++ concat ((fun kv : bytes * bytes => kv.1 ++ $": " ++ kv.2 ++ crlf) <$> hs)).
Proof.
  revert out c. induction hs as [|[k v] hs IH]; intros out c Ho.
  - exists out. simpl. by rewrite app_nil_r.
  - cbn [append_headers].
    destruct (Buffer.append_spec out c k Ho) as (o1 & -> & H1).
    destruct (Buffer.append_spec o1 _ ($": ") H1) as (o2 & E2 & H2). cbn [mbind option_bind].
    rewrite E2. destruct (Buffer.append_spec o2 _ v H2) as (o3 & E3 & H3). cbn [mbind option_bind].
    rewrite E3. destruct (Buffer.append_spec o3 _ crlf H3) as (o4 & E4 & H4). cbn [mbind option_bind].
    rewrite E4. cbn [mbind option_bind]. destruct (IH o4 _ H4) as (o5 & E5 & H5). exists o5. split; [done|].
    cbn [fmap list_fmap concat]. cbn [fst snd]. by rewrite <- !app_assoc in *.
Qed.

(** Serialization never fails and appends exactly [serialize r]. *)
Lemma appendToBuffer_holds r out c :
  Buffer.holds out c ->
  exists out', appendToBuffer r out = Some out' /\ Buffer.holds out' (c ++ serialize r).
Proof.
  intros Ho. unfold appendToBuffer.
  destruct (Buffer.append_spec out _ ($"HTTP/1.1 " ++ to_string (status_int (statusCode_ r)) ++ $" ") Ho)
    as (o1 & -> & H1). cbn [mbind option_bind].
  destruct (Buffer.append_spec o1 _ (statusMessage_ r) H1) as (o2 & -> & H2). cbn [mbind option_bind].
  destruct (Buffer.append_spec o2 _ crlf H2) as (o3 & -> & H3). cbn [mbind option_bind].
  set (cl := if closeConnection_ r then $"Connection: close" else $"Connection: Keep-Alive").
  destruct (Buffer.append_spec o3 _ (cl ++ crlf) H3) as (o4 & E4 & H4).
  replace (if closeConnection_ r then _ else _) with (Some o4)
    by (subst cl; by destruct (closeConnection_ r)). cbn [mbind option_bind].
  destruct (append_headers_spec (headers_ r) o4 _ H4) as (o5 & -> & H5). cbn [mbind option_bind].
  destruct (Buffer.append_spec o5 _ crlf H5) as (o6 & -> & H6). cbn [mbind option_bind].
  destruct (Buffer.append_spec o6 _ (body_ r) H6) as (o7 & -> & H7).
  exists o7. split; [done|]. unfold serialize. fold cl. by rewrite <- !app_assoc in *.
Qed.
End HttpResponse.
