(* ===== verification/World.v ===== *)
(** * The environment of the request handlers (app/HttpUploader.hpp)

    What the handlers act on: the connection, the request and the response,
    the members of [HttpUploadHandler], the upload directory, and the MySQL
    connection.  A handler is a computation in a state monad whose outcomes are
    a value, a [std::exception] with its [what()], or undefined behaviour.

    MySQL's client library and nlohmann::json are not part of the repository:
    the class [Platform] carries their operations, and the standard library's
    unspecified [std::hash] and the fallible file operations, as parameters.
    Log statements are left out. *)

From S2P Require Import Prelude CxxString OrdMap TimeStamp HttpRequest HttpContext HttpResponse.

(** ** JSON values the program builds *)

#[warnings="-register-all"]
Inductive json :=
  | JNull
  | JBool (b : bool)
  | JInt (z : Z)
  | JStr (s : bytes)
  | JArr (l : list json)
  | JObj (fields : list (bytes * json)).

(** A row of a result set; a NULL column is [None]. *)
Definition row : Type := list (option bytes).

Class Platform := {
  (** The MySQL client: a statement either fails or succeeds, a query with the
      rows of its result set. *)
  Db : Type;
  mysql_query : bytes -> Db -> option (option (list row)) * Db;
  mysql_insert_id : Db -> Z;
  mysql_real_escape_string : bytes -> bytes;
  (** nlohmann::json: parsed documents, the conversions of their fields (an
      exception's [what()] on the left), and printing, which throws on a string
      that is not UTF-8.  [json_dump2] is [dump(2)]. *)
  Doc : Type;
  json_parse : bytes -> bytes + Doc;
  doc_string : Doc -> bytes -> bytes + bytes;
  doc_int : Doc -> bytes -> bytes + Z;
  doc_value : Doc -> bytes -> bytes -> bytes + bytes;
  doc_contains : Doc -> bytes -> bool;
  doc_is_null : Doc -> bytes -> bool;
  doc_string_map : Doc -> bytes + list (bytes * bytes);
  json_dump : json -> bytes + bytes;
  json_dump2 : json -> bytes + bytes;
  (** [std::hash<std::string>]. *)
  std_hash : bytes -> Z;
  (** Whether a file can be opened for writing, for reading, and whether a
      write that brings it to the given size succeeds. *)
  open_out_ok : bytes -> bool;
  open_in_ok : bytes -> bool;
  write_ok : bytes -> Z -> bool;
  (** Whether [unlink] succeeds on an existing file. *)
  unlink_ok : bytes -> bool;
  (** The directory of [__FILE__]. *)
  projectRoot : bytes
}.

(** ** Percent decoding

    [HttpUploadHandler::urlDecode].  [ii] keeps its value from one failed
    conversion to the next and is uninitialised before the first success. *)
Fixpoint urlDecode_loop (fuel : nat) (s : bytes) (ii : option Z) : option bytes :=
  match fuel with
  | O => Some []
  | S f =>
      match s with
      | [] => Some []
      | c :: s' =>
          if bool_decide (c <> "%"%char) then
            r ← urlDecode_loop f s' ii;
            Some ((if bool_decide (c = "+"%char) then " "%char else c) :: r)
          else
            let ii' := match sscanf_x (take 2 s') with Some v => Some v | None => ii end in
            v ← ii';
            r ← urlDecode_loop f (drop 2 s') ii';
            Some (chr v :: r)
      end
  end.

(** Every turn consumes a character: the length is enough fuel. *)
Definition urlDecode (encoded : bytes) : option bytes :=
  urlDecode_loop (length encoded) encoded None.

(** ** Objects shared between a connection, its context and its callbacks *)

(** [FileUploadContext::State]. *)
Inductive UploadState := uExpectHeaders | uExpectContent | uExpectBoundary | uComplete.

#[export] Instance UploadState_eq_dec : EqDecision UploadState.
Proof. solve_decision. Defined.

(** A [FileUploadContext]; [u_open] is [file_.is_open()]. *)
Record UploadContext := {
  u_filename : bytes;
  u_originalFilename : bytes;
  u_open : bool;
  u_totalBytes : Z;
  u_state : UploadState;
  u_boundary : bytes
}.

(** A [FileDownContext].  [file_] is a stream on the file it opened: what the
    file holds now, whether [filepath_] still names it (a file stays readable
    after an [unlink]), whether somebody wrote it since, the stream position and
    the fail bit. *)
Record DownContext := {
  d_filepath : bytes;
  d_originalFilename : bytes;
  d_content : bytes;
  d_linked : bool;
  d_written : bool;
  d_pos : Z;
  d_fail : bool;
  d_fileSize : Z;
  d_currentPosition : Z;
  d_isComplete : bool
}.

(** The open stream when the file [path] is given the content [s] in place, and
    when the name [path] is removed. *)
Definition written (path s : bytes) (d : DownContext) : DownContext :=
  if d_linked d && bool_decide (d_filepath d = path) then
    {| d_filepath := d_filepath d; d_originalFilename := d_originalFilename d; d_content := s;
       d_linked := true; d_written := true; d_pos := d_pos d; d_fail := d_fail d;
       d_fileSize := d_fileSize d; d_currentPosition := d_currentPosition d;
       d_isComplete := d_isComplete d |}
  else d.

Definition unlinked (path : bytes) (d : DownContext) : DownContext :=
  if bool_decide (d_filepath d = path) then
    {| d_filepath := d_filepath d; d_originalFilename := d_originalFilename d;
       d_content := d_content d; d_linked := false; d_written := d_written d; d_pos := d_pos d;
       d_fail := d_fail d; d_fileSize := d_fileSize d; d_currentPosition := d_currentPosition d;
       d_isComplete := d_isComplete d |}
  else d.

(** What [customContext_] points to.  [getContext<T>] is an unchecked cast.
    Download contexts are also captured by callbacks: they are objects with an
    identity. *)
Inductive custom :=
  | CUpload (u : UploadContext)
  | CDown (id : nat).

(** The callbacks the handlers install with [setWriteCompleteCallback]. *)
Inductive callback :=
  | CbShutdown
  | CbDownload (id : nat).

(** ** The state *)

Section world.
Context `{Platform}.

Record World := mkWorld {
  w_req : HttpReq;                        (* the request *)
  w_resp : HttpResponse.t;                (* the response being built *)
  w_wcc : option callback;                (* the connection's writeCompleteCallback_ *)
  w_ctx : option (HttpContext.t custom);  (* the connection's context_ *)
  w_down : gmap nat DownContext;          (* the download contexts alive *)
  w_next : nat;                           (* the next object identity *)
  w_mysql : bool;                         (* mysql != NULL *)
  w_db : Db;
  w_sql : list bytes;                     (* the statements executed, oldest first *)
  w_result : option (list row);           (* the result set mysql_store_result returns *)
  w_fs : gmap bytes bytes;                (* the regular files *)
  w_mapping : list (bytes * bytes);       (* filenameMapping_ *)
  w_random : nat -> Z;                    (* the random device's draws *)
  w_draws : nat;                          (* how many have been used *)
  w_clock : Z                             (* milliseconds since the epoch *)
}.

Definition set_req (r : HttpReq) (w : World) : World :=
  mkWorld r (w_resp w) (w_wcc w) (w_ctx w) (w_down w) (w_next w) (w_mysql w) (w_db w) (w_sql w)
    (w_result w) (w_fs w) (w_mapping w) (w_random w) (w_draws w) (w_clock w).
Definition set_resp (r : HttpResponse.t) (w : World) : World :=
  mkWorld (w_req w) r (w_wcc w) (w_ctx w) (w_down w) (w_next w) (w_mysql w) (w_db w) (w_sql w)
    (w_result w) (w_fs w) (w_mapping w) (w_random w) (w_draws w) (w_clock w).
Definition set_wcc (c : option callback) (w : World) : World :=
  mkWorld (w_req w) (w_resp w) c (w_ctx w) (w_down w) (w_next w) (w_mysql w) (w_db w) (w_sql w)
    (w_result w) (w_fs w) (w_mapping w) (w_random w) (w_draws w) (w_clock w).
Definition set_ctx (c : option (HttpContext.t custom)) (w : World) : World :=
  mkWorld (w_req w) (w_resp w) (w_wcc w) c (w_down w) (w_next w) (w_mysql w) (w_db w) (w_sql w)
    (w_result w) (w_fs w) (w_mapping w) (w_random w) (w_draws w) (w_clock w).
Definition set_down (d : gmap nat DownContext) (n : nat) (w : World) : World :=
  mkWorld (w_req w) (w_resp w) (w_wcc w) (w_ctx w) d n (w_mysql w) (w_db w) (w_sql w)
    (w_result w) (w_fs w) (w_mapping w) (w_random w) (w_draws w) (w_clock w).
Definition set_db (d : Db) (sql : list bytes) (res : option (list row)) (w : World) : World :=
  mkWorld (w_req w) (w_resp w) (w_wcc w) (w_ctx w) (w_down w) (w_next w) (w_mysql w) d sql
    res (w_fs w) (w_mapping w) (w_random w) (w_draws w) (w_clock w).
Definition set_fs (f : gmap bytes bytes) (w : World) : World :=
  mkWorld (w_req w) (w_resp w) (w_wcc w) (w_ctx w) (w_down w) (w_next w) (w_mysql w) (w_db w)
    (w_sql w) (w_result w) f (w_mapping w) (w_random w) (w_draws w) (w_clock w).
(** The content of a file is replaced in place, or the file created; a name is
    removed.  The streams open on the file see the change. *)
Definition put_file (path s : bytes) (w : World) : World :=
  set_fs (<[path := s]> (w_fs w)) (set_down (written path s <$> w_down w) (w_next w) w).
Definition remove_file (path : bytes) (w : World) : World :=
  set_fs (delete path (w_fs w)) (set_down (unlinked path <$> w_down w) (w_next w) w).
Definition set_mapping (m : list (bytes * bytes)) (w : World) : World :=
  mkWorld (w_req w) (w_resp w) (w_wcc w) (w_ctx w) (w_down w) (w_next w) (w_mysql w) (w_db w)
    (w_sql w) (w_result w) (w_fs w) m (w_random w) (w_draws w) (w_clock w).
Definition set_draws (n : nat) (w : World) : World :=
  mkWorld (w_req w) (w_resp w) (w_wcc w) (w_ctx w) (w_down w) (w_next w) (w_mysql w) (w_db w)
    (w_sql w) (w_result w) (w_fs w) (w_mapping w) (w_random w) n (w_clock w).

(** ** Computations *)

Inductive outcome (A : Type) :=
  | Ok (a : A)
  | Exn (what : bytes)
  | Undef.
#[global] Arguments Ok {A} a.
#[global] Arguments Exn {A} what.
#[global] Arguments Undef {A}.

Definition M (A : Type) : Type := World -> outcome A * World.

#[export] Instance M_ret : MRet M := fun A a w => (Ok a, w).
#[export] Instance M_bind : MBind M := fun A B f m w =>
  match m w with
  | (Ok a, w') => f a w'
  | (Exn e, w') => (Exn e, w')
  | (Undef, w') => (Undef, w')
  end.

Definition throw {A} (what : bytes) : M A := fun w => (Exn what, w).
Definition undef {A} : M A := fun w => (Undef, w).
Definition get : M World := fun w => (Ok w, w).
Definition modify (f : World -> World) : M unit := fun w => (Ok tt, f w).

(** [try { m } catch (const std::exception &e) { h }]. *)
Definition try_catch {A} (m : M A) (h : bytes -> M A) : M A := fun w =>
  match m w with
  | (Exn e, w') => h e w'
  | r => r
  end.

Definition of_sum {A} (x : bytes + A) : M A :=
  match x with inl e => throw e | inr a => mret a end.

(** A value computed from uninitialised storage has no meaning. *)
Definition of_option {A} (x : option A) : M A :=
  match x with Some a => mret a | None => undef end.

(** ** Reading columns *)

(** [row[k]], a possibly null [char *]; beyond the columns there is nothing to read. *)
Definition column (r : row) (k : nat) : M (option bytes) := of_option (r !! k).

(** [std::string s = row[k]]: constructing from a null pointer throws. *)
Definition to_str (c : option bytes) : M bytes :=
  match c with
  | Some s => mret s
  | None => throw ($"basic_string: construction from null is not valid")
  end.

Definition column_str (r : row) (k : nat) : M bytes := c ← column r k; to_str c.
Definition column_int (r : row) (k : nat) : M Z := s ← column_str r k; of_sum (stoi s).
(** [row[k] ? row[k] : d]. *)
Definition column_or (r : row) (k : nat) (d : bytes) : M bytes :=
  c ← column r k; mret (default d c).
(** [row[k] ? std::stoi(row[k]) : 0]. *)
Definition column_int_or0 (r : row) (k : nat) : M Z :=
  c ← column r k;
  match c with Some s => of_sum (stoi s) | None => mret 0%Z end.
Definition column_ull_or0 (r : row) (k : nat) : M Z :=
  c ← column r k;
  match c with Some s => of_sum (stoull s) | None => mret 0%Z end.

(** ** Statements *)

Definition executeQuery (query : bytes) : M bool := fun w =>
  if negb (w_mysql w) then (Ok false, w)
  else
    let '(r, db) := mysql_query query (w_db w) in
    let sql := w_sql w ++ [query] in
    match r with
    | None => (Ok false, set_db db sql None w)
    | Some res => (Ok true, set_db db sql res w)
    end.

Definition executeQueryWithResult (query : bytes) : M (option (list row)) :=
  ok ← executeQuery query;
  if negb ok then mret None
  else w ← get; modify (fun w => set_db (w_db w) (w_sql w) None w);; mret (w_result w).

(** [!result || mysql_num_rows(result) == 0], and otherwise the first row. *)
Definition first_row (result : option (list row)) : option row :=
  match result with Some (r :: _) => Some r | _ => None end.

(** [static_cast<int>(mysql_insert_id(mysql))]; on a null handle it is a null
    dereference. *)
Definition insert_id : M Z :=
  w ← get;
  if negb (w_mysql w) then undef else mret (swrap 32 (mysql_insert_id (w_db w))).

(** [escapeString]: the C string that [mysql_real_escape_string] wrote; the
    argument itself without a connection. *)
Definition escapeString (str : bytes) : M bytes :=
  w ← get;
  mret (if negb (w_mysql w) then str
        else let e := mysql_real_escape_string str in take (find_char (chr 0) e) e).

(** ** Responses *)

Definition on_resp (f : HttpResponse.t -> HttpResponse.t) : M unit :=
  modify (fun w => set_resp (f (w_resp w)) w).

Definition setStatusCode c := on_resp (fun r => HttpResponse.setStatusCode r c).
Definition setStatusMessage m := on_resp (fun r => HttpResponse.setStatusMessage r m).
Definition setContentType ct := on_resp (fun r => HttpResponse.setContentType r ct).
Definition addHeader k v := on_resp (fun r => HttpResponse.addHeader r k v).
Definition setJsonBody (j : json) : M unit :=
  s ← of_sum (json_dump j); on_resp (fun r => HttpResponse.setBody r s).
Definition setBody b := on_resp (fun r => HttpResponse.setBody r b).
Definition setWriteCompleteCallback cb := modify (set_wcc (Some cb)).

Definition sendError (message : bytes) (code : HttpStatusCode) : M unit :=
  setStatusCode code;;
  setStatusMessage message;;
  setContentType ($"application/json");;
  addHeader ($"Connection") ($"close");;
  setJsonBody (JObj [($"code", JInt (status_int code)); ($"message", JStr message)]);;
  setWriteCompleteCallback CbShutdown.

(** The common tail of the handlers that answer with JSON. *)
Definition okJson (response : json) : M unit :=
  setStatusCode k200Ok;;
  setStatusMessage ($"OK");;
  setContentType ($"application/json");;
  addHeader ($"Connection") ($"close");;
  setJsonBody response.

Definition sendJson (response : json) : M bool :=
  okJson response;;
  setWriteCompleteCallback CbShutdown;;
  mret true.

Definition handleNotFound : M bool :=
  setStatusCode k404NotFound;;
  setStatusMessage ($"Not Found");;
  setContentType ($"application/json");;
  addHeader ($"Connection") ($"close");;
  setJsonBody (JObj [($"code", JInt 404); ($"message", JStr ($"Not Found"))]);;
  setWriteCompleteCallback CbShutdown;;
  mret true.

(** The request's accessors; a query parameter is percent-decoded. *)
Definition reqHeader (f : bytes) : M bytes :=
  w ← get; mret (HttpRequest.getHeader (w_req w) f).
Definition reqQuery (k d : bytes) : M bytes :=
  w ← get; of_option (HttpRequest.getQuery (w_req w) k d).
Definition reqPathParam (k : bytes) : M bytes :=
  w ← get; mret (HttpRequest.getPathParam (w_req w) k).

(** [std::uniform_int_distribution<>(a, b)] on the next draw. *)
Definition draw (a b : Z) : M Z :=
  w ← get;
  modify (set_draws (S (w_draws w)));;
  mret (a + w_random w (w_draws w) mod (b - a + 1))%Z.

Fixpoint draw_chars (n : nat) (chars : bytes) : M bytes :=
  match n with
  | O => mret []
  | S n' =>
      i ← draw 0 35;
      c ← of_option (chars !! Z.to_nat i);
      cs ← draw_chars n' chars;
      mret (c :: cs)
  end.

End world.

Notation "'TRY' m 'CATCH' e => h" := (try_catch m (fun e => h))
  (at level 85, e name, h at level 200) : bytes_scope.
