(* ===== verification/Sample.v ===== *)
(** * A concrete platform

    An instance of [Platform] to evaluate the handlers on: a database that
    answers from a script, flat JSON objects of strings, and a file system on
    which every operation succeeds. *)

From S2P Require Import Prelude CxxString OrdMap TimeStamp HttpRequest HttpContext HttpResponse.
From S2P Require Import World.

Definition quote : ascii := chr 34.
Definition quoted (s : bytes) : bytes := [quote] ++ s ++ [quote].

Fixpoint intersperse (sep : bytes) (l : list bytes) : bytes :=
  match l with
  | [] => []
  | [x] => x
  | x :: l' => x ++ sep ++ intersperse sep l'
  end.

Fixpoint print_json (fuel : nat) (j : json) : bytes :=
  match fuel with
  | O => []
  | S f =>
      match j with
      | JNull => $"null"
      | JBool b => if b then $"true" else $"false"
      | JInt z => to_string z
      | JStr s => quoted s
      | JArr l => $"[" ++ intersperse ($",") (print_json f <$> l) ++ $"]"
      | JObj l =>
          $"{" ++ intersperse ($",") ((fun kv => quoted kv.1 ++ $":" ++ print_json f kv.2) <$> l) ++
          $"}"
      end
  end.

(** The pieces between the quotes. *)
Fixpoint split_quotes (s acc : bytes) : list bytes :=
  match s with
  | [] => [rev acc]
  | c :: s' =>
      if bool_decide (c = quote) then rev acc :: split_quotes s' [] else split_quotes s' (c :: acc)
  end.

Fixpoint read_pairs (l : list bytes) : option (list (bytes * bytes)) :=
  match l with
  | _ :: k :: _ :: v :: l' => cons (k, v) <$> read_pairs l'
  | [_] => Some []
  | _ => None
  end.

Definition parse_flat (s : bytes) : bytes + list (bytes * bytes) :=
  match read_pairs (split_quotes s []) with
  | Some d => inr d
  | None => inl ($"parse error")
  end.

Definition field (d : list (bytes * bytes)) (k : bytes) : option bytes :=
  snd <$> List.find (fun kv => bool_decide (kv.1 = k)) d.

Definition sample_dump (j : json) : bytes + bytes := inr (print_json 8 j).

Definition platform_with (escape : bytes -> bytes) (DB : Type)
    (query : bytes -> DB -> option (option (list row)) * DB) : Platform := {|
  Db := DB;
  mysql_query := query;
  mysql_insert_id := fun _ => 7%Z;
  mysql_real_escape_string := escape;
  Doc := list (bytes * bytes);
  json_parse := parse_flat;
  doc_string := fun d k => match field d k with Some s => inr s | None => inl ($"type error") end;
  doc_int := fun d k => match field d k with Some s => stoi s | None => inl ($"type error") end;
  doc_value := fun d k def => inr (default def (field d k));
  doc_contains := fun d k => bool_decide (is_Some (field d k));
  doc_is_null := fun _ _ => false;
  doc_string_map := fun d => inr d;
  json_dump := sample_dump;
  json_dump2 := sample_dump;
  std_hash := fun s => foldl (fun h c => (h * 31 + code c)%Z) 7%Z s;
  open_out_ok := fun _ => true;
  open_in_ok := fun _ => true;
  write_ok := fun _ _ => true;
  unlink_ok := fun _ => true;
  projectRoot := $"/app"
|}.

(** Escaping left out, which does no harm to the texts of the samples. *)
Definition platform : forall DB, (bytes -> DB -> option (option (list row)) * DB) -> Platform :=
  platform_with (fun s => s).

(** The database answers its statements from a script. *)
#[export] Instance sample : Platform :=
  platform (list (option (option (list row))))
    (fun _ db => match db with r :: db' => (r, db') | [] => (None, []) end).

(** A request for a path, with some headers, on a live connection whose
    database answers [script]. *)
Definition sample_request (m : Method) (path query : bytes) (headers : list (bytes * bytes))
    (body : bytes) : HttpReq :=
  HttpRequest.mk m kHttp11 path query body TimeStamp.default (list_to_map headers) ∅.

Definition sample_world (r : HttpReq) (script : list (option (option (list row))))
    (fs : gmap bytes bytes) : World :=
  mkWorld r (HttpResponse.create false) None (Some HttpContext.create) ∅ 0 true script [] None fs []
    (fun n => Z.of_nat n) 0 1000%Z.

(** ** Concrete requests *)

(** Path parameters set by the router. *)
Definition routed (ps : list (bytes * bytes)) (r : HttpReq) : HttpReq :=
  HttpRequest.setPathParams r (list_to_map ps).

Definition rows (l : list row) : option (option (list row)) := Some (Some l).
Definition done_sql : option (option (list row)) := Some None.

(** The session of user 7, and what [validateSession] consumes of the script. *)
Definition ann : row := [Some ($"7"); Some ($"ann")].
Definition ann_session : list (option (option (list row))) := [rows [ann]; done_sql].
Definition session_header : bytes * bytes := ($"X-Session-ID", $"s1").

(** The state a computation ends in need not be computed to know its outcome. *)
Lemma run_outcome {A B} (p : A * B) a : p.1 = a -> p = (a, p.2).
Proof. destruct p; simpl. by intros ->. Qed.
