(* ===== verification/Session.v ===== *)
(** * Sessions (app/HttpUploader.hpp: generateSessionId .. endSession) *)

From S2P Require Import Prelude CxxString OrdMap HttpRequest HttpContext HttpResponse World.

Section session.
Context `{Platform}.

Definition alphabet36 : bytes := $"abcdefghijklmnopqrstuvwxyz0123456789".

Definition generateSessionId : M bytes := draw_chars 32 alphabet36.

Definition session_select (escaped : bytes) : bytes :=
  $"SELECT user_id, username FROM sessions WHERE session_id = '" ++ escaped ++
  $"' AND expire_time > NOW()".

Definition session_refresh (escaped : bytes) : bytes :=
  $"UPDATE sessions SET expire_time = DATE_ADD(NOW(), INTERVAL 30 MINUTE) " ++
  $"WHERE session_id = '" ++ escaped ++ $"'".

Definition session_insert (sessionId : bytes) (userId : Z) (username : bytes) : bytes :=
  $"INSERT INTO sessions (session_id, user_id, username, expire_time) " ++
  $"VALUES ('" ++ sessionId ++ $"', " ++ to_string userId ++ $", '" ++ username ++ $"', " ++
  $"DATE_ADD(NOW(), INTERVAL 30 MINUTE))".

Definition saveSession (sessionId : bytes) (userId : Z) (username : bytes) : M unit :=
  s ← escapeString sessionId;
  u ← escapeString username;
  executeQuery (session_insert s userId u);;
  mret tt.

(** [validateSession]: the user id and name it stores in its reference
    parameters when it returns true; [None] when it returns false. *)
Definition validateSession (sessionId : bytes) : M (option (Z * bytes)) :=
  if bool_decide (sessionId = []) then mret None
  else
    e ← escapeString sessionId;
    result ← executeQueryWithResult (session_select e);
    match first_row result with
    | None => mret None
    | Some r =>
        userId ← column_int r 0;
        username ← column_str r 1;
        e' ← escapeString sessionId;
        executeQuery (session_refresh e');;
        mret (Some (userId, username))
    end.

Definition session_delete (escaped : bytes) : bytes :=
  $"DELETE FROM sessions WHERE session_id = '" ++ escaped ++ $"'".

Definition endSession (sessionId : bytes) : M unit :=
  if bool_decide (sessionId = []) then mret tt
  else
    e ← escapeString sessionId;
    executeQuery (session_delete e);;
    mret tt.

(** The guard at the head of the handlers that need a login: the user, or the
    401 answer. *)
Definition needLogin (k : Z -> bytes -> M bool) : M bool :=
  sessionId ← reqHeader ($"X-Session-ID");
  user ← validateSession sessionId;
  match user with
  | None => sendError ($"未登录或会话已过期") k401Unauthorized;; mret true
  | Some (userId, username) => k userId username
  end.

(** The session [sid] of user [uid] is found by [n] lookups in a row, each in the
    state of the database that the one before left. *)
Fixpoint session_lasts (n : nat) (sid : bytes) (uid : Z) (db : Db) : Prop :=
  match n with
  | O => True
  | S n' =>
      exists name db',
        (forall w, w_mysql w = true -> w_db w = db ->
           exists w1, validateSession sid w = (Ok (Some (uid, name)), w1) /\ w_db w1 = db') /\
        session_lasts n' sid uid db'
  end.

End session.
