(* ===== verification/Accounts.v ===== *)
(** * Accounts (app/HttpUploader.hpp: handleRegister, handleLogin, handleLogout,
    handleSearchUsers, sha256, urlDecode) *)

From S2P Require Import Prelude CxxString OrdMap HttpRequest HttpContext HttpResponse World Session.

Section accounts.
Context `{Platform}.

(** [std::hex] of the unsigned hash value. *)
Fixpoint hex_digits (fuel : nat) (n : Z) (acc : bytes) : bytes :=
  match fuel with
  | O => acc
  | S f =>
      let d := (n mod 16)%Z in
      let acc' := (if (d <? 10)%Z then chr (48 + d) else chr (87 + d)) :: acc in
      if (n <? 16)%Z then acc' else hex_digits f (n / 16) acc'
  end.

(** [sha256]: in fact [std::hash] printed in hexadecimal; 16 digits hold 64 bits. *)
Definition sha256 (input : bytes) : bytes := hex_digits 16 (wrap 64 (std_hash input)) [].

Definition user_by_name (escaped : bytes) : bytes :=
  $"SELECT id FROM users WHERE username = '" ++ escaped ++ $"'".

Definition user_insert (name password email : bytes) : bytes :=
  $"INSERT INTO users (username, password, email) VALUES ('" ++ name ++ $"', '" ++ password ++
  $"', " ++ email ++ $")".

Definition handleRegister : M bool :=
  TRY
    (w ← get;
     requestData ← of_sum (json_parse (HttpRequest.body_ (w_req w)));
     username ← of_sum (doc_string requestData ($"username"));
     password ← of_sum (doc_string requestData ($"password"));
     email ← of_sum (doc_value requestData ($"email") []);
     if bool_decide (username = []) || bool_decide (password = []) then
       sendError ($"用户名和密码不能为空") k400BadRequest;; mret true
     else
       let hashedPassword := sha256 password in
       u ← escapeString username;
       result ← executeQueryWithResult (user_by_name u);
       match first_row result with
       | Some _ => sendError ($"用户名已存在") k400BadRequest;; mret true
       | None =>
           u' ← escapeString username;
           p ← escapeString hashedPassword;
           em ← (if bool_decide (email = []) then mret ($"NULL")
                 else e ← escapeString email; mret ($"'" ++ e ++ $"'"));
           ok ← executeQuery (user_insert u' p em);
           if negb ok then
             sendError ($"注册失败，请稍后重试") k500InternalServerError;; mret true
           else
             userId ← insert_id;
             sendJson (JObj [($"code", JInt 0); ($"message", JStr ($"注册成功"));
                             ($"userId", JInt userId)])
       end)
  CATCH e => (sendError ($"注册失败: " ++ e) k500InternalServerError;; mret true).

Definition login_select (name password : bytes) : bytes :=
  $"SELECT id, username FROM users WHERE username = '" ++ name ++ $"' AND password = '" ++
  password ++ $"'".

Definition handleLogin : M bool :=
  TRY
    (w ← get;
     requestData ← of_sum (json_parse (HttpRequest.body_ (w_req w)));
     username ← of_sum (doc_string requestData ($"username"));
     password ← of_sum (doc_string requestData ($"password"));
     if bool_decide (username = []) || bool_decide (password = []) then
       sendError ($"用户名和密码不能为空") k400BadRequest;; mret true
     else
       let hashedPassword := sha256 password in
       u ← escapeString username;
       p ← escapeString hashedPassword;
       result ← executeQueryWithResult (login_select u p);
       match first_row result with
       | None => sendError ($"用户名或密码错误") k401Unauthorized;; mret true
       | Some r =>
           userId ← column_int r 0;
           usernameFromDb ← column_str r 1;
           sessionId ← generateSessionId;
           saveSession sessionId userId usernameFromDb;;
           sendJson (JObj [($"code", JInt 0); ($"message", JStr ($"登录成功"));
                           ($"sessionId", JStr sessionId); ($"userId", JInt userId);
                           ($"username", JStr usernameFromDb)])
       end)
  CATCH e => (sendError ($"登录失败: " ++ e) k500InternalServerError;; mret true).

Definition handleLogout : M bool :=
  sessionId ← reqHeader ($"X-Session-ID");
  (if bool_decide (sessionId = []) then mret tt else endSession sessionId);;
  sendJson (JObj [($"code", JInt 0); ($"message", JStr ($"Logout successful"))]).

Definition search_select (escaped : bytes) (userId : Z) : bytes :=
  $"SELECT id, username, email FROM users WHERE username LIKE '%" ++ escaped ++
  $"%' AND id != " ++ to_string userId ++ $" LIMIT 10".

(** The loop over the result rows. *)
Fixpoint search_rows (rows : list row) : M (list json) :=
  match rows with
  | [] => mret []
  | r :: rows' =>
      id ← column_int r 0;
      name ← column_or r 1 [];
      email ← column_or r 2 [];
      js ← search_rows rows';
      mret (JObj [($"id", JInt id); ($"username", JStr name); ($"email", JStr email)] :: js)
  end.

Definition handleSearchUsers : M bool :=
  needLogin (fun userId _ =>
    w ← get;
    let query0 := HttpRequest.query_ (w_req w) in
    let query := match query0 with
                 | c :: q => if bool_decide (c = "?"%char) then q else query0
                 | [] => []
                 end in
    let empty := sendError ($"搜索关键词不能为空") k400BadRequest;; mret true in
    if prefixb ($"keyword=") query then
      keyword ← of_option (urlDecode (drop 8 query));
      if bool_decide (keyword = []) then empty
      else
        k ← escapeString keyword;
        result ← executeQueryWithResult (search_select k userId);
        users ← search_rows (default [] result);
        sendJson (JObj [($"code", JInt 0); ($"message", JStr ($"Success"));
                        ($"users", JArr users)])
    else empty).

End accounts.
