(* ===== verification/Upload.v ===== *)
(** * Uploading (app/FileUploadContext.hpp, app/HttpUploader.hpp: handleFileUpload,
    generateUniqueFilename, getFileType) *)

From S2P Require Import Prelude CxxString OrdMap Regex HttpRequest HttpContext HttpResponse World.
From S2P Require Import Session.

Definition dquote : ascii := chr 34.

(** ** File types *)

Definition ext_in (e : bytes) (l : list bytes) : bool := bool_decide (e ∈ l).

Definition getFileType (filename : bytes) : bytes :=
  match find_last_of "."%char filename with
  | Some dotPos =>
      if dotPos <? length filename - 1 then
        let extension := map tolower (drop (S dotPos) filename) in
        if ext_in extension [$"jpg"; $"jpeg"; $"png"; $"gif"] then $"image"
        else if ext_in extension [$"mp4"; $"avi"; $"mov"; $"wmv"] then $"video"
        else if ext_in extension [$"pdf"] then $"pdf"
        else if ext_in extension [$"doc"; $"docx"] then $"word"
        else if ext_in extension [$"xls"; $"xlsx"] then $"excel"
        else if ext_in extension [$"ppt"; $"pptx"] then $"powerpoint"
        else if ext_in extension [$"txt"; $"csv"] then $"text"
        else $"other"
      else $"unknown"
  | None => $"unknown"
  end.

(** [fs::path(s).filename()]. *)
Definition path_filename (s : bytes) : bytes :=
  match find_last_of "/"%char s with
  | Some i => drop (S i) s
  | None => s
  end.

Section upload.
Context `{Platform}.

Definition uploadDir : bytes := $"uploads".

Definition generateUniqueFilename (prefix : bytes) : M bytes :=
  w ← get;
  r ← draw 1000 9999;
  mret (prefix ++ $"_" ++ to_string (w_clock w) ++ $"_" ++ to_string r).

(** ** [FileUploadContext] *)

(** The constructor: creates or truncates the file. *)
Definition upload_create (filename originalFilename : bytes) : M UploadContext :=
  if open_out_ok filename then
    modify (put_file filename []);;
    mret {| u_filename := filename; u_originalFilename := originalFilename; u_open := true;
            u_totalBytes := 0; u_state := uExpectHeaders; u_boundary := [] |}
  else throw ($"Failed to open file: " ++ filename).

(** [getContext<FileUploadContext>()]: dereferencing another type through the
    unchecked cast is undefined. *)
Definition getUpload : M (option UploadContext) :=
  w ← get;
  match w_ctx w with
  | Some c =>
      match HttpContext.customContext_ c with
      | None => mret None
      | Some (CUpload u) => mret (Some u)
      | Some (CDown _) => undef
      end
  | None => undef
  end.

(** The pointer [uploadContext] and [customContext_] share one object: a change
    is a change of the object in the context. *)
Definition setCustom (x : option custom) : M unit :=
  modify (fun w => set_ctx ((fun c => HttpContext.setContext c x) <$> w_ctx w) w).

Definition theUpload : M UploadContext :=
  u ← getUpload; of_option u.

Definition with_state (u : UploadContext) (s : UploadState) : UploadContext :=
  {| u_filename := u_filename u; u_originalFilename := u_originalFilename u; u_open := u_open u;
     u_totalBytes := u_totalBytes u; u_state := s; u_boundary := u_boundary u |}.
Definition with_boundary (u : UploadContext) (b : bytes) : UploadContext :=
  {| u_filename := u_filename u; u_originalFilename := u_originalFilename u; u_open := u_open u;
     u_totalBytes := u_totalBytes u; u_state := u_state u; u_boundary := b |}.
Definition with_total (u : UploadContext) (n : Z) : UploadContext :=
  {| u_filename := u_filename u; u_originalFilename := u_originalFilename u; u_open := u_open u;
     u_totalBytes := n; u_state := u_state u; u_boundary := u_boundary u |}.

Definition setUploadState (s : UploadState) : M unit :=
  u ← theUpload; setCustom (Some (CUpload (with_state u s))).
Definition setUploadBoundary (b : bytes) : M unit :=
  u ← theUpload; setCustom (Some (CUpload (with_boundary u b))).

(** A write at the end of the open file; when its name has been removed the
    bytes go to a file nobody can name. *)
Definition append_file (path s : bytes) (w : World) : World :=
  match w_fs w !! path with Some f => put_file path (f ++ s) w | None => w end.

(** [writeData(body.data() + off, len)], [len] a [size_t]: reading beyond the
    string is undefined. *)
Definition writeData (body : bytes) (off : nat) (len : Z) : M unit :=
  u ← theUpload;
  if negb (u_open u) then throw ($"File is not open: " ++ u_filename u)
  else if (Z.of_nat (length body) <? Z.of_nat off + len)%Z then undef
  else
    w ← get;
    let old := default [] (w_fs w !! u_filename u) in
    if write_ok (u_filename u) (Z.of_nat (length old) + len)%Z then
      modify (append_file (u_filename u) (take (Z.to_nat len) (drop off body)));;
      setCustom (Some (CUpload (with_total u (wrap 64 (u_totalBytes u + len)))))
    else throw ($"Failed to write to file: " ++ u_filename u).

(** ** [handleFileUpload] *)

Definition boundaryRegex : list item := compile ($"boundary=(.+)$").
Definition filenameRegex : list item :=
  compile ($"Content-Disposition:.*filename=" ++ [dquote] ++ $"([^" ++ [dquote] ++ $"]+)" ++
           [dquote]).

Definition setReqBody (b : bytes) : M unit :=
  modify (fun w => set_req (HttpRequest.setBody (w_req w) b) w).

Definition blank_line : bytes := [chr 13; chr 10; chr 13; chr 10].

(** The original file name: the X-File-Name header, or else the
    Content-Disposition of the body.  [inl tt] when the body is empty. *)
Definition uploadFilename : M (unit + bytes) :=
  headerFilename ← reqHeader ($"X-File-Name");
  if bool_decide (headerFilename <> []) then
    n ← of_option (urlDecode headerFilename); mret (inr n)
  else
    w ← get;
    let body := HttpRequest.body_ (w_req w) in
    if bool_decide (body = []) then mret (inl tt)
    else match regex_search filenameRegex body with
         | Some (n :: _) => mret (inr n)
         | _ => mret (inr ($"unknown_file"))
         end.

(** The content of the first chunk: what follows the header of the part, up to
    the closing boundary when it is there. *)
Definition firstChunk (boundary body : bytes) : M unit :=
  match find blank_line body 0 with
  | None => mret tt
  | Some p =>
      let pos := p + 4 in
      match find (boundary ++ $"--") body 0 with
      | Some endPos =>
          (if 0 <? endPos
           then writeData body pos (wrap 64 (Z.of_nat endPos - Z.of_nat pos))
           else mret tt);;
          setUploadState uComplete
      | None =>
          (if pos <? length body
           then writeData body pos (Z.of_nat (length body) - Z.of_nat pos)
           else mret tt);;
          setUploadState uExpectBoundary
      end
  end.

(** Opening an upload: the context, and the content of the first chunk after
    the part's header.  [true] when an error has been answered. *)
Definition beginUpload (boundary : bytes) : M bool :=
  TRY
    (name ← uploadFilename;
     match name with
     | inl _ => sendError ($"Request body is empty") k400BadRequest;; mret true
     | inr originalFilename =>
         filename ← generateUniqueFilename ($"upload");
         let filepath := uploadDir ++ $"/" ++ filename in
         u ← upload_create filepath originalFilename;
         setCustom (Some (CUpload u));;
         setUploadBoundary boundary;;
         w ← get;
         firstChunk boundary (HttpRequest.body_ (w_req w));;
         setReqBody [];;
         mret false
     end)
  CATCH _e => (sendError ($"Failed to create file") k500InternalServerError;; mret true).

(** A later chunk, in the state the upload is in. *)
Definition uploadChunk (u : UploadContext) (body : bytes) : M unit :=
  match u_state u with
  | uExpectBoundary =>
      match find (u_boundary u ++ $"--") body 0 with
      | Some endPos =>
          (if 0 <? endPos then writeData body 0 (Z.of_nat endPos) else mret tt);;
          setUploadState uComplete
      | None =>
          match find (u_boundary u) body 0 with
          | Some boundaryPos =>
              match find blank_line body boundaryPos with
              | Some _ =>
                  (if 0 <? boundaryPos then writeData body 0 (Z.of_nat boundaryPos) else mret tt);;
                  setUploadState uExpectContent
              | None => mret tt
              end
          | None => writeData body 0 (Z.of_nat (length body))
          end
      end
  | uExpectContent =>
      match find (u_boundary u) body 0 with
      | Some boundaryPos =>
          writeData body 0 (Z.of_nat boundaryPos);;
          setUploadState uExpectBoundary
      | None => writeData body 0 (Z.of_nat (length body))
      end
  | uComplete => mret tt
  | uExpectHeaders => mret tt
  end.

Definition continueUpload (u : UploadContext) : M bool :=
  TRY
    (w ← get;
     let body := HttpRequest.body_ (w_req w) in
     (if bool_decide (body = []) then mret tt else uploadChunk u body);;
     mret false)
  CATCH _e => (sendError ($"Failed to process data") k500InternalServerError;; mret true).

Definition file_insert (name original : bytes) (size : Z) (type : bytes) (userId : Z) : bytes :=
  $"INSERT INTO files (filename, original_filename, file_size, " ++
  $"file_type, user_id) VALUES ('" ++ name ++ $"', '" ++ original ++ $"', " ++ to_string size ++
  $", '" ++ type ++ $"', " ++ to_string userId ++ $")".

(** The upload is complete: record it and answer. *)
Definition finishUpload (userId : Z) : M bool :=
  u ← theUpload;
  let serverFilename := path_filename (u_filename u) in
  let originalFilename := u_originalFilename u in
  let fileSize := u_totalBytes u in
  let fileType := getFileType originalFilename in
  s ← escapeString serverFilename;
  o ← escapeString originalFilename;
  t ← escapeString fileType;
  executeQuery (file_insert s o fileSize t userId);;
  fileId ← insert_id;
  okJson (JObj [($"code", JInt 0); ($"message", JStr ($"上传成功")); ($"fileId", JInt fileId);
                ($"filename", JStr serverFilename);
                ($"originalFilename", JStr originalFilename); ($"size", JInt fileSize)]);;
  setCustom None;;
  setWriteCompleteCallback CbShutdown;;
  mret true.

Definition handleFileUpload : M bool :=
  needLogin (fun userId _ =>
    w ← get;
    match w_ctx w with
    | None => sendError ($"Internal Server Error") k500InternalServerError;; mret true
    | Some httpContext =>
        cur ← getUpload;
        stop ← match cur with
               | None =>
                   contentType ← reqHeader ($"Content-Type");
                   if bool_decide (contentType = []) then
                     sendError ($"Content-Type header is missing") k400BadRequest;; mret true
                   else
                     match regex_search boundaryRegex contentType with
                     | Some (b :: _) => beginUpload ($"--" ++ b)
                     | _ => sendError ($"Invalid Content-Type") k400BadRequest;; mret true
                     end
               | Some u => continueUpload u
               end;
        if stop : bool then mret true
        else
          setReqBody [];;
          u ← theUpload;
          if bool_decide (u_state u = uComplete) || HttpContext.gotAll httpContext
          then finishUpload userId
          else mret false
    end).

End upload.
