(* ===== verification/Download.v ===== *)
(** * Downloading (app/FileDownloadContext.hpp, app/HttpUploader.hpp:
    handleDownload, handleShareDownload) *)

From S2P Require Import Prelude CxxString OrdMap Regex HttpRequest HttpContext HttpResponse World.
From S2P Require Import Session Upload.

(** ** [FileDownContext] *)

Module FileDownContext.

Definition chunkSize : Z := 1024 * 1024.

(** The constructor, on the content of the file it opens; the size is measured
    once. *)
Definition create (filepath originalFilename content : bytes) : DownContext :=
  {| d_filepath := filepath; d_originalFilename := originalFilename; d_content := content;
     d_linked := true; d_written := false; d_pos := 0; d_fail := false; d_fileSize := Z.of_nat (length content);
     d_currentPosition := 0; d_isComplete := false |}.

Definition seekTo (d : DownContext) (position : Z) : DownContext :=
  {| d_filepath := d_filepath d; d_originalFilename := d_originalFilename d;
     d_content := d_content d; d_linked := d_linked d; d_written := d_written d;
     d_pos := if d_fail d then d_pos d else position;
     d_fail := d_fail d; d_fileSize := d_fileSize d; d_currentPosition := position;
     d_isComplete := false |}.

(** [file_.read(buffer, n)]: what is read of what the file holds now, and whether
    the stream fails, as it does at the end of the file and from then on. *)
Definition stream_read (d : DownContext) (n : Z) : bytes * bool :=
  if d_fail d then ([], true)
  else
    let got := take (Z.to_nat n) (drop (Z.to_nat (d_pos d)) (d_content d)) in
    (got, (Z.of_nat (length got) <? n)%Z).

(** [readNextChunk]: the chunk when it returns true.  The buffer is zero
    beyond what the stream delivered. *)
Definition readNextChunk (d : DownContext) : option bytes * DownContext :=
  if d_isComplete d then (None, d)
  else
    let remainingBytes := wrap 64 (d_fileSize d - d_currentPosition d) in
    let bytesToRead := Z.min chunkSize remainingBytes in
    if (bytesToRead =? 0)%Z then
      (None, {| d_filepath := d_filepath d; d_originalFilename := d_originalFilename d;
                d_content := d_content d; d_linked := d_linked d; d_written := d_written d;
                d_pos := d_pos d; d_fail := d_fail d;
                d_fileSize := d_fileSize d; d_currentPosition := d_currentPosition d;
                d_isComplete := true |})
    else
      let '(got, fail) := stream_read d bytesToRead in
      (Some (got ++ replicate (Z.to_nat bytesToRead - length got) (chr 0)),
       {| d_filepath := d_filepath d; d_originalFilename := d_originalFilename d;
          d_content := d_content d; d_linked := d_linked d; d_written := d_written d;
          d_pos := (d_pos d + Z.of_nat (length got))%Z; d_fail := fail;
          d_fileSize := d_fileSize d;
          d_currentPosition := wrap 64 (d_currentPosition d + bytesToRead);
          d_isComplete := false |}).

End FileDownContext.

(** ** Permissions *)

(** The check of [handleDownload] on the row it found. *)
Definition downloadPermission (isAuthenticated : bool) (userId fileOwnerId : Z)
    (shareCode shareType : bytes) (sharedWithId : Z) (extractCode dbExtractCode : bytes) : bool :=
  if isAuthenticated && (userId =? fileOwnerId)%Z then true
  else if bool_decide (shareCode <> []) then
    if bool_decide (shareType = $"public") then true
    else if bool_decide (shareType = $"protected") then
      bool_decide (extractCode <> []) && bool_decide (extractCode = dbExtractCode)
    else if bool_decide (shareType = $"user") then
      isAuthenticated && (userId =? sharedWithId)%Z
    else false
  else if isAuthenticated then (userId =? fileOwnerId)%Z
  else false.

(** The check of [handleShareDownload]. *)
Definition sharePermission (isAuthenticated : bool) (userId fileOwnerId : Z)
    (shareType : bytes) (sharedWithId : Z) (extractCode dbExtractCode : bytes) : bool :=
  if isAuthenticated && (userId =? fileOwnerId)%Z then true
  else if bool_decide (shareType = $"public") then true
  else if bool_decide (shareType = $"protected") then
    bool_decide (extractCode <> []) && bool_decide (extractCode = dbExtractCode)
  else if bool_decide (shareType = $"user") then
    isAuthenticated && (userId =? sharedWithId)%Z
  else false.

(** ** Ranges *)

Definition rangeRegex : list item := compile ($"bytes=(\d+)-(\d*)").

Inductive range :=
  | RangeWhole
  | RangePart (startPos endPos : Z)
  | RangeUnsatisfiable.

(** The Range header against a file of [fileSize] bytes; [std::stoull] throws
    on a number that is too large. *)
Definition parseRange (rangeHeader : bytes) (fileSize : Z) : bytes + range :=
  if bool_decide (rangeHeader = []) then inr RangeWhole
  else match regex_search rangeRegex rangeHeader with
       | Some (s :: e :: _) =>
           match stoull s with
           | inl x => inl x
           | inr startPos =>
               match (if bool_decide (e <> []) then stoull e else inr (wrap 64 (fileSize - 1))) with
               | inl x => inl x
               | inr endPos =>
                   if (fileSize <=? startPos)%Z then inr RangeUnsatisfiable
                   else inr (RangePart startPos
                               (if (fileSize <=? endPos)%Z then (fileSize - 1)%Z else endPos))
               end
           end
       | _ => inr RangeWhole
       end.

Section download.
Context `{Platform}.

(** [getContext<FileDownContext>()]. *)
Definition getDown : M (option nat) :=
  w ← get;
  match w_ctx w with
  | Some c =>
      match HttpContext.customContext_ c with
      | None => mret None
      | Some (CDown id) => mret (Some id)
      | Some (CUpload _) => undef
      end
  | None => undef
  end.

(** [std::make_shared<FileDownContext>(...)]: [fs::file_size] throws when there is
    no file. *)
Definition makeDown (filepath originalFilename : bytes) : M nat :=
  w ← get;
  match w_fs w !! filepath with
  | None => throw ($"filesystem error: cannot get file size: " ++ filepath)
  | Some content =>
      if open_in_ok filepath then
        modify (set_down (<[w_next w := FileDownContext.create filepath originalFilename content]>
                            (w_down w)) (S (w_next w)));;
        mret (w_next w)
      else throw ($"Failed to open file: " ++ filepath)
  end.

Definition content_range (startPos endPos fileSize : Z) : bytes :=
  $"bytes " ++ to_string startPos ++ $"-" ++ to_string endPos ++ $"/" ++ to_string fileSize.

(** The answer to a HEAD request. *)
Definition sendFileInfo (fileSize : Z) : M bool :=
  setStatusCode k200Ok;;
  setStatusMessage ($"OK");;
  setContentType ($"application/octet-stream");;
  addHeader ($"Content-Length") (to_string fileSize);;
  addHeader ($"Accept-Ranges") ($"bytes");;
  addHeader ($"Connection") ($"close");;
  setWriteCompleteCallback CbShutdown;;
  mret true.

(** The download proper: the context, the response header, the callback that
    sends the chunks.  [part] is [Some (startPos, endPos)] for a range request. *)
Definition startDownload (filepath originalFilename : bytes) (fileSize : Z)
    (part : option (Z * Z)) : M bool :=
  w ← get;
  match w_ctx w with
  | None => sendError ($"Internal Server Error") k500InternalServerError;; mret true
  | Some _ =>
      cur ← getDown;
      id ← match cur with
           | Some id => mret id
           | None =>
               id ← makeDown filepath originalFilename;
               setCustom (Some (CDown id));;
               (match part with
                | Some (startPos, endPos) =>
                    setStatusCode k206PartialContent;;
                    setStatusMessage ($"Partial Content");;
                    addHeader ($"Content-Range") (content_range startPos endPos fileSize)
                | None =>
                    setStatusCode k200Ok;;
                    setStatusMessage ($"OK")
                end);;
               setContentType ($"application/octet-stream");;
               addHeader ($"Content-Disposition")
                 ($"attachment; filename=" ++ [dquote] ++ originalFilename ++ [dquote]);;
               addHeader ($"Accept-Ranges") ($"bytes");;
               addHeader ($"Connection") ($"keep-alive");;
               let startPos := match part with Some (s, _) => s | None => 0%Z end in
               modify (fun w => set_down
                 (alter (fun d => FileDownContext.seekTo d startPos) id (w_down w)) (w_next w) w);;
               mret id
           end;
      setWriteCompleteCallback (CbDownload id);;
      mret true
  end.

(** The [try] block at the end of [handleDownload]. *)
Definition serveFile (serverFilename originalFilename : bytes) : M bool :=
  let filepath := uploadDir ++ $"/" ++ serverFilename in
  TRY
    (w ← get;
     match w_fs w !! filepath with
     | None => sendError ($"File not found") k404NotFound;; mret true
     | Some content =>
         let fileSize := Z.of_nat (length content) in
         if bool_decide (HttpRequest.method_ (w_req w) = kHead) then sendFileInfo fileSize
         else
           rangeHeader ← reqHeader ($"Range");
           r ← of_sum (parseRange rangeHeader fileSize);
           match r with
           | RangeUnsatisfiable =>
               sendError ($"Range Not Satisfiable") k416RangeNotSatisfiable;; mret true
           | RangePart startPos endPos =>
               startDownload filepath originalFilename fileSize (Some (startPos, endPos))
           | RangeWhole => startDownload filepath originalFilename fileSize None
           end
     end)
  CATCH _e => (sendError ($"Download failed") k500InternalServerError;; mret true).

(** [handleShareDownload] repeats the block. *)
Definition serveShareFile (serverFilename originalFilename : bytes) : M bool :=
  serveFile serverFilename originalFilename.

(** ** The handlers *)

Definition download_by_share (filename shareCode : bytes) : bytes :=
  $"SELECT f.id, f.filename, f.original_filename, f.user_id, " ++
  $"fs.share_type, fs.shared_with_id, fs.extract_code " ++
  $"FROM files f " ++
  $"JOIN file_shares fs ON f.id = fs.file_id " ++
  $"WHERE f.filename = '" ++ filename ++ $"' " ++
  $"AND fs.share_code = '" ++ shareCode ++ $"' " ++
  $"AND (fs.expire_time IS NULL OR fs.expire_time > NOW())".

Definition download_by_name (filename : bytes) : bytes :=
  $"SELECT f.id, f.filename, f.original_filename, f.user_id, " ++
  $"NULL as share_type, NULL as shared_with_id, NULL as extract_code " ++
  $"FROM files f WHERE f.filename = '" ++ filename ++ $"'".

(** The answer when the permission check fails. *)
Definition refuse (shareType extractCode dbExtractCode : bytes) : M bool :=
  (if bool_decide (shareType = $"protected")
      && (bool_decide (extractCode = []) || bool_decide (extractCode <> dbExtractCode))
   then sendError ($"需要正确的提取码") k403Forbidden
   else sendError ($"您没有权限访问此文件") k403Forbidden);;
  mret true.

(** The caller of a download: the session of the X-Session-ID header, or of
    the query parameter; user id 0 when there is none. *)
Definition downloadUser : M (bool * Z) :=
  header ← reqHeader ($"X-Session-ID");
  sessionId ← (if bool_decide (header = []) then reqQuery ($"sessionId") [] else mret header);
  user ← validateSession sessionId;
  mret (match user with Some (userId, _) => (true, userId) | None => (false, 0%Z) end).

(** From the row found to the answer. *)
Definition downloadRow (auth : bool) (userId : Z) (shareCode extractCode : bytes) (r : row) : M bool :=
  column_int r 0;;
  serverFilename ← column_str r 1;
  originalFilename ← column_str r 2;
  fileOwnerId ← column_int r 3;
  shareType ← column_or r 4 [];
  sharedWithId ← column_int_or0 r 5;
  dbExtractCode ← column_or r 6 [];
  if downloadPermission auth userId fileOwnerId shareCode shareType sharedWithId extractCode
       dbExtractCode
  then serveFile serverFilename originalFilename
  else refuse shareType extractCode dbExtractCode.

Definition handleDownload : M bool :=
  filename ← reqPathParam ($"filename");
  if bool_decide (filename = []) then
    sendError ($"Missing filename") k400BadRequest;; mret true
  else
    '(auth, userId) ← downloadUser;
    shareCode ← reqQuery ($"code") [];
    extractCode ← reqQuery ($"extract_code") [];
    if bool_decide (shareCode = []) && negb auth then
      sendError ($"请先登录") k401Unauthorized;; mret true
    else
      f ← escapeString filename;
      query ← (if bool_decide (shareCode <> [])
               then s ← escapeString shareCode; mret (download_by_share f s)
               else mret (download_by_name f));
      result ← executeQueryWithResult query;
      match first_row result with
      | None => sendError ($"File not found") k404NotFound;; mret true
      | Some r => downloadRow auth userId shareCode extractCode r
      end.

Definition share_download_select (filename shareCode : bytes) : bytes :=
  $"SELECT f.id, f.filename, f.original_filename, f.user_id, " ++
  $"fs.share_type, fs.shared_with_id, fs.extract_code, " ++
  $"fs.created_at, fs.expire_time " ++
  $"FROM files f " ++
  $"JOIN file_shares fs ON f.id = fs.file_id " ++
  $"WHERE f.filename = '" ++ filename ++ $"' " ++
  $"AND fs.share_code = '" ++ shareCode ++ $"' " ++
  $"AND (fs.expire_time IS NULL OR fs.expire_time > NOW())".

Definition shareDownloadRow (auth : bool) (userId : Z) (extractCode : bytes) (r : row) : M bool :=
  serverFilename ← column_str r 1;
  originalFilename ← column_str r 2;
  fileOwnerId ← column_int r 3;
  shareType ← column_str r 4;
  sharedWithId ← column_int_or0 r 5;
  dbExtractCode ← column_or r 6 [];
  column_or r 7 [];;
  column_or r 8 [];;
  if sharePermission auth userId fileOwnerId shareType sharedWithId extractCode dbExtractCode
  then serveShareFile serverFilename originalFilename
  else refuse shareType extractCode dbExtractCode.

Definition handleShareDownload : M bool :=
  filename ← reqPathParam ($"filename");
  if bool_decide (filename = []) then
    sendError ($"Missing filename") k400BadRequest;; mret true
  else
    shareCode ← reqQuery ($"code") [];
    extractCode ← reqQuery ($"extract_code") [];
    if bool_decide (shareCode = []) then
      sendError ($"Missing share code") k400BadRequest;; mret true
    else
      sessionId ← reqHeader ($"X-Session-ID");
      user ← validateSession sessionId;
      let '(auth, userId) := match user with Some (u, _) => (true, u) | None => (false, 0%Z) end in
      f ← escapeString filename;
      s ← escapeString shareCode;
      result ← executeQueryWithResult (share_download_select f s);
      match first_row result with
      | None => sendError ($"Share not found or expired") k404NotFound;; mret true
      | Some r => shareDownloadRow auth userId extractCode r
      end.

(** ** The callbacks *)

(** What an installed write-complete callback asks of its connection. *)
Inductive wc_action :=
  | WcSend (chunk : bytes)
  | WcShutdown.

Definition run_callback (cb : callback) : M wc_action :=
  match cb with
  | CbShutdown => mret WcShutdown
  | CbDownload id =>
      w ← get;
      d ← of_option (w_down w !! id);
      let '(chunk, d') := FileDownContext.readNextChunk d in
      modify (set_down (<[id := d']> (w_down w)) (w_next w));;
      mret (match chunk with Some c => WcSend c | None => WcShutdown end)
  end.

End download.

(** * Range requests

    What [parseRange] makes of a Range header: the values of the well-formed
    headers, and the bounds of every range it returns. *)

(** A greedy repetition stops at the first character outside the class, when
    the rest of the pattern goes on from there. *)
Lemma rep_run {R} cs (k : bytes -> option R) s c t r :
  Forall (fun c => in_set c cs = true) s -> in_set c cs = false -> k (c :: t) = Some r ->
  rep cs k (s ++ c :: t) = Some r.
Proof.
  intros H Hc Hk. induction H as [|d s Hd Hs IH]; simpl; [by rewrite Hc|]. by rewrite Hd, IH.
Qed.

Lemma search_at_here n its s caps rest :
  mtch n its [] [] s = Some (caps, rest) -> search_at n its s = Some caps.
Proof. intros E. destruct s; simpl; by rewrite E. Qed.

Lemma capture_prefix (x y : bytes) : take (length (x ++ y) - length y) (x ++ y) = x.
Proof. rewrite length_app, Nat.add_sub. apply take_app_length. Qed.

Definition all_digits (s : bytes) : Prop := Forall (fun c => isdigit c = true) s.

Lemma rangeRegex_parts :
  rangeRegex = lits ($"bytes=") ++
    [IOpen; IRep true Digit; IClose; IOne (Chr "-"); IOpen; IRep false Digit; IClose].
Proof. reflexivity. Qed.

Lemma range_captures s e :
  all_digits s -> s <> [] -> all_digits e ->
  regex_search rangeRegex ($"bytes=" ++ s ++ $"-" ++ e) = Some [s; e].
Proof.
  intros Hs Hne He. unfold regex_search. eapply search_at_here with (rest := []).
  set (n := length _). rewrite rangeRegex_parts, mtch_lits.
  rewrite (proj2 (prefixb_spec _ _)) by (eexists; done).
  rewrite drop_app_length. destruct s as [|c s]; [done|].
  apply Forall_cons in Hs as [Hc Hs]. cbn [mtch app]. cbn [in_set]. rewrite Hc.
  apply rep_run; [done|done|]. cbn [mtch in_set]. rewrite bool_decide_true by done.
  rewrite rep_end; [|done|].
  - cbn [mtch app]. do 2 f_equal.
    pose proof (capture_prefix (c :: s) ("-"%char :: e)) as E. cbn [app] in E. cbn [app s2b String.list_ascii_of_string].
    rewrite E. cbn [length]. by rewrite Nat.sub_0_r, firstn_all.
  - eauto.
Qed.

Lemma to_string_digits z : (0 <= z)%Z -> all_digits (to_string z) /\ to_string z <> [].
Proof.
  intros Hz. unfold to_string. destruct (Z.ltb_spec z 0); [lia|].
  split; [apply udigits_digits|apply udigits_nonempty].
Qed.

(** [bytes=s-e]. *)
Lemma parseRange_closed s e size :
  (0 <= s < 2 ^ 64)%Z -> (0 <= e < 2 ^ 64)%Z ->
  parseRange ($"bytes=" ++ to_string s ++ $"-" ++ to_string e) size =
  inr (if (size <=? s)%Z then RangeUnsatisfiable else RangePart s (Z.min e (size - 1))).
Proof.
  intros Hs He. unfold parseRange. rewrite bool_decide_false by done.
  destruct (to_string_digits s) as [Ds Ns]; [lia|]. destruct (to_string_digits e) as [De Ne]; [lia|].
  rewrite range_captures by done. rewrite stoull_to_string by done.
  rewrite bool_decide_true by done. rewrite stoull_to_string by done.
  destruct (size <=? s)%Z; [done|]. do 2 f_equal. destruct (Z.leb_spec size e); lia.
Qed.

(** [bytes=s-]: up to the end. *)
Lemma parseRange_open s size :
  (0 <= s < 2 ^ 64)%Z -> (0 <= size <= 2 ^ 64)%Z ->
  parseRange ($"bytes=" ++ to_string s ++ $"-") size =
  inr (if (size <=? s)%Z then RangeUnsatisfiable else RangePart s (size - 1)).
Proof.
  intros Hs Hz. unfold parseRange. rewrite bool_decide_false by done.
  destruct (to_string_digits s) as [Ds Ns]; [lia|].
  pose proof (range_captures (to_string s) [] Ds Ns (Forall_nil_2 _)) as E.
  rewrite app_nil_r in E. rewrite E.
  rewrite stoull_to_string by done. rewrite bool_decide_false by naive_solver.
  destruct (Z.leb_spec size s); [done|]. rewrite wrap_small by lia.
  do 2 f_equal. destruct (Z.leb_spec size (size - 1)); lia.
Qed.

Lemma scan_digits_nonneg s : forall acc, (0 <= acc)%Z -> (0 <= (scan_digits acc s).1)%Z.
Proof.
  induction s as [|c s IH]; intros acc Ha; simpl; [done|].
  destruct (isdigit c) eqn:E; [|done]. apply IH. unfold isdigit, digit_val in *. lia.
Qed.

Lemma stoull_bound s z : stoull s = inr z -> (0 <= z < 2 ^ 64)%Z.
Proof.
  unfold stoull. destruct (strtoz s) as [[neg v]|] eqn:E; [|done].
  assert (0 <= v)%Z as Hv.
  { unfold strtoz in E. repeat case_match; simplify_eq; by apply scan_digits_nonneg. }
  destruct (Z.ltb_spec v (2 ^ 64)); [|done]. intros [= <-].
  destruct neg; [|lia]. apply wrap_bound. lia.
Qed.

(** Every range returned starts inside the file and does not go past its end. *)
Lemma parseRange_bounds h size s e :
  parseRange h size = inr (RangePart s e) -> (0 <= s < size /\ e < size)%Z.
Proof.
  unfold parseRange. case_bool_decide; [done|].
  destruct (regex_search rangeRegex h) as [[|x [|y l]]|]; try done.
  destruct (stoull x) as [?|st] eqn:Es; [done|]. apply stoull_bound in Es.
  destruct (if bool_decide (y <> []) then _ else _) as [?|en]; [done|].
  destruct (Z.leb_spec size st); [done|]. intros [= <- <-].
  destruct (Z.leb_spec size en); lia.
Qed.
