(* ===== verification/Files.v ===== *)
(** * Files and pages (app/HttpUploader.hpp: handleListFiles, handleDelete,
    handleIndex, handleFavicon, the file name mapping) *)

From S2P Require Import Prelude CxxString OrdMap HttpRequest HttpContext HttpResponse World Session.
From S2P Require Import Upload.

Section files.
Context `{Platform}.

(** ** The file name mapping *)

Definition mappingFile : bytes := $"uploads/filename_mapping.json".

Definition loadFilenameMappingInternal : M unit :=
  TRY
    (w ← get;
     match w_fs w !! mappingFile with
     | None => mret tt
     | Some content =>
         d ← of_sum (json_parse (if open_in_ok mappingFile then content else []));
         m ← of_sum (doc_string_map d);
         modify (set_mapping (foldl (fun m kv => OrdMap.insert kv.1 kv.2 m) [] m))
     end)
  CATCH _e => mret tt.

Definition saveFilenameMappingInternal : M unit :=
  TRY
    ((if open_out_ok mappingFile
      then modify (put_file mappingFile []) else mret tt);;
     w ← get;
     s ← of_sum (json_dump2 (JObj (prod_map id JStr <$> w_mapping w)));
     if open_out_ok mappingFile && write_ok mappingFile (Z.of_nat (length s))
     then modify (put_file mappingFile s) else mret tt)
  CATCH _e => mret tt.

Definition addFilenameMapping (serverFilename originalFilename : bytes) : M unit :=
  loadFilenameMappingInternal;;
  modify (fun w => set_mapping (OrdMap.insert serverFilename originalFilename (w_mapping w)) w);;
  saveFilenameMappingInternal.

Definition getOriginalFilename (serverFilename : bytes) : M bytes :=
  loadFilenameMappingInternal;;
  w ← get;
  mret (default serverFilename (OrdMap.lookup (w_mapping w) serverFilename)).

(** The operations that hold the mutex of the mapping for one call. *)
Definition loadFilenameMapping : M unit := loadFilenameMappingInternal.
Definition saveFilenameMapping : M unit := saveFilenameMappingInternal.
Definition getAllFileMappings : M (list (bytes * bytes)) :=
  loadFilenameMappingInternal;;
  w ← get;
  mret (w_mapping w).

(** ** Listing *)

Definition list_columns : bytes :=
  $"SELECT f.id, f.filename, f.original_filename, f.file_size, f.file_type, ".

Definition list_query (listType : bytes) (userId : Z) : bytes :=
  let u := to_string userId in
  if bool_decide (listType = $"my") then
    list_columns ++ $"f.created_at, 1 as is_owner FROM files f WHERE f.user_id = " ++ u
  else if bool_decide (listType = $"shared") then
    list_columns ++ $"f.created_at, 0 as is_owner FROM files f " ++
    $"JOIN file_shares fs ON f.id = fs.file_id " ++
    $"WHERE (fs.shared_with_id = " ++ u ++ $" OR fs.share_type = 'public') " ++
    $"AND f.user_id != " ++ u
  else if bool_decide (listType = $"all") then
    list_columns ++ $"f.created_at, CASE WHEN f.user_id = " ++ u ++
    $" THEN 1 ELSE 0 END as is_owner " ++
    $"FROM files f " ++
    $"LEFT JOIN file_shares fs ON f.id = fs.file_id " ++
    $"WHERE f.user_id = " ++ u ++ $" OR " ++
    $"fs.shared_with_id = " ++ u ++ $" OR fs.share_type = 'public'"
  else [].

(** The sharing of a file, for its owner. *)
Definition shareInfo (fileId : Z) : M (option json) :=
  shareResult ← executeQueryWithResult
    ($"SELECT share_type, shared_with_id, share_code, expire_time, " ++
     $"extract_code FROM file_shares " ++ $"WHERE file_id = " ++ to_string fileId);
  match first_row shareResult with
  | None => mret None
  | Some r =>
      shareType ← column_str r 0;
      code ← column_or r 2 [];
      extract ← column r 4;
      withId ← column r 1;
      user ← (match withId with
              | Some s =>
                  if bool_decide (shareType = $"user") then
                    sharedWithId ← of_sum (stoi s);
                    userResult ← executeQueryWithResult
                      ($"SELECT username FROM users WHERE id = " ++ to_string sharedWithId);
                    match first_row userResult with
                    | Some ur =>
                        name ← column_str ur 0;
                        mret [($"sharedWithUsername", JStr name);
                              ($"sharedWithId", JInt sharedWithId)]
                    | None => mret []
                    end
                  else mret []
              | None => mret []
              end);
      expire ← column r 3;
      mret (Some (JObj
        ([($"type", JStr shareType); ($"shareCode", JStr code)] ++
         (match extract with
          | Some e => if bool_decide (shareType = $"protected") then [($"extractCode", JStr e)] else []
          | None => []
          end) ++ user ++
         (match expire with Some e => [($"expireTime", JStr e)] | None => [] end))))
  end.

Fixpoint list_rows (rows : list row) : M (list json) :=
  match rows with
  | [] => mret []
  | r :: rows' =>
      fileId ← column_int r 0;
      filename ← column_str r 1;
      originalFilename ← column_str r 2;
      sz ← column_str r 3;
      fileSize ← of_sum (stoull sz);
      fileType ← column_str r 4;
      createdAt ← column_str r 5;
      owner ← column_int r 6;
      let isOwner := (owner =? 1)%Z in
      share ← (if isOwner then shareInfo fileId else mret None);
      js ← list_rows rows';
      mret (JObj ([($"id", JInt fileId); ($"name", JStr filename);
                   ($"originalName", JStr originalFilename); ($"size", JInt fileSize);
                   ($"type", JStr fileType); ($"createdAt", JStr createdAt);
                   ($"isOwner", JBool isOwner)] ++
                  match share with Some s => [($"shareInfo", s)] | None => [] end) :: js)
  end.

Definition handleListFiles : M bool :=
  needLogin (fun userId _ =>
    listType ← reqQuery ($"type") ($"my");
    result ← executeQueryWithResult (list_query listType userId);
    files ← (match result with
             | Some rows => js ← list_rows rows; mret [($"files", JArr js)]
             | None => mret []
             end);
    sendJson (JObj ([($"code", JInt 0); ($"message", JStr ($"Success"))] ++ files))).

(** ** Deleting *)

Definition own_file_select (filename : bytes) (userId : Z) : bytes :=
  $"SELECT id FROM files WHERE filename = '" ++ filename ++ $"' AND user_id = " ++ to_string userId.
Definition delete_shares (fileId : Z) : bytes :=
  $"DELETE FROM file_shares WHERE file_id = " ++ to_string fileId.
Definition delete_file (fileId : Z) : bytes :=
  $"DELETE FROM files WHERE id = " ++ to_string fileId.

Definition remove_from_disk (filepath : bytes) : M unit :=
  w ← get;
  match w_fs w !! filepath with
  | None => mret tt
  | Some _ =>
      if unlink_ok filepath then modify (remove_file filepath) else mret tt
  end.

Definition handleDelete : M bool :=
  needLogin (fun userId _ =>
    filename ← reqPathParam ($"filename");
    if bool_decide (filename = []) then
      sendError ($"Missing filename") k400BadRequest;; mret true
    else
      let filepath := uploadDir ++ $"/" ++ filename in
      f ← escapeString filename;
      result ← executeQueryWithResult (own_file_select f userId);
      match first_row result with
      | None => sendError ($"文件不存在或您没有权限删除此文件") k403Forbidden;; mret true
      | Some r =>
          fileId ← column_int r 0;
          executeQuery (delete_shares fileId);;
          ok ← executeQuery (delete_file fileId);
          if negb ok then
            sendError ($"删除文件记录失败") k500InternalServerError;; mret true
          else
            remove_from_disk filepath;;
            loadFilenameMappingInternal;;
            modify (fun w => set_mapping (OrdMap.erase filename (w_mapping w)) w);;
            saveFilenameMappingInternal;;
            sendJson (JObj [($"code", JInt 0); ($"message", JStr ($"success"))])
      end).

(** ** Pages *)

Definition index_file (path : bytes) : bytes :=
  if bool_decide (path = $"/register.html") then projectRoot ++ $"/register.html"
  else if bool_decide (path = $"/share.html") || prefixb ($"/share/") path
  then projectRoot ++ $"/share.html"
  else projectRoot ++ $"/index.html".

(** An [std::ifstream] on a file: its content when it opens. *)
Definition read_file (path : bytes) : M (option bytes) :=
  w ← get; mret (if open_in_ok path then w_fs w !! path else None).

Definition handleIndex : M bool :=
  setStatusCode k200Ok;;
  setStatusMessage ($"OK");;
  setContentType ($"text/html; charset=utf-8");;
  w ← get;
  let filePath := index_file (HttpRequest.path_ (w_req w)) in
  file ← read_file filePath;
  match file with
  | None => sendError ($"Failed to open " ++ filePath) k500InternalServerError;; mret true
  | Some html =>
      addHeader ($"Connection") ($"close");;
      setBody html;;
      setWriteCompleteCallback CbShutdown;;
      mret true
  end.

Definition handleFavicon : M bool :=
  file ← read_file (projectRoot ++ $"/favicon.ico");
  match file with
  | None =>
      setStatusCode k404NotFound;;
      setStatusMessage ($"Not Found");;
      setContentType ($"image/x-icon");;
      addHeader ($"Connection") ($"close");;
      setBody []
  | Some iconData =>
      setStatusCode k200Ok;;
      setStatusMessage ($"OK");;
      setContentType ($"image/x-icon");;
      addHeader ($"Connection") ($"close");;
      setBody iconData
  end;;
  setWriteCompleteCallback CbShutdown;;
  mret true.

End files.
