(* ===== verification/Share.v ===== *)
(** * Sharing (app/HttpUploader.hpp: generateShareCode, generateExtractCode,
    handleShareFile, handleShareAccess, handleShareInfo) *)

From S2P Require Import Prelude CxxString OrdMap Regex HttpRequest HttpContext HttpResponse World.
From S2P Require Import Session Upload Download Files.

Section share.
Context `{Platform}.

Definition generateShareCode : M bytes := draw_chars 32 alphabet36.

Definition extract_alphabet : bytes := $"0123456789ABCDEFGHIJKLMNOPQRSTUVWXYZ".
Definition generateExtractCode : M bytes := draw_chars 6 extract_alphabet.

(** ** Creating a share *)

Definition own_file_check (fileId userId : Z) : bytes :=
  $"SELECT 1 FROM files WHERE id = " ++ to_string fileId ++ $" AND user_id = " ++ to_string userId.

Definition share_insert (fileId userId : Z) (sharedWithId shareType shareCode extractCode expire : bytes)
    : bytes :=
  $"INSERT INTO file_shares (file_id, owner_id, shared_with_id, " ++
  $"share_type, share_code, extract_code, expire_time) VALUES (" ++
  to_string fileId ++ $", " ++ to_string userId ++ $", " ++ sharedWithId ++ $", '" ++ shareType ++
  $"', '" ++ shareCode ++ $"', " ++ extractCode ++ $", " ++ expire ++ $")".

(** The SQL expression of the expiry time. *)
Definition expire_sql (requestData : Doc) : M bytes :=
  if doc_contains requestData ($"expireTime") && negb (doc_is_null requestData ($"expireTime")) then
    expireHours ← of_sum (doc_int requestData ($"expireTime"));
    mret (if (0 <? expireHours)%Z
          then $"DATE_ADD(NOW(), INTERVAL " ++ to_string expireHours ++ $" HOUR)"
          else $"NULL")
  else mret ($"NULL").

(** The SQL texts of [shared_with_id] and [extract_code]; [None] when the file
    is already shared with that user. *)
Definition share_target (requestData : Doc) (fileId : Z) (shareType : bytes) :
    M (option (bytes * bytes)) :=
  if bool_decide (shareType = $"user") && doc_contains requestData ($"sharedWithId") then
    sid ← of_sum (doc_int requestData ($"sharedWithId"));
    let sharedWithId := to_string sid in
    checkResult ← executeQueryWithResult
      ($"SELECT 1 FROM file_shares WHERE file_id = " ++ to_string fileId ++
       $" AND shared_with_id = " ++ sharedWithId ++ $" AND share_type = 'user'");
    match first_row checkResult with
    | Some _ => mret None
    | None => mret (Some (sharedWithId, $"NULL"))
    end
  else if bool_decide (shareType = $"protected") then
    code ← generateExtractCode;
    mret (Some ($"NULL", $"'" ++ code ++ $"'"))
  else mret (Some ($"NULL", $"NULL")).

Definition handleShareFile : M bool :=
  needLogin (fun userId _ =>
    TRY
      (w ← get;
       requestData ← of_sum (json_parse (HttpRequest.body_ (w_req w)));
       fileId ← of_sum (doc_int requestData ($"fileId"));
       shareType ← of_sum (doc_string requestData ($"shareType"));
       fileResult ← executeQueryWithResult (own_file_check fileId userId);
       match first_row fileResult with
       | None => sendError ($"您没有权限分享此文件") k403Forbidden;; mret true
       | Some _ =>
           if bool_decide (shareType = $"private") then
             executeQuery (delete_shares fileId);;
             sendJson (JObj [($"code", JInt 0); ($"message", JStr ($"文件设置为私有成功"))])
           else
             expireStr ← expire_sql requestData;
             shareCode ← generateShareCode;
             target ← share_target requestData fileId shareType;
             match target with
             | None => sendError ($"已经分享给该用户") k400BadRequest;; mret true
             | Some (sharedWithId, extractCode) =>
                 t ← escapeString shareType;
                 c ← escapeString shareCode;
                 ok ← executeQuery (share_insert fileId userId sharedWithId t c extractCode expireStr);
                 if negb ok then
                   sendError ($"创建分享失败") k500InternalServerError;; mret true
                 else
                   shareId ← insert_id;
                   extra ← (if bool_decide (shareType = $"user") then
                              i ← of_sum (stoi sharedWithId); mret [($"sharedWithId", JInt i)]
                            else if bool_decide (shareType = $"protected") then
                              mret [($"extractCode",
                                     JStr (substr extractCode 1 (length extractCode - 2)))]
                            else mret []);
                   sendJson (JObj ([($"code", JInt 0); ($"message", JStr ($"分享成功"));
                                    ($"shareId", JInt shareId); ($"shareType", JStr shareType);
                                    ($"shareCode", JStr shareCode);
                                    ($"shareLink", JStr ($"/share/" ++ shareCode))] ++ extra))
             end
       end)
    CATCH e => (sendError ($"分享失败: " ++ e) k500InternalServerError;; mret true)).

(** ** Opening a share link *)

Definition codeRegex : list item := compile ($"/share/([^/]+)").

Definition code_char (c : ascii) : bool :=
  let z := code c in ((97 <=? z) && (z <=? 122) || (48 <=? z) && (z <=? 57))%Z.

Definition share_columns : bytes :=
  $"SELECT fs.*, f.filename, f.original_filename, f.file_size, " ++
  $"f.file_type, u.username as owner_username, f.user_id " ++
  $"FROM file_shares fs " ++
  $"JOIN files f ON fs.file_id = f.id " ++
  $"JOIN users u ON f.user_id = u.id ".

Definition share_access_select (shareCode extractCode : bytes) : bytes :=
  share_columns ++
  $"WHERE fs.share_code = '" ++ shareCode ++ $"' " ++
  $"AND (fs.expire_time IS NULL OR fs.expire_time > NOW()) " ++
  $"AND (fs.share_type != 'protected' OR (fs.share_type = 'protected' " ++
  $"AND fs.extract_code = '" ++ extractCode ++ $"'))".

(** The JSON description of a shared file, from its row. *)
Definition share_json (r : row) (shareType shareCode : bytes) (isOwner : bool) : M json :=
  id ← column_int r 0;
  fileId ← column_int r 1;
  ownerId ← column_int r 2;
  sharedWithId ← column_int_or0 r 3;
  createdAt ← column_or r 6 [];
  expireTime ← column_or r 7 [];
  filename ← column_or r 8 [];
  originalName ← column_or r 9 [];
  size ← column_ull_or0 r 10;
  type ← column_or r 11 ($"unknown");
  ownerUsername ← column_or r 12 [];
  mret (JObj [($"code", JInt 0); ($"message", JStr ($"success"));
    ($"file", JObj [($"id", JInt id); ($"fileId", JInt fileId); ($"ownerId", JInt ownerId);
       ($"sharedWithId", JInt sharedWithId); ($"shareType", JStr shareType);
       ($"shareCode", JStr shareCode); ($"createdAt", JStr createdAt);
       ($"expireTime", JStr expireTime); ($"filename", JStr filename);
       ($"originalName", JStr originalName); ($"size", JInt size); ($"type", JStr type);
       ($"ownerUsername", JStr ownerUsername); ($"isOwner", JBool isOwner)]);
    ($"downloadUrl", JStr ($"/share/download/" ++ filename ++ $"?code=" ++ shareCode))]).

(** The permission check of [handleShareAccess]; ownership is not tied to
    [isAuthenticated]. *)
Definition accessPermission (isOwner isAuthenticated : bool) (userId : Z) (shareType : bytes)
    (sharedWithId : Z) (extractCode dbExtractCode : bytes) : bool :=
  if isOwner then true
  else if bool_decide (shareType = $"public") then true
  else if bool_decide (shareType = $"protected") then
    bool_decide (extractCode <> []) && bool_decide (extractCode = dbExtractCode)
  else if bool_decide (shareType = $"user") then isAuthenticated && (userId =? sharedWithId)%Z
  else false.

(** The row of the share, as [handleShareAccess] indexes it. *)
Definition shareAccessRow (auth : bool) (userId : Z) (shareCode extractCode : bytes) (r : row) : M bool :=
  shareType ← column_str r 4;
  u ← column r 13;
  isOwner ← (match u with
             | Some s => i ← of_sum (stoi s); mret (i =? userId)%Z
             | None => mret false
             end);
  sharedWithId ← column_int_or0 r 3;
  dbExtractCode ← column_or r 5 [];
  if accessPermission isOwner auth userId shareType sharedWithId extractCode dbExtractCode then
    response ← share_json r shareType shareCode isOwner;
    setStatusCode k200Ok;;
    setStatusMessage ($"OK");;
    setContentType ($"application/json");;
    setJsonBody response;;
    addHeader ($"Connection") ($"close");;
    setWriteCompleteCallback CbShutdown;;
    mret true
  else refuse shareType extractCode dbExtractCode.

Definition handleShareAccess : M bool :=
  w ← get;
  match regex_search codeRegex (HttpRequest.path_ (w_req w)) with
  | Some (shareCode :: _) =>
      acceptHeader ← reqHeader ($"Accept");
      sessionId ← reqHeader ($"X-Session-ID");
      user ← validateSession sessionId;
      let '(auth, userId) := match user with Some (u, _) => (true, u) | None => (false, 0%Z) end in
      xrw ← reqHeader ($"X-Requested-With");
      if bool_decide (xrw = $"XMLHttpRequest")
         || bool_decide (is_Some (find ($"application/json") acceptHeader 0)) then
        if bool_decide (shareCode = []) || negb (length shareCode =? 32) then
          sendError ($"无效的分享码格式") k400BadRequest;; mret true
        else if negb (forallb code_char shareCode) then
          sendError ($"分享码包含非法字符") k400BadRequest;; mret true
        else
          extractCode ← reqQuery ($"code") [];
          c ← escapeString shareCode;
          e ← escapeString extractCode;
          result ← executeQueryWithResult (share_access_select c e);
          match first_row result with
          | None => sendError ($"分享链接已失效或不存在") k404NotFound;; mret true
          | Some r => shareAccessRow auth userId shareCode extractCode r
          end
      else
        result ← handleIndex;
        addHeader ($"X-Share-Code") shareCode;;
        mret result
  | _ => sendError ($"无效的分享链接") k400BadRequest;; mret true
  end.

(** ** Describing a share *)

Definition share_info_select (shareCode : bytes) : bytes :=
  share_columns ++
  $"WHERE fs.share_code = '" ++ shareCode ++ $"' " ++
  $"AND (fs.expire_time IS NULL OR fs.expire_time > NOW())".

Definition shareInfoRow (extractCode : bytes) (r : row) : M bool :=
  shareType ← column_str r 4;
  dbExtractCode ← column_or r 8 [];
  serverFilename ← column_or r 9 [];
  originalFilename ← column_or r 10 [];
  fileSize ← column_ull_or0 r 11;
  createdAt ← column_or r 7 [];
  expireTime ← column_or r 6 [];
  if bool_decide (shareType = $"protected")
     && (bool_decide (extractCode = []) || bool_decide (extractCode <> dbExtractCode)) then
    sendError ($"需要正确的提取码") k403Forbidden;; mret true
  else
    id ← column_int r 0;
    type ← column_or r 11 ($"unknown");
    sendJson (JObj [($"code", JInt 0); ($"message", JStr ($"success")); ($"shareType", JStr shareType);
      ($"file", JObj [($"id", JInt id); ($"name", JStr serverFilename);
         ($"originalName", JStr originalFilename); ($"size", JInt fileSize); ($"type", JStr type);
         ($"shareTime", JStr createdAt); ($"expireTime", JStr expireTime)])]).

Definition handleShareInfo : M bool :=
  shareCode ← reqPathParam ($"code");
  if bool_decide (shareCode = []) then
    sendError ($"Missing share code") k400BadRequest;; mret true
  else
    extractCode ← reqQuery ($"extract_code") [];
    c ← escapeString shareCode;
    result ← executeQueryWithResult (share_info_select c);
    match first_row result with
    | None => sendError ($"分享链接已失效或不存在") k404NotFound;; mret true
    | Some r => shareInfoRow extractCode r
    end.

End share.
