(* ===== verification/Routes.v ===== *)
(** * Routing (app/HttpUploader.hpp: initRoutes, addRoute, escapeRegex, onRequest,
    onConnection) *)

From S2P Require Import Prelude CxxString OrdMap Regex HttpRequest HttpContext HttpResponse World.
From S2P Require Import Session Accounts Upload Download Files Share.

(** The member functions a route can name. *)
Inductive RequestHandler :=
  | HFavicon | HRegister | HLogin | HIndex | HShareAccess | HShareDownload | HShareInfo
  | HFileUpload | HListFiles | HDownload | HDelete | HShareFile | HSearchUsers | HLogout.

#[export] Instance RequestHandler_eq_dec : EqDecision RequestHandler.
Proof. solve_decision. Defined.

Record RoutePattern := {
  r_pattern : list item;
  r_params : list bytes;
  r_handler : RequestHandler;
  r_method : Method
}.

Definition escapeRegex (str : bytes) : bytes :=
  flat_map (fun c =>
    if bool_decide (c ∈ $".+*?^$()[]{}|\") then ["\"%char; c] else [c]) str.

(** The two overloads of [addRoute]: an exact path, and a pattern with parameters. *)
Definition addRoute (path : bytes) (m : Method) (h : RequestHandler) : RoutePattern :=
  {| r_pattern := compile ($"^" ++ escapeRegex path ++ $"$"); r_params := []; r_handler := h;
     r_method := m |}.
Definition addRouteParams (pattern : bytes) (m : Method) (h : RequestHandler) (ps : list bytes) :
    RoutePattern :=
  {| r_pattern := compile pattern; r_params := ps; r_handler := h; r_method := m |}.

Definition initRoutes : list RoutePattern :=
  [ addRoute ($"/favicon.ico") kGet HFavicon;
    addRoute ($"/register") kPost HRegister;
    addRoute ($"/login") kPost HLogin;
    addRoute ($"/") kGet HIndex;
    addRoute ($"/index.html") kGet HIndex;
    addRoute ($"/register.html") kGet HIndex;
    addRouteParams ($"/share/([^/]+)") kGet HShareAccess [$"code"];
    addRouteParams ($"/share/download/([^/]+)") kGet HShareDownload [$"filename"];
    addRouteParams ($"/share/info/([^/]+)") kGet HShareInfo [$"code"];
    addRoute ($"/upload") kPost HFileUpload;
    addRoute ($"/files") kGet HListFiles;
    addRouteParams ($"/download/([^/]+)") kHead HDownload [$"filename"];
    addRouteParams ($"/download/([^/]+)") kGet HDownload [$"filename"];
    addRouteParams ($"/delete/([^/]+)") kDelete HDelete [$"filename"];
    addRoute ($"/share") kPost HShareFile;
    addRoute ($"/users/search") kGet HSearchUsers;
    addRoute ($"/logout") kPost HLogout ].

(** The loop that looks for a route: the handler and its path parameters. *)
Fixpoint findRoute (routes : list RoutePattern) (m : Method) (path : bytes) :
    option (RequestHandler * gmap bytes bytes) :=
  match routes with
  | [] => None
  | r :: rs =>
      if bool_decide (r_method r <> m) then findRoute rs m path
      else match regex_match (r_pattern r) path with
           | Some caps => Some (r_handler r, list_to_map (reverse (zip (r_params r) caps)))
           | None => findRoute rs m path
           end
  end.

Section routes.
Context `{Platform}.

Definition run_handler (h : RequestHandler) : M bool :=
  match h with
  | HFavicon => handleFavicon
  | HRegister => handleRegister
  | HLogin => handleLogin
  | HIndex => handleIndex
  | HShareAccess => handleShareAccess
  | HShareDownload => handleShareDownload
  | HShareInfo => handleShareInfo
  | HFileUpload => handleFileUpload
  | HListFiles => handleListFiles
  | HDownload => handleDownload
  | HDelete => handleDelete
  | HShareFile => handleShareFile
  | HSearchUsers => handleSearchUsers
  | HLogout => handleLogout
  end.

Definition onRequest : M bool :=
  TRY
    (w ← get;
     match findRoute initRoutes (HttpRequest.method_ (w_req w)) (HttpRequest.path_ (w_req w)) with
     | Some (h, params) =>
         modify (fun w => set_req (HttpRequest.setPathParams (w_req w) params) w);;
         run_handler h
     | None => handleNotFound
     end)
  CATCH _e => (sendError ($"Internal Server Error") k500InternalServerError;; mret true).

(** [onConnection]: a fresh parser context for a new connection, none for a
    closed one.  The name of the upload that is cleaned up is logged, read
    through the cast to an upload context ([getUpload]). *)
Definition onConnection (connected : bool) : M unit :=
  if connected then modify (set_ctx (Some HttpContext.create))
  else
    w ← get;
    (match w_ctx w with Some _ => getUpload;; mret tt | None => mret tt end);;
    modify (set_ctx None).

(** A client that leaves during a download makes the program read the download's
    context as an upload's. *)
Lemma closed_during_download w c id :
  w_ctx w = Some c -> HttpContext.customContext_ c = Some (CDown id) ->
  (onConnection false w).1 = Undef.
Proof.
  intros Hc Hu. unfold onConnection, getUpload. unfold mbind, M_bind, get. rewrite Hc.
  unfold mbind, M_bind, get. by rewrite Hc, Hu.
Qed.

End routes.
