(* ===== verification/Handlers.v ===== *)
(** * Reasoning about the request handlers

    [keeps P m]: running [m] from a state in [P] ends in a state in [P],
    whatever the outcome.  [stable P] collects what [P] must tolerate for the
    handlers that only talk to the database and fill in the response; the
    [keeps] lemmas for the helpers and the tactic [keeps] do the rest. *)

From S2P Require Import Prelude CxxString OrdMap Regex HttpRequest HttpContext HttpResponse World.
From S2P Require Import Session Accounts Upload Download Files Share Routes.

Section handlers.
Context `{Platform}.

(** ** Running a computation step by step *)

Lemma bind_ok {A B} (m : M A) (f : A -> M B) w a w' :
  m w = (Ok a, w') -> (m ≫= f) w = f a w'.
Proof. unfold mbind, M_bind. by intros ->. Qed.

Lemma bind_eq {A B} (m k : M A) (f : A -> M B) w w' : m w = k w' -> (m ≫= f) w = (k ≫= f) w'.
Proof. unfold mbind, M_bind. by intros ->. Qed.

Lemma bind_exn {A B} (m : M A) (f : A -> M B) w e w' :
  m w = (Exn e, w') -> (m ≫= f) w = (Exn e, w').
Proof. unfold mbind, M_bind. by intros ->. Qed.

Lemma try_ok {A} (m : M A) h w a w' : m w = (Ok a, w') -> try_catch m h w = (Ok a, w').
Proof. unfold try_catch. by intros ->. Qed.

Lemma try_exn {A} (m : M A) h w e w' : m w = (Exn e, w') -> try_catch m h w = h e w'.
Proof. unfold try_catch. by intros ->. Qed.

Lemma of_sum_ok {A} (x : bytes + A) a w : x = inr a -> of_sum x w = (Ok a, w).
Proof. by intros ->. Qed.

Lemma get_bind {A} (f : World -> M A) w : (get ≫= f) w = f w w.
Proof. done. Qed.

(** What [sendError] does when its body can be printed. *)
Definition error_body (message : bytes) (code : HttpStatusCode) : json :=
  JObj [($"code", JInt (status_int code)); ($"message", JStr message)].

Definition error_response (r : HttpResponse.t) (message : bytes) (code : HttpStatusCode)
    (body : bytes) : HttpResponse.t :=
  HttpResponse.setBody
    (HttpResponse.addHeader
      (HttpResponse.setContentType
        (HttpResponse.setStatusMessage (HttpResponse.setStatusCode r code) message)
        ($"application/json")) ($"Connection") ($"close")) body.

Definition answered (message : bytes) (code : HttpStatusCode) (body : bytes) (w : World) : World :=
  set_wcc (Some CbShutdown) (set_resp (error_response (w_resp w) message code body) w).

Lemma sendError_ok message code body w :
  json_dump (error_body message code) = inr body ->
  sendError message code w = (Ok tt, answered message code body w).
Proof.
  intros Hd. unfold sendError, setJsonBody. fold (error_body message code). by rewrite Hd.
Qed.

(** ** Invariants *)

Definition keeps {A} (P : World -> Prop) (m : M A) : Prop := forall w, P w -> P (m w).2.

Section keeps.
Context (P : World -> Prop).

Lemma keeps_ret {A} (a : A) : keeps P (mret a : M A).
Proof. by intros w. Qed.
Lemma keeps_throw {A} e : keeps P (throw e : M A).
Proof. by intros w. Qed.
Lemma keeps_undef {A} : keeps P (undef : M A).
Proof. by intros w. Qed.
Lemma keeps_get : keeps P get.
Proof. by intros w. Qed.
Lemma keeps_bind {A B} (m : M A) (f : A -> M B) :
  keeps P m -> (forall a, keeps P (f a)) -> keeps P (m ≫= f).
Proof.
  intros Hm Hf w Hw. unfold mbind, M_bind. specialize (Hm w Hw).
  destruct (m w) as [[a|e|] w']; simpl in *; [by apply Hf|done|done].
Qed.
Lemma keeps_try {A} (m : M A) h :
  keeps P m -> (forall e, keeps P (h e)) -> keeps P (try_catch m h).
Proof.
  intros Hm Hh w Hw. unfold try_catch. specialize (Hm w Hw).
  destruct (m w) as [[a|e|] w']; simpl in *; [done|by apply Hh|done].
Qed.
Lemma keeps_modify f : (forall w, P w -> P (f w)) -> keeps P (modify f).
Proof. intros Hf w Hw. by apply Hf. Qed.
Lemma keeps_of_sum {A} (x : bytes + A) : keeps P (of_sum x).
Proof. by destruct x; intros w. Qed.
Lemma keeps_of_option {A} (x : option A) : keeps P (of_option x).
Proof. by destruct x; intros w. Qed.
End keeps.

(** What the database and response helpers may change. *)
Class stable (P : World -> Prop) : Prop := {
  stable_resp r w : P w -> P (set_resp r w);
  stable_shutdown w : P w -> P (set_wcc (Some CbShutdown) w);
  stable_query q d res w : P w -> P (set_db d (w_sql w ++ [q]) res w);
  stable_clear w : P w -> P (set_db (w_db w) (w_sql w) None w);
  stable_draws n w : P w -> P (set_draws n w)
}.

End handlers.

(** Descend into a computation: binds, handlers, case distinctions. *)
Ltac keeps_step :=
  match goal with
  | |- keeps _ (mret _) => apply keeps_ret
  | |- keeps _ (throw _) => apply keeps_throw
  | |- keeps _ undef => apply keeps_undef
  | |- keeps _ get => apply keeps_get
  | |- keeps _ (of_sum _) => apply keeps_of_sum
  | |- keeps _ (of_option _) => apply keeps_of_option
  | |- keeps _ (mbind _ _) => apply keeps_bind; [|intros ?]
  | |- keeps _ (try_catch _ _) => apply keeps_try; [|intros ?]
  | |- keeps _ (match ?x with _ => _ end) => destruct x
  | |- keeps _ _ => solve [eauto with keeps]
  end.
Ltac keeps := repeat (cbv zeta; keeps_step).

Create HintDb keeps.

Section helpers.
Context `{Platform} (P : World -> Prop) `{!stable P}.

Lemma keeps_on_resp f : keeps P (on_resp f).
Proof. apply keeps_modify. intros w. apply stable_resp. Qed.
Hint Resolve keeps_on_resp : keeps.

Lemma keeps_wcc : keeps P (setWriteCompleteCallback CbShutdown).
Proof. apply keeps_modify. intros w. apply stable_shutdown. Qed.
Hint Resolve keeps_wcc : keeps.

Lemma keeps_setJsonBody j : keeps P (setJsonBody j).
Proof. unfold setJsonBody. keeps. Qed.
Hint Resolve keeps_setJsonBody : keeps.

Lemma keeps_setStatusCode c : keeps P (setStatusCode c).
Proof. apply keeps_on_resp. Qed.
Lemma keeps_setStatusMessage m : keeps P (setStatusMessage m).
Proof. apply keeps_on_resp. Qed.
Lemma keeps_setContentType ct : keeps P (setContentType ct).
Proof. apply keeps_on_resp. Qed.
Lemma keeps_addHeader k v : keeps P (addHeader k v).
Proof. apply keeps_on_resp. Qed.
Lemma keeps_setBody b : keeps P (setBody b).
Proof. apply keeps_on_resp. Qed.
Hint Resolve keeps_setStatusCode keeps_setStatusMessage keeps_setContentType keeps_addHeader
  keeps_setBody : keeps.

Lemma keeps_sendError m c : keeps P (sendError m c).
Proof. unfold sendError. keeps. Qed.
Lemma keeps_okJson j : keeps P (okJson j).
Proof. unfold okJson. keeps. Qed.
Hint Resolve keeps_sendError keeps_okJson : keeps.
Lemma keeps_sendJson j : keeps P (sendJson j).
Proof. unfold sendJson. keeps. Qed.
Lemma keeps_handleNotFound : keeps P handleNotFound.
Proof. unfold handleNotFound. keeps. Qed.
Hint Resolve keeps_sendJson keeps_handleNotFound : keeps.

Lemma keeps_executeQuery q : keeps P (executeQuery q).
Proof.
  intros w Hw. unfold executeQuery. destruct (negb (w_mysql w)); [done|].
  destruct (mysql_query q (w_db w)) as [[res|] db]; by apply stable_query.
Qed.
Hint Resolve keeps_executeQuery : keeps.

Lemma keeps_executeQueryWithResult q : keeps P (executeQueryWithResult q).
Proof.
  unfold executeQueryWithResult. keeps. apply keeps_modify. intros w. apply stable_clear.
Qed.
Hint Resolve keeps_executeQueryWithResult : keeps.

Lemma keeps_insert_id : keeps P insert_id.
Proof. unfold insert_id. keeps. Qed.
Lemma keeps_escapeString s : keeps P (escapeString s).
Proof. unfold escapeString. keeps. Qed.
Lemma keeps_reqHeader f : keeps P (reqHeader f).
Proof. unfold reqHeader. keeps. Qed.
Lemma keeps_reqQuery k d : keeps P (reqQuery k d).
Proof. unfold reqQuery. keeps. Qed.
Lemma keeps_reqPathParam k : keeps P (reqPathParam k).
Proof. unfold reqPathParam. keeps. Qed.
Lemma keeps_column r k : keeps P (column r k).
Proof. unfold column. keeps. Qed.
Lemma keeps_to_str c : keeps P (to_str c).
Proof. unfold to_str. keeps. Qed.
Hint Resolve keeps_insert_id keeps_escapeString keeps_reqHeader keeps_reqQuery keeps_reqPathParam
  keeps_column keeps_to_str : keeps.

Lemma keeps_column_str r k : keeps P (column_str r k).
Proof. unfold column_str. keeps. Qed.
Hint Resolve keeps_column_str : keeps.
Lemma keeps_column_int r k : keeps P (column_int r k).
Proof. unfold column_int. keeps. Qed.
Lemma keeps_column_or r k d : keeps P (column_or r k d).
Proof. unfold column_or. keeps. Qed.
Lemma keeps_column_int_or0 r k : keeps P (column_int_or0 r k).
Proof. unfold column_int_or0. keeps. Qed.
Lemma keeps_column_ull_or0 r k : keeps P (column_ull_or0 r k).
Proof. unfold column_ull_or0. keeps. Qed.
Hint Resolve keeps_column_int keeps_column_or keeps_column_int_or0 keeps_column_ull_or0 : keeps.

Lemma keeps_draw a b : keeps P (draw a b).
Proof. unfold draw. keeps. apply keeps_modify. intros w. apply stable_draws. Qed.
Hint Resolve keeps_draw : keeps.
Lemma keeps_draw_chars n chars : keeps P (draw_chars n chars).
Proof. induction n as [|n IH]; cbn [draw_chars]; keeps. Qed.
Hint Resolve keeps_draw_chars : keeps.

Lemma keeps_generateSessionId : keeps P generateSessionId.
Proof. apply keeps_draw_chars. Qed.
Lemma keeps_saveSession s u n : keeps P (saveSession s u n).
Proof. unfold saveSession. keeps. Qed.
Lemma keeps_validateSession s : keeps P (validateSession s).
Proof. unfold validateSession. keeps. Qed.
Lemma keeps_endSession s : keeps P (endSession s).
Proof. unfold endSession. keeps. Qed.
Hint Resolve keeps_generateSessionId keeps_saveSession keeps_validateSession keeps_endSession : keeps.

Lemma keeps_needLogin k : (forall u n, keeps P (k u n)) -> keeps P (needLogin k).
Proof. intros Hk. unfold needLogin. keeps. Qed.

Lemma keeps_refuse t e d : keeps P (refuse t e d).
Proof. unfold refuse. keeps. Qed.
Lemma keeps_read_file f : keeps P (read_file f).
Proof. unfold read_file. keeps. Qed.
Hint Resolve keeps_refuse keeps_read_file : keeps.

(** ** The handlers that only use the database and the response *)

Lemma keeps_handleIndex : keeps P handleIndex.
Proof. unfold handleIndex. keeps. Qed.
Lemma keeps_handleFavicon : keeps P handleFavicon.
Proof. unfold handleFavicon. keeps. Qed.
Lemma keeps_handleRegister : keeps P handleRegister.
Proof. unfold handleRegister. keeps. Qed.
Lemma keeps_handleLogin : keeps P handleLogin.
Proof. unfold handleLogin. keeps. Qed.
Lemma keeps_handleLogout : keeps P handleLogout.
Proof. unfold handleLogout. keeps. Qed.

Lemma keeps_search_rows rows : keeps P (search_rows rows).
Proof. induction rows as [|r rows IH]; cbn [search_rows]; keeps. Qed.
Hint Resolve keeps_search_rows : keeps.
Lemma keeps_handleSearchUsers : keeps P handleSearchUsers.
Proof. unfold handleSearchUsers. apply keeps_needLogin. intros u n. keeps. Qed.

Lemma keeps_shareInfo f : keeps P (shareInfo f).
Proof. unfold shareInfo. keeps. Qed.
Hint Resolve keeps_shareInfo : keeps.
Lemma keeps_list_rows rows : keeps P (list_rows rows).
Proof. induction rows as [|r rows IH]; cbn [list_rows]; keeps. Qed.
Hint Resolve keeps_list_rows : keeps.
Lemma keeps_handleListFiles : keeps P handleListFiles.
Proof. unfold handleListFiles. apply keeps_needLogin. intros u n. keeps. Qed.

Lemma keeps_expire_sql d : keeps P (expire_sql d).
Proof. unfold expire_sql. keeps. Qed.
Lemma keeps_share_target d f t : keeps P (share_target d f t).
Proof. unfold share_target, generateExtractCode. keeps. Qed.
Hint Resolve keeps_expire_sql keeps_share_target : keeps.
Lemma keeps_handleShareFile : keeps P handleShareFile.
Proof. unfold handleShareFile, generateShareCode. apply keeps_needLogin. intros u n. keeps. Qed.

Lemma keeps_share_json r t c o : keeps P (share_json r t c o).
Proof. unfold share_json. keeps. Qed.
Hint Resolve keeps_share_json : keeps.
Lemma keeps_shareAccessRow a u c e r : keeps P (shareAccessRow a u c e r).
Proof. unfold shareAccessRow. keeps. Qed.
Hint Resolve keeps_shareAccessRow keeps_handleIndex : keeps.
Lemma keeps_handleShareAccess : keeps P handleShareAccess.
Proof. unfold handleShareAccess. keeps. Qed.

Lemma keeps_shareInfoRow e r : keeps P (shareInfoRow e r).
Proof. unfold shareInfoRow. keeps. Qed.
Hint Resolve keeps_shareInfoRow : keeps.
Lemma keeps_handleShareInfo : keeps P handleShareInfo.
Proof. unfold handleShareInfo. keeps. Qed.

End helpers.

#[export] Hint Resolve keeps_on_resp keeps_wcc keeps_setJsonBody keeps_setStatusCode
  keeps_setStatusMessage keeps_setContentType keeps_addHeader keeps_setBody keeps_sendError
  keeps_okJson keeps_sendJson keeps_handleNotFound keeps_executeQuery
  keeps_executeQueryWithResult keeps_insert_id keeps_escapeString keeps_reqHeader keeps_reqQuery
  keeps_reqPathParam keeps_column keeps_to_str keeps_column_str keeps_column_int keeps_column_or
  keeps_column_int_or0 keeps_column_ull_or0 keeps_draw keeps_draw_chars keeps_generateSessionId
  keeps_saveSession keeps_validateSession keeps_endSession keeps_refuse keeps_read_file
  keeps_handleIndex keeps_handleFavicon keeps_handleRegister keeps_handleLogin keeps_handleLogout
  keeps_handleSearchUsers keeps_handleListFiles keeps_handleShareFile keeps_handleShareAccess
  keeps_handleShareInfo : keeps.
#[export] Hint Extern 1 (stable _) => typeclasses eauto : keeps.

(** ** Frames

    The parts of the state that the database and response helpers leave alone. *)
Section frames.
Context `{Platform}.

#[export] Instance stable_fs fs : stable (fun w => w_fs w = fs).
Proof. by split. Qed.
#[export] Instance stable_mapping m : stable (fun w => w_mapping w = m).
Proof. by split. Qed.
#[export] Instance stable_ctx c : stable (fun w => w_ctx w = c).
Proof. by split. Qed.
#[export] Instance stable_down d : stable (fun w => w_down w = d).
Proof. by split. Qed.
#[export] Instance stable_req r : stable (fun w => w_req w = r).
Proof. by split. Qed.
#[export] Instance stable_and P Q : stable P -> stable Q -> stable (fun w => P w /\ Q w).
Proof. intros [] []. split; naive_solver. Qed.

End frames.
