(* ===== verification/Access.v ===== *)
(** * Access control: sessions, logins, and who may download

    The theorems about the guards of the request handlers: what an
    unauthenticated request gets, and under which conditions a download starts. *)

From S2P Require Import Prelude CxxString OrdMap Regex HttpRequest HttpContext HttpResponse World.
From S2P Require Import Session Accounts Upload Download Files Share Routes Handlers.

Section access.
Context `{Platform}.

(** ** Statements and sessions, as functions of the state *)

(** The string [escapeString] returns. *)
Definition escaped (w : World) (s : bytes) : bytes :=
  if negb (w_mysql w) then s
  else let e := mysql_real_escape_string s in take (find_char (chr 0) e) e.

Lemma escapeString_ok s w : escapeString s w = (Ok (escaped w s), w).
Proof. done. Qed.

Lemma reqHeader_ok f w : reqHeader f w = (Ok (HttpRequest.getHeader (w_req w) f), w).
Proof. done. Qed.

(** What a query answers, and the state after it. *)
Definition answer (q : bytes) (w : World) : option (list row) :=
  if negb (w_mysql w) then None
  else match (mysql_query q (w_db w)).1 with Some r => r | None => None end.
Definition asked (q : bytes) (w : World) : World :=
  if negb (w_mysql w) then w
  else set_db (mysql_query q (w_db w)).2 (w_sql w ++ [q]) None w.

Lemma executeQueryWithResult_ok q w :
  executeQueryWithResult q w = (Ok (answer q w), asked q w).
Proof.
  unfold executeQueryWithResult, executeQuery, answer, asked, mbind, M_bind.
  destruct (negb (w_mysql w)) eqn:Em; [done|].
  by destruct (mysql_query q (w_db w)) as [[[rows|]|] db].
Qed.

(** The row of the live session a request names. *)
Definition session_row (sessionId : bytes) (w : World) : option row :=
  if bool_decide (sessionId = []) then None
  else first_row (answer (session_select (escaped w sessionId)) w).

(** The state after looking the session up in vain. *)
Definition session_asked (sessionId : bytes) (w : World) : World :=
  if bool_decide (sessionId = []) then w
  else asked (session_select (escaped w sessionId)) w.

Lemma validateSession_none sid w :
  session_row sid w = None -> validateSession sid w = (Ok None, session_asked sid w).
Proof.
  unfold session_row, session_asked, validateSession. case_bool_decide; [done|].
  intros Hr. rewrite (bind_ok _ _ _ _ _ (escapeString_ok sid w)).
  rewrite (bind_ok _ _ _ _ _ (executeQueryWithResult_ok _ w)). by rewrite Hr.
Qed.

Lemma asked_frame q w :
  w_fs (asked q w) = w_fs w /\ w_mapping (asked q w) = w_mapping w /\
  w_ctx (asked q w) = w_ctx w /\ w_down (asked q w) = w_down w /\ w_req (asked q w) = w_req w /\
  w_resp (asked q w) = w_resp w /\ w_wcc (asked q w) = w_wcc w /\ w_mysql (asked q w) = w_mysql w.
Proof. unfold asked. by destruct (negb (w_mysql w)). Qed.

(** Validating a session changes nothing but the database connection. *)
Definition same_but_db (w v : World) : Prop :=
  exists d sql res, v = set_db d (w_sql w ++ sql) res w.

Lemma same_but_db_refl w : same_but_db w w.
Proof. exists (w_db w), [], (w_result w). rewrite app_nil_r. by destruct w. Qed.

Lemma keeps_db_executeQuery w0 q : keeps (same_but_db w0) (executeQuery q).
Proof.
  intros w (d & sql & res & ->). unfold executeQuery. destruct (negb _).
  - by exists d, sql, res.
  - simpl. destruct (mysql_query q d) as [[r|] d']; simpl; rewrite <- app_assoc;
      by (do 3 eexists).
Qed.
Hint Resolve keeps_db_executeQuery : keeps.

Lemma keeps_db_executeQueryWithResult w0 q : keeps (same_but_db w0) (executeQueryWithResult q).
Proof.
  unfold executeQueryWithResult. keeps. apply keeps_modify.
  intros w (d & sql & res & ->). by (do 3 eexists).
Qed.
Hint Resolve keeps_db_executeQueryWithResult : keeps.

Lemma validateSession_frame sid w r w1 :
  validateSession sid w = (r, w1) -> same_but_db w w1.
Proof.
  intros E. assert (keeps (same_but_db w) (validateSession sid)) as Hk
    by (unfold validateSession; keeps).
  specialize (Hk w (same_but_db_refl w)). by rewrite E in Hk.
Qed.

(** A validated session: the row is there, and the connection is. *)
Lemma downloadUser_frame w r w1 : downloadUser w = (r, w1) -> same_but_db w w1.
Proof.
  intros E. assert (keeps (same_but_db w) downloadUser) as Hk.
  { unfold downloadUser. keeps. intros v Hv. destruct (validateSession _ v) as [x v1] eqn:Ev.
    destruct (validateSession_frame _ _ _ _ Ev) as (d & sql & res & ->). destruct Hv as (d0 & sql0 & res0 & ->).
    exists d, (sql0 ++ sql), res. cbn. by rewrite app_assoc. }
  specialize (Hk w (same_but_db_refl w)). by rewrite E in Hk.
Qed.

Lemma validateSession_live sid w uid name w1 :
  validateSession sid w = (Ok (Some (uid, name)), w1) -> w_mysql w = true.
Proof.
  intros E. destruct (w_mysql w) eqn:Em; [done|]. exfalso.
  rewrite validateSession_none in E; [done|]. unfold session_row, answer. rewrite Em.
  by case_bool_decide.
Qed.

Lemma needLogin_ok k w uid name w1 :
  validateSession (HttpRequest.getHeader (w_req w) ($"X-Session-ID")) w = (Ok (Some (uid, name)), w1) ->
  needLogin k w = k uid name w1.
Proof.
  intros E. unfold needLogin. rewrite (bind_ok _ _ _ _ _ (reqHeader_ok _ w)).
  by rewrite (bind_ok _ _ _ _ _ E).
Qed.

(** A statement that is executed. *)
Lemma executeQuery_ran q w :
  w_mysql w = true ->
  exists res, executeQuery q w =
    (Ok (bool_decide (is_Some (mysql_query q (w_db w)).1)),
     set_db (mysql_query q (w_db w)).2 (w_sql w ++ [q]) res w).
Proof.
  intros Em. unfold executeQuery. rewrite Em. cbn [negb].
  destruct (mysql_query q (w_db w)) as [[res|] db]; eexists; reflexivity.
Qed.

Lemma executeQuery_runs q w :
  w_mysql w = true ->
  exists d res, executeQuery q w =
    (Ok (bool_decide (is_Some (mysql_query q (w_db w)).1)), set_db d (w_sql w ++ [q]) res w).
Proof.
  intros Em. unfold executeQuery. rewrite Em. cbn [negb].
  destruct (mysql_query q (w_db w)) as [[res|] db]; do 2 eexists; reflexivity.
Qed.

(** ** Requests without a session *)

Definition needs_login (h : RequestHandler) : bool :=
  match h with
  | HFileUpload | HListFiles | HDelete | HShareFile | HSearchUsers => true
  | _ => false
  end.

Definition no_login : bytes := $"未登录或会话已过期".

Lemma needLogin_refused k body w :
  session_row (HttpRequest.getHeader (w_req w) ($"X-Session-ID")) w = None ->
  json_dump (error_body no_login k401Unauthorized) = inr body ->
  needLogin k w =
    (Ok true, answered no_login k401Unauthorized body
                (session_asked (HttpRequest.getHeader (w_req w) ($"X-Session-ID")) w)).
Proof.
  intros Hs Hd. unfold needLogin.
  rewrite (bind_ok _ _ _ _ _ (reqHeader_ok _ w)).
  rewrite (bind_ok _ _ _ _ _ (validateSession_none _ _ Hs)). cbv beta iota.
  by rewrite (bind_ok _ _ _ _ _ (sendError_ok _ _ _ _ Hd)).
Qed.

Lemma run_needs_login h body w :
  needs_login h = true ->
  session_row (HttpRequest.getHeader (w_req w) ($"X-Session-ID")) w = None ->
  json_dump (error_body no_login k401Unauthorized) = inr body ->
  run_handler h w =
    (Ok true, answered no_login k401Unauthorized body
                (session_asked (HttpRequest.getHeader (w_req w) ($"X-Session-ID")) w)).
Proof. intros Hh Hs Hd. by destruct h; try discriminate Hh; apply needLogin_refused. Qed.

(** The dispatcher on a request without a session. *)
Lemma onRequest_refuses w h ps text :
  findRoute initRoutes (HttpRequest.method_ (w_req w)) (HttpRequest.path_ (w_req w)) = Some (h, ps) ->
  needs_login h = true ->
  session_row (HttpRequest.getHeader (w_req w) ($"X-Session-ID")) w = None ->
  json_dump (error_body no_login k401Unauthorized) = inr text ->
  onRequest w =
    (Ok true, answered no_login k401Unauthorized text
                (session_asked (HttpRequest.getHeader (w_req w) ($"X-Session-ID"))
                   (set_req (HttpRequest.setPathParams (w_req w) ps) w))).
Proof.
  intros Hr Hn Hs Hj. unfold onRequest. apply try_ok. rewrite get_bind, Hr. cbv beta iota.
  rewrite (bind_ok (modify _) _ w tt (set_req (HttpRequest.setPathParams (w_req w) ps) w)) by done.
  by apply (run_needs_login h text (set_req (HttpRequest.setPathParams (w_req w) ps) w)).
Qed.

(** ** Who may download *)

(** The sharing columns of a row of the download query, as the handlers read
    them: a NULL user is 0. *)
Definition int_or0 (r : row) (k : nat) (i : Z) : Prop :=
  match r !! k with
  | Some (Some s) => stoi s = inr i
  | Some None => i = 0%Z
  | None => False
  end.

(** [may_share]: the share in row [r] lets a caller in. *)
Inductive may_share (auth : bool) (userId : Z) (extractCode : bytes) (r : row) : Prop :=
  | share_public : r !! 4 = Some (Some ($"public")) -> may_share auth userId extractCode r
  | share_protected :
      r !! 4 = Some (Some ($"protected")) -> extractCode <> [] ->
      r !! 6 = Some (Some extractCode) -> may_share auth userId extractCode r
  | share_user :
      r !! 4 = Some (Some ($"user")) -> auth = true -> int_or0 r 5 userId ->
      may_share auth userId extractCode r.

(** [may_download]: the caller owns the file, or presents a share code whose
    share lets it in. *)
Inductive may_download (auth : bool) (userId : Z) (shareCode extractCode : bytes) (r : row) : Prop :=
  | download_owner s :
      auth = true -> r !! 3 = Some (Some s) -> stoi s = inr userId ->
      may_download auth userId shareCode extractCode r
  | download_share :
      shareCode <> [] -> may_share auth userId extractCode r ->
      may_download auth userId shareCode extractCode r.

(** The columns the handlers compute from a row. *)
Record share_columns_of (r : row) (owner : Z) (type : bytes) (withId : Z) (dbCode : bytes) : Prop := {
  col_owner : exists s, r !! 3 = Some (Some s) /\ stoi s = inr owner;
  col_type : default [] <$> (r !! 4) = Some type;
  col_with : int_or0 r 5 withId;
  col_code : default [] <$> (r !! 6) = Some dbCode
}.

Lemma int_or0_unique r k i j : int_or0 r k i -> int_or0 r k j -> i = j.
Proof. unfold int_or0. repeat case_match; naive_solver congruence. Qed.

Lemma default_column (r : row) k s :
  s <> [] -> default [] <$> (r !! k) = Some s -> r !! k = Some (Some s).
Proof. intros Hs. destruct (r !! k) as [[x|]|]; simpl; naive_solver. Qed.

Lemma column_default (r : row) k s x :
  default [] <$> (r !! k) = Some x -> r !! k = Some (Some s) -> x = s.
Proof. intros H1 H2. rewrite H2 in H1. by injection H1. Qed.

Lemma share_test_spec auth userId r owner type withId code dbCode :
  share_columns_of r owner type withId dbCode ->
  (if bool_decide (type = $"public") then true
   else if bool_decide (type = $"protected") then
     bool_decide (code <> []) && bool_decide (code = dbCode)
   else if bool_decide (type = $"user") then auth && (userId =? withId)%Z
   else false) = true <-> may_share auth userId code r.
Proof.
  intros [Ho Ht Hw Hc]. split.
  - case_bool_decide as E1; [subst; intros _; apply share_public, default_column; done|].
    case_bool_decide as E2.
    { subst. intros [Hn He]%andb_true_iff.
      apply bool_decide_eq_true in Hn, He. subst.
      apply share_protected; [by apply default_column|done|by apply default_column]. }
    case_bool_decide as E3; [|done].
    subst. intros [Ha Hu]%andb_true_iff. apply Z.eqb_eq in Hu. subst.
    apply share_user; [by apply default_column|done|done].
  - intros [E|E Hn E6|E Ha E5]; pose proof (column_default _ _ _ _ Ht E); subst type.
    + by rewrite bool_decide_true.
    + rewrite bool_decide_false, bool_decide_true by done.
      rewrite (column_default _ _ _ _ Hc E6). by rewrite !bool_decide_true.
    + rewrite !bool_decide_false by done. rewrite bool_decide_true by done.
      by rewrite Ha, (int_or0_unique _ _ _ _ Hw E5), Z.eqb_refl.
Qed.

Lemma owner_test_spec auth userId r owner type withId dbCode :
  share_columns_of r owner type withId dbCode ->
  auth && (userId =? owner)%Z = true <->
  (auth = true /\ exists s, r !! 3 = Some (Some s) /\ stoi s = inr userId).
Proof.
  intros [(s & Hs & Ho) _ _ _]. rewrite andb_true_iff, Z.eqb_eq. split.
  - intros [-> ->]. eauto.
  - intros (-> & s' & Hs' & Ho'). split; [done|]. congruence.
Qed.

(** The two permission checks decide the specification. *)
Lemma downloadPermission_iff auth userId r owner shareCode type withId code dbCode :
  share_columns_of r owner type withId dbCode ->
  downloadPermission auth userId owner shareCode type withId code dbCode = true <->
  may_download auth userId shareCode code r.
Proof.
  intros Hc. unfold downloadPermission.
  pose proof (owner_test_spec auth userId _ _ _ _ _ Hc) as Hown.
  pose proof (share_test_spec auth userId _ _ _ _ code _ Hc) as Hsh.
  destruct (auth && (userId =? owner)%Z) eqn:Eo.
  { split; [|done]. intros _. destruct Hown as [(Ha & s & ? & ?) _]; [done|].
    by apply (download_owner _ _ _ _ _ s). }
  destruct (bool_decide_reflect (shareCode <> [])) as [En|En].
  - rewrite Hsh. split; [by apply download_share|].
    intros [s Ha Hs Hi|]; [|done]. exfalso.
    assert (false = true) by (apply Hown; eauto). done.
  - split.
    + destruct auth; [|done]. simpl in Eo. by rewrite Eo.
    + intros [s Ha Hs Hi|]; [|done]. assert (false = true) by (apply Hown; eauto). done.
Qed.

Lemma sharePermission_iff auth userId r owner type withId code dbCode :
  share_columns_of r owner type withId dbCode ->
  sharePermission auth userId owner type withId code dbCode = true <->
  (auth = true /\ (exists s, r !! 3 = Some (Some s) /\ stoi s = inr userId)) \/
  may_share auth userId code r.
Proof.
  intros Hc. unfold sharePermission.
  pose proof (owner_test_spec auth userId _ _ _ _ _ Hc) as Hown.
  pose proof (share_test_spec auth userId _ _ _ _ code _ Hc) as Hsh.
  destruct (auth && (userId =? owner)%Z); naive_solver.
Qed.

End access.
