(* ===== verification/Streaming.v ===== *)
(** * Downloads: who gets one, and what is sent

    When [handleDownload] and [handleShareDownload] install the download
    callback, what the response of a permitted download is, and the chunks the
    callback sends until it shuts the connection down. *)

From S2P Require Import Prelude CxxString OrdMap Regex HttpRequest HttpContext HttpResponse World.
From S2P Require Import Session Accounts Upload Download Files Share Routes Handlers Access.

Section authorized.
Context `{Platform}.

(** ** A download starts only when it is permitted *)

(** No download callback is installed. *)
Definition no_download (w : World) : Prop := forall id, w_wcc w <> Some (CbDownload id).

#[local] Instance no_download_stable : stable no_download.
Proof. split; unfold no_download; simpl; naive_solver. Qed.

(** A computation that leaves a download callback behind got past its first
    part, when that part installs none. *)
Lemma download_bind {A B} (m : M A) (f : A -> M B) w id :
  no_download w -> keeps no_download m -> w_wcc ((m ≫= f) w).2 = Some (CbDownload id) ->
  exists a w1, m w = (Ok a, w1) /\ no_download w1 /\ w_wcc (f a w1).2 = Some (CbDownload id).
Proof.
  intros Hw Hm. specialize (Hm w Hw). unfold mbind, M_bind.
  destruct (m w) as [[a|e|] w1] eqn:E; simpl in *; intros Hd; [eauto|by apply Hm in Hd..].
Qed.

Lemma download_never {A} (m : M A) w id :
  no_download w -> keeps no_download m -> w_wcc (m w).2 <> Some (CbDownload id).
Proof. intros Hw Hm. by apply Hm. Qed.

Lemma column_or_inv r k d x w w' :
  column_or r k d w = (Ok x, w') -> default d <$> (r !! k) = Some x /\ w' = w.
Proof. unfold column_or, column. destruct (r !! k); [|done]. intros [= <- <-]. done. Qed.

Lemma column_str_inv r k x w w' :
  column_str r k w = (Ok x, w') -> r !! k = Some (Some x) /\ w' = w.
Proof. unfold column_str, column. destruct (r !! k) as [[s|]|]; [|done..]. by intros [= <- <-]. Qed.

Lemma column_int_inv r k x w w' :
  column_int r k w = (Ok x, w') -> (exists s, r !! k = Some (Some s) /\ stoi s = inr x) /\ w' = w.
Proof.
  unfold column_int, column_str, column. destruct (r !! k) as [[s|]|]; [|done..].
  unfold mbind, M_bind; simpl. destruct (stoi s) eqn:E; [done|]. intros [= <- <-]. eauto.
Qed.

Lemma column_int_or0_inv r k x w w' :
  column_int_or0 r k w = (Ok x, w') -> int_or0 r k x /\ w' = w.
Proof.
  unfold column_int_or0, column, int_or0. destruct (r !! k) as [[s|]|]; [| |done].
  - unfold mbind, M_bind; simpl. destruct (stoi s) eqn:E; [done|]. by intros [= <- <-].
  - by intros [= <- <-].
Qed.

Lemma default_str (r : row) k (x : bytes) : r !! k = Some (Some x) -> default [] <$> (r !! k) = Some x.
Proof. by intros ->. Qed.

(** One step into a computation that ends with a download callback. *)
Ltac download_step H :=
  apply download_bind in H as (?a & ?w & ?E & ?Hn & H); [|assumption|keeps].
Tactic Notation "pass" hyp(H) "as" ident(a) ident(w) ident(E) :=
  apply download_bind in H as (a & w & E & ?Hn & H); [|assumption|keeps].

(** The computation at hand installs no download callback. *)
Ltac no_download_here H := exfalso; eapply download_never; [| |exact H]; [assumption|keeps].

Lemma downloadRow_permitted auth userId shareCode extractCode r w id :
  no_download w ->
  w_wcc (downloadRow auth userId shareCode extractCode r w).2 = Some (CbDownload id) ->
  may_download auth userId shareCode extractCode r.
Proof.
  intros Hw Hd. unfold downloadRow in Hd. do 7 download_step Hd.
  apply column_int_inv in E2 as [? _]. apply column_or_inv in E3 as [? _].
  apply column_int_or0_inv in E4 as [? _]. apply column_or_inv in E5 as [? _].
  destruct (downloadPermission _ _ _ _ _ _ _ _) eqn:Ep.
  - apply downloadPermission_iff with (r := r) in Ep; [done|]. by split.
  - no_download_here Hd.
Qed.

Lemma shareDownloadRow_permitted auth userId extractCode r w id :
  no_download w ->
  w_wcc (shareDownloadRow auth userId extractCode r w).2 = Some (CbDownload id) ->
  (auth = true /\ (exists s, r !! 3 = Some (Some s) /\ stoi s = inr userId)) \/
  may_share auth userId extractCode r.
Proof.
  intros Hw Hd. unfold shareDownloadRow in Hd. do 8 download_step Hd.
  apply column_int_inv in E1 as [? _]. apply column_str_inv in E2 as [? _].
  apply column_int_or0_inv in E3 as [? _]. apply column_or_inv in E4 as [? _].
  destruct (sharePermission _ _ _ _ _ _ _) eqn:Ep.
  - apply (sharePermission_iff _ _ r) in Ep; [done|]. split; [done|by apply default_str|done|done].
  - no_download_here Hd.
Qed.

Lemma keeps_downloadUser P `{!stable P} : keeps P downloadUser.
Proof. unfold downloadUser. keeps. Qed.
Hint Resolve keeps_downloadUser : keeps.

Lemma reqQuery_inv k d x w w' :
  reqQuery k d w = (Ok x, w') -> HttpRequest.getQuery (w_req w) k d = Some x /\ w' = w.
Proof.
  unfold reqQuery, get, mbind, M_bind, of_option.
  destruct (HttpRequest.getQuery _ _ _); [|done]. by intros [= <- <-].
Qed.

Lemma first_row_Some (x : option (list row)) r : first_row x = Some r -> exists rs, x = Some (r :: rs).
Proof. destruct x as [[|r' rs]|]; simpl; [done| |done]. intros [= ->]. eauto. Qed.

Lemma downloadUser_req w auth userId w1 :
  downloadUser w = (Ok (auth, userId), w1) -> w_req w1 = w_req w.
Proof.
  intros E. pose proof (keeps_downloadUser (fun v => w_req v = w_req w)) as Hk.
  specialize (Hk w eq_refl). by rewrite E in Hk.
Qed.

(** The statement [handleDownload] runs to find the file. *)
Definition download_query (w : World) (filename shareCode : bytes) : bytes :=
  if bool_decide (shareCode <> [])
  then download_by_share (escaped w filename) (escaped w shareCode)
  else download_by_name (escaped w filename).

(** A download through [handleDownload] answers to its caller's identity, the
    codes of the request, and a row the database returned for them. *)
Lemma handleDownload_permitted w id :
  no_download w -> w_wcc (handleDownload w).2 = Some (CbDownload id) ->
  exists auth userId w1 shareCode extractCode r,
    downloadUser w = (Ok (auth, userId), w1) /\
    HttpRequest.getQuery (w_req w) ($"code") [] = Some shareCode /\
    HttpRequest.getQuery (w_req w) ($"extract_code") [] = Some extractCode /\
    first_row (answer (download_query w1 (HttpRequest.getPathParam (w_req w) ($"filename"))
                         shareCode) w1) = Some r /\
    may_download auth userId shareCode extractCode r.
Proof.
  intros Hw Hd. unfold handleDownload in Hd.
  pass Hd as filename w0 E. injection E as <- <-.
  case_bool_decide; [no_download_here Hd|].
  pass Hd as u w1 E. destruct u as [auth userId].
  pose proof (downloadUser_req _ _ _ _ E) as Hreq.
  pass Hd as shareCode w2 E2. apply reqQuery_inv in E2 as [Ec ->].
  pass Hd as extractCode w2 E2. apply reqQuery_inv in E2 as [Ee ->].
  destruct (bool_decide (shareCode = []) && negb auth); [no_download_here Hd|].
  pass Hd as f w2 E2. rewrite escapeString_ok in E2. injection E2 as <- <-.
  pass Hd as q w2 E2.
  assert (q = download_query w1 (HttpRequest.getPathParam (w_req w) ($"filename")) shareCode
          /\ w2 = w1) as [-> ->].
  { unfold download_query. destruct (bool_decide (shareCode <> [])); by injection E2 as <- <-. }
  pass Hd as result w2 E3. rewrite executeQueryWithResult_ok in E3. injection E3 as <- <-.
  destruct (first_row _) as [r|] eqn:Er; [|no_download_here Hd].
  apply downloadRow_permitted in Hd; [|done]. rewrite Hreq in Ec, Ee.
  exists auth, userId, w1. exists shareCode, extractCode, r. done.
Qed.

(** The same for [handleShareDownload], where a share code is compulsory. *)
Lemma handleShareDownload_permitted w id :
  no_download w -> w_wcc (handleShareDownload w).2 = Some (CbDownload id) ->
  exists user w1 shareCode extractCode r,
    validateSession (HttpRequest.getHeader (w_req w) ($"X-Session-ID")) w = (Ok user, w1) /\
    HttpRequest.getQuery (w_req w) ($"code") [] = Some shareCode /\ shareCode <> [] /\
    HttpRequest.getQuery (w_req w) ($"extract_code") [] = Some extractCode /\
    first_row (answer (share_download_select
                         (escaped w1 (HttpRequest.getPathParam (w_req w) ($"filename")))
                         (escaped w1 shareCode)) w1) = Some r /\
    may_download (bool_decide (is_Some user)) (default 0%Z (fst <$> user)) shareCode extractCode r.
Proof.
  intros Hw Hd. unfold handleShareDownload in Hd.
  pass Hd as filename w0 E. injection E as <- <-.
  case_bool_decide; [no_download_here Hd|].
  pass Hd as shareCode w2 E2. apply reqQuery_inv in E2 as [Ec ->].
  pass Hd as extractCode w2 E2. apply reqQuery_inv in E2 as [Ee ->].
  case_bool_decide; [no_download_here Hd|].
  pass Hd as sid w2 E2. injection E2 as <- <-.
  pass Hd as user w1 E.
  replace (match user with Some (u, _) => (true, u) | None => (false, 0%Z) end)
    with (bool_decide (is_Some user), default 0%Z (fst <$> user)) in Hd
    by (destruct user as [[]|]; done).
  pass Hd as f w2 E2. rewrite escapeString_ok in E2. injection E2 as <- <-.
  pass Hd as s w2 E2. rewrite escapeString_ok in E2. injection E2 as <- <-.
  pass Hd as result w2 E2. rewrite executeQueryWithResult_ok in E2. injection E2 as <- <-.
  destruct (first_row _) as [r|] eqn:Er; [|no_download_here Hd].
  apply shareDownloadRow_permitted in Hd; [|done].
  exists user, w1, shareCode. exists extractCode, r. repeat split; try done.
  destruct Hd as [(? & s & ? & ?)|?]; [by eapply download_owner|by apply download_share].
Qed.

(** A caller who may download gets the file the row names. *)
Lemma handleDownload_serves w auth uid w1 shareCode extractCode r i owner type withId dbCode
    server original :
  HttpRequest.getPathParam (w_req w) ($"filename") <> [] ->
  downloadUser w = (Ok (auth, uid), w1) ->
  HttpRequest.getQuery (w_req w) ($"code") [] = Some shareCode ->
  HttpRequest.getQuery (w_req w) ($"extract_code") [] = Some extractCode ->
  let q := download_query w1 (HttpRequest.getPathParam (w_req w) ($"filename")) shareCode in
  first_row (answer q w1) = Some r ->
  (exists s, r !! 0 = Some (Some s) /\ stoi s = inr i) ->
  r !! 1 = Some (Some server) -> r !! 2 = Some (Some original) ->
  share_columns_of r owner type withId dbCode ->
  may_download auth uid shareCode extractCode r ->
  handleDownload w = serveFile server original (asked q w1).
Proof.
  intros Hf Hu Hc He q Hr (s0 & Hr0 & Hs0) Hr1 Hr2 Hcols Hmay. unfold handleDownload.
  rewrite (bind_ok (reqPathParam _) _ w _ w eq_refl). rewrite bool_decide_false by done.
  rewrite (bind_ok _ _ _ _ _ Hu). cbv beta iota.
  pose proof (downloadUser_req _ _ _ _ Hu) as Hreq.
  assert (forall k x, HttpRequest.getQuery (w_req w) k [] = Some x -> reqQuery k [] w1 = (Ok x, w1)) as Hq.
  { intros k x Hx. unfold reqQuery. by rewrite get_bind, Hreq, Hx. }
  rewrite (bind_ok _ _ _ _ _ (Hq _ _ Hc)), (bind_ok _ _ _ _ _ (Hq _ _ He)).
  assert (bool_decide (shareCode = []) && negb auth = false) as ->.
  { destruct Hmay as [? -> _ _|Hn _]; [by rewrite andb_false_r|by rewrite bool_decide_false]. }
  rewrite (bind_ok _ _ _ _ _ (escapeString_ok _ w1)).
  erewrite (bind_ok _ _ w1 q w1); cycle 1.
  { unfold q, download_query. destruct (bool_decide (shareCode <> [])); [|done].
    by rewrite (bind_ok _ _ _ _ _ (escapeString_ok _ w1)). }
  rewrite (bind_ok _ _ _ _ _ (executeQueryWithResult_ok _ w1)), Hr.
  set (w2 := asked q w1). destruct Hcols as [(s3 & Hr3 & Hs3) Ht Hw Hd].
  assert (forall k x, default [] <$> (r !! k) = Some x -> column_or r k [] w2 = (Ok x, w2)) as Hcol.
  { intros k x Hx. unfold column_or, column. destruct (r !! k) as [y|]; [|done].
    injection Hx as <-. done. }
  assert (column_int_or0 r 5 w2 = (Ok withId, w2)) as Hw'.
  { unfold column_int_or0, column. unfold int_or0 in Hw.
    destruct (r !! 5) as [[y|]|]; [|by subst|done]. unfold mbind, M_bind; simpl. by rewrite Hw. }
  assert (forall k s z, r !! k = Some (Some s) -> stoi s = inr z -> column_int r k w2 = (Ok z, w2)) as Hi.
  { intros k s z Hk Hz. unfold column_int, column_str, column, mbind, M_bind. rewrite Hk. simpl. by rewrite Hz. }
  assert (forall k s, r !! k = Some (Some s) -> column_str r k w2 = (Ok s, w2)) as Hstr.
  { intros k s Hk. unfold column_str, column. by rewrite Hk. }
  unfold downloadRow. rewrite (bind_ok _ _ _ _ _ (Hi _ _ _ Hr0 Hs0)), (bind_ok _ _ _ _ _ (Hstr _ _ Hr1)),
    (bind_ok _ _ _ _ _ (Hstr _ _ Hr2)), (bind_ok _ _ _ _ _ (Hi _ _ _ Hr3 Hs3)),
    (bind_ok _ _ _ _ _ (Hcol _ _ Ht)), (bind_ok _ _ _ _ _ Hw'), (bind_ok _ _ _ _ _ (Hcol _ _ Hd)).
  rewrite (proj2 (downloadPermission_iff auth uid r owner shareCode type withId extractCode dbCode
    ltac:(split; eauto))) by done. done.
Qed.

End authorized.

(** ** The response of a permitted download *)

Section response.
Context `{Platform}.

(** Where the body starts: the first byte of the range, or the whole file. *)
Definition range_part (r : range) : option (Z * Z) :=
  match r with RangePart s e => Some (s, e) | _ => None end.
Definition range_start (r : range) : Z := default 0%Z (fst <$> range_part r).

(** The header of the response: 200, or 206 with its Content-Range. *)
Definition download_response (resp : HttpResponse.t) (original : bytes) (fileSize : Z) (r : range) :
    HttpResponse.t :=
  let start := match range_part r with
               | Some (s, e) =>
                   HttpResponse.addHeader
                     (HttpResponse.setStatusMessage
                       (HttpResponse.setStatusCode resp k206PartialContent) ($"Partial Content"))
                     ($"Content-Range") (content_range s e fileSize)
               | None =>
                   HttpResponse.setStatusMessage (HttpResponse.setStatusCode resp k200Ok) ($"OK")
               end in
  HttpResponse.addHeader
    (HttpResponse.addHeader
      (HttpResponse.addHeader (HttpResponse.setContentType start ($"application/octet-stream"))
         ($"Content-Disposition") ($"attachment; filename=" ++ [dquote] ++ original ++ [dquote]))
      ($"Accept-Ranges") ($"bytes"))
    ($"Connection") ($"keep-alive").

(** The state after a download has been set up. *)
Definition downloading (path original content : bytes) (c : HttpContext.t custom) (r : range)
    (w : World) : World :=
  let id := w_next w in
  set_wcc (Some (CbDownload id))
    (set_down (<[id := FileDownContext.seekTo (FileDownContext.create path original content)
                         (range_start r)]> (w_down w)) (S id)
      (set_resp (download_response (w_resp w) original (Z.of_nat (length content)) r)
        (set_ctx (Some (HttpContext.setContext c (Some (CDown id)))) w))).

Definition upload_path (serverFilename : bytes) : bytes := uploadDir ++ $"/" ++ serverFilename.

Lemma makeDown_ok p original content w : w_fs w !! p = Some content -> open_in_ok p = true ->
  makeDown p original w = (Ok (w_next w),
    set_down (<[w_next w := FileDownContext.create p original content]> (w_down w)) (S (w_next w)) w).
Proof. intros Hf Ho. unfold makeDown. rewrite get_bind. by rewrite Hf, Ho. Qed.

Lemma serveFile_starts server original content c r w :
  w_fs w !! upload_path server = Some content ->
  HttpRequest.method_ (w_req w) <> kHead ->
  parseRange (HttpRequest.getHeader (w_req w) ($"Range")) (Z.of_nat (length content)) = inr r ->
  r <> RangeUnsatisfiable ->
  w_ctx w = Some c -> HttpContext.customContext_ c = None ->
  open_in_ok (upload_path server) = true ->
  serveFile server original w = (Ok true, downloading (upload_path server) original content c r w).
Proof.
  intros Hfs Hm Hr Hu Hc Hcc Ho. unfold serveFile. fold (upload_path server).
  set (p := upload_path server) in *. apply try_ok.
  rewrite get_bind. cbv beta. rewrite Hfs.
  rewrite bool_decide_false by done.
  rewrite (bind_ok _ _ _ _ _ (reqHeader_ok _ w)), (bind_ok _ _ _ _ _ (of_sum_ok _ _ w Hr)).
  assert (forall part, part = range_part r -> startDownload p original (Z.of_nat (length content)) part w
    = (Ok true, downloading p original content c r w)) as Hstart.
  { intros part Hp. unfold startDownload. rewrite get_bind. cbv beta. rewrite Hc.
    unfold getDown, setCustom, downloading, download_response, range_start.
    rewrite <- Hp. clear Hp. clearbody p.
    assert (Hdown : forall (d d' : DownContext) f, f d = d' ->
      alter f (w_next w) (<[w_next w := d]> (w_down w)) = <[w_next w := d']> (w_down w)).
    { intros d d' f <-. apply map_eq. intros i. destruct (decide (i = w_next w)) as [->|Hi].
      - by rewrite lookup_alter_eq, !lookup_insert_eq.
      - by rewrite lookup_alter_ne, !lookup_insert_ne by done. }
    destruct w; cbn in *. subst. unfold mbind, M_bind, get, modify; cbn. rewrite Hcc; cbn.
    rewrite (makeDown_ok _ _ content) by done; cbn.
    destruct part as [[s e]|]; cbn; by erewrite Hdown by reflexivity. }
  destruct r; [by apply Hstart|by apply Hstart|done].
Qed.

(** A range past the end of the file. *)
Lemma serveFile_unsatisfiable server original content body w :
  w_fs w !! upload_path server = Some content ->
  HttpRequest.method_ (w_req w) <> kHead ->
  parseRange (HttpRequest.getHeader (w_req w) ($"Range")) (Z.of_nat (length content)) =
    inr RangeUnsatisfiable ->
  json_dump (error_body ($"Range Not Satisfiable") k416RangeNotSatisfiable) = inr body ->
  serveFile server original w =
    (Ok true, answered ($"Range Not Satisfiable") k416RangeNotSatisfiable body w).
Proof.
  intros Hfs Hm Hr Hj. unfold serveFile. fold (upload_path server).
  apply try_ok. rewrite get_bind. cbv beta. rewrite Hfs.
  rewrite bool_decide_false by done.
  rewrite (bind_ok _ _ _ _ _ (reqHeader_ok _ w)).
  by rewrite (bind_ok _ _ _ _ _ (of_sum_ok _ _ w Hr)), (bind_ok _ _ _ _ _ (sendError_ok _ _ _ _ Hj)).
Qed.

End response.

(** ** The chunks of a download *)

(** What is left to send; a context whose stream is where [currentPosition_]
    says, unless it has failed, in a file that [uintmax_t] can measure. *)
Definition unsent (d : DownContext) : nat := Z.to_nat (d_fileSize d - d_currentPosition d).

Record streaming (d : DownContext) : Prop := {
  str_max : (d_fileSize d < 2 ^ 64)%Z;
  str_cur : (0 <= d_currentPosition d <= d_fileSize d)%Z;
  str_pos : d_fail d = false -> d_pos d = d_currentPosition d;
  str_complete : d_isComplete d = false
}.

(** The bytes announced: what the file holds there now, and zeros for the rest. *)
Definition padded (n : nat) (s : bytes) : bytes := take n (s ++ replicate n (chr 0)).
Definition remaining (d : DownContext) : bytes :=
  padded (unsent d) (if d_fail d then [] else drop (Z.to_nat (d_currentPosition d)) (d_content d)).

Lemma length_padded n s : length (padded n s) = n.
Proof. unfold padded. rewrite length_take, length_app, length_replicate. lia. Qed.

Lemma padded_enough n s : n <= length s -> padded n s = take n s.
Proof. intros Hn. unfold padded. by rewrite take_app_le. Qed.

(** The first [k] of [n] bytes, and the others. *)
Lemma padded_split k n s : k <= n ->
  padded k s ++ padded (n - k) (drop k s) = padded n s.
Proof.
  intros Hk. destruct (decide (k <= length s)) as [Hs|Hs].
  - rewrite padded_enough by done. unfold padded.
    rewrite <- (take_drop k s) at 3. rewrite <- app_assoc.
    rewrite (take_app_ge (take k s)) by (rewrite length_take; lia). f_equal.
    rewrite length_take_le by done.
    destruct (decide (n - k <= length (drop k s))); [by rewrite !take_app_le by done|].
    rewrite !take_app_ge by lia. f_equal. rewrite !take_replicate. f_equal. lia.
  - unfold padded. rewrite drop_ge by lia. cbn [app].
    rewrite !take_app_ge by lia. rewrite <- app_assoc. f_equal.
    rewrite !take_replicate, <- replicate_add. f_equal. lia.
Qed.

Lemma length_remaining d : length (remaining d) = unsent d.
Proof. apply length_padded. Qed.

(** What the rest of the program may do to an open download: the file can be
    written or removed, the context is not touched. *)
Record evolves (d d' : DownContext) : Prop := {
  ev_size : d_fileSize d' = d_fileSize d;
  ev_cur : d_currentPosition d' = d_currentPosition d;
  ev_pos : d_pos d' = d_pos d;
  ev_fail : d_fail d' = d_fail d;
  ev_complete : d_isComplete d' = d_isComplete d;
  ev_written : d_written d' = false -> d_written d = false /\ d_content d' = d_content d
}.

#[export] Instance evolves_preorder : PreOrder evolves.
Proof.
  split; [by split|]. intros d1 d2 d3 [? ? ? ? ? H1] [? ? ? ? ? H2]. split; try congruence.
  intros Hw. destruct (H2 Hw) as [Hw' ->]. by apply H1.
Qed.

Lemma evolves_put path s d : evolves d (written path s d).
Proof. unfold written. destruct (_ && _); by split. Qed.

Lemma evolves_unlinked path d : evolves d (unlinked path d).
Proof. unfold unlinked. destruct (bool_decide _); by split. Qed.

Lemma evolves_unsent d d' : evolves d d' -> unsent d' = unsent d.
Proof. intros [E1 E2 _ _ _ _]. unfold unsent. by rewrite E1, E2. Qed.

Lemma evolves_streaming d d' : evolves d d' -> streaming d -> streaming d'.
Proof. intros [E1 E2 E3 E4 E5 _] []. split; by rewrite ?E1, ?E2, ?E3, ?E4, ?E5. Qed.

Lemma evolves_remaining d d' : evolves d d' -> d_written d' = false -> remaining d' = remaining d.
Proof.
  intros He Hw. destruct (ev_written _ _ He Hw) as [_ Hc]. unfold remaining.
  by rewrite (evolves_unsent _ _ He), (ev_fail _ _ He), (ev_cur _ _ He), Hc.
Qed.

Lemma create_streaming path original content p :
  (Z.of_nat (length content) < 2 ^ 64)%Z -> p <= length content ->
  let d := FileDownContext.seekTo (FileDownContext.create path original content) (Z.of_nat p) in
  streaming d /\ unsent d = length content - p /\ remaining d = drop p content /\ d_written d = false.
Proof.
  intros Hm Hp d. assert (unsent d = length content - p) as Hl by (unfold unsent; cbn; lia).
  split; [split; cbn; lia || done|]. split; [done|]. split; [|done].
  unfold remaining. cbn. rewrite Hl, Nat2Z.id, padded_enough by (rewrite length_drop; lia).
  apply take_ge. rewrite length_drop. lia.
Qed.

(** The next chunk: the announced bytes, at most [chunkSize] of them. *)
Lemma readNextChunk_more d :
  streaming d -> 0 < unsent d ->
  exists chunk d', FileDownContext.readNextChunk d = (Some chunk, d') /\ streaming d' /\
    0 < length chunk <= Z.to_nat FileDownContext.chunkSize /\ length chunk + unsent d' = unsent d /\
    chunk ++ remaining d' = remaining d /\ d_written d' = d_written d.
Proof.
  intros [Hm Hc Hp Hi] Hlt. unfold unsent in Hlt. unfold FileDownContext.readNextChunk. rewrite Hi.
  rewrite wrap_small by lia. assert (0 < FileDownContext.chunkSize)%Z as Hchunk by done.
  set (n := Z.min _ _). assert (0 < n <= d_fileSize d - d_currentPosition d /\ n <= FileDownContext.chunkSize)%Z as [Hn Hnc]
    by (unfold n; lia). clearbody n.
  destruct (Z.eqb_spec n 0); [lia|].
  set (src := if d_fail d then [] else drop (Z.to_nat (d_currentPosition d)) (d_content d)).
  assert (FileDownContext.stream_read d n = (take (Z.to_nat n) src, (Z.of_nat (length (take (Z.to_nat n) src)) <? n)%Z)) as ->.
  { unfold FileDownContext.stream_read, src. destruct (d_fail d) eqn:Ef; [|by rewrite (Hp eq_refl)].
    rewrite take_nil. cbn. f_equal. symmetry. apply Z.ltb_lt. lia. }
  assert (take (Z.to_nat n) src ++ replicate (Z.to_nat n - length (take (Z.to_nat n) src)) (chr 0) = padded (Z.to_nat n) src) as ->.
  { unfold padded. rewrite take_app, take_replicate, length_take. do 2 f_equal. lia. }
  do 2 eexists. split; [reflexivity|].
  assert (wrap 64 (d_currentPosition d + n) = d_currentPosition d + n)%Z as Hw by (rewrite wrap_small; lia).
  assert (forall a : Z, Z.to_nat (d_fileSize d - (d_currentPosition d + n)) = unsent d - Z.to_nat n) as Hleft
    by (intros; unfold unsent; lia). specialize (Hleft 0%Z).
  split; [|split; [rewrite length_padded; lia|split; [rewrite length_padded; unfold unsent at 1; cbn; rewrite Hw, Hleft; unfold unsent; lia|split; [|done]]]].
  - split; cbn; try rewrite Hw; try done; [lia|].
    intros Hf%Z.ltb_ge. rewrite length_take in *. unfold src in *.
    destruct (d_fail d); [cbn in Hf; lia|]. rewrite (Hp eq_refl). lia.
  - assert (drop (Z.to_nat n) src = [] \/ Z.to_nat n <= length src) as Hcase.
    { destruct (decide (Z.to_nat n <= length src)); [by right|left]. apply drop_ge. lia. }
    change (remaining d) with (padded (unsent d) src). unfold remaining, unsent at 1. cbn. rewrite Hw, Hleft.
    rewrite <- (padded_split (Z.to_nat n) (unsent d)) by (unfold unsent; lia). f_equal. f_equal.
    rewrite length_take. destruct (Z.ltb_spec (Z.of_nat (Z.to_nat n `min` length src)) n).
    + symmetry. apply drop_ge. lia.
    + unfold src in *. destruct (d_fail d); [cbn in *; lia|].
      rewrite drop_drop. f_equal. lia.
Qed.

(** Reading at the end of the file. *)
Lemma readNextChunk_end d :
  streaming d -> unsent d = 0 ->
  exists d', FileDownContext.readNextChunk d = (None, d') /\ d_written d' = d_written d.
Proof.
  intros [Hm Hc Hp Hi] Hl. unfold FileDownContext.readNextChunk. rewrite Hi.
  unfold unsent in Hl. replace (d_fileSize d - d_currentPosition d)%Z with 0%Z by lia.
  eexists. split; reflexivity.
Qed.

Section stream.
Context `{Platform}.

(** What the rest of the program may do to the download [id]. *)
Definition meanwhile (id : nat) (v v' : World) : Prop :=
  forall d, w_down v !! id = Some d -> exists d', w_down v' !! id = Some d' /\ evolves d d'.

(** What the connection sends while its callback asks for more: every write
    completes, and calls it again, until it asks for the shutdown.  [others] is
    what happens elsewhere before a call. *)
Fixpoint stream (fuel : nat) (others : nat -> World -> World) (cb : callback) : M (option (list bytes)) :=
  match fuel with
  | O => mret None
  | S f =>
      modify (others f);;
      a ← run_callback cb;
      match a with
      | WcShutdown => mret (Some [])
      | WcSend chunk => rest ← stream f others cb; mret (cons chunk <$> rest)
      end
  end.

Definition good_chunk (c : bytes) : Prop :=
  0 < length c <= Z.to_nat FileDownContext.chunkSize.

(** The callback at the end of the file, and before it. *)
Lemma run_download_end id d w :
  w_down w !! id = Some d -> streaming d -> unsent d = 0 ->
  exists d', run_callback (CbDownload id) w =
      (Ok WcShutdown, set_down (<[id := d']> (w_down w)) (w_next w) w) /\ d_written d' = d_written d.
Proof.
  intros Hd Hs Hl. destruct (readNextChunk_end d Hs Hl) as (d' & Hr & Hw). exists d'. split; [|done].
  unfold run_callback. rewrite get_bind, Hd. unfold of_option, mbind, M_bind, mret, M_ret.
  by rewrite Hr.
Qed.

Lemma run_download_more id d w :
  w_down w !! id = Some d -> streaming d -> 0 < unsent d ->
  exists d' chunk, run_callback (CbDownload id) w =
      (Ok (WcSend chunk), set_down (<[id := d']> (w_down w)) (w_next w) w) /\
    streaming d' /\ good_chunk chunk /\ length chunk + unsent d' = unsent d /\
    chunk ++ remaining d' = remaining d /\ d_written d' = d_written d.
Proof.
  intros Hd Hs Hlt. destruct (readNextChunk_more d Hs Hlt) as (chunk & d' & Hr & Hrest).
  exists d', chunk. split; [|done].
  unfold run_callback. rewrite get_bind, Hd. unfold of_option, mbind, M_bind, mret, M_ret. by rewrite Hr.
Qed.

(** As many bytes as announced are sent, in non-empty chunks of at most 1 MiB,
    and the callback then shuts down: the number of bytes left is fuel enough.
    They are the file's, unless somebody wrote it meanwhile. *)
Lemma stream_rest others id : (forall k v, meanwhile id v (others k v)) -> forall n d w,
  w_down w !! id = Some d -> streaming d -> unsent d < n ->
  exists chunks w' d', stream n others (CbDownload id) w = (Ok (Some chunks), w') /\
    length (concat chunks) = unsent d /\ Forall good_chunk chunks /\ w_down w' !! id = Some d' /\
    (d_written d' = false -> d_written d = false /\ concat chunks = remaining d).
Proof.
  intros Ho. induction n as [|n IH]; intros d w Hd Hs Hn; [lia|].
  destruct (Ho n w d Hd) as (d1 & Hd1 & He). pose proof (evolves_streaming _ _ He Hs) as Hs1.
  assert (forall b, d_written b = d_written d1 -> d_written b = false ->
    d_written d = false /\ remaining d1 = remaining d) as Hback.
  { intros b -> Hb. split; [by apply (ev_written _ _ He)|by apply evolves_remaining]. }
  rewrite <- (evolves_unsent _ _ He) in *.
  cbn [stream]. unfold mbind, M_bind, modify in *.
  destruct (decide (unsent d1 = 0)) as [E0|Hne].
  - destruct (run_download_end id d1 _ Hd1 Hs1 E0) as (d' & -> & Hw').
    do 3 eexists. split; [reflexivity|]. split; [by rewrite E0|]. split; [done|].
    split; [apply lookup_insert_eq|]. intros Hf. destruct (Hback d' Hw' Hf) as [? <-]. split; [done|].
    symmetry. apply nil_length_inv. by rewrite length_remaining.
  - destruct (run_download_more id d1 _ Hd1 Hs1) as (d' & chunk & -> & Hs' & Hg & Hl & Hcat & Hw'); [lia|].
    destruct (IH d' (set_down (<[id := d']> (w_down (others n w))) (w_next (others n w)) (others n w)))
      as (chunks & w' & d2 & Hst & Hlen & Hall & Hd2 & Hsame); [apply lookup_insert_eq|done|unfold good_chunk in Hg; lia|].
    exists (chunk :: chunks), w', d2. rewrite Hst. split; [done|]. cbn [concat]. rewrite length_app, Hlen.
    split; [done|]. split; [by constructor|]. split; [done|]. intros Hf. destruct (Hsame Hf) as [Hf' ->].
    destruct (Hback d' Hw' Hf') as [? <-]. by rewrite Hcat.
Qed.

End stream.
