(* ===== verification/Uploading.v ===== *)
(** * Uploads: what ends up on disk

    The state of an upload in progress is a context and the bytes written so
    far; [put] installs both.  Every operation of an upload maps a [put] state
    to a [put] state. *)

From S2P Require Import Prelude CxxString OrdMap Regex HttpRequest HttpContext HttpResponse World.
From S2P Require Import Session Accounts Upload Download Files Share Routes Handlers Access.

Section uploading.
Context `{Platform}.
Implicit Types (w : World) (u : UploadContext) (f d body : bytes) (c : HttpContext.t custom).

(** The upload [u], with [f] on disk, in the connection context [c]. *)
Definition put c u f w : World :=
  set_ctx (Some (HttpContext.setContext c (Some (CUpload u))))
    (put_file (u_filename u) f w).

Lemma written_twice p s s' (d : DownContext) : written p s' (written p s d) = written p s' d.
Proof.
  unfold written. destruct (d_linked d) eqn:E; cbn; [|by rewrite E]. case_bool_decide; cbn; [by rewrite bool_decide_true|].
  rewrite E. cbn. by rewrite bool_decide_false.
Qed.

Lemma put_file_twice p s s' w : put_file p s' (put_file p s w) = put_file p s' w.
Proof.
  assert (written p s' <$> (written p s <$> w_down w) = written p s' <$> w_down w) as E.
  { apply map_eq. intros i. rewrite !lookup_fmap. destruct (w_down w !! i); cbn; [|done]. by rewrite written_twice. }
  unfold put_file. cbn. rewrite E. unfold set_fs; cbn. by rewrite insert_insert_eq.
Qed.

Lemma put_put c u f u' f' w :
  u_filename u' = u_filename u -> put c u' f' (put c u f w) = put c u' f' w.
Proof.
  intros E. unfold put. rewrite E.
  change (put_file ?p ?s (set_ctx ?x ?v)) with (set_ctx x (put_file p s v)). by rewrite put_file_twice.
Qed.

Lemma theUpload_put c u f w : theUpload (put c u f w) = (Ok u, put c u f w).
Proof. done. Qed.

Lemma setCustom_put c u u' f w :
  u_filename u' = u_filename u ->
  setCustom (Some (CUpload u')) (put c u f w) = (Ok tt, put c u' f w).
Proof. intros E. unfold setCustom, modify, put. destruct w; simpl. by rewrite E. Qed.

Lemma setUploadState_put s c u f w :
  setUploadState s (put c u f w) = (Ok tt, put c (with_state u s) f w).
Proof. unfold setUploadState. rewrite (bind_ok _ _ _ _ _ (theUpload_put c u f w)). by apply setCustom_put. Qed.

Lemma setUploadBoundary_put b c u f w :
  setUploadBoundary b (put c u f w) = (Ok tt, put c (with_boundary u b) f w).
Proof.
  unfold setUploadBoundary. rewrite (bind_ok _ _ _ _ _ (theUpload_put c u f w)). by apply setCustom_put.
Qed.

Definition req_body (b : bytes) w : World := set_req (HttpRequest.setBody (w_req w) b) w.

Lemma setReqBody_put b c u f w : setReqBody b (put c u f w) = (Ok tt, put c u f (req_body b w)).
Proof. done. Qed.

Lemma append_put data c u f w : append_file (u_filename u) data (put c u f w) = put c u (f ++ data) w.
Proof.
  unfold append_file. replace (w_fs (put c u f w) !! u_filename u) with (Some f)
    by (cbn; by rewrite lookup_insert_eq).
  unfold put. change (put_file ?p ?s (set_ctx ?x ?v)) with (set_ctx x (put_file p s v)).
  by rewrite put_file_twice.
Qed.

(** Writing [len] bytes of the body from [off]: they are appended to the file
    and counted. *)
Lemma writeData_put body off len c u f w :
  u_open u = true -> off + len <= length body ->
  write_ok (u_filename u) (Z.of_nat (length f + len)) = true ->
  writeData body off (Z.of_nat len) (put c u f w) =
    (Ok tt, put c (with_total u (wrap 64 (u_totalBytes u + Z.of_nat len)))
              (f ++ take len (drop off body)) w).
Proof.
  intros Ho Hl Hw. unfold writeData. rewrite (bind_ok _ _ _ _ _ (theUpload_put c u f w)).
  cbv beta. rewrite Ho. cbn [negb].
  destruct (Z.ltb_spec (Z.of_nat (length body)) (Z.of_nat off + Z.of_nat len)) as [|_]; [lia|].
  rewrite get_bind. cbv zeta.
  replace (default [] (w_fs (put c u f w) !! u_filename u)) with f
    by (unfold put; simpl; by rewrite lookup_insert_eq).
  rewrite <- Nat2Z.inj_add, Hw, Nat2Z.id. cbv iota.
  erewrite (bind_ok (modify _)) by reflexivity. rewrite append_put. by apply setCustom_put.
Qed.

(** The length test the callers make before writing. *)
Lemma writeData_if_put (test : bool) body off len c u f w :
  (test = false -> len = 0) ->
  u_open u = true -> off + len <= length body -> (0 <= u_totalBytes u < 2 ^ 64)%Z ->
  write_ok (u_filename u) (Z.of_nat (length f + len)) = true ->
  (if test then writeData body off (Z.of_nat len) else mret tt) (put c u f w) =
    (Ok tt, put c (with_total u (wrap 64 (u_totalBytes u + Z.of_nat len)))
              (f ++ take len (drop off body)) w).
Proof.
  intros Ht Ho Hl Hb Hw. destruct test; [by apply writeData_put|].
  rewrite Ht by done. rewrite Z.add_0_r, wrap_small, app_nil_r by done. by destruct u.
Qed.

(** ** Later chunks *)

(** An upload that has received the bytes [f] so far. *)
Record receiving u f : Prop := {
  rec_open : u_open u = true;
  rec_total : u_totalBytes u = wrap 64 (Z.of_nat (length f));
  rec_room : forall n, write_ok (u_filename u) n = true
}.

Lemma wrap_add_l a b : wrap 64 (wrap 64 a + b) = wrap 64 (a + b).
Proof. unfold wrap. by rewrite Zplus_mod_idemp_l. Qed.

Definition advance u (n : nat) : UploadContext :=
  with_total u (wrap 64 (u_totalBytes u + Z.of_nat n)).

Lemma receiving_advance u f d :
  receiving u f -> receiving (advance u (length d)) (f ++ d).
Proof.
  intros [Ho Ht Hr]. split; [done| |done]. simpl. rewrite Ht, wrap_add_l, length_app. f_equal. lia.
Qed.

(** Data in the middle of the file: all of the chunk. *)
Lemma uploadChunk_data body c u f w :
  receiving u f -> u_state u = uExpectBoundary \/ u_state u = uExpectContent ->
  find (u_boundary u) body 0 = None ->
  uploadChunk u body (put c u f w) = (Ok tt, put c (advance u (length body)) (f ++ body) w).
Proof.
  intros [Ho Ht Hr] Hst Hf. unfold uploadChunk.
  assert (find (u_boundary u ++ $"--") body 0 = None) as Hend.
  { apply find_None. intros i Hi. pose proof (proj1 (find_None _ _ _) Hf i Hi) as Hn.
    apply not_true_is_false. intros [t Ht']%prefixb_spec.
    rewrite (proj2 (prefixb_spec _ _)) in Hn; [done|]. exists ($"--" ++ t).
    by rewrite Ht', <- app_assoc. }
  pose proof (writeData_put body 0 (length body) c u f w Ho ltac:(lia) (Hr _)) as E.
  rewrite drop_0, firstn_all in E.
  destruct Hst as [->| ->]; [rewrite Hend|]; rewrite Hf; apply E.
Qed.

(** The chunk with the closing boundary: the bytes before it, and the upload is
    complete. *)
Lemma uploadChunk_last body e c u f w :
  receiving u f -> (0 <= u_totalBytes u < 2 ^ 64)%Z -> u_state u = uExpectBoundary ->
  find (u_boundary u ++ $"--") body 0 = Some e ->
  uploadChunk u body (put c u f w) =
    (Ok tt, put c (with_state (advance u e) uComplete) (f ++ take e body) w).
Proof.
  intros [Ho Ht Hr] Hb Hst Hf. unfold uploadChunk. rewrite Hst, Hf.
  pose proof (find_bound _ _ _ _ Hf) as Hle.
  erewrite bind_ok by (apply (writeData_if_put (0 <? e)); [|done|lia|done|done];
                       destruct (Nat.ltb_spec 0 e); [done|lia]).
  rewrite drop_0. apply setUploadState_put.
Qed.

(** The messages of an upload after the first: each sets the request's body and
    runs the handler's chunk code. *)
Fixpoint receive (chunks : list bytes) : M unit :=
  match chunks with
  | [] => mret tt
  | b :: chunks' =>
      setReqBody b;;
      u ← theUpload;
      continueUpload u;;
      setReqBody [];;
      receive chunks'
  end.

Lemma continueUpload_put body c u f w w' :
  body <> [] -> uploadChunk u body (put c u f (req_body body w)) = (Ok tt, w') ->
  continueUpload u (put c u f (req_body body w)) = (Ok false, w').
Proof.
  intros Hb E. unfold continueUpload. apply try_ok. rewrite get_bind. cbv zeta.
  replace (HttpRequest.body_ _) with body by done.
  rewrite bool_decide_false by done. by rewrite (bind_ok _ _ _ _ _ E).
Qed.

Lemma req_body_twice a b w : req_body a (req_body b w) = req_body a w.
Proof. done. Qed.

Lemma advance_advance u n m : (0 <= u_totalBytes u)%Z ->
  advance (advance u n) m = advance u (n + m).
Proof.
  intros. unfold advance. simpl. rewrite wrap_add_l. unfold with_total; simpl. do 2 f_equal. lia.
Qed.

(** Chunks without a boundary are appended in the order of their arrival. *)
Lemma receive_data chunks c : forall u f w,
  receiving u f -> u_state u = uExpectBoundary \/ u_state u = uExpectContent ->
  Forall (fun b => b <> [] /\ find (u_boundary u) b 0 = None) chunks -> chunks <> [] ->
  (0 <= u_totalBytes u)%Z ->
  receive chunks (put c u f w) =
    (Ok tt, put c (advance u (length (concat chunks))) (f ++ concat chunks) (req_body [] w)).
Proof.
  induction chunks as [|b chunks IH]; intros u f w Hr Hst Hall Hne Hpos; [done|]. clear Hne.
  apply Forall_cons in Hall as [[Hb Hf] Hall]. cbn [receive].
  erewrite bind_ok by (apply setReqBody_put). erewrite bind_ok by (apply theUpload_put).
  erewrite bind_ok; cycle 1.
  { apply continueUpload_put; [done|]. by apply uploadChunk_data. }
  erewrite bind_ok by (apply setReqBody_put). rewrite req_body_twice.
  destruct chunks as [|b' chunks].
  - cbn [receive concat]. by rewrite app_nil_r.
  - rewrite IH; [|by apply receiving_advance|done|done|done|apply wrap_bound; lia].
    rewrite req_body_twice, advance_advance by done. rewrite <- app_assoc, <- length_app. done.
Qed.

(** ** The first message *)

(** The name of the file on disk. *)
Definition upload_name w : bytes :=
  $"upload" ++ $"_" ++ to_string (w_clock w) ++ $"_" ++
  to_string (1000 + w_random w (w_draws w) mod (9999 - 1000 + 1)).
Definition upload_file w : bytes := uploadDir ++ $"/" ++ upload_name w.

(** A new upload, with its boundary. *)
Definition new_upload (path original boundary : bytes) : UploadContext :=
  {| u_filename := path; u_originalFilename := original; u_open := true; u_totalBytes := 0;
     u_state := uExpectHeaders; u_boundary := boundary |}.

(** The first chunk has the closing boundary too: the file is what lies
    between the header of the part and that boundary. *)
Lemma firstChunk_complete boundary body c u f w p e :
  receiving u f -> (0 <= u_totalBytes u < 2 ^ 64)%Z -> length body < Z.to_nat (2 ^ 64) ->
  find blank_line body 0 = Some p -> find (boundary ++ $"--") body 0 = Some e -> p + 4 <= e ->
  firstChunk boundary body (put c u f w) =
    (Ok tt, put c (with_state (advance u (e - (p + 4))) uComplete)
              (f ++ take (e - (p + 4)) (drop (p + 4) body)) w).
Proof.
  intros [Ho Ht Hr] Hb Hl Hp He Hle. unfold firstChunk. rewrite Hp, He. cbv zeta.
  pose proof (find_bound _ _ _ _ He) as Hend.
  assert (wrap 64 (Z.of_nat e - Z.of_nat (p + 4)) = Z.of_nat (e - (p + 4))) as ->.
  { rewrite wrap_small; lia. }
  erewrite bind_ok by (apply (writeData_if_put (0 <? e)); [|done|lia|done|done];
                       destruct (Nat.ltb_spec 0 e); [done|lia]).
  apply setUploadState_put.
Qed.

(** The first chunk has no closing boundary: the rest of it is the beginning of
    the file. *)
Lemma firstChunk_open boundary body c u f w p :
  receiving u f -> (0 <= u_totalBytes u < 2 ^ 64)%Z ->
  find blank_line body 0 = Some p -> find (boundary ++ $"--") body 0 = None ->
  firstChunk boundary body (put c u f w) =
    (Ok tt, put c (with_state (advance u (length body - (p + 4))) uExpectBoundary)
              (f ++ drop (p + 4) body) w).
Proof.
  intros [Ho Ht Hr] Hb Hp He. unfold firstChunk. rewrite Hp, He. cbv zeta.
  pose proof (find_bound _ _ _ _ Hp) as Hend. cbn [length blank_line] in Hend.
  rewrite <- Nat2Z.inj_sub by (simpl in Hend; lia).
  erewrite bind_ok by (apply (writeData_if_put (p + 4 <? length body)); [|done|simpl in Hend; lia|done|done];
                       destruct (Nat.ltb_spec (p + 4) (length body)); [done|lia]).
  rewrite setUploadState_put. do 2 f_equal.
  rewrite take_ge; [done|]. rewrite length_drop. lia.
Qed.

(** The name the client gave. *)
Lemma uploadFilename_header w h name :
  HttpRequest.getHeader (w_req w) ($"X-File-Name") = h -> h <> [] -> urlDecode h = Some name ->
  uploadFilename w = (Ok (inr name), w).
Proof.
  intros Hh Hne Hd. unfold uploadFilename. rewrite (bind_ok _ _ _ _ _ (reqHeader_ok _ w)), Hh.
  rewrite bool_decide_true by done. by rewrite Hd.
Qed.

(** The state in which the first chunk is read. *)
Definition opened (original boundary : bytes) c w : World :=
  put c (new_upload (upload_file w) original boundary) [] (set_draws (S (w_draws w)) w).

Lemma beginUpload_ok boundary original c w u f :
  w_ctx w = Some c -> open_out_ok (upload_file w) = true ->
  uploadFilename w = (Ok (inr original), w) ->
  firstChunk boundary (HttpRequest.body_ (w_req w)) (opened original boundary c w) =
    (Ok tt, put c u f (set_draws (S (w_draws w)) w)) ->
  beginUpload boundary w = (Ok false, put c u f (req_body [] (set_draws (S (w_draws w)) w))).
Proof.
  intros Hc Ho Hn Hf. unfold beginUpload. apply try_ok.
  rewrite (bind_ok _ _ _ _ _ Hn). cbv beta iota.
  set (w1 := set_draws (S (w_draws w)) w) in *.
  rewrite (bind_ok (generateUniqueFilename _) _ w (upload_name w) w1) by done. cbv zeta.
  fold (upload_file w). set (u0 := {| u_filename := upload_file w; u_originalFilename := original;
    u_open := true; u_totalBytes := 0; u_state := uExpectHeaders; u_boundary := [] |}).
  set (w2 := put_file (upload_file w) [] w1).
  rewrite (bind_ok (upload_create _ _) _ w1 u0 w2) by (unfold upload_create; by rewrite Ho).
  assert (setCustom (Some (CUpload u0)) w2 = (Ok tt, put c u0 [] w1)) as Hcust.
  { unfold setCustom, modify, put, w2, w1. destruct w; simpl in *. by subst. }
  rewrite (bind_ok _ _ _ _ _ Hcust), (bind_ok _ _ _ _ _ (setUploadBoundary_put _ _ _ _ _)).
  rewrite get_bind. rewrite (bind_ok _ _ _ _ _ Hf). done.
Qed.

(** ** The end of an upload *)

Definition upload_answer (id : Z) u : json :=
  JObj [($"code", JInt 0); ($"message", JStr ($"上传成功")); ($"fileId", JInt id);
        ($"filename", JStr (path_filename (u_filename u)));
        ($"originalFilename", JStr (u_originalFilename u)); ($"size", JInt (u_totalBytes u))].

(** The row recorded for the file. *)
Definition upload_statement w u (uid : Z) : bytes :=
  file_insert (escaped w (path_filename (u_filename u))) (escaped w (u_originalFilename u))
    (u_totalBytes u) (escaped w (getFileType (u_originalFilename u))) uid.

(** A JSON answer that is printed. *)
Lemma okJson_ok j s w :
  json_dump j = inr s ->
  exists r, okJson j w = (Ok tt, set_resp r w) /\ HttpResponse.statusCode_ r = k200Ok /\
    HttpResponse.body_ r = s.
Proof. intros E. unfold okJson, setJsonBody. rewrite E. eexists. split; [reflexivity|]. by split. Qed.

(** The part of the state after an upload that clients and later requests see. *)
Record uploaded c u f w (uid : Z) W : Prop := {
  up_fs : w_fs W = <[u_filename u := f]> (w_fs w);
  up_ctx : w_ctx W = Some (HttpContext.setContext c None);
  up_wcc : w_wcc W = Some CbShutdown;
  up_sql : w_sql W = w_sql w ++ [upload_statement w u uid];
  up_status : HttpResponse.statusCode_ (w_resp W) = k200Ok;
  up_body : exists id, json_dump (upload_answer id u) = inr (HttpResponse.body_ (w_resp W));
  up_req : w_req W = w_req w;
  up_mapping : w_mapping W = w_mapping w
}.

Lemma finishUpload_ok uid c u f w :
  w_mysql w = true -> (forall id, exists s, json_dump (upload_answer id u) = inr s) ->
  exists W, finishUpload uid (put c u f w) = (Ok true, W) /\ uploaded c u f w uid W.
Proof.
  intros Em Hj. unfold finishUpload. rewrite (bind_ok _ _ _ _ _ (theUpload_put c u f w)). cbv zeta.
  do 3 rewrite (bind_ok _ _ _ _ _ (escapeString_ok _ _)).
  set (q := file_insert _ _ _ _ _).
  destruct (executeQuery_runs q (put c u f w) Em) as (d & res & Eq).
  rewrite (bind_ok _ _ _ _ _ Eq).
  set (w1 := set_db d _ res _) in *. set (id := swrap 32 (mysql_insert_id d)).
  rewrite (bind_ok insert_id _ w1 id w1) by (unfold insert_id; rewrite get_bind; simpl; by rewrite Em).
  destruct (Hj id) as [s Hs]. fold (upload_answer id u).
  destruct (okJson_ok (upload_answer id u) s w1 Hs) as (r & Er & Hst & Hbody).
  rewrite (bind_ok _ _ _ _ _ Er). eexists. split; [reflexivity|].
  unfold w1, put. destruct w; simpl in *. split; simpl; try done.
  exists id. by rewrite Hbody.
Qed.

(** ** The handler, on a message that completes an upload *)

Lemma handleFileUpload_one w uid name w1 c ct b original u f :
  validateSession (HttpRequest.getHeader (w_req w) ($"X-Session-ID")) w = (Ok (Some (uid, name)), w1) ->
  w_ctx w = Some c -> HttpContext.customContext_ c = None ->
  HttpRequest.getHeader (w_req w) ($"Content-Type") = ct -> ct <> [] ->
  regex_search boundaryRegex ct = Some [b] ->
  open_out_ok (upload_file w) = true ->
  uploadFilename w1 = (Ok (inr original), w1) ->
  firstChunk ($"--" ++ b) (HttpRequest.body_ (w_req w)) (opened original ($"--" ++ b) c w1) =
    (Ok tt, put c u f (set_draws (S (w_draws w1)) w1)) ->
  u_state u = uComplete ->
  (forall id, exists s, json_dump (upload_answer id u) = inr s) ->
  exists W, handleFileUpload w = (Ok true, W) /\
    uploaded c u f (req_body [] (set_draws (S (w_draws w1)) w1)) uid W.
Proof.
  intros Hv Hc Hcc Hct Hne Hre Ho Hn Hf Hst Hj. unfold handleFileUpload.
  rewrite (needLogin_ok _ _ _ _ _ Hv). cbv beta.
  pose proof (validateSession_live _ _ _ _ _ Hv) as Em.
  apply validateSession_frame in Hv as (d & sql & res & ->).
  set (w1 := set_db d _ res w) in *.
  rewrite get_bind. replace (w_ctx w1) with (Some c) by done. cbv iota.
  assert (getUpload w1 = (Ok None, w1)) as Hg.
  { unfold getUpload. rewrite get_bind. replace (w_ctx w1) with (Some c) by done. cbv iota.
    by rewrite Hcc. }
  rewrite (bind_ok _ _ _ _ _ Hg). cbv iota.
  set (w2 := req_body [] (set_draws (S (w_draws w1)) w1)).
  erewrite (bind_ok _ _ _ false (put c u f w2)); cycle 1.
  { rewrite (bind_ok _ _ _ _ _ (reqHeader_ok _ w1)). replace (w_req w1) with (w_req w) by done.
    rewrite Hct, bool_decide_false, Hre by done. by apply (beginUpload_ok _ original). }
  cbv iota. rewrite (bind_ok _ _ _ _ _ (setReqBody_put [] c u f w2)).
  rewrite (bind_ok _ _ _ _ _ (theUpload_put c u f _)).
  rewrite Hst, bool_decide_true by done. cbn [orb].
  by apply finishUpload_ok.
Qed.

End uploading.
