(* ===== verification/UploadMessages.v ===== *)
(** * A whole upload, message by message

    [post_parts] runs the upload handler on the messages the connection
    delivers for one upload; each finds the context the previous one left in
    the connection. *)

From S2P Require Import Prelude CxxString OrdMap Regex HttpRequest HttpContext HttpResponse World.
From S2P Require Import Session Accounts Upload Download Files Share Routes Handlers Access.
From S2P Require Import Uploading.

(** The characters [.] matches. *)
Definition no_newline (s : bytes) : Prop := Forall (fun c => in_set c Dot = true) s.

(** The boundary of a multipart content type. *)
Lemma boundary_captured b :
  b <> [] -> no_newline b ->
  regex_search boundaryRegex ($"multipart/form-data; boundary=" ++ b) = Some [b].
Proof.
  intros Hne Hb. unfold regex_search.
  change ($"multipart/form-data; boundary=" ++ b)
    with ($"multipart/form-data; " ++ ($"boundary=" ++ b)).
  set (n := length _). clearbody n.
  assert (search_at n boundaryRegex ($"boundary=" ++ b) = Some [b]) as Hs.
  { apply search_at_here with (rest := []).
    replace boundaryRegex with (lits ($"boundary=") ++ [IOpen; IRep true Dot; IClose; IEnd]) by done.
    rewrite mtch_lits, (proj2 (prefixb_spec _ _)) by (by eexists). rewrite drop_app_length.
    destruct b as [|c b]; [done|]. apply Forall_cons in Hb as [Hc Hb].
    cbn [mtch]. rewrite Hc. rewrite rep_end by (done || (by eexists)).
    cbn [mtch app]. do 3 f_equal. cbn [length]. rewrite Nat.sub_0_r. apply (firstn_all (c :: b)). }
  rewrite <- Hs. set (t := $"boundary=" ++ b).
  assert (exists d l, t = d :: l /\ d = "b"%char) as (d & l & -> & ->) by (by do 2 eexists).
  reflexivity.
Qed.

Section messages.
Context `{Platform}.
Implicit Types (w : World) (u : UploadContext) (f body : bytes) (c : HttpContext.t custom).

(** Each message replaces the request's body and runs the handler. *)
Fixpoint post_parts (bodies : list bytes) : M (list bool) :=
  match bodies with
  | [] => mret []
  | b :: bodies' =>
      setReqBody b;;
      answered ← handleFileUpload;
      rest ← post_parts bodies';
      mret (answered :: rest)
  end.

(** Two states that differ in the request's body, the database connection and
    the random draws. *)
Definition alike w v : Prop :=
  exists body d sql res n, v = set_draws n (set_db d (w_sql w ++ sql) res (req_body body w)).

Lemma alike_refl w : alike w w.
Proof.
  exists (HttpRequest.body_ (w_req w)), (w_db w), [], (w_result w), (w_draws w).
  rewrite app_nil_r. by destruct w as [[]].
Qed.

Lemma alike_trans w v x : alike w v -> alike v x -> alike w x.
Proof.
  intros (b & d & sql & res & n & ->) (b' & d' & sql' & res' & n' & ->).
  exists b', d', (sql ++ sql'), res', n'. cbn. by rewrite app_assoc.
Qed.

Lemma same_but_db_alike w v : same_but_db w v -> alike w v.
Proof.
  intros (d & sql & res & ->).
  exists (HttpRequest.body_ (w_req w)), d, sql, res, (w_draws w). by destruct w as [[]].
Qed.

Lemma alike_body b w : alike w (req_body b w).
Proof. exists b, (w_db w), [], (w_result w), (w_draws w). rewrite app_nil_r. by destruct w. Qed.

Lemma alike_draws n w : alike w (set_draws n w).
Proof.
  exists (HttpRequest.body_ (w_req w)), (w_db w), [], (w_result w), n.
  rewrite app_nil_r. by destruct w as [[]].
Qed.

Lemma put_same_but_db c u f w x :
  same_but_db (put c u f w) x -> exists w', x = put c u f w' /\ same_but_db w w'.
Proof.
  intros (d & sql & res & ->). exists (set_db d (w_sql w ++ sql) res w).
  split; [by destruct w|by do 3 eexists].
Qed.

(** ** A later message *)

Lemma later_message n sid uid c u f w u' f' :
  session_lasts (S n) sid uid (w_db w) -> w_mysql w = true ->
  HttpRequest.getHeader (w_req w) ($"X-Session-ID") = sid ->
  HttpRequest.body_ (w_req w) <> [] ->
  (forall v, same_but_db w v ->
     uploadChunk u (HttpRequest.body_ (w_req w)) (put c u f v) = (Ok tt, put c u' f' v)) ->
  HttpContext.gotAll c = false ->
  exists w1, same_but_db w w1 /\ w_mysql w1 = true /\ session_lasts n sid uid (w_db w1) /\
    handleFileUpload (put c u f w) =
      (if bool_decide (u_state u' = uComplete) then finishUpload uid else mret false)
        (put c u' f' (req_body [] w1)).
Proof.
  intros (name & db' & Hl & Hn) Em Hsid Hb Hch Hg. unfold handleFileUpload.
  destruct (Hl (put c u f w) Em eq_refl) as (x & E & Ed).
  assert (HttpRequest.getHeader (w_req (put c u f w)) ($"X-Session-ID") = sid) as Hsid' by done.
  rewrite <- Hsid' in E. rewrite (needLogin_ok _ _ _ _ _ E). cbv beta.
  apply validateSession_frame, put_same_but_db in E as (w1 & -> & Hw1).
  exists w1. split; [done|]. pose proof Hw1 as (d & sql & res & Ew1).
  split; [by rewrite Ew1|]. split; [by rewrite <- Ed in Hn|]. rewrite get_bind.
  assert (w_ctx (put c u f w1) = Some (HttpContext.setContext c (Some (CUpload u)))) as -> by done.
  cbv iota. rewrite (bind_ok getUpload _ (put c u f w1) (Some u) (put c u f w1)) by done. cbv iota.
  assert (continueUpload u (put c u f w1) = (Ok false, put c u' f' w1)) as Ec.
  { unfold continueUpload. apply try_ok. rewrite get_bind. cbv zeta.
    assert (HttpRequest.body_ (w_req (put c u f w1)) = HttpRequest.body_ (w_req w)) as ->
      by (by rewrite Ew1).
    rewrite bool_decide_false by done. by rewrite (bind_ok _ _ _ _ _ (Hch w1 Hw1)). }
  rewrite (bind_ok _ _ _ _ _ Ec). cbv iota.
  rewrite (bind_ok _ _ _ _ _ (setReqBody_put [] c u' f' w1)).
  rewrite (bind_ok _ _ _ _ _ (theUpload_put c u' f' _)).
  replace (HttpContext.gotAll (HttpContext.setContext c (Some (CUpload u)))) with false by (by rewrite <- Hg).
  rewrite orb_false_r. done.
Qed.

(** ** The first message *)

Lemma first_message n sid uid c w b original u f :
  session_lasts (S n) sid uid (w_db w) -> w_mysql w = true ->
  HttpRequest.getHeader (w_req w) ($"X-Session-ID") = sid ->
  w_ctx w = Some c -> HttpContext.customContext_ c = None ->
  b <> [] -> no_newline b ->
  HttpRequest.getHeader (w_req w) ($"Content-Type") = $"multipart/form-data; boundary=" ++ b ->
  open_out_ok (upload_file w) = true ->
  (forall v, alike w v -> uploadFilename v = (Ok (inr original), v)) ->
  (forall v, same_but_db w v ->
     firstChunk ($"--" ++ b) (HttpRequest.body_ (w_req w)) (opened original ($"--" ++ b) c v) =
     (Ok tt, put c u f (set_draws (S (w_draws w)) v))) ->
  exists w1, alike w w1 /\ w_mysql w1 = true /\ session_lasts n sid uid (w_db w1) /\
    handleFileUpload w =
      (if bool_decide (u_state u = uComplete) || HttpContext.gotAll c then finishUpload uid else mret false)
        (put c u f (req_body [] w1)).
Proof.
  intros (name & db' & Hl & Hlast) Em Hsid Hc Hcc Hbne Hb Hct Ho Hn Hf. unfold handleFileUpload.
  destruct (Hl w Em eq_refl) as (x & E & Ed). rewrite <- Hsid in E.
  rewrite (needLogin_ok _ _ _ _ _ E). cbv beta.
  apply validateSession_frame in E. pose proof E as (d & sql & res & Ex).
  exists (set_draws (S (w_draws w)) x). split; [|split; [|split]].
  { eapply alike_trans; [by apply same_but_db_alike|]. apply alike_draws. }
  { by rewrite Ex. }
  { by rewrite <- Ed in Hlast. }
  assert (w_ctx x = Some c) as Hcx by (by rewrite Ex).
  rewrite get_bind, Hcx. cbv iota.
  rewrite (bind_ok getUpload _ x None x) by (unfold getUpload; by rewrite get_bind, Hcx, Hcc). cbv iota.
  rewrite (bind_ok _ _ x false (put c u f (req_body [] (set_draws (S (w_draws x)) x)))); cycle 1.
  { rewrite (bind_ok _ _ _ _ _ (reqHeader_ok _ x)).
    replace (w_req x) with (w_req w) by (by rewrite Ex).
    rewrite Hct, bool_decide_false, boundary_captured by done.
    apply (beginUpload_ok _ original); [done|by rewrite Ex| |].
    - apply Hn. by apply same_but_db_alike.
    - replace (w_req x) with (w_req w) by (by rewrite Ex).
      replace (w_draws x) with (w_draws w) by (by rewrite Ex). by apply Hf. }
  cbv iota. rewrite (bind_ok _ _ _ _ _ (setReqBody_put [] c u f _)).
  rewrite (bind_ok _ _ _ _ _ (theUpload_put c u f _)).
  replace (w_draws x) with (w_draws w) by (by rewrite Ex). done.
Qed.

(** ** All of them *)

(** A message with the middle of the file, and the one with its end. *)
Definition data_part (boundary : bytes) (b : bytes) : Prop := b <> [] /\ find boundary b 0 = None.
Definition end_part (boundary d tail : bytes) : bytes := d ++ (boundary ++ $"--") ++ tail.

Lemma alike_keeps w v : alike w v ->
  w_mysql v = w_mysql w /\ w_ctx v = w_ctx w /\ w_fs v = w_fs w /\
  (forall h, HttpRequest.getHeader (w_req v) h = HttpRequest.getHeader (w_req w) h).
Proof. by intros (b & d & sql & res & n & ->). Qed.

Lemma later_messages sid uid c dn tail mids : forall u f w,
  session_lasts (S (length mids)) sid uid (w_db w) -> w_mysql w = true ->
  HttpRequest.getHeader (w_req w) ($"X-Session-ID") = sid -> HttpContext.gotAll c = false ->
  receiving u f -> (0 <= u_totalBytes u < 2 ^ 64)%Z -> u_state u = uExpectBoundary ->
  Forall (data_part (u_boundary u)) mids ->
  find (u_boundary u ++ $"--") (dn ++ u_boundary u ++ $"--") 0 = Some (length dn) ->
  (forall id v, u_originalFilename v = u_originalFilename u -> exists s, json_dump (upload_answer id v) = inr s) ->
  exists W v, post_parts (mids ++ [end_part (u_boundary u) dn tail]) (put c u f w) =
      (Ok (replicate (length mids) false ++ [true]), W) /\
    alike w v /\
    uploaded c (with_state (advance u (length (concat mids ++ dn))) uComplete)
      (f ++ concat mids ++ dn) v uid W.
Proof.
  induction mids as [|m mids IH]; intros u f w Hl Em Hsid Hg Hr Hb Hst Hm He Hj.
  - cbn [app post_parts concat length replicate].
    set (body := end_part _ _ _). rewrite (bind_ok _ _ _ _ _ (setReqBody_put body c u f w)).
    pose proof (find_first _ _ tail He) as He'.
    destruct (later_message 0 sid uid c u f (req_body body w)
                (with_state (advance u (length dn)) uComplete) (f ++ dn))
      as (w1 & Hw1 & Em1 & _ & E); try done.
    { cbn. unfold body, end_part. intros [_ [[_ ?]%app_eq_nil _]%app_eq_nil]%app_eq_nil. done. }
    { intros v _. rewrite (uploadChunk_last _ (length dn)); try done.
      cbn. unfold body, end_part. by rewrite take_app_length. }
    rewrite bool_decide_true in E by done. rewrite (bind_eq _ _ _ _ _ E).
    destruct (finishUpload_ok uid c (with_state (advance u (length dn)) uComplete) (f ++ dn)
                (req_body [] w1)) as (W & EW & HW); [done|intros id; by apply Hj|].
    rewrite (bind_ok _ _ _ _ _ EW). exists W, (req_body [] w1). split; [done|]. split; [|done].
    apply same_but_db_alike in Hw1.
    eapply alike_trans; [apply alike_body|]. eapply alike_trans; [exact Hw1|]. apply alike_body.
  - apply Forall_cons in Hm as [[Hne Hf] Hm]. cbn [app post_parts length replicate concat].
    rewrite (bind_ok _ _ _ _ _ (setReqBody_put m c u f w)).
    destruct (later_message (S (length mids)) sid uid c u f (req_body m w) (advance u (length m)) (f ++ m))
      as (w1 & Hw1 & Em1 & Hl1 & E); try done.
    { intros v _. apply uploadChunk_data; [done|by left|done]. }
    rewrite bool_decide_false in E by (cbn; by rewrite Hst).
    assert (alike w (req_body [] w1)) as Ha.
    { apply same_but_db_alike in Hw1.
      eapply alike_trans; [apply alike_body|]. eapply alike_trans; [exact Hw1|]. apply alike_body. }
    destruct (alike_keeps _ _ Ha) as (_ & _ & _ & Hh).
    destruct (IH (advance u (length m)) (f ++ m) (req_body [] w1)) as (W & v & EW & Hv & HW); try done.
    { by rewrite Hh. }
    { by apply receiving_advance. }
    { apply wrap_bound. lia. }
    rewrite (bind_eq _ _ _ _ _ E). rewrite (bind_ok (mret false) _ _ false _ eq_refl).
    rewrite (bind_ok _ _ _ _ _ EW). exists W, v. split; [done|]. split; [by eapply alike_trans|].
    rewrite advance_advance in HW by lia. rewrite <- !app_assoc.
    rewrite (length_app m). by rewrite <- app_assoc in HW.
Qed.

(** The first message of a form: the header of the part, and the beginning of
    the file. *)
Definition part_header (head : bytes) : Prop :=
  find blank_line (head ++ blank_line) 0 = Some (length head).
Definition first_part (head d : bytes) : bytes := head ++ blank_line ++ d.

(** The request and the connection an upload starts from. *)
Record upload_request w c (sid b original : bytes) : Prop := {
  ur_mysql : w_mysql w = true;
  ur_sid : HttpRequest.getHeader (w_req w) ($"X-Session-ID") = sid;
  ur_type : HttpRequest.getHeader (w_req w) ($"Content-Type") =
    $"multipart/form-data; boundary=" ++ b;
  ur_name : exists h, HttpRequest.getHeader (w_req w) ($"X-File-Name") = h /\ h <> [] /\
    urlDecode h = Some original;
  ur_boundary : b <> [] /\ no_newline b;
  ur_ctx : w_ctx w = Some c;
  ur_fresh : HttpContext.customContext_ c = None;
  ur_open : open_out_ok (upload_file w) = true;
  ur_room : forall n, write_ok (upload_file w) n = true
}.

Lemma upload_request_body w c sid b original body :
  upload_request w c sid b original -> upload_request (req_body body w) c sid b original.
Proof. by intros []. Qed.

(** The upload a form of [n] bytes of file content ends with. *)
Definition complete_upload w (original b : bytes) (n : nat) : UploadContext :=
  with_state (advance (new_upload (upload_file w) original ($"--" ++ b)) n) uComplete.

Lemma new_receiving path original b :
  (forall n, write_ok path n = true) -> receiving (new_upload path original b) [].
Proof. by split. Qed.

Lemma upload_messages sid uid w c b original head d0 mids dn tail :
  let boundary := $"--" ++ b in
  session_lasts (2 + length mids) sid uid (w_db w) ->
  upload_request w c sid b original -> HttpContext.gotAll c = false ->
  part_header head -> find (boundary ++ $"--") (first_part head d0) 0 = None ->
  Forall (data_part boundary) mids ->
  find (boundary ++ $"--") (dn ++ boundary ++ $"--") 0 = Some (length dn) ->
  (forall id v, u_originalFilename v = original -> exists s, json_dump (upload_answer id v) = inr s) ->
  let content := d0 ++ concat mids ++ dn in
  exists W v, post_parts (first_part head d0 :: mids ++ [end_part boundary dn tail]) w =
      (Ok (false :: replicate (length mids) false ++ [true]), W) /\
    alike w v /\
    uploaded c (complete_upload w original b (length content)) content v uid W.
Proof.
  intros boundary Hl Hu Hg Hh Hf0 Hm He Hj content.
  set (body := first_part head d0) in *. cbn [post_parts].
  rewrite (bind_ok (setReqBody body) _ w tt (req_body body w)) by done.
  pose proof (upload_request_body _ _ _ _ _ body Hu) as Hu'. destruct Hu' as [].
  set (u0 := new_upload (upload_file w) original boundary).
  set (u1 := with_state (advance u0 (length d0)) uExpectBoundary).
  destruct ur_name0 as (h & Hh1 & Hh2 & Hh3). destruct ur_boundary0 as [Hb1 Hb2].
  destruct (first_message (S (length mids)) sid uid c (req_body body w) b original u1 d0)
    as (w1 & Hw1 & Em1 & Hl1 & E); try done.
  { intros v (_ & _ & _ & Hv)%alike_keeps. apply (uploadFilename_header _ h); [by rewrite Hv|done|done]. }
  { intros v (d & sql & res & ->). unfold opened.
    assert (length body - (length head + 4) = length d0) as El
      by (unfold body, first_part; rewrite !length_app; simpl; lia).
    assert (drop (length head + 4) body = d0) as Ed.
    { unfold body, first_part. rewrite app_assoc.
      replace (length head + 4) with (length (head ++ blank_line)) by (rewrite length_app; done).
      apply drop_app_length. }
    rewrite (firstChunk_open _ _ c _ [] _ (length head)); [| |done| |done].
    - change (HttpRequest.body_ (w_req (req_body body w))) with body. rewrite El, Ed. done.
    - by apply new_receiving.
    - by apply find_first. }
  rewrite bool_decide_false, Hg in E by done. cbn [orb] in E. rewrite (bind_eq _ _ _ _ _ E).
  rewrite (bind_ok (mret false) _ _ false _ eq_refl).
  assert (alike w (req_body [] w1)) as Ha.
  { eapply alike_trans; [apply alike_body|]. eapply alike_trans; [exact Hw1|]. apply alike_body. }
  destruct (alike_keeps _ _ Ha) as (_ & _ & _ & Hhd).
  destruct (later_messages sid uid c dn tail mids u1 d0 (req_body [] w1)) as (W & v & EW & Hv & HW); try done.
  { by rewrite Hhd. }
  { apply wrap_bound. lia. }
  change (u_boundary u1) with boundary in EW. rewrite (bind_ok _ _ _ _ _ EW).
  exists W, v. split; [done|]. split; [by eapply alike_trans|].
  unfold complete_upload. fold boundary u0.
  replace (advance u0 (length content)) with (advance (advance u0 (length d0)) (length (concat mids ++ dn)))
    by (rewrite advance_advance by (cbn; lia); unfold content; by rewrite (length_app d0)).
  exact HW.
Qed.

(** A form in one message: the part is stored up to the closing boundary. *)
Lemma upload_one_message sid uid w c b original head data tail :
  let boundary := $"--" ++ b in
  session_lasts 1 sid uid (w_db w) -> upload_request w c sid b original ->
  part_header head ->
  find (boundary ++ $"--") (first_part head data ++ boundary ++ $"--") 0 =
    Some (length (first_part head data)) ->
  (Z.of_nat (length (end_part boundary (first_part head data) tail)) < 2 ^ 64)%Z ->
  (forall id v, u_originalFilename v = original -> exists s, json_dump (upload_answer id v) = inr s) ->
  exists W v, post_parts [end_part boundary (first_part head data) tail] w = (Ok [true], W) /\
    alike w v /\ uploaded c (complete_upload w original b (length data)) data v uid W.
Proof.
  intros boundary Hl Hu Hh He Hlen Hj. set (body := end_part _ _ _) in *. cbn [post_parts].
  rewrite (bind_ok (setReqBody body) _ w tt (req_body body w)) by done.
  pose proof (upload_request_body _ _ _ _ _ body Hu) as Hu'. destruct Hu' as [].
  destruct ur_name0 as (h & Hh1 & Hh2 & Hh3). destruct ur_boundary0 as [Hb1 Hb2].
  set (u1 := complete_upload w original b (length data)).
  destruct (first_message 0 sid uid c (req_body body w) b original u1 data) as (w1 & Hw1 & Em1 & _ & E); try done.
  { intros v (_ & _ & _ & Hv)%alike_keeps. apply (uploadFilename_header _ h); [by rewrite Hv|done|done]. }
  { intros v (d & sql & res & ->). unfold opened.
    assert (length (first_part head data) = length head + 4 + length data) as El
      by (unfold first_part; rewrite !length_app; simpl; lia).
    assert (take (length data) (drop (length head + 4) body) = data) as Ed.
    { unfold body, end_part, first_part. rewrite <- !app_assoc, app_assoc.
      replace (length head + 4) with (length (head ++ blank_line)) by (rewrite length_app; done).
      by rewrite drop_app_length, take_app_length. }
    change (HttpRequest.body_ (w_req (req_body body w))) with body.
    rewrite (firstChunk_complete _ _ c _ [] _ (length head) (length (first_part head data)));
      [| |done| | | |lia].
    - rewrite El. replace (length head + 4 + length data - (length head + 4)) with (length data) by lia.
      by rewrite Ed.
    - by apply new_receiving.
    - lia.
    - unfold body, end_part, first_part. rewrite <- !app_assoc. by apply find_first.
    - unfold body, end_part. by apply find_first. }
  rewrite bool_decide_true in E by done. cbn [orb] in E. rewrite (bind_eq _ _ _ _ _ E).
  destruct (finishUpload_ok uid c u1 data (req_body [] w1)) as (W & EW & HW); [done|intros id; by apply Hj|].
  rewrite (bind_ok _ _ _ _ _ EW). exists W, (req_body [] w1). split; [done|]. split; [|done].
  eapply alike_trans; [apply alike_body|]. eapply alike_trans; [exact Hw1|]. apply alike_body.
Qed.

End messages.
