(* ===== verification/Serving.v ===== *)
(** * What the handlers do to the stored files, and the codes they issue

    Which handlers may change the files and the name mapping, whose files
    [handleDelete] removes, and the shape of session ids and share codes. *)

From S2P Require Import Prelude CxxString OrdMap Regex HttpRequest HttpContext HttpResponse World.
From S2P Require Import Session Accounts Upload Download Files Share Routes Handlers Access.

Section serving.
Context `{Platform}.

(** ** Handlers that do not touch the files *)

Definition reads_only (h : RequestHandler) : bool :=
  match h with HFileUpload | HDelete => false | _ => true end.

Section download_frame.
Context (P : World -> Prop) `{!stable P}.
Context (P_down : forall d n w, P w -> P (set_down d n w)).
Context (P_ctx : forall c w, P w -> P (set_ctx c w)).
Context (P_wcc : forall c w, P w -> P (set_wcc c w)).

Lemma keeps_set_down (f : World -> gmap nat DownContext) (g : World -> nat) :
  keeps P (modify (fun w => set_down (f w) (g w) w)).
Proof. apply keeps_modify. auto. Qed.
Lemma keeps_setCustom x : keeps P (setCustom x).
Proof. apply keeps_modify. auto. Qed.
Lemma keeps_setWcc cb : keeps P (setWriteCompleteCallback cb).
Proof. apply keeps_modify. auto. Qed.
Lemma keeps_getDown : keeps P getDown.
Proof. unfold getDown. keeps. Qed.
Hint Resolve keeps_setCustom keeps_setWcc keeps_getDown : keeps.
Hint Extern 1 (keeps _ (modify (fun w => set_down _ _ _))) => apply keeps_set_down : keeps.

Lemma keeps_makeDown f o : keeps P (makeDown f o).
Proof.
  unfold makeDown. apply keeps_bind; [keeps|]. intros w.
  destruct (w_fs w !! f); [|keeps]. destruct (open_in_ok f); [|keeps].
  apply keeps_bind; [apply keeps_modify; auto|intros ?; keeps].
Qed.
Hint Resolve keeps_makeDown : keeps.
Lemma keeps_startDownload f o n p : keeps P (startDownload f o n p).
Proof. unfold startDownload. keeps. Qed.
Hint Resolve keeps_startDownload : keeps.
Lemma keeps_sendFileInfo n : keeps P (sendFileInfo n).
Proof. unfold sendFileInfo. keeps. Qed.
Hint Resolve keeps_sendFileInfo : keeps.
Lemma keeps_serveFile f o : keeps P (serveFile f o).
Proof. unfold serveFile. keeps. Qed.
Hint Resolve keeps_serveFile : keeps.
Lemma keeps_downloadRow a u s e r : keeps P (downloadRow a u s e r).
Proof. unfold downloadRow. keeps. Qed.
Lemma keeps_shareDownloadRow a u e r : keeps P (shareDownloadRow a u e r).
Proof. unfold shareDownloadRow, serveShareFile. keeps. Qed.
Hint Resolve keeps_downloadRow keeps_shareDownloadRow : keeps.
Lemma keeps_handleDownload : keeps P handleDownload.
Proof. unfold handleDownload, downloadUser. keeps. Qed.
Lemma keeps_handleShareDownload : keeps P handleShareDownload.
Proof. unfold handleShareDownload. keeps. Qed.
Hint Resolve keeps_handleDownload keeps_handleShareDownload : keeps.

Lemma keeps_reads_only h : reads_only h = true -> keeps P (run_handler h).
Proof. destruct h; cbn [run_handler reads_only]; intros Hr; try discriminate Hr; keeps. Qed.
End download_frame.

(** The files and the mapping are as in [w0]. *)
Definition same_files (w0 w : World) : Prop := w_fs w = w_fs w0 /\ w_mapping w = w_mapping w0.

#[export] Instance same_files_stable w0 : stable (same_files w0).
Proof. by split. Qed.

Lemma reads_only_same_files h w :
  reads_only h = true -> same_files w (run_handler h w).2.
Proof. intros Hr. by apply (keeps_reads_only (same_files w)). Qed.

(** ** Deleting *)

Lemma delete_bind {A B} (w0 : World) (m : M A) (f : A -> M B) w :
  same_files w0 w -> keeps (same_files w0) m -> ~ same_files w0 ((m ≫= f) w).2 ->
  exists a w1, m w = (Ok a, w1) /\ same_files w0 w1 /\ ~ same_files w0 (f a w1).2.
Proof.
  intros Hw Hm. specialize (Hm w Hw). unfold mbind, M_bind.
  destruct (m w) as [[a|e|] w1]; simpl in *; intros Hn; [eauto|by destruct Hn..].
Qed.

Lemma keeps_use {A} (P : World -> Prop) (m : M A) w : keeps P m -> P w -> P (m w).2.
Proof. intros Hk. apply Hk. Qed.

Ltac changes_nothing Hn :=
  exfalso; apply Hn;
  match goal with |- same_files ?w _ => apply (keeps_use (same_files w)); [keeps|assumption] end.

(** [handleDelete] changes no file and no mapping unless the session names a
    user who, by the database, owns the file named in the path. *)
Lemma handleDelete_owner w :
  ~ same_files w (handleDelete w).2 ->
  exists uid name w1 r,
    validateSession (HttpRequest.getHeader (w_req w) ($"X-Session-ID")) w = (Ok (Some (uid, name)), w1) /\
    first_row (answer (own_file_select (escaped w1 (HttpRequest.getPathParam (w_req w) ($"filename")))
                         uid) w1) = Some r.
Proof.
  intros Hn. unfold handleDelete, needLogin in Hn.
  apply (delete_bind w) in Hn as (sid & w0 & E & Hs & Hn); [|done|keeps].
  rewrite reqHeader_ok in E. injection E as <- <-.
  apply (delete_bind w) in Hn as (user & w1 & E & Hs1 & Hn); [|done|keeps].
  pose proof (validateSession_frame _ _ _ _ E) as (d & sql & res & Hw1).
  destruct user as [[uid name]|]; [|changes_nothing Hn].
  apply (delete_bind w) in Hn as (filename & w2 & E2 & Hs2 & Hn); [|done|keeps].
  injection E2 as <- <-. replace (w_req w1) with (w_req w) in Hn by (by rewrite Hw1).
  case_bool_decide; [changes_nothing Hn|].
  apply (delete_bind w) in Hn as (f & w2 & E2 & Hs3 & Hn); [|done|keeps].
  rewrite escapeString_ok in E2. injection E2 as <- <-.
  apply (delete_bind w) in Hn as (rows & w2 & E2 & Hs4 & Hn); [|done|keeps].
  rewrite executeQueryWithResult_ok in E2. injection E2 as <- <-.
  destruct (first_row _) as [r|] eqn:Er; [|changes_nothing Hn].
  exists uid, name, w1. by exists r.
Qed.

End serving.

(** * Routing, specified

    [route_spec] says in plain terms which handler a request reaches, and
    [findRoute_spec] that the regular expressions of the route table implement
    it. *)

(** The rest of a path after a prefix, when it is one non-empty segment. *)
Definition segment_after (prefix path : bytes) : option bytes :=
  let rest := drop (length prefix) path in
  if prefixb prefix path && bool_decide (rest <> []) && bool_decide ("/"%char ∉ rest)
  then Some rest else None.

Definition with_param (h : RequestHandler) (name : bytes) (r : option bytes)
    (k : option (RequestHandler * gmap bytes bytes)) : option (RequestHandler * gmap bytes bytes) :=
  match r with Some v => Some (h, {[ name := v ]}) | None => k end.

Definition exact (path p : bytes) (h : RequestHandler) (k : option (RequestHandler * gmap bytes bytes)) :
    option (RequestHandler * gmap bytes bytes) :=
  if bool_decide (path = p) then Some (h, ∅) else k.

Definition route_spec (m : Method) (path : bytes) : option (RequestHandler * gmap bytes bytes) :=
  match m with
  | kGet =>
      exact path ($"/favicon.ico") HFavicon (exact path ($"/") HIndex
      (exact path ($"/index.html") HIndex (exact path ($"/register.html") HIndex
      (with_param HShareAccess ($"code") (segment_after ($"/share/") path)
      (with_param HShareDownload ($"filename") (segment_after ($"/share/download/") path)
      (with_param HShareInfo ($"code") (segment_after ($"/share/info/") path)
      (exact path ($"/files") HListFiles
      (with_param HDownload ($"filename") (segment_after ($"/download/") path)
      (exact path ($"/users/search") HSearchUsers None)))))))))
  | kPost =>
      exact path ($"/register") HRegister (exact path ($"/login") HLogin
      (exact path ($"/upload") HFileUpload (exact path ($"/share") HShareFile
      (exact path ($"/logout") HLogout None))))
  | kHead => with_param HDownload ($"filename") (segment_after ($"/download/") path) None
  | kDelete => with_param HDelete ($"filename") (segment_after ($"/delete/") path) None
  | _ => None
  end.

(** ** The compiled patterns *)

Definition exact_items (p : bytes) : list item := IBegin :: lits p ++ [IEnd].
Definition param_items (p : bytes) : list item := lits p ++ [IOpen; IRep true (NoneOf ($"/")); IClose].

Definition rt_exact p m h : RoutePattern := Build_RoutePattern (exact_items p) [] h m.
Definition rt_param p m h ps : RoutePattern := Build_RoutePattern (param_items p) ps h m.

Lemma initRoutes_items : initRoutes =
  [ rt_exact ($"/favicon.ico") kGet HFavicon; rt_exact ($"/register") kPost HRegister;
    rt_exact ($"/login") kPost HLogin; rt_exact ($"/") kGet HIndex;
    rt_exact ($"/index.html") kGet HIndex; rt_exact ($"/register.html") kGet HIndex;
    rt_param ($"/share/") kGet HShareAccess [$"code"];
    rt_param ($"/share/download/") kGet HShareDownload [$"filename"];
    rt_param ($"/share/info/") kGet HShareInfo [$"code"];
    rt_exact ($"/upload") kPost HFileUpload; rt_exact ($"/files") kGet HListFiles;
    rt_param ($"/download/") kHead HDownload [$"filename"];
    rt_param ($"/download/") kGet HDownload [$"filename"];
    rt_param ($"/delete/") kDelete HDelete [$"filename"];
    rt_exact ($"/share") kPost HShareFile; rt_exact ($"/users/search") kGet HSearchUsers;
    rt_exact ($"/logout") kPost HLogout ].
Proof. vm_compute. reflexivity. Qed.

Lemma findRoute_skip r rs m path :
  r_method r <> m -> findRoute (r :: rs) m path = findRoute rs m path.
Proof. intros. cbn [findRoute]. by rewrite bool_decide_true. Qed.

Lemma findRoute_exact p m h rs path :
  findRoute (rt_exact p m h :: rs) m path = exact path p h (findRoute rs m path).
Proof.
  cbn [findRoute rt_exact r_method r_pattern r_params r_handler].
  rewrite bool_decide_false by naive_solver.
  unfold exact_items, exact. rewrite regex_match_literal. by case_bool_decide.
Qed.

Lemma not_slash_forall s :
  Forall (fun c => in_set c (NoneOf ($"/")) = true) s <-> "/"%char ∉ s.
Proof.
  rewrite Forall_forall. cbn [in_set]. split.
  - intros H Hin. by specialize (H _ Hin).
  - intros H x Hx. apply negb_true_iff, bool_decide_eq_false. intros ->%list_elem_of_singleton.
    done.
Qed.

Lemma findRoute_param p m h name rs path :
  findRoute (rt_param p m h [name] :: rs) m path =
  with_param h name (segment_after p path) (findRoute rs m path).
Proof.
  cbn [findRoute rt_param r_method r_pattern r_params r_handler].
  rewrite bool_decide_false by naive_solver.
  unfold param_items, segment_after. rewrite regex_match_param.
  rewrite (bool_decide_ext (Forall _ (drop (length p) path)) _ (not_slash_forall _)).
  by destruct (prefixb p path && _ && _).
Qed.

Lemma findRoute_initRoutes m path : findRoute initRoutes m path = route_spec m path.
Proof.
  rewrite initRoutes_items.
  destruct m; repeat first [ rewrite findRoute_skip by done | rewrite findRoute_exact
                           | rewrite findRoute_param ]; reflexivity.
Qed.

(** Every path parameter is one segment, without a slash.  [..] is one too. *)
Lemma segment_after_safe p path v : segment_after p path = Some v -> v <> [] /\ "/"%char ∉ v.
Proof.
  unfold segment_after. destruct (prefixb p path); [|done]. repeat case_bool_decide; naive_solver.
Qed.

Lemma with_param_safe (h : RequestHandler) (name : bytes) (r : option bytes) (k : option (RequestHandler * gmap bytes bytes)) (h' : RequestHandler) (ps : gmap bytes bytes) (n v : bytes) :
  with_param h name r k = Some (h', ps) -> ps !! n = Some v ->
  (forall x, r = Some x -> x <> [] /\ "/"%char ∉ x) ->
  (k = Some (h', ps) -> v <> [] /\ "/"%char ∉ v) -> v <> [] /\ "/"%char ∉ v.
Proof.
  intros E Hl Hr Hk. destruct r as [x|]; simpl in E; [|by apply Hk].
  simplify_eq. apply lookup_singleton_Some in Hl as [_ <-]. by apply Hr.
Qed.

Lemma exact_safe (path p : bytes) (h : RequestHandler) (k : option (RequestHandler * gmap bytes bytes)) (h' : RequestHandler) (ps : gmap bytes bytes) (n v : bytes) :
  exact path p h k = Some (h', ps) -> ps !! n = Some v ->
  (k = Some (h', ps) -> v <> [] /\ "/"%char ∉ v) -> v <> [] /\ "/"%char ∉ v.
Proof. unfold exact. case_bool_decide; naive_solver. Qed.

Lemma route_spec_safe (m : Method) (path : bytes) (h : RequestHandler) (ps : gmap bytes bytes) (n v : bytes) :
  route_spec m path = Some (h, ps) -> ps !! n = Some v -> v <> [] /\ "/"%char ∉ v.
Proof.
  intros E Hl. destruct m; cbn [route_spec] in E; try done;
    repeat first [ done
                 | eapply exact_safe; [exact E|exact Hl|]; clear E; intros E
                 | eapply with_param_safe; [exact E|exact Hl| |];
                     [by intros x; apply segment_after_safe|]; clear E; intros E ].
Qed.
