(* ===== verification/FileMapping.v ===== *)
(** * The persistent file name mapping, and what a deletion leaves behind *)

From S2P Require Import Prelude CxxString OrdMap Regex HttpRequest HttpContext HttpResponse World.
From S2P Require Import Session Accounts Upload Download Files Share Routes Handlers Access.

Section mapping.
Context `{Platform}.
Implicit Types (w : World) (m : list (bytes * bytes)).

(** ** Loading *)

Definition merge (m l : list (bytes * bytes)) : list (bytes * bytes) :=
  foldl (fun m kv => OrdMap.insert kv.1 kv.2 m) m l.

Lemma merge_sorted l m : OrdMap.sorted m -> OrdMap.sorted (merge m l).
Proof.
  revert m. induction l as [|[k v] l IH]; intros m Hm; [done|]. apply IH. by apply OrdMap.insert_sorted.
Qed.

Lemma sorted_NoDup (m : list (bytes * bytes)) : OrdMap.sorted m -> NoDup m.*1.
Proof.
  unfold OrdMap.sorted. induction 1 as [|k l Hs IH Hk]; constructor; [|done].
  intros Hin. rewrite Forall_forall in Hk. specialize (Hk _ Hin).
  unfold bytes_lt in Hk. by rewrite bytes_ltb_irrefl in Hk.
Qed.

Lemma merge_lookup l m k :
  NoDup l.*1 ->
  OrdMap.lookup (merge m l) k =
  match OrdMap.lookup l k with Some v => Some v | None => OrdMap.lookup m k end.
Proof.
  revert m. induction l as [|[k' v'] l IH]; intros m Hd; [done|].
  apply NoDup_cons in Hd as [Hn Hd]. cbn [merge foldl]. fold (merge (OrdMap.insert k' v' m) l).
  rewrite IH by done. simpl. destruct (decide (k = k')) as [->|Hk].
  - rewrite OrdMap.lookup_None_keys by done. rewrite OrdMap.lookup_insert_eq.
    by rewrite bool_decide_true.
  - rewrite OrdMap.lookup_insert_ne by done. by rewrite bool_decide_false.
Qed.

(** Loading never fails, and only changes the mapping. *)
Lemma load_ok w :
  OrdMap.sorted (w_mapping w) ->
  exists m, loadFilenameMappingInternal w = (Ok tt, set_mapping m w) /\ OrdMap.sorted m.
Proof.
  intros Hs. assert (set_mapping (w_mapping w) w = w) as Hid by (by destruct w).
  unfold loadFilenameMappingInternal, try_catch. rewrite get_bind.
  destruct (w_fs w !! mappingFile) as [s|]; [|by exists (w_mapping w); rewrite Hid].
  unfold mbind, M_bind, of_sum, throw, modify.
  destruct (json_parse _) as [e|d]; simpl; [by exists (w_mapping w); rewrite Hid|].
  destruct (doc_string_map d) as [e|l]; simpl; [by exists (w_mapping w); rewrite Hid|].
  exists (merge [] l). split; [done|]. apply merge_sorted. constructor.
Qed.

(** What a saved mapping reads back as. *)
Definition stored (fs : gmap bytes bytes) m : Prop :=
  exists s d, fs !! mappingFile = Some s /\ json_parse s = inr d /\ doc_string_map d = inr m.

Lemma load_stored w m :
  stored (w_fs w) m -> open_in_ok mappingFile = true ->
  loadFilenameMappingInternal w = (Ok tt, set_mapping (merge [] m) w).
Proof.
  intros (s & d & Hs & Hd & Hm) Ho. unfold loadFilenameMappingInternal, try_catch. rewrite get_bind.
  rewrite Hs, Ho. unfold mbind, M_bind, of_sum. rewrite Hd. simpl. rewrite Hm. done.
Qed.

(** ** Saving *)

(** The state with other files, and the open downloads that see them. *)
Definition filed (fs : gmap bytes bytes) (down : gmap nat DownContext) (w : World) : World :=
  set_fs fs (set_down down (w_next w) w).

(** Saving never fails, and touches no file but the mapping's. *)
Lemma save_ok w :
  exists fs down, saveFilenameMappingInternal w = (Ok tt, filed fs down w) /\
    (forall p, p <> mappingFile -> fs !! p = w_fs w !! p).
Proof.
  unfold saveFilenameMappingInternal, try_catch.
  set (w1 := if open_out_ok mappingFile then put_file mappingFile [] w else w).
  assert (((if open_out_ok mappingFile then modify (put_file mappingFile []) else mret tt) : M unit) w
          = (Ok tt, w1)) as E1 by (unfold w1; by destruct (open_out_ok _)).
  rewrite (bind_ok _ _ _ _ _ E1), get_bind.
  assert (exists fs down, w1 = filed fs down w /\ (forall p, p <> mappingFile -> fs !! p = w_fs w !! p))
    as (fs1 & down1 & Ew1 & Hfs1).
  { unfold w1. destruct (open_out_ok _).
    - do 2 eexists. split; [reflexivity|]. intros p Hp. by rewrite lookup_insert_ne.
    - exists (w_fs w), (w_down w). split; [by destruct w|done]. }
  destruct (json_dump2 _) as [e|s] eqn:Ed.
  { rewrite (bind_exn _ _ _ e w1) by done. exists fs1, down1. by rewrite <- Ew1. }
  rewrite (bind_ok _ _ _ _ _ (of_sum_ok _ _ w1 eq_refl)).
  destruct (_ && _).
  - exists (<[mappingFile := s]> (w_fs w1)), (written mappingFile s <$> w_down w1). split; [by rewrite Ew1|].
    intros p Hp. rewrite lookup_insert_ne by done. rewrite Ew1. simpl. by apply Hfs1.
  - exists fs1, down1. by rewrite <- Ew1.
Qed.

(** When the disk cooperates and the document can be read back, it is stored. *)
Lemma save_stored w s d :
  open_out_ok mappingFile = true -> (forall n, write_ok mappingFile n = true) ->
  json_dump2 (JObj (prod_map id JStr <$> w_mapping w)) = inr s ->
  json_parse s = inr d -> doc_string_map d = inr (w_mapping w) ->
  exists fs down, saveFilenameMappingInternal w = (Ok tt, filed fs down w) /\ stored fs (w_mapping w).
Proof.
  intros Ho Hw Hs Hd Hm. unfold saveFilenameMappingInternal, try_catch. rewrite Ho.
  erewrite bind_ok by reflexivity. rewrite get_bind.
  rewrite (bind_ok _ _ _ _ _ (of_sum_ok _ _ _ Hs)). rewrite Hw. cbn [andb].
  do 2 eexists. split; [reflexivity|]. exists s, d. cbn. by rewrite lookup_insert_eq.
Qed.

(** ** Adding a name and looking it up *)

(** The JSON library prints the mapping as a document that reads back. *)
Definition roundtrips m : Prop :=
  exists s d, json_dump2 (JObj (prod_map id JStr <$> m)) = inr s /\
    json_parse s = inr d /\ doc_string_map d = inr m.

Lemma add_then_get w k v :
  OrdMap.sorted (w_mapping w) ->
  open_out_ok mappingFile = true -> open_in_ok mappingFile = true ->
  (forall n, write_ok mappingFile n = true) ->
  (forall m, loadFilenameMappingInternal w = (Ok tt, set_mapping m w) ->
     roundtrips (OrdMap.insert k v m)) ->
  exists w', addFilenameMapping k v w = (Ok tt, w') /\
    (getOriginalFilename k w').1 = Ok v.
Proof.
  intros Hs Ho Hi Hw Hj. unfold addFilenameMapping.
  destruct (load_ok w Hs) as (m & El & Hm). rewrite (bind_ok _ _ _ _ _ El).
  set (m' := OrdMap.insert k v m).
  rewrite (bind_ok _ _ _ tt (set_mapping m' (set_mapping m w))) by done.
  destruct (Hj m El) as (s & d & E1 & E2 & E3).
  destruct (save_stored (set_mapping m' (set_mapping m w)) s d Ho Hw E1 E2 E3) as (fs & down & Es & Hst).
  rewrite Es. eexists. split; [reflexivity|]. unfold getOriginalFilename.
  rewrite (bind_ok _ _ _ _ _ (load_stored (filed fs down _) m' Hst Hi)), get_bind.
  cbn [w_mapping set_mapping filed set_fs].
  assert (NoDup m'.*1) as Hnd.
  { apply sorted_NoDup. by apply OrdMap.insert_sorted. }
  rewrite (merge_lookup m' [] k Hnd). unfold m' at 1. by rewrite OrdMap.lookup_insert_eq.
Qed.


(** ** Deleting a file *)

Lemma column_int_ok (r : row) k s z w :
  r !! k = Some (Some s) -> stoi s = inr z -> column_int r k w = (Ok z, w).
Proof. intros Hr Hz. unfold column_int, column_str, column, mbind, M_bind. rewrite Hr. simpl. by rewrite Hz. Qed.

Lemma column_str_ok (r : row) k s w : r !! k = Some (Some s) -> column_str r k w = (Ok s, w).
Proof. intros Hr. unfold column_str, column. by rewrite Hr. Qed.

Definition delete_answer : json := JObj [($"code", JInt 0); ($"message", JStr ($"success"))].

Lemma sendJson_ok j s w :
  json_dump j = inr s ->
  exists r, sendJson j w = (Ok true, set_wcc (Some CbShutdown) (set_resp r w)) /\
    HttpResponse.statusCode_ r = k200Ok /\ HttpResponse.body_ r = s.
Proof.
  intros E. unfold sendJson, okJson, setJsonBody. rewrite E. eexists. split; [reflexivity|]. by split.
Qed.

Lemma remove_ok path w :
  (w_fs w !! path <> None -> unlink_ok path = true) ->
  exists down, remove_from_disk path w = (Ok tt, filed (delete path (w_fs w)) down w).
Proof.
  intros Hu. unfold remove_from_disk. rewrite get_bind.
  destruct (w_fs w !! path) eqn:E.
  - rewrite Hu by done. by eexists.
  - exists (w_down w). rewrite delete_id by done. by destruct w.
Qed.

(** The state a deletion leaves. *)
Record deleted w1 (filename : bytes) (fileId : Z) body W : Prop := {
  del_gone : w_fs W !! (uploadDir ++ $"/" ++ filename) = None;
  del_others : forall p, p <> uploadDir ++ $"/" ++ filename -> p <> mappingFile ->
    w_fs W !! p = w_fs w1 !! p;
  del_mapping : OrdMap.lookup (w_mapping W) filename = None;
  del_sql : w_sql W = w_sql w1 ++ [delete_shares fileId; delete_file fileId];
  del_status : HttpResponse.statusCode_ (w_resp W) = k200Ok;
  del_body : HttpResponse.body_ (w_resp W) = body;
  del_wcc : w_wcc W = Some CbShutdown
}.

(** The end of [handleDelete], from the statement that deletes the record. *)
Definition delete_records (fileId : Z) : M bool :=
  executeQuery (delete_shares fileId);; executeQuery (delete_file fileId).
Definition delete_rest (filename : bytes) : M bool :=
  remove_from_disk (uploadDir ++ $"/" ++ filename);;
  loadFilenameMappingInternal;;
  modify (fun w => set_mapping (OrdMap.erase filename (w_mapping w)) w);;
  saveFilenameMappingInternal;;
  sendJson delete_answer.

Lemma delete_rest_ok w filename fileId body sql :
  uploadDir ++ $"/" ++ filename <> mappingFile -> OrdMap.sorted (w_mapping w) ->
  (forall p, w_fs w !! p <> None -> unlink_ok p = true) ->
  json_dump delete_answer = inr body -> w_sql w = sql ++ [delete_shares fileId; delete_file fileId] ->
  forall w1, w_fs w1 = w_fs w -> w_sql w1 = sql ->
  exists W, delete_rest filename w = (Ok true, W) /\ deleted w1 filename fileId body W.
Proof.
  intros Hne Hs Hu Hj Hsql w1 Hfs Hsql1. unfold delete_rest.
  set (path := uploadDir ++ $"/" ++ filename) in *.
  destruct (remove_ok path w (Hu path)) as [down2 Erm]. rewrite (bind_ok _ _ _ _ _ Erm).
  set (w2 := filed _ _ w). destruct (load_ok w2 Hs) as (m & El & Hm).
  rewrite (bind_ok _ _ _ _ _ El).
  set (m' := OrdMap.erase filename m).
  rewrite (bind_ok _ _ _ tt (set_mapping m' (set_mapping m w2))) by done.
  destruct (save_ok (set_mapping m' (set_mapping m w2))) as (fs & down & Es & Hsame).
  rewrite (bind_ok _ _ _ _ _ Es).
  destruct (sendJson_ok delete_answer body (filed fs down (set_mapping m' (set_mapping m w2))) Hj)
    as (r & Er & Hst & Hb).
  rewrite Er. eexists. split; [reflexivity|].
  split; cbn [w_fs w_mapping w_sql w_resp w_wcc set_wcc set_resp filed set_fs set_down set_mapping]; try done.
  - fold path. rewrite Hsame by done. unfold w2; simpl. by rewrite lookup_delete_eq.
  - intros p Hp Hp'. fold path in Hp. rewrite Hsame by done. unfold w2; simpl.
    by rewrite lookup_delete_ne, Hfs by done.
  - by apply OrdMap.lookup_erase_eq.
  - unfold w2; simpl. by rewrite Hsql, Hsql1.
Qed.

(** [handleDelete] for a user who owns the file. *)
Lemma handleDelete_ok w uid name w1 r s fileId filename body :
  validateSession (HttpRequest.getHeader (w_req w) ($"X-Session-ID")) w = (Ok (Some (uid, name)), w1) ->
  HttpRequest.getPathParam (w_req w) ($"filename") = filename -> filename <> [] ->
  first_row (answer (own_file_select (escaped w1 filename) uid) w1) = Some r ->
  r !! 0 = Some (Some s) -> stoi s = inr fileId ->
  let w2 := asked (own_file_select (escaped w1 filename) uid) w1 in
  (delete_records fileId w2).1 = Ok true ->
  uploadDir ++ $"/" ++ filename <> mappingFile -> OrdMap.sorted (w_mapping w) ->
  (forall p, w_fs w !! p <> None -> unlink_ok p = true) ->
  json_dump delete_answer = inr body ->
  exists W, handleDelete w = (Ok true, W) /\ deleted w2 filename fileId body W.
Proof.
  intros Hv Hf Hne Hr Hr0 Hs w2 Hdel Hmap Hso Hu Hj. unfold handleDelete.
  rewrite (needLogin_ok _ _ _ _ _ Hv). cbv beta.
  pose proof (validateSession_live _ _ _ _ _ Hv) as Em.
  apply validateSession_frame in Hv as (d & sql & res & Hw1).
  assert (w_mysql w1 = true) as Em1 by (by rewrite Hw1).
  rewrite (bind_ok (reqPathParam _) _ w1 filename w1) by (unfold reqPathParam; rewrite get_bind; by rewrite Hw1, <- Hf).
  rewrite bool_decide_false by done. cbv zeta.
  rewrite (bind_ok _ _ _ _ _ (escapeString_ok _ _)).
  rewrite (bind_ok _ _ _ _ _ (executeQueryWithResult_ok _ _)). rewrite Hr. fold w2.
  rewrite (bind_ok _ _ _ _ _ (column_int_ok _ _ _ _ _ Hr0 Hs)).
  assert (w2 = set_db (w_db w2) (w_sql w2) None w1) as Hw2.
  { unfold w2, asked. rewrite Em1. done. }
  assert (w_mysql w2 = true) as Em2 by (by rewrite Hw2).
  destruct (executeQuery_runs (delete_shares fileId) w2 Em2) as (d1 & res1 & E1).
  set (w3 := set_db d1 _ res1 w2) in *.
  destruct (executeQuery_runs (delete_file fileId) w3 Em2) as (d2 & res2 & E2).
  set (w4 := set_db d2 _ res2 w3) in *.
  unfold delete_records in Hdel. rewrite (bind_ok _ _ _ _ _ E1), E2 in Hdel.
  injection Hdel as Hok%bool_decide_eq_true. rewrite bool_decide_true in E2 by exact Hok.
  rewrite (bind_ok _ _ _ _ _ E1), (bind_ok _ _ _ _ _ E2). cbn [negb].
  assert (w_fs w2 = w_fs w /\ w_mapping w2 = w_mapping w) as [Efs Emp] by (rewrite Hw2, Hw1; done).
  apply (delete_rest_ok w4 filename fileId body (w_sql w2)); try done.
  - unfold w4, w3; simpl. by rewrite Emp.
  - unfold w4, w3; simpl. by rewrite Efs.
  - unfold w4, w3; simpl. by rewrite <- app_assoc.
Qed.

End mapping.
