(* ===== verification/Requests.v ===== *)
(** * What every request keeps

    A property of the state that tolerates what uploads, deletions and the start
    of a download do is kept by every request. *)

From S2P Require Import Prelude CxxString OrdMap Regex HttpRequest HttpContext HttpResponse World.
From S2P Require Import Session Accounts Upload Download Files Share Routes Handlers.
From S2P Require Import Serving FileMapping.

(** The range a download starts with. *)
Definition part_ok (part : option (Z * Z)) : Prop :=
  match part with Some (s, _) => (0 <= s)%Z | None => True end.

(** ** Computations with a postcondition

    [yields E P m Q]: from [P], [m] ends in [E], and in [Q] when it returns. *)
Section postconditions.
Context `{Platform} (E : World -> Prop).

Definition yields {A} (P : World -> Prop) (m : M A) (Q : A -> World -> Prop) : Prop :=
  forall w, P w -> match m w with (Ok a, w') => Q a w' | (_, w') => E w' end.

Lemma yields_bind {A B} P (m : M A) Q (f : A -> M B) R :
  yields P m Q -> (forall a, yields (Q a) (f a) R) -> yields P (m ≫= f) R.
Proof.
  intros Hm Hf w Hw. unfold mbind, M_bind. specialize (Hm w Hw).
  destruct (m w) as [[a|e|] w1]; [by apply Hf|done|done].
Qed.

Lemma yields_keeps {A} (P : World -> Prop) (m : M A) :
  (forall w, P w -> E w) -> keeps P m -> yields P m (fun _ => P).
Proof. intros Hp Hk w Hw. specialize (Hk w Hw). destruct (m w) as [[a|e|] w1]; auto. Qed.

Lemma keeps_yields {A} (m : M A) : yields E m (fun _ => E) -> keeps E m.
Proof. intros Hy w Hw. specialize (Hy w Hw). by destruct (m w) as [[a|e|] w1]. Qed.

End postconditions.

Ltac next := eapply yields_bind; [|intros ?].

Section requests.
Context `{Platform}.
Context (P : World -> Prop) `{!stable P}.
Context (P_req : forall r w, P w -> P (set_req r w)).
Context (P_put : forall p s w, P w -> P (put_file p s w)).
Context (P_remove : forall p w, P w -> P (remove_file p w)).
Context (P_mapping : forall g, (forall w, OrdMap.sorted (w_mapping w) -> OrdMap.sorted (g w)) ->
  keeps P (modify (fun w => set_mapping (g w) w))).
Context (P_custom : forall x, (forall id, x <> Some (CDown id)) -> keeps P (setCustom x)).
Context (P_download : forall f o n part, part_ok part -> keeps P (startDownload f o n part)).

(** ** Downloads *)

Lemma keeps_of_sum_bind {A B} (x : bytes + A) (f : A -> M B) :
  (forall a, x = inr a -> keeps P (f a)) -> keeps P (of_sum x ≫= f).
Proof. destruct x as [e|a]; intros Hf w Hw; [done|]. by apply Hf. Qed.

Lemma keeps_serveFile_any f o : keeps P (serveFile f o).
Proof.
  unfold serveFile. apply keeps_try; [|intros; keeps]. apply keeps_bind; [keeps|]. intros w0.
  destruct (w_fs w0 !! _) as [content|]; [|keeps].
  case_bool_decide; [unfold sendFileInfo; keeps|].
  apply keeps_bind; [keeps|]. intros h. apply keeps_of_sum_bind. intros r Hr.
  destruct r as [|s e|]; [by apply P_download| |keeps].
  apply P_download. cbn. apply parseRange_bounds in Hr. lia.
Qed.
Hint Resolve keeps_serveFile_any : keeps.

Lemma keeps_downloadRow_any a u s e r : keeps P (downloadRow a u s e r).
Proof. unfold downloadRow. keeps. Qed.
Lemma keeps_shareDownloadRow_any a u e r : keeps P (shareDownloadRow a u e r).
Proof. unfold shareDownloadRow, serveShareFile. keeps. Qed.
Hint Resolve keeps_downloadRow_any keeps_shareDownloadRow_any : keeps.

Lemma keeps_handleDownload_any : keeps P handleDownload.
Proof. unfold handleDownload, downloadUser. keeps. Qed.
Lemma keeps_handleShareDownload_any : keeps P handleShareDownload.
Proof. unfold handleShareDownload. keeps. Qed.

(** ** Uploads *)

Lemma keeps_setReqBody b : keeps P (setReqBody b).
Proof. apply keeps_modify. intros w. apply P_req. Qed.
Lemma keeps_put_file p s : keeps P (modify (put_file p s)).
Proof. apply keeps_modify. intros w. apply P_put. Qed.
Lemma keeps_remove_file p : keeps P (modify (remove_file p)).
Proof. apply keeps_modify. intros w. apply P_remove. Qed.
Lemma keeps_append_file p s : keeps P (modify (append_file p s)).
Proof. apply keeps_modify. intros w Hw. unfold append_file. destruct (w_fs w !! p); [by apply P_put|done]. Qed.
Lemma keeps_getUpload : keeps P getUpload.
Proof. unfold getUpload. keeps. Qed.
Hint Resolve keeps_setReqBody keeps_put_file keeps_remove_file keeps_append_file keeps_getUpload : keeps.
Hint Extern 1 (keeps P (setCustom _)) => apply P_custom; discriminate : keeps.

Lemma keeps_theUpload : keeps P theUpload.
Proof. unfold theUpload. keeps. Qed.
Hint Resolve keeps_theUpload : keeps.
Lemma keeps_setUploadState s : keeps P (setUploadState s).
Proof. unfold setUploadState. keeps. Qed.
Lemma keeps_setUploadBoundary b : keeps P (setUploadBoundary b).
Proof. unfold setUploadBoundary. keeps. Qed.
Lemma keeps_writeData b o n : keeps P (writeData b o n).
Proof. unfold writeData. keeps. Qed.
Lemma keeps_uploadFilename : keeps P uploadFilename.
Proof. unfold uploadFilename. keeps. Qed.
Lemma keeps_generateUniqueFilename p : keeps P (generateUniqueFilename p).
Proof. unfold generateUniqueFilename. keeps. Qed.
Lemma keeps_upload_create f o : keeps P (upload_create f o).
Proof. unfold upload_create. keeps. Qed.
Hint Resolve keeps_setUploadState keeps_setUploadBoundary keeps_writeData keeps_uploadFilename
  keeps_generateUniqueFilename keeps_upload_create : keeps.
Lemma keeps_firstChunk b body : keeps P (firstChunk b body).
Proof. unfold firstChunk. keeps. Qed.
Lemma keeps_uploadChunk u body : keeps P (uploadChunk u body).
Proof. unfold uploadChunk. keeps. Qed.
Hint Resolve keeps_firstChunk keeps_uploadChunk : keeps.
Lemma keeps_beginUpload b : keeps P (beginUpload b).
Proof. unfold beginUpload. keeps. Qed.
Lemma keeps_continueUpload u : keeps P (continueUpload u).
Proof. unfold continueUpload. keeps. Qed.
Lemma keeps_finishUpload u : keeps P (finishUpload u).
Proof. unfold finishUpload. keeps. Qed.
Hint Resolve keeps_beginUpload keeps_continueUpload keeps_finishUpload : keeps.

Lemma keeps_handleFileUpload : keeps P handleFileUpload.
Proof. unfold handleFileUpload. apply keeps_needLogin; [apply _|]. intros u n. keeps. Qed.

(** ** The name mapping *)

Lemma keeps_loadMapping : keeps P loadFilenameMappingInternal.
Proof.
  unfold loadFilenameMappingInternal. keeps. apply P_mapping. intros w _.
  apply merge_sorted. constructor.
Qed.
Lemma keeps_saveMapping : keeps P saveFilenameMappingInternal.
Proof. unfold saveFilenameMappingInternal. keeps. Qed.
Hint Resolve keeps_loadMapping keeps_saveMapping : keeps.

Lemma keeps_remove_from_disk p : keeps P (remove_from_disk p).
Proof. unfold remove_from_disk. keeps. Qed.
Hint Resolve keeps_remove_from_disk : keeps.

Lemma keeps_handleDelete : keeps P handleDelete.
Proof.
  unfold handleDelete. apply keeps_needLogin; [apply _|]. intros u n. keeps.
  apply P_mapping. intros w. apply OrdMap.erase_sorted.
Qed.

(** ** Every request *)

Lemma keeps_run_handler h : keeps P (run_handler h).
Proof.
  destruct h; cbn [run_handler];
    auto using keeps_handleDownload_any, keeps_handleShareDownload_any, keeps_handleFileUpload,
      keeps_handleDelete; keeps.
Qed.

Lemma keeps_setPathParams ps : keeps P
  (modify (fun w => set_req (HttpRequest.setPathParams (w_req w) ps) w)).
Proof. apply keeps_modify. intros w. apply P_req. Qed.

Lemma keeps_onRequest : keeps P onRequest.
Proof.
  unfold onRequest.
  apply keeps_try; [|intros; keeps]. apply keeps_bind; [keeps|]. intros w0.
  destruct (findRoute _ _ _) as [[h ps]|]; [|keeps].
  apply keeps_bind; [apply keeps_setPathParams|]. intros _. apply keeps_run_handler.
Qed.

End requests.
