(* ===== verification/Accounting.v ===== *)
(** * Codes, logins and registrations

    The codes the server draws, and what [handleLogin] and [handleRegister] do
    with the database. *)

From S2P Require Import Prelude CxxString OrdMap Regex HttpRequest HttpContext HttpResponse World.
From S2P Require Import Session Accounts Upload Download Files Share Routes Handlers Access.
From S2P Require Import FileMapping.

Section accounting.
Context `{Platform}.
Implicit Types (w : World).

(** ** Codes *)

(** What [draw_chars] draws: one character of the alphabet for each draw. *)
Fixpoint drawn (n : nat) (chars : bytes) (random : nat -> Z) (k : nat) : bytes :=
  match n with
  | O => []
  | S n' =>
      nth (Z.to_nat (random k mod 36)) chars (chr 0) :: drawn n' chars random (S k)
  end.

Lemma draw_chars_ok n chars w :
  length chars = 36 ->
  draw_chars n chars w =
    (Ok (drawn n chars (w_random w) (w_draws w)), set_draws (w_draws w + n) w).
Proof.
  intros Hl. revert w. induction n as [|n IH]; intros w.
  - simpl. rewrite Nat.add_0_r. by destruct w.
  - cbn [draw_chars drawn].
    set (i := (w_random w (w_draws w) mod 36)%Z).
    assert (0 <= i < 36)%Z as Hi by (apply Z.mod_pos_bound; lia).
    rewrite (bind_ok (draw 0 35) _ w i (set_draws (S (w_draws w)) w)) by (by unfold draw, i).
    destruct (lookup_lt_is_Some_2 chars (Z.to_nat i)) as [c Hc]; [lia|]. rewrite Hc.
    erewrite (bind_ok (of_option (Some c))) by reflexivity.
    rewrite (bind_ok _ _ _ _ _ (IH _)).
    rewrite (nth_lookup_Some chars _ _ c) by done.
    cbn [w_draws w_random set_draws]. rewrite Nat.add_succ_r. done.
Qed.

Lemma drawn_spec n chars random k :
  length chars = 36 ->
  length (drawn n chars random k) = n /\ Forall (fun c => c ∈ chars) (drawn n chars random k).
Proof.
  intros Hl. revert k. induction n as [|n IH]; intros k; simpl; [done|].
  destruct (IH (S k)) as [E Hf]. split; [by rewrite E|]. constructor; [|done].
  apply list_elem_of_In, nth_In.
  assert (0 <= random k mod 36 < 36)%Z by (apply Z.mod_pos_bound; lia). lia.
Qed.

(** The format [handleShareAccess] demands of a share code. *)
Definition good_code (s : bytes) : Prop := length s = 32 /\ forallb code_char s = true.

Lemma alphabet36_code c : c ∈ alphabet36 -> code_char c = true.
Proof.
  intros Hc. assert (Forall (fun c => code_char c = true) alphabet36) as Hf
    by (repeat constructor; reflexivity).
  rewrite Forall_forall in Hf. by apply Hf.
Qed.

Lemma drawn_code random k : good_code (drawn 32 alphabet36 random k).
Proof.
  destruct (drawn_spec 32 alphabet36 random k) as [Hl Hf]; [done|].
  split; [done|]. apply forallb_forall. intros c Hc%list_elem_of_In.
  rewrite Forall_forall in Hf. by apply alphabet36_code, Hf.
Qed.

Lemma generated_code w :
  exists s, draw_chars 32 alphabet36 w = (Ok s, set_draws (w_draws w + 32) w) /\ good_code s.
Proof. eexists. split; [by apply draw_chars_ok|]. apply drawn_code. Qed.

(** The session id a login makes: the next 32 random draws. *)
Definition next_session_id w : bytes := drawn 32 alphabet36 (w_random w) (w_draws w).

Lemma generated_extract_code w :
  exists s, generateExtractCode w = (Ok s, set_draws (w_draws w + 6) w) /\
    length s = 6 /\ Forall (fun c => c ∈ extract_alphabet) s.
Proof.
  eexists. split; [by apply draw_chars_ok|].
  destruct (drawn_spec 6 extract_alphabet (w_random w) (w_draws w)) as [Hl Hf]; done.
Qed.

(** ** Logging in *)

(** The credentials of a request body. *)
Definition credentials (body user password : bytes) : Prop :=
  exists d, json_parse body = inr d /\ doc_string d ($"username") = inr user /\
    doc_string d ($"password") = inr password /\ user <> [] /\ password <> [].

(** The query that checks them. *)
Definition login_query w (user password : bytes) : bytes :=
  login_select (escaped w user) (escaped w (sha256 password)).

Definition login_answer (sid : bytes) (uid : Z) (name : bytes) : json :=
  JObj [($"code", JInt 0); ($"message", JStr ($"登录成功")); ($"sessionId", JStr sid);
        ($"userId", JInt uid); ($"username", JStr name)].

Definition wrong_login : bytes := $"用户名或密码错误".

Lemma asked_live q w : w_mysql w = true -> asked q w = set_db (mysql_query q (w_db w)).2 (w_sql w ++ [q]) None w.
Proof. unfold asked. by intros ->. Qed.

Lemma handleLogin_wrong w user password body :
  credentials (HttpRequest.body_ (w_req w)) user password ->
  first_row (answer (login_query w user password) w) = None ->
  json_dump (error_body wrong_login k401Unauthorized) = inr body ->
  handleLogin w =
    (Ok true, answered wrong_login k401Unauthorized body (asked (login_query w user password) w)).
Proof.
  intros (d & Hd & Hu & Hp & Hun & Hpn) Hr Hj. unfold handleLogin. apply try_ok.
  rewrite get_bind, (bind_ok _ _ _ _ _ (of_sum_ok _ _ w Hd)), (bind_ok _ _ _ _ _ (of_sum_ok _ _ w Hu)),
    (bind_ok _ _ _ _ _ (of_sum_ok _ _ w Hp)).
  rewrite !bool_decide_false by done. cbn [orb]. cbv zeta.
  do 2 rewrite (bind_ok _ _ _ _ _ (escapeString_ok _ w)).
  rewrite (bind_ok _ _ _ _ _ (executeQueryWithResult_ok _ w)).
  fold (login_query w user password). rewrite Hr.
  by rewrite (bind_ok _ _ _ _ _ (sendError_ok _ _ _ _ Hj)).
Qed.

Lemma handleLogin_ok w user password r s uid name :
  w_mysql w = true ->
  credentials (HttpRequest.body_ (w_req w)) user password ->
  first_row (answer (login_query w user password) w) = Some r ->
  r !! 0 = Some (Some s) -> stoi s = inr uid -> r !! 1 = Some (Some name) ->
  let sid := next_session_id w in
  let q := login_query w user password in
  let q2 := session_insert (escaped w sid) uid (escaped w name) in
  (exists t, json_dump (login_answer sid uid name) = inr t) ->
  exists W, handleLogin w = (Ok true, W) /\ w_draws W = w_draws w + 32 /\
    w_sql W = w_sql w ++ [q; q2] /\ w_db W = (mysql_query q2 (w_db (asked q w))).2 /\
    HttpResponse.statusCode_ (w_resp W) = k200Ok /\
    json_dump (login_answer sid uid name) = inr (HttpResponse.body_ (w_resp W)).
Proof.
  intros Em (d & Hd & Hu & Hp & Hun & Hpn) Hr Hr0 Hs Hr1 sid q q2 Hj. unfold handleLogin. fold q in Hr.
  set (w1 := asked q w). pose proof (asked_live q w Em) as Ew1. fold w1 in Ew1.
  set (w2 := set_draws (w_draws w + 32) w1).
  assert (draw_chars 32 alphabet36 w1 = (Ok sid, w2)) as Hsid
    by (rewrite draw_chars_ok by done; unfold sid, next_session_id, w2; by rewrite Ew1).
  assert (w_mysql w2 = true) as Em2 by (unfold w2; by rewrite Ew1).
  assert (forall x, escaped w2 x = escaped w x) as He by (intros x; unfold escaped; by rewrite Em, Em2).
  destruct (executeQuery_ran q2 w2 Em2) as (res3 & E3).
  set (w3 := set_db _ _ _ w2) in *.
  destruct Hj as [t Ht].
  destruct (sendJson_ok _ _ w3 Ht) as (rp & Er & Hst & Hb).
  exists (set_wcc (Some CbShutdown) (set_resp rp w3)). split; [|split; [done|]].
  - apply try_ok.
    rewrite get_bind, (bind_ok _ _ _ _ _ (of_sum_ok _ _ w Hd)), (bind_ok _ _ _ _ _ (of_sum_ok _ _ w Hu)),
      (bind_ok _ _ _ _ _ (of_sum_ok _ _ w Hp)).
    rewrite !bool_decide_false by done. cbn [orb]. cbv zeta.
    do 2 rewrite (bind_ok _ _ _ _ _ (escapeString_ok _ w)).
    rewrite (bind_ok _ _ _ _ _ (executeQueryWithResult_ok _ w)).
    fold (login_query w user password). fold q. rewrite Hr. fold w1.
    rewrite (bind_ok _ _ _ _ _ (column_int_ok _ _ _ _ _ Hr0 Hs)),
      (bind_ok _ _ _ _ _ (column_str_ok _ _ _ _ Hr1)).
    unfold generateSessionId. rewrite (bind_ok _ _ _ _ _ Hsid).
    erewrite (bind_ok (saveSession _ _ _)); [exact Er|].
    unfold saveSession. do 2 rewrite (bind_ok _ _ _ _ _ (escapeString_ok _ w2)). rewrite !He. fold q2.
    by rewrite (bind_ok _ _ _ _ _ E3).
  - cbn [w_resp set_wcc set_resp w_sql w_db w3 set_db].
    split; [unfold w2; rewrite Ew1; cbn; by rewrite <- app_assoc|].
    split; [by unfold w2, w1|]. by rewrite Hb.
Qed.

(** ** Registering *)

Definition register_answer (uid : Z) : json :=
  JObj [($"code", JInt 0); ($"message", JStr ($"注册成功")); ($"userId", JInt uid)].
Definition name_taken : bytes := $"用户名已存在".

Lemma handleRegister_taken w d user password email r body :
  json_parse (HttpRequest.body_ (w_req w)) = inr d -> doc_string d ($"username") = inr user ->
  doc_string d ($"password") = inr password -> doc_value d ($"email") [] = inr email ->
  user <> [] -> password <> [] ->
  first_row (answer (user_by_name (escaped w user)) w) = Some r ->
  json_dump (error_body name_taken k400BadRequest) = inr body ->
  handleRegister w =
    (Ok true, answered name_taken k400BadRequest body (asked (user_by_name (escaped w user)) w)).
Proof.
  intros Hd Hu Hp He Hun Hpn Hr Hj. unfold handleRegister. apply try_ok.
  rewrite get_bind, (bind_ok _ _ _ _ _ (of_sum_ok _ _ w Hd)), (bind_ok _ _ _ _ _ (of_sum_ok _ _ w Hu)),
    (bind_ok _ _ _ _ _ (of_sum_ok _ _ w Hp)), (bind_ok _ _ _ _ _ (of_sum_ok _ _ w He)).
  rewrite !bool_decide_false by done. cbn [orb]. cbv zeta.
  rewrite (bind_ok _ _ _ _ _ (escapeString_ok _ w)).
  rewrite (bind_ok _ _ _ _ _ (executeQueryWithResult_ok _ w)). rewrite Hr.
  by rewrite (bind_ok _ _ _ _ _ (sendError_ok _ _ _ _ Hj)).
Qed.

(** The email column of the new user. *)
Definition email_sql w (email : bytes) : bytes :=
  if bool_decide (email = []) then $"NULL" else $"'" ++ escaped w email ++ $"'".

Lemma handleRegister_ok w d user password email :
  w_mysql w = true ->
  json_parse (HttpRequest.body_ (w_req w)) = inr d -> doc_string d ($"username") = inr user ->
  doc_string d ($"password") = inr password -> doc_value d ($"email") [] = inr email ->
  user <> [] -> password <> [] ->
  let q1 := user_by_name (escaped w user) in
  let q2 := user_insert (escaped w user) (escaped w (sha256 password)) (email_sql w email) in
  first_row (answer q1 w) = None ->
  is_Some (mysql_query q2 (w_db (asked q1 w))).1 ->
  let db := (mysql_query q2 (w_db (asked q1 w))).2 in
  let uid := swrap 32 (mysql_insert_id db) in
  (exists t, json_dump (register_answer uid) = inr t) ->
  exists W, handleRegister w = (Ok true, W) /\ w_sql W = w_sql w ++ [q1; q2] /\ w_db W = db /\
    HttpResponse.statusCode_ (w_resp W) = k200Ok /\
    json_dump (register_answer uid) = inr (HttpResponse.body_ (w_resp W)).
Proof.
  intros Em Hd Hu Hp He Hun Hpn q1 q2 Hr Hok db uid Hj. unfold handleRegister.
  set (w1 := asked q1 w) in *. pose proof (asked_live q1 w Em) as Ew1. fold w1 in Ew1.
  assert (w_mysql w1 = true) as Em1 by (by rewrite Ew1).
  assert (forall x, escaped w1 x = escaped w x) as Hesc by (intros x; unfold escaped; by rewrite Em, Em1).
  destruct (executeQuery_ran q2 w1 Em1) as (res3 & E3). rewrite bool_decide_true in E3 by done.
  set (w3 := set_db _ _ _ w1) in *.
  destruct Hj as [t Ht].
  destruct (sendJson_ok _ _ w3 Ht) as (rp & Er & Hst & Hb).
  exists (set_wcc (Some CbShutdown) (set_resp rp w3)).
  split; [|split; [|split; [done|split; [exact Hst|]]]]; cycle 1.
  - cbn [w_sql set_wcc set_resp]. unfold w3. cbn [w_sql set_db]. rewrite Ew1. cbn [w_sql set_db].
    by rewrite <- app_assoc.
  - cbn [w_resp set_wcc set_resp]. by rewrite Hb.
  - apply try_ok.
    rewrite get_bind, (bind_ok _ _ _ _ _ (of_sum_ok _ _ w Hd)), (bind_ok _ _ _ _ _ (of_sum_ok _ _ w Hu)),
      (bind_ok _ _ _ _ _ (of_sum_ok _ _ w Hp)), (bind_ok _ _ _ _ _ (of_sum_ok _ _ w He)).
    rewrite (bool_decide_false (user = [])), (bool_decide_false (password = [])) by done.
    cbn [orb]. cbv zeta. rewrite (bind_ok _ _ _ _ _ (escapeString_ok _ w)).
    rewrite (bind_ok _ _ _ _ _ (executeQueryWithResult_ok _ w)). fold q1. rewrite Hr. fold w1.
    do 2 rewrite (bind_ok _ _ _ _ _ (escapeString_ok _ w1)). rewrite !Hesc.
    erewrite (bind_ok _ _ w1 (email_sql w email) w1); cycle 1.
    { unfold email_sql. case_bool_decide; [done|]. by rewrite (bind_ok _ _ _ _ _ (escapeString_ok _ w1)), Hesc. }
    fold q2. rewrite (bind_ok _ _ _ _ _ E3). cbn [negb].
    erewrite (bind_ok insert_id _ w3); [exact Er|].
    unfold insert_id. rewrite get_bind. replace (w_mysql w3) with true by done. reflexivity.
Qed.

End accounting.
