(* ===== verification/SessionStore.v ===== *)
(** * Sessions against an abstract store

    What the session functions of [HttpUploadHandler] rely on from the database
    is the interface [SessionTable]: the table [sessions] holds a map from ids
    to users of the table [users], on which the four statements act as SQL and
    the schema (sql/file_keeper.sql) say.  Against it, [saveSession],
    [validateSession] and [endSession] implement a plain map. *)

From S2P Require Import Prelude CxxString OrdMap Regex HttpRequest HttpContext HttpResponse World Sample.
From S2P Require Import Session Accounts Upload Download Files Share Routes Handlers Access.
From S2P Require Import FileMapping Accounting.

(** ** The abstract store *)

(** For each session id, its user and whether the session has not expired. *)
Abbreviation store := (gmap bytes ((Z * bytes) * bool)).

Inductive session_op :=
  | OSave (sid : bytes) (uid : Z) (name : bytes)
  | OValidate (sid : bytes)
  | OEnd (sid : bytes).

(** The two tables: the ids of the users, and the sessions. *)
Record tables := Tables { t_users : gset Z; t_sessions : store }.

Definition live_user (s : store) (sid : bytes) : option (Z * bytes) :=
  match s !! sid with Some (u, true) => Some u | _ => None end.

(** A session id is unique: saving it twice keeps the first.  A session belongs
    to a user: it is not saved for an id that is not in [users]. *)
Definition store_step (t : tables) (o : session_op) : option (Z * bytes) * tables :=
  match o with
  | OSave sid uid name =>
      (None,
       if bool_decide (uid ∈ t_users t) && bool_decide (t_sessions t !! sid = None)
       then Tables (t_users t) (<[sid := ((uid, name), true)]> (t_sessions t)) else t)
  | OValidate sid => (live_user (t_sessions t) sid, t)
  | OEnd sid => (None, Tables (t_users t) (delete sid (t_sessions t)))
  end.

Fixpoint store_run (t : tables) (os : list session_op) : list (option (Z * bytes)) * tables :=
  match os with
  | [] => ([], t)
  | o :: os' =>
      let '(r, t1) := store_step t o in
      let '(rs, t2) := store_run t1 os' in (r :: rs, t2)
  end.

(** ** The interface to the database *)

Definition user_row (u : Z * bytes) : row := [Some (to_string u.1); Some u.2].
Definition session_rows (u : option (Z * bytes)) : list row :=
  match u with Some u => [user_row u] | None => [] end.

(** [content db]: the tables [users] and [sessions], at a fixed time.
    [name_ok]: the name fits its column.  The statements are given for the ids
    the server generates, which escaping leaves alone.  An INSERT that breaks
    the unique key or the foreign key fails and changes nothing. *)
Class SessionTable `{Platform} := {
  content : Db -> tables;
  name_ok : bytes -> Prop;
  escape_code s : good_code s -> mysql_real_escape_string s = s;
  escape_no_nul s : chr 0 ∉ mysql_real_escape_string s;
  select_session db sid : good_code sid -> exists db',
    mysql_query (session_select sid) db =
      (Some (Some (session_rows (live_user (t_sessions (content db)) sid))), db') /\
    content db' = content db;
  refresh_session db sid : good_code sid -> live_user (t_sessions (content db)) sid <> None ->
    content (mysql_query (session_refresh sid) db).2 = content db;
  insert_session db sid uid name :
    good_code sid -> (- 2 ^ 31 <= uid < 2 ^ 31)%Z -> name_ok name ->
    content (mysql_query (session_insert sid uid (mysql_real_escape_string name)) db).2 =
      (store_step (content db) (OSave sid uid name)).2;
  delete_session db sid : good_code sid ->
    content (mysql_query (session_delete sid) db).2 = (store_step (content db) (OEnd sid)).2;
  users_int db uid : uid ∈ t_users (content db) -> (- 2 ^ 31 <= uid < 2 ^ 31)%Z;
  sessions_of_users db sid u b : t_sessions (content db) !! sid = Some (u, b) -> u.1 ∈ t_users (content db)
}.

(** ** The session functions *)

Section store.
Context `{SessionTable}.
Implicit Types (w : World).

Definition session_step (o : session_op) : M (option (Z * bytes)) :=
  match o with
  | OSave sid uid name => saveSession sid uid name;; mret None
  | OValidate sid => validateSession sid
  | OEnd sid => endSession sid;; mret None
  end.

Fixpoint session_run (os : list session_op) : M (list (option (Z * bytes))) :=
  match os with
  | [] => mret []
  | o :: os' => r ← session_step o; rs ← session_run os'; mret (r :: rs)
  end.

(** The ids are the server's, the users are the database's. *)
Definition session_op_ok (o : session_op) : Prop :=
  match o with
  | OSave sid uid name => good_code sid /\ (- 2 ^ 31 <= uid < 2 ^ 31)%Z /\ name_ok name
  | OValidate sid | OEnd sid => good_code sid
  end.

(** The connection is open and its tables hold [t]. *)
Definition holds w (t : tables) : Prop := w_mysql w = true /\ content (w_db w) = t.

Lemma good_code_nonempty sid : good_code sid -> sid <> [].
Proof. intros [Hl _] ->. done. Qed.

Lemma escaped_code w sid : w_mysql w = true -> good_code sid -> escaped w sid = sid.
Proof.
  intros Em Hg. unfold escaped. rewrite Em. cbn [negb].
  pose proof (escape_no_nul sid) as Hn%find_char_absent. rewrite Hn, firstn_all. by rewrite escape_code.
Qed.

Lemma escaped_name w name : w_mysql w = true -> escaped w name = mysql_real_escape_string name.
Proof.
  intros Em. unfold escaped. rewrite Em. cbn [negb].
  pose proof (escape_no_nul name) as Hn%find_char_absent. by rewrite Hn, firstn_all.
Qed.

Lemma escapeString_code w sid : w_mysql w = true -> good_code sid -> escapeString sid w = (Ok sid, w).
Proof. intros Em Hg. by rewrite escapeString_ok, escaped_code. Qed.

(** Executing a statement leaves the connection at what the statement made. *)
Lemma executeQuery_db q w :
  w_mysql w = true ->
  exists ok w', executeQuery q w = (Ok ok, w') /\ w_mysql w' = true /\
    w_db w' = (mysql_query q (w_db w)).2.
Proof.
  intros Em. unfold executeQuery. rewrite Em. cbn [negb].
  destruct (mysql_query q (w_db w)) as [[res|] db]; do 2 eexists; done.
Qed.

Lemma saveSession_store w t sid uid name :
  holds w t -> session_op_ok (OSave sid uid name) ->
  exists w', saveSession sid uid name w = (Ok tt, w') /\ holds w' (store_step t (OSave sid uid name)).2.
Proof.
  intros [Em <-] (Hg & Hu & Hn).
  destruct (executeQuery_db (session_insert sid uid (mysql_real_escape_string name)) w Em)
    as (ok & w' & E & Em' & Ed).
  exists w'. split; [|split; [done|]; by rewrite Ed, insert_session]. unfold saveSession.
  rewrite (bind_ok _ _ _ _ _ (escapeString_code w sid Em Hg)), (bind_ok _ _ _ _ _ (escapeString_ok name w)).
  rewrite escaped_name by done. by rewrite (bind_ok _ _ _ _ _ E).
Qed.

Lemma endSession_store w t sid :
  holds w t -> good_code sid ->
  exists w', endSession sid w = (Ok tt, w') /\ holds w' (store_step t (OEnd sid)).2.
Proof.
  intros [Em <-] Hg. destruct (executeQuery_db (session_delete sid) w Em) as (ok & w' & E & Em' & Ed).
  exists w'. split; [|split; [done|]; by rewrite Ed, delete_session]. unfold endSession.
  rewrite bool_decide_false by by apply good_code_nonempty.
  rewrite (bind_ok _ _ _ _ _ (escapeString_code w sid Em Hg)). by rewrite (bind_ok _ _ _ _ _ E).
Qed.

(** Looking a session up. *)
Definition looked_up (sid : bytes) (db : Db) : Db := (mysql_query (session_select sid) db).2.
Definition refreshed (sid : bytes) (db : Db) : Db := (mysql_query (session_refresh sid) (looked_up sid db)).2.

Lemma select_store w t sid :
  holds w t -> good_code sid ->
  exists w', executeQueryWithResult (session_select sid) w =
      (Ok (Some (session_rows (live_user (t_sessions t) sid))), w') /\ holds w' t /\
    w_db w' = looked_up sid (w_db w).
Proof.
  intros [Em <-] Hg. destruct (select_session (w_db w) sid Hg) as (db' & Eq & Es).
  rewrite executeQueryWithResult_ok. unfold answer, asked, looked_up. rewrite Em, Eq. cbn [negb fst snd].
  eexists. split; [reflexivity|]. done.
Qed.

Lemma table_session_none w t sid :
  holds w t -> good_code sid -> live_user (t_sessions t) sid = None ->
  exists w', validateSession sid w = (Ok None, w') /\ holds w' t.
Proof.
  intros Hh Hg Hn. destruct (select_store w t sid Hh Hg) as (w1 & E1 & Hh1 & _). unfold validateSession.
  rewrite bool_decide_false by by apply good_code_nonempty.
  rewrite (bind_ok _ _ _ _ _ (escapeString_code w sid (proj1 Hh) Hg)), (bind_ok _ _ _ _ _ E1).
  rewrite Hn. by exists w1.
Qed.

Lemma live_user_int db sid uid name :
  live_user (t_sessions (content db)) sid = Some (uid, name) -> (- 2 ^ 31 <= uid < 2 ^ 31)%Z.
Proof.
  unfold live_user. destruct (t_sessions (content db) !! sid) as [[u [|]]|] eqn:Es; [|done..].
  intros [= ->]. apply (users_int db). exact (sessions_of_users db sid _ _ Es).
Qed.

Lemma table_session_live w t sid uid name :
  holds w t -> good_code sid -> live_user (t_sessions t) sid = Some (uid, name) ->
  exists w', validateSession sid w = (Ok (Some (uid, name)), w') /\ holds w' t /\
    w_db w' = refreshed sid (w_db w).
Proof.
  intros Hh Hg El. destruct (select_store w t sid Hh Hg) as (w1 & E1 & Hh1 & Ed1). unfold validateSession.
  rewrite bool_decide_false by by apply good_code_nonempty.
  rewrite (bind_ok _ _ _ _ _ (escapeString_code w sid (proj1 Hh) Hg)), (bind_ok _ _ _ _ _ E1).
  rewrite El. cbn [session_rows first_row user_row fst snd].
  assert (- 2 ^ 31 <= uid < 2 ^ 31)%Z as Hu by (destruct Hh as [_ <-]; by eapply live_user_int).
  destruct (executeQuery_db (session_refresh sid) w1 (proj1 Hh1)) as (ok & w2 & E2 & Em2 & Ed).
  exists w2. split; [|split].
  - rewrite (bind_ok _ _ _ _ _ (column_int_ok (user_row (uid, name)) 0 _ uid w1 eq_refl (stoi_to_string _ Hu))).
    rewrite (bind_ok _ _ _ _ _ (column_str_ok (user_row (uid, name)) 1 _ w1 eq_refl)).
    rewrite (bind_ok _ _ _ _ _ (escapeString_code w1 sid (proj1 Hh1) Hg)). by rewrite (bind_ok _ _ _ _ _ E2).
  - split; [done|]. destruct Hh1 as [_ E]. rewrite Ed, refresh_session; [done|done|].
    by rewrite E, El.
  - by rewrite Ed, Ed1.
Qed.

Lemma validateSession_store w t sid :
  holds w t -> good_code sid ->
  exists w', validateSession sid w = (Ok (live_user (t_sessions t) sid), w') /\ holds w' t.
Proof.
  intros Hh Hg. destruct (live_user (t_sessions t) sid) as [[uid name]|] eqn:E.
  - destruct (table_session_live w t sid uid name Hh Hg E) as (w' & ? & ? & _). by exists w'.
  - by apply table_session_none.
Qed.

(** A live session is found however often it is looked up. *)
Lemma live_session_lasts n sid uid name : forall db,
  good_code sid -> live_user (t_sessions (content db)) sid = Some (uid, name) -> session_lasts n sid uid db.
Proof.
  induction n as [|n IH]; intros db Hg Hl; [done|]. exists name, (refreshed sid db). split.
  - intros w Em <-. destruct (table_session_live w _ sid uid name (conj Em eq_refl) Hg Hl) as (w' & ? & _ & ?).
    by exists w'.
  - apply IH; [done|]. unfold refreshed, looked_up. destruct (select_session db sid Hg) as (db' & Eq & Es).
    rewrite Eq. cbn [snd]. by rewrite refresh_session, Es by (rewrite ?Es, ?Hl; done).
Qed.

(** A session that is saved for a user under a new id is live. *)
Lemma saved_session_live t sid uid name :
  uid ∈ t_users t -> t_sessions t !! sid = None ->
  live_user (t_sessions (store_step t (OSave sid uid name)).2) sid = Some (uid, name).
Proof.
  intros Hu Hn. cbn. rewrite !bool_decide_true by done. cbn. unfold live_user. by rewrite lookup_insert_eq.
Qed.

Lemma session_step_store w t o :
  holds w t -> session_op_ok o ->
  exists w', session_step o w = (Ok (store_step t o).1, w') /\ holds w' (store_step t o).2.
Proof.
  intros Hh Ho. destruct o as [sid uid name|sid|sid]; cbn [session_step fst].
  - destruct (saveSession_store w t sid uid name Hh Ho) as (w' & E & Hw).
    exists w'. by rewrite (bind_ok _ _ _ _ _ E).
  - by apply validateSession_store.
  - destruct (endSession_store w t sid Hh Ho) as (w' & E & Hw).
    exists w'. by rewrite (bind_ok _ _ _ _ _ E).
Qed.

Lemma session_run_store os : forall w t,
  holds w t -> Forall session_op_ok os ->
  exists w', session_run os w = (Ok (store_run t os).1, w') /\ holds w' (store_run t os).2.
Proof.
  induction os as [|o os IH]; intros w t Hh Ho; [by exists w|]. apply Forall_cons in Ho as [Ho Hos].
  destruct (session_step_store w t o Hh Ho) as (w1 & E1 & H1). cbn [store_run session_run].
  destruct (store_step t o) as [r t1]. cbn [fst snd] in *.
  destruct (IH w1 t1 H1 Hos) as (w2 & E2 & H2). destruct (store_run t1 os) as [rs t2]. cbn [fst snd] in *.
  exists w2. split; [|done]. by rewrite (bind_ok _ _ _ _ _ E1), (bind_ok _ _ _ _ _ E2).
Qed.

End store.

(** ** A concrete table

    A database that reads the four statements back. *)

Definition after (p q : bytes) : option bytes := if prefixb p q then Some (drop (length p) q) else None.

(** The ids of [users] are [INT]s, and sessions refer to them. *)
Definition clean (t : tables) : tables :=
  let us := filter (fun uid => (- 2 ^ 31 <= uid < 2 ^ 31)%Z) (t_users t) in
  Tables us (filter (fun kv : bytes * ((Z * bytes) * bool) => kv.2.1.1 ∈ us) (t_sessions t)).

(** The values of an INSERT, after the opening quote of the id. *)
Definition read_values (r : bytes) : bytes + session_op :=
  let rest := drop 35 r in
  let uid := take (find_char ","%char rest) rest in
  let tail := drop (find_char ","%char rest + 3) rest in
  match stoi uid with
  | inr u => inr (OSave (take 32 r) u (take (find_char "'"%char tail) tail))
  | inl e => inl e
  end.

Definition table_query (q : bytes) (db : tables) : option (option (list row)) * tables :=
  match after ($"SELECT user_id, username FROM sessions WHERE session_id = '") q with
  | Some r => (Some (Some (session_rows (live_user (t_sessions (clean db)) (take 32 r)))), db)
  | None =>
      match after ($"DELETE FROM sessions WHERE session_id = '") q with
      | Some r => (Some None, (store_step (clean db) (OEnd (take 32 r))).2)
      | None =>
          match after ($"INSERT INTO sessions (session_id, user_id, username, expire_time) VALUES ('") q with
          | Some r =>
              match read_values r with
              | inr (OSave sid uid name) =>
                  (if bool_decide (uid ∈ t_users (clean db)) && bool_decide (t_sessions (clean db) !! sid = None)
                   then Some None else None,
                   (store_step (clean db) (OSave sid uid name)).2)
              | _ => (None, db)
              end
          | None => (Some None, db)
          end
      end
  end.

Definition escape_nul (s : bytes) : bytes :=
  flat_map (fun c => if bool_decide (c = chr 0) then $"\0" else [c]) s.

Definition table_platform : Platform := platform_with escape_nul tables table_query.

Lemma after_app p r : after p (p ++ r) = Some r.
Proof.
  unfold after. rewrite (proj2 (prefixb_spec p (p ++ r))) by by exists r.
  by rewrite drop_app_length.
Qed.

Lemma code_taken sid r : good_code sid -> take 32 (sid ++ r) = sid.
Proof. intros [Hl _]. rewrite <- Hl. apply take_app_length. Qed.

Lemma escape_nul_id s : chr 0 ∉ s -> escape_nul s = s.
Proof.
  induction s as [|c s IH]; [done|]. intros [Hc Hs]%not_elem_of_cons. simpl.
  rewrite bool_decide_false by done. simpl. by rewrite IH.
Qed.

Lemma escape_nul_none s : chr 0 ∉ escape_nul s.
Proof.
  induction s as [|c s IH]; [apply not_elem_of_nil|]. cbn [escape_nul flat_map].
  intros [Hin|Hin]%elem_of_app; [|done]. case_bool_decide as E.
  - apply list_elem_of_In in Hin. simpl in Hin. by destruct Hin as [?|[?|[]]].
  - apply list_elem_of_singleton in Hin. done.
Qed.

Lemma code_no_nul s : good_code s -> chr 0 ∉ s.
Proof.
  intros [_ Hf] Hin%list_elem_of_In. rewrite forallb_forall in Hf. by apply Hf in Hin.
Qed.

Lemma to_string_no_comma z : ","%char ∉ to_string z.
Proof.
  assert (forall f n, ","%char ∉ udigits f n []) as Hu.
  { intros f n Hin. pose proof (udigits_digits f n) as Hd. rewrite Forall_forall in Hd. by apply Hd in Hin. }
  unfold to_string. destruct (z <? 0)%Z; [|apply Hu].
  intros [?|Hin]%elem_of_cons; [done|]. by eapply Hu.
Qed.

Lemma read_values_insert sid uid name :
  good_code sid -> (- 2 ^ 31 <= uid < 2 ^ 31)%Z -> "'"%char ∉ name ->
  read_values (sid ++ $"', " ++ to_string uid ++ $", '" ++ name ++ $"', " ++
               $"DATE_ADD(NOW(), INTERVAL 30 MINUTE))") = inr (OSave sid uid name).
Proof.
  intros Hg Hu Hn. unfold read_values. rewrite code_taken by done.
  assert (forall r, drop 35 (sid ++ $"', " ++ r) = r) as Hd.
  { intros r. destruct Hg as [Hl _]. rewrite app_assoc. replace 35 with (length (sid ++ $"', ")).
    - apply drop_app_length.
    - by rewrite length_app, Hl. }
  rewrite Hd. change ($", '" ++ ?r) with (","%char :: $" '" ++ r).
  rewrite find_char_app by apply to_string_no_comma. rewrite take_app_length, stoi_to_string by done.
  rewrite <- drop_drop, drop_app_length.
  change (drop 3 (","%char :: $" '" ++ ?r)) with r. change ($"', " ++ ?r) with ("'"%char :: $", " ++ r).
  by rewrite find_char_app, take_app_length.
Qed.

Lemma table_select db sid :
  table_query (session_select sid) db =
    (Some (Some (session_rows (live_user (t_sessions (clean db)) (take 32 (sid ++ $"' AND expire_time > NOW()"))))), db).
Proof. unfold table_query, session_select. by rewrite after_app. Qed.

Lemma table_delete db sid :
  table_query (session_delete sid) db = (Some None, (store_step (clean db) (OEnd (take 32 (sid ++ $"'")))).2).
Proof.
  unfold table_query. change (after _ (session_delete sid)) with (@None bytes) at 1. unfold session_delete.
  by rewrite after_app.
Qed.

Lemma table_insert db sid uid name :
  good_code sid -> (- 2 ^ 31 <= uid < 2 ^ 31)%Z -> "'"%char ∉ name ->
  (table_query (session_insert sid uid name) db).2 = (store_step (clean db) (OSave sid uid name)).2.
Proof.
  intros Hg Hu Hn.
  unfold table_query. change (after _ (session_insert sid uid name)) with (@None bytes) at 1 2.
  unfold session_insert. rewrite (app_assoc _ ($"VALUES ('")), after_app. by rewrite read_values_insert.
Qed.

Lemma clean_user db uid : uid ∈ t_users (clean db) -> (- 2 ^ 31 <= uid < 2 ^ 31)%Z.
Proof. unfold clean. cbn [t_users]. by intros [? _]%elem_of_filter. Qed.

Lemma clean_session db sid u b : t_sessions (clean db) !! sid = Some (u, b) -> u.1 ∈ t_users (clean db).
Proof. unfold clean. cbn [t_sessions t_users]. by intros [_ Hu]%map_lookup_filter_Some. Qed.

(** Tables with the two properties are clean. *)
Lemma clean_id t :
  (forall uid, uid ∈ t_users t -> (- 2 ^ 31 <= uid < 2 ^ 31)%Z) ->
  (forall sid u b, t_sessions t !! sid = Some (u, b) -> u.1 ∈ t_users t) -> clean t = t.
Proof.
  intros Hu Hs. destruct t as [us s]. unfold clean. cbn in *.
  assert (filter (fun uid => (- 2 ^ 31 <= uid < 2 ^ 31)%Z) us = us) as -> by set_solver.
  f_equal. apply map_filter_id. intros sid [u b] E. by eapply Hs.
Qed.

Lemma clean_step db o : clean (store_step (clean db) o).2 = (store_step (clean db) o).2.
Proof.
  pose proof (clean_user db) as Hu. pose proof (clean_session db) as Hs.
  apply clean_id; destruct o as [sid uid name|sid|sid]; cbn; try done.
  - by destruct (_ && _).
  - intros k u b. destruct (bool_decide _ && bool_decide _) eqn:E; [|apply Hs].
    apply andb_true_iff in E as [E%bool_decide_eq_true _]. cbn. rewrite lookup_insert_Some.
    intros [[_ [= <- _]]|[_ ?]]; [done|by eapply Hs].
  - intros k u b. rewrite lookup_delete_Some. intros [_ ?]. by eapply Hs.
Qed.

Definition session_table : @SessionTable table_platform.
Proof.
  refine (@Build_SessionTable table_platform (clean : @Db table_platform -> tables)
            (fun n : bytes => (chr 0 ∉ n) /\ ("'"%char ∉ n)) _ _ _ _ _ _ _ _);
    cbn [Db mysql_query mysql_real_escape_string table_platform platform_with].
  - intros s Hs. by apply escape_nul_id, code_no_nul.
  - apply escape_nul_none.
  - intros db sid Hg. exists db. rewrite table_select. by rewrite code_taken.
  - done.
  - intros db sid uid name Hg Hu [Hz Hq]. rewrite escape_nul_id by done.
    rewrite table_insert by done. apply clean_step.
  - intros db sid Hg. rewrite table_delete. rewrite code_taken by done. apply (clean_step db (OEnd sid)).
  - apply clean_user.
  - apply clean_session.
Defined.

(** User 7 is in the table, with a live session. *)
Definition code_a : bytes := replicate 32 "a"%char.
Definition ann_tables : tables := Tables {[ 7%Z ]} {[ code_a := ((7%Z, $"ann"), true) ]}.

Lemma code_a_good : good_code code_a.
Proof. split; vm_compute; reflexivity. Qed.

Definition table_world (r : HttpReq) (t : tables) : @World table_platform :=
  @mkWorld table_platform r (HttpResponse.create false) None (Some HttpContext.create) ∅ 0 true t []
    None ∅ [] (fun n => Z.of_nat n) 0 1000%Z.

Lemma ann_session_lasts n : @session_lasts table_platform n code_a 7 ann_tables.
Proof.
  apply (@live_session_lasts table_platform session_table n code_a 7 ($"ann")); [apply code_a_good|].
  vm_compute. reflexivity.
Qed.
