(* ===== verification/Sharing.v ===== *)
(** * Creating and opening shares

    Whose files [handleShareFile] shares, what a new share is, and what
    [handleShareAccess] makes of the row of a share. *)

From S2P Require Import Prelude CxxString OrdMap Regex HttpRequest HttpContext HttpResponse World.
From S2P Require Import Session Accounts Upload Download Files Share Routes Handlers Access.
From S2P Require Import FileMapping Accounting.

(** The share code of a path. *)
Lemma code_captured code :
  good_code code -> regex_search codeRegex ($"/share/" ++ code) = Some [code].
Proof.
  intros [Hl Hc]. unfold regex_search. apply search_at_here with (rest := []).
  replace codeRegex with (lits ($"/share/") ++ [IOpen; IRep true (NoneOf ($"/")); IClose]) by done.
  rewrite mtch_lits, (proj2 (prefixb_spec _ _)) by (by eexists). rewrite drop_app_length.
  assert (Forall (fun c => in_set c (NoneOf ($"/")) = true) code) as Hs.
  { apply Forall_forall. intros c Hin. rewrite forallb_forall in Hc.
    specialize (Hc c (proj1 (list_elem_of_In _ _) Hin)). cbn [in_set].
    apply negb_true_iff, bool_decide_eq_false. intros ->%list_elem_of_singleton. done. }
  destruct code as [|c code]; [done|]. pose proof Hs as [Hc1 Hs']%Forall_cons.
  cbn [mtch]. rewrite Hc1. rewrite rep_end by (done || (by eexists)).
  cbn [mtch app length]. rewrite Nat.sub_0_r. do 3 f_equal. apply (firstn_all (c :: code)).
Qed.

Section sharing.
Context `{Platform}.
Implicit Types (w : World).

(** ** Opening a share *)

(** A JSON request for the share [code], on behalf of [user]. *)
Record opens_share w (code extract : bytes) (user : option (Z * bytes)) w1 (r : row) : Prop := {
  op_path : HttpRequest.path_ (w_req w) = $"/share/" ++ code;
  op_code : good_code code;
  op_xhr : HttpRequest.getHeader (w_req w) ($"X-Requested-With") = $"XMLHttpRequest";
  op_extract : HttpRequest.getQuery (w_req w) ($"code") [] = Some extract;
  op_user : validateSession (HttpRequest.getHeader (w_req w) ($"X-Session-ID")) w = (Ok user, w1);
  op_row : first_row (answer (share_access_select (escaped w1 code) (escaped w1 extract)) w1) = Some r
}.

Definition caller (user : option (Z * bytes)) : bool * Z :=
  match user with Some (u, _) => (true, u) | None => (false, 0%Z) end.

Lemma handleShareAccess_row w code extract user w1 r :
  opens_share w code extract user w1 r ->
  handleShareAccess w =
    shareAccessRow (caller user).1 (caller user).2 code extract r
      (asked (share_access_select (escaped w1 code) (escaped w1 extract)) w1).
Proof.
  intros [Hp Hc Hx He Hu Hr]. unfold handleShareAccess. rewrite get_bind, Hp, code_captured by done.
  cbv beta iota. do 2 rewrite (bind_ok _ _ _ _ _ (reqHeader_ok _ w)).
  rewrite (bind_ok _ _ _ _ _ Hu).
  apply validateSession_frame in Hu as (d & sql & res & Ew1).
  assert (w_req w1 = w_req w) as Hq by (by rewrite Ew1).
  destruct user as [[uid name]|]; cbv beta iota;
    rewrite (bind_ok _ _ _ _ _ (reqHeader_ok _ w1)), Hq, Hx, bool_decide_true by done;
    cbn [orb]; destruct Hc as [Hl Hch];
    (rewrite bool_decide_false by (by intros ->)); rewrite Hl, Hch; cbn [orb negb Nat.eqb];
    (rewrite (bind_ok (reqQuery _ _) _ w1 extract w1)
       by (unfold reqQuery; rewrite get_bind, Hq, He; done));
    do 2 rewrite (bind_ok _ _ _ _ _ (escapeString_ok _ w1));
    rewrite (bind_ok _ _ _ _ _ (executeQueryWithResult_ok _ w1)), Hr; done.
Qed.

(** Column 13 of the row is read as the owner's id. *)
Lemma shareAccessRow_name auth userId code extract r w type name e :
  r !! 4 = Some (Some type) -> r !! 13 = Some (Some name) -> stoi name = inl e ->
  shareAccessRow auth userId code extract r w = (Exn e, w).
Proof.
  intros Ht Hn Hs. unfold shareAccessRow.
  rewrite (bind_ok _ _ _ _ _ (column_str_ok _ _ _ _ Ht)).
  rewrite (bind_ok (column r 13) _ w (Some name) w) by (unfold column; by rewrite Hn).
  apply bind_exn, bind_exn. by rewrite Hs.
Qed.

(** ** Creating a share *)

Definition not_your_file : bytes := $"您没有权限分享此文件".

(** A request to share a file. *)
Record share_request w (uid : Z) w1 (d : Doc) (fileId : Z) (type : bytes) : Prop := {
  sr_user : exists name,
    validateSession (HttpRequest.getHeader (w_req w) ($"X-Session-ID")) w = (Ok (Some (uid, name)), w1);
  sr_doc : json_parse (HttpRequest.body_ (w_req w)) = inr d;
  sr_file : doc_int d ($"fileId") = inr fileId;
  sr_type : doc_string d ($"shareType") = inr type
}.

Lemma handleShareFile_refused w uid w1 d fileId type body :
  share_request w uid w1 d fileId type ->
  first_row (answer (own_file_check fileId uid) w1) = None ->
  json_dump (error_body not_your_file k403Forbidden) = inr body ->
  handleShareFile w = (Ok true, answered not_your_file k403Forbidden body (asked (own_file_check fileId uid) w1)).
Proof.
  intros [[name Hu] Hd Hf Ht] Hr Hj. unfold handleShareFile. rewrite (needLogin_ok _ _ _ _ _ Hu).
  cbv beta. apply validateSession_frame in Hu as (db & sql & res & Ew1).
  assert (w_req w1 = w_req w) as Hq by (by rewrite Ew1).
  apply try_ok. rewrite get_bind, Hq.
  rewrite (bind_ok _ _ _ _ _ (of_sum_ok _ _ w1 Hd)), (bind_ok _ _ _ _ _ (of_sum_ok _ _ w1 Hf)),
    (bind_ok _ _ _ _ _ (of_sum_ok _ _ w1 Ht)).
  rewrite (bind_ok _ _ _ _ _ (executeQueryWithResult_ok _ w1)), Hr.
  by rewrite (bind_ok _ _ _ _ _ (sendError_ok _ _ _ _ Hj)).
Qed.

(** The answer to a new public share. *)
Definition public_answer (id : Z) (code : bytes) : json :=
  JObj [($"code", JInt 0); ($"message", JStr ($"分享成功")); ($"shareId", JInt id);
        ($"shareType", JStr ($"public")); ($"shareCode", JStr code);
        ($"shareLink", JStr ($"/share/" ++ code))].

(** The row of a public share without expiry. *)
Definition public_insert w (fileId uid : Z) (code : bytes) : bytes :=
  share_insert fileId uid ($"NULL") (escaped w ($"public")) (escaped w code) ($"NULL") ($"NULL").

Lemma handleShareFile_public w uid w1 d fileId r :
  share_request w uid w1 d fileId ($"public") ->
  doc_contains d ($"expireTime") = false ->
  first_row (answer (own_file_check fileId uid) w1) = Some r ->
  (forall code, good_code code ->
     is_Some (mysql_query (public_insert w fileId uid code)
                (w_db (asked (own_file_check fileId uid) w1))).1) ->
  (forall id code, good_code code -> exists t, json_dump (public_answer id code) = inr t) ->
  exists W code id, handleShareFile w = (Ok true, W) /\ good_code code /\
    w_sql W = w_sql w1 ++ [own_file_check fileId uid; public_insert w fileId uid code] /\
    HttpResponse.statusCode_ (w_resp W) = k200Ok /\
    json_dump (public_answer id code) = inr (HttpResponse.body_ (w_resp W)).
Proof.
  intros [[name Hu] Hd Hf Ht] He Hr Hq Hj. unfold handleShareFile.
  pose proof (validateSession_live _ _ _ _ _ Hu) as Em.
  rewrite (needLogin_ok _ _ _ _ _ Hu). cbv beta.
  apply validateSession_frame in Hu as (db & sql & res & Ew1).
  assert (w_req w1 = w_req w /\ w_mysql w1 = true) as [Hreq Em1] by (rewrite Ew1; done).
  set (q := own_file_check fileId uid) in *.
  set (w2 := asked q w1). pose proof (asked_live q w1 Em1) as Ew2. fold w2 in Ew2.
  destruct (generated_code w2) as (code & Hcode & Hgood). fold generateShareCode in Hcode.
  set (w3 := set_draws _ w2) in *.
  assert (w_mysql w3 = true) as Em3 by (unfold w3; by rewrite Ew2).
  assert (forall x, escaped w3 x = escaped w x) as Hesc by (intros x; unfold escaped; by rewrite Em, Em3).
  set (q2 := public_insert w fileId uid code).
  destruct (executeQuery_runs q2 w3 Em3) as (d4 & res4 & E4).
  rewrite bool_decide_true in E4 by (by apply Hq).
  set (w4 := set_db _ _ _ w3) in *. set (id := swrap 32 (mysql_insert_id d4)).
  destruct (Hj id code Hgood) as [t Htt].
  destruct (sendJson_ok _ _ w4 Htt) as (rp & Er & Hst & Hb).
  exists (set_wcc (Some CbShutdown) (set_resp rp w4)), code, id.
  split; [|split; [done|split; [|split; [exact Hst|cbn [w_resp set_wcc set_resp]; by rewrite Hb]]]]; cycle 1.
  { cbn [w_sql set_wcc set_resp]. unfold w4. cbn [w_sql set_db]. unfold w3. cbn [w_sql set_draws].
    rewrite Ew2. cbn [w_sql set_db]. by rewrite <- app_assoc. }
  apply try_ok. rewrite get_bind, Hreq.
  rewrite (bind_ok _ _ _ _ _ (of_sum_ok _ _ w1 Hd)), (bind_ok _ _ _ _ _ (of_sum_ok _ _ w1 Hf)),
    (bind_ok _ _ _ _ _ (of_sum_ok _ _ w1 Ht)).
  rewrite (bind_ok _ _ _ _ _ (executeQueryWithResult_ok _ w1)). fold q. rewrite Hr. fold w2.
  rewrite bool_decide_false by done.
  rewrite (bind_ok (expire_sql d) _ w2 ($"NULL") w2) by (unfold expire_sql; by rewrite He).
  rewrite (bind_ok _ _ _ _ _ Hcode).
  rewrite (bind_ok (share_target d fileId ($"public")) _ w3 (Some ($"NULL", $"NULL")) w3) by done.
  do 2 rewrite (bind_ok _ _ _ _ _ (escapeString_ok _ w3)). rewrite !Hesc. fold (public_insert w fileId uid code). fold q2.
  rewrite (bind_ok _ _ _ _ _ E4). cbn [negb].
  rewrite (bind_ok insert_id _ w4 id w4) by (unfold insert_id; rewrite get_bind; by replace (w_mysql w4) with true by done).
  exact Er.
Qed.

End sharing.
