(* ===== verification/Channel.v ===== *)
(** * Channels (network/Channel): a descriptor, its interest set, its dispatch *)

From S2P Require Import Prelude.

#[local] Open Scope Z_scope.

(** <poll.h> on Linux; the EPOLL flags have the same values. *)
Definition POLLIN : Z := 1.
Definition POLLPRI : Z := 2.
Definition POLLOUT : Z := 4.
Definition POLLERR : Z := 8.
Definition POLLHUP : Z := 16.
Definition POLLNVAL : Z := 32.
Definition POLLRDHUP : Z := 8192.

Module Channel.

Definition kNoneEvent : Z := 0.
Definition kReadEvent : Z := Z.lor POLLIN POLLPRI.
Definition kWriteEvent : Z := POLLOUT.

(** [tie_]: the object the channel is tied to, if any, and whether it is still
    alive (what [tie_.lock()] finds).  [updates] are the calls of
    [EventLoop::updateChannel] so far, oldest first, by the events they pass. *)
Record t := mk {
  fd_ : Z;
  events_ : Z;
  revents_ : Z;
  index_ : Z;
  eventHandling_ : bool;
  addedToLoop_ : bool;
  tie_ : option bool;
  updates : list Z
}.

Definition create (fd : Z) : t := mk fd 0 0 (-1) false false None [].

Definition set_revents (c : t) (revt : Z) : t :=
  mk (fd_ c) (events_ c) revt (index_ c) (eventHandling_ c) (addedToLoop_ c) (tie_ c) (updates c).
Definition set_index (c : t) (idx : Z) : t :=
  mk (fd_ c) (events_ c) (revents_ c) idx (eventHandling_ c) (addedToLoop_ c) (tie_ c) (updates c).
Definition set_events (c : t) (e : Z) : t :=
  mk (fd_ c) e (revents_ c) (index_ c) (eventHandling_ c) (addedToLoop_ c) (tie_ c) (updates c).
Definition set_added (c : t) (b : bool) : t :=
  mk (fd_ c) (events_ c) (revents_ c) (index_ c) (eventHandling_ c) b (tie_ c) (updates c).
Definition set_handling (c : t) (b : bool) : t :=
  mk (fd_ c) (events_ c) (revents_ c) (index_ c) b (addedToLoop_ c) (tie_ c) (updates c).
Definition tie (c : t) (alive : bool) : t :=
  mk (fd_ c) (events_ c) (revents_ c) (index_ c) (eventHandling_ c) (addedToLoop_ c) (Some alive) (updates c).

Definition isNoneEvent (c : t) : bool := events_ c =? kNoneEvent.
Definition isWriting (c : t) : bool := negb (Z.land (events_ c) kWriteEvent =? 0).
Definition isReading (c : t) : bool := negb (Z.land (events_ c) kReadEvent =? 0).

(** The changes of the interest set.  Each is followed by [update], which marks
    the channel as added and passes it to the poller: [request_update]. *)
Definition request_update (c : t) : t :=
  mk (fd_ c) (events_ c) (revents_ c) (index_ c) (eventHandling_ c) true (tie_ c) (updates c ++ [events_ c]).
Definition enableReading (c : t) : t := request_update (set_events c (Z.lor (events_ c) kReadEvent)).
Definition disableReading (c : t) : t :=
  request_update (set_events c (Z.land (events_ c) (Z.lnot kReadEvent))).
Definition enableWriting (c : t) : t := request_update (set_events c (Z.lor (events_ c) kWriteEvent)).
Definition disableWriting (c : t) : t :=
  request_update (set_events c (Z.land (events_ c) (Z.lnot kWriteEvent))).
Definition disableAll (c : t) : t := request_update (set_events c kNoneEvent).

(** [remove] asserts that no event is of interest. *)
Definition remove (c : t) : option t := if isNoneEvent c then Some (set_added c false) else None.

(** ** Dispatch *)

Inductive callback := CloseCallback | ErrorCallback | ReadCallback | WriteCallback.

#[export] Instance callback_eq_dec : EqDecision callback.
Proof. solve_decision. Defined.

Definition has (revents flags : Z) : bool := negb (Z.land revents flags =? 0).

(** [handleEventWithGuard]: the callbacks in the order of the calls. [revents_]
    is read again before each test; the callbacks do not change it. *)
Definition handleEventWithGuard (c : t) : list callback :=
  let r := revents_ c in
  (if has r POLLHUP && negb (has r POLLIN) then [CloseCallback] else []) ++
  (if has r (Z.lor POLLERR POLLNVAL) then [ErrorCallback] else []) ++
  (if has r (Z.lor POLLIN (Z.lor POLLPRI POLLRDHUP)) then [ReadCallback] else []) ++
  (if has r POLLOUT then [WriteCallback] else []).

(** [handleEvent]: nothing when the owner is gone. *)
Definition handleEvent (c : t) : list callback :=
  match tie_ c with
  | Some false => []
  | _ => handleEventWithGuard c
  end.

(** [eventsToString], on the flags that are set. *)
Definition eventNames (ev : Z) : bytes :=
  (if has ev POLLIN then $"IN " else []) ++ (if has ev POLLPRI then $"PRI " else []) ++
  (if has ev POLLOUT then $"OUT " else []) ++ (if has ev POLLHUP then $"HUP " else []) ++
  (if has ev POLLRDHUP then $"RDHUP " else []) ++ (if has ev POLLERR then $"ERR " else []) ++
  (if has ev POLLNVAL then $"NVAL " else []).

(** ** Facts *)

Lemma land_pow2 a n : 0 <= n -> (Z.land a (2 ^ n) =? 0) = negb (Z.testbit a n).
Proof.
  intros Hn. destruct (Z.testbit a n) eqn:E; simpl.
  - apply Z.eqb_neq. intros H0.
    assert (Z.testbit (Z.land a (2 ^ n)) n = false) as H1 by (rewrite H0; apply Z.bits_0).
    rewrite Z.land_spec, E, Z.pow2_bits_true in H1 by done. done.
  - apply Z.eqb_eq. apply Z.bits_inj'. intros m Hm.
    rewrite Z.land_spec, Z.bits_0, Z.pow2_bits_eqb by done.
    destruct (Z.eqb_spec n m) as [->|]; [by rewrite E|by rewrite andb_false_r].
Qed.

Lemma isWriting_bit c : isWriting c = Z.testbit (events_ c) 2.
Proof.
  unfold isWriting. change kWriteEvent with (2 ^ 2). rewrite land_pow2 by done. apply negb_involutive.
Qed.

Lemma enableWriting_isWriting c : isWriting (enableWriting c) = true.
Proof.
  rewrite isWriting_bit. change (events_ (enableWriting c)) with (Z.lor (events_ c) kWriteEvent).
  rewrite Z.lor_spec. apply orb_true_r.
Qed.

Lemma disableWriting_isWriting c : isWriting (disableWriting c) = false.
Proof.
  rewrite isWriting_bit.
  change (events_ (disableWriting c)) with (Z.land (events_ c) (Z.lnot kWriteEvent)).
  rewrite Z.land_spec. apply andb_false_r.
Qed.

Lemma enableReading_isWriting c : isWriting (enableReading c) = isWriting c.
Proof.
  rewrite !isWriting_bit. change (events_ (enableReading c)) with (Z.lor (events_ c) kReadEvent).
  rewrite Z.lor_spec. apply orb_false_r.
Qed.

Lemma disableAll_none c : isNoneEvent (disableAll c) = true /\ isWriting (disableAll c) = false.
Proof. done. Qed.

End Channel.
