(* ===== verification/Poller.v ===== *)
(** * What a poller promises (network/Poller.hpp)

    [Poller] is the interface of [EPollPoller] and [PollPoller].  Its contract
    is an abstract list of the channels that are registered, each with its
    descriptor and the events it asks for: [spec_step].  The class
    [PollerSpec] says that an implementation simulates it; the theorem about
    runs is proved once, against the class. *)

From S2P Require Import Prelude Channel.

#[local] Open Scope Z_scope.

(** ** The contract *)

(** The registered channels, with descriptor and events; the channels that were
    removed.  A channel is not used again after it was removed. *)
Record watchlist := mkWatch {
  live : gmap nat (Z * Z);
  gone : gset nat
}.

Definition nothing : watchlist := mkWatch ∅ ∅.

(** [Change id e]: the events of the channel become [e] and the channel calls
    [update]. *)
Inductive poller_op := Change (id : nat) (e : Z) | Remove (id : nat).

(** No registered channel has the descriptor. *)
Definition free (a : watchlist) (f : Z) : Prop := map_Forall (fun _ x => x.1 <> f) (live a).

Definition list_channel (a : watchlist) (id : nat) (f e : Z) : watchlist :=
  mkWatch (<[id := (f, e)]> (live a)) (gone a).

(** [fds] gives the descriptors of the channels.  A channel first asks for some
    event, and asks for none when it is removed. *)
Definition spec_step (fds : gmap nat Z) (a : watchlist) (o : poller_op) : option watchlist :=
  match o with
  | Change id e =>
      f ← fds !! id;
      if bool_decide (id ∉ gone a) && (0 <=? e) && (e <? 2 ^ 15) then
        match live a !! id with
        | Some _ => Some (list_channel a id f e)
        | None =>
            if bool_decide (free a f) && negb (e =? 0) then Some (list_channel a id f e) else None
        end
      else None
  | Remove id =>
      match live a !! id with
      | Some (_, 0) => Some (mkWatch (delete id (live a)) ({[id]} ∪ gone a))
      | _ => None
      end
  end.

Fixpoint spec_run (fds : gmap nat Z) (a : watchlist) (os : list poller_op) : option watchlist :=
  match os with
  | [] => Some a
  | o :: os' => a' ← spec_step fds a o; spec_run fds a' os'
  end.

(** ** The interface *)

(** The operations of a poller.  Channels are objects, found in [p_heap] and
    changed by their owners with [p_set].  [p_asked] is the events the kernel is
    asked for on a descriptor, 0 for none; [p_owner] the channel that gets them.
    [p_poll] is a poll at which the kernel has the events [ready], each with its
    descriptor: the active channels, each with the events it finds in [revents]. *)
Class Poller (P : Type) := {
  p_create : gmap nat Channel.t -> P;
  p_heap : P -> gmap nat Channel.t;
  p_set : P -> nat -> Channel.t -> P;
  p_update : P -> nat -> option P;
  p_remove : P -> nat -> option P;
  p_asked : P -> Z -> Z;
  p_owner : P -> Z -> option nat;
  p_poll : P -> list (Z * Z) -> option (list (nat * Z) * P)
}.

Section runs.
Context {P : Type} `{Poller P}.

Definition impl_step (p : P) (o : poller_op) : option P :=
  match o with
  | Change id e => c ← p_heap p !! id; p_update (p_set p id (Channel.set_events c e)) id
  | Remove id => p_remove p id
  end.

Fixpoint impl_run (p : P) (os : list poller_op) : option P :=
  match os with
  | [] => Some p
  | o :: os' => p' ← impl_step p o; impl_run p' os'
  end.

(** The kernel is asked for exactly what the list says. *)
Definition shows (p : P) (a : watchlist) : Prop :=
  (forall id f e, live a !! id = Some (f, e) -> p_asked p f = e /\ (e <> 0 -> p_owner p f = Some id)) /\
  (forall f, 0 <= f -> free a f -> p_asked p f = 0).

End runs.

(** What the kernel may report: events of descriptors it is asked about. *)
Definition reportable (a : watchlist) (ready : list (Z * Z)) : Prop :=
  NoDup (ready.*1) /\
    Forall (fun x => 0 < x.2 < 2 ^ 15 /\ exists id e, live a !! id = Some (x.1, e) /\ e <> 0) ready.

(** What a poll hands on: each channel once, with the events of its descriptor. *)
Record found (a : watchlist) (ready : list (Z * Z)) (active : list (nat * Z)) : Prop := {
  found_once : NoDup (active.*1);
  found_right id r : (id, r) ∈ active -> exists f e, (f, r) ∈ ready /\ live a !! id = Some (f, e);
  found_some : ready <> [] -> active <> []
}.

(** Channels as their constructor leaves them. *)
Definition new_channels (h : gmap nat Channel.t) : Prop :=
  forall id c, h !! id = Some c -> Channel.index_ c = -1 /\ 0 <= Channel.fd_ c.

Class PollerSpec (P : Type) `{Poller P} := {
  sim : gmap nat Z -> P -> watchlist -> Prop;
  sim_create h : new_channels h -> sim (Channel.fd_ <$> h) (p_create h) nothing;
  sim_step fds p a o a' :
    sim fds p a -> spec_step fds a o = Some a' ->
    exists p', impl_step p o = Some p' /\ sim fds p' a';
  sim_shows fds p a : sim fds p a -> shows p a;
  sim_poll fds p a ready :
    sim fds p a -> reportable a ready ->
    exists active p', p_poll p ready = Some (active, p') /\ sim fds p' a /\ found a ready active
}.

(** ** Runs *)

Section refinement.
Context {P : Type} `{PollerSpec P}.

Lemma run_sim fds os : forall p a a',
  sim fds p a -> spec_run fds a os = Some a' ->
  exists p', impl_run p os = Some p' /\ sim fds p' a'.
Proof.
  induction os as [|o os IH]; intros p a a' Hs E; simpl in E.
  - injection E as <-. by exists p.
  - destruct (spec_step fds a o) as [a1|] eqn:E1; [|done].
    destruct (sim_step fds p a o a1 Hs E1) as (p1 & Ep & H1). simpl. rewrite Ep. by apply (IH p1 a1).
Qed.

(** No assertion fails in a run that keeps the contract, and the kernel is asked
    for what the contract says. *)
Lemma run_refines h os a :
  new_channels h -> spec_run (Channel.fd_ <$> h) nothing os = Some a ->
  exists p : P, impl_run (p_create h) os = Some p /\ shows p a.
Proof.
  intros Hn E. destruct (run_sim _ _ _ _ _ (sim_create h Hn) E) as (p & Ep & Hs).
  exists p. split; [done|]. by eapply sim_shows.
Qed.

End refinement.

(** The channels of a list, with the events a poll has stored in them. *)
Definition happened (heap : gmap nat Channel.t) (ids : list nat) : list (nat * Z) :=
  (fun id => (id, default 0 (Channel.revents_ <$> heap !! id))) <$> ids.

Lemma happened_ids heap ids : (happened heap ids).*1 = ids.
Proof. unfold happened. rewrite <- list_fmap_compose. apply list_fmap_id. Qed.

(** ** Which channels a poller's map registers *)

Definition status (heap : gmap nat Channel.t) (channels : gmap Z nat) (id : nat) : option (Z * Z) :=
  c ← heap !! id;
  if bool_decide (channels !! Channel.fd_ c = Some id)
  then Some (Channel.fd_ c, Channel.events_ c) else None.

Lemma status_Some heap channels id f e :
  status heap channels id = Some (f, e) <->
  exists c, heap !! id = Some c /\ channels !! f = Some id /\ Channel.fd_ c = f /\ Channel.events_ c = e.
Proof.
  unfold status. split.
  - intros E. destruct (heap !! id) as [c|] eqn:Ec; [|done]. cbn in E.
    destruct (bool_decide_reflect (channels !! Channel.fd_ c = Some id)); [|done].
    injection E as <- <-. by exists c.
  - intros (c & -> & Hm & <- & <-). cbn. by rewrite bool_decide_true.
Qed.

(** Two heaps that differ in what a poll stores: the events that have happened. *)
Definition same_channels (h h' : gmap nat Channel.t) : Prop :=
  forall id, (fun c => (Channel.fd_ c, Channel.events_ c, Channel.index_ c)) <$> h !! id =
             (fun c => (Channel.fd_ c, Channel.events_ c, Channel.index_ c)) <$> h' !! id.

Lemma same_channels_set h id c r : h !! id = Some c -> same_channels h (<[id := Channel.set_revents c r]> h).
Proof.
  intros Hc i. destruct (decide (i = id)) as [->|]; [by rewrite lookup_insert_eq, Hc|].
  by rewrite lookup_insert_ne by done.
Qed.

Lemma same_channels_l h h' id c :
  same_channels h h' -> h !! id = Some c ->
  exists c', h' !! id = Some c' /\ Channel.fd_ c' = Channel.fd_ c /\
    Channel.events_ c' = Channel.events_ c /\ Channel.index_ c' = Channel.index_ c.
Proof.
  intros Hs Hc. specialize (Hs id). rewrite Hc in Hs. destruct (h' !! id) as [c'|]; [|done].
  injection Hs as ? ? ?. by exists c'.
Qed.

#[export] Instance same_channels_equiv : Equivalence same_channels.
Proof.
  split; [by intros h i|by intros h h' Hs i|]. intros h1 h2 h3 H1 H2 i. by rewrite (H1 i).
Qed.

Lemma status_same h h' channels id : same_channels h h' -> status h channels id = status h' channels id.
Proof.
  intros Hs. specialize (Hs id). unfold status.
  destruct (h !! id), (h' !! id); try done. injection Hs as E1 E2 _. cbn. by rewrite E1, E2.
Qed.

(** A change of the channel [id] of descriptor [f] leaves the others as they are. *)
Lemma status_frame heap heap' channels channels' id f i :
  i <> id -> (forall c, heap !! i = Some c -> exists idx, heap' !! i = Some (Channel.set_index c idx)) ->
  (heap !! i = None -> heap' !! i = None) ->
  (forall f', f' <> f -> channels' !! f' = channels !! f') ->
  channels !! f <> Some i -> channels' !! f <> Some i ->
  status heap' channels' i = status heap channels i.
Proof.
  intros Hi Hh Hn Hc Hf Hf'. unfold status. destruct (heap !! i) as [c|] eqn:E; [|by rewrite Hn].
  destruct (Hh c eq_refl) as (idx & ->). cbn [mbind option_bind Channel.fd_ Channel.set_index Channel.events_].
  destruct (decide (Channel.fd_ c = f)) as [->|Hne].
  - by rewrite !bool_decide_false.
  - by rewrite Hc.
Qed.

Lemma free_None a heap channels f :
  (forall id, live a !! id = status heap channels id) ->
  (forall id, channels !! f = Some id -> exists c, heap !! id = Some c /\ Channel.fd_ c = f) ->
  free a f -> channels !! f = None.
Proof.
  intros Hl Hm Hf. destruct (channels !! f) as [id|] eqn:E; [|done].
  destruct (Hm id eq_refl) as (c & Hc & Hfd).
  assert (live a !! id = Some (f, Channel.events_ c)) as Hlive.
  { rewrite Hl. apply status_Some. by exists c. }
  by apply Hf in Hlive.
Qed.
