(* ===== verification/TcpConnection.v ===== *)
(** * TCP connections (network/TcpConnection)

    The state machine of a connection, its output buffer, and its traffic with
    the kernel and with the tasks its loop has queued.  The operations run in
    the loop's thread. *)

From S2P Require Import Prelude CxxString ByteBuffer Channel.

(** What [::write] answers: it takes some of the bytes, or takes none and leaves
    [errno], which after a write of zero bytes is an old one: [WriteError] stands
    for both.  [Wrote 0] is a write of zero bytes with an [errno] that means
    nothing. *)
Inductive write_outcome :=
  | Wrote (n : nat)
  | WriteError (errno : Z).

Definition EWOULDBLOCK : Z := 11.
Definition EAGAIN : Z := 11.
Definition EPIPE : Z := 32.
Definition ECONNRESET : Z := 104.

Module TcpConnection.

Inductive StateE := kDisconnected | kConnecting | kConnected | kDisconnecting.

#[export] Instance StateE_eq_dec : EqDecision StateE.
Proof. solve_decision. Defined.

(** The callbacks a connection calls directly. *)
Inductive event :=
  | EConnection (connected : bool)
  | EMessage
  | EClose.

Section connection.
(** The write-complete callbacks that users of the connection install. *)
Context {W : Type}.

(** The tasks a connection leaves with [queueInLoop]; [std::bind] copies the
    callback into the task. *)
Inductive task :=
  | TWriteComplete (cb : W)
  | THighWaterMark (n : nat)
  | THandleWrite
  | TForceClose
  | TSendInLoop (data : bytes)
  | TShutdownInLoop.

Record t := mk {
  state_ : StateE;
  channel_ : Channel.t;
  outputBuffer_ : Buffer.t;
  inputBuffer_ : Buffer.t;
  writeCompleteCallback_ : option W;
  highWaterMarkCallback_ : bool;
  highWaterMark_ : Z;
  queue : list task;              (* queued in the loop, oldest first *)
  events : list event;            (* callbacks called, oldest first *)
  sent : bytes;                   (* what the kernel has accepted *)
  writeShut : bool;               (* shutdown(SHUT_WR) was called *)
  outcomes : list write_outcome   (* what the next ::write calls answer *)
}.

Definition create (fd : Z) (outcomes : list write_outcome) : t :=
  mk kConnecting (Channel.create fd) Buffer.create_default Buffer.create_default None false
     (64 * 1024 * 1024)%Z [] [] [] false outcomes.

Definition setState (c : t) (s : StateE) : t :=
  mk s (channel_ c) (outputBuffer_ c) (inputBuffer_ c) (writeCompleteCallback_ c)
     (highWaterMarkCallback_ c) (highWaterMark_ c) (queue c) (events c) (sent c) (writeShut c) (outcomes c).
Definition setChannel (c : t) (ch : Channel.t) : t :=
  mk (state_ c) ch (outputBuffer_ c) (inputBuffer_ c) (writeCompleteCallback_ c)
     (highWaterMarkCallback_ c) (highWaterMark_ c) (queue c) (events c) (sent c) (writeShut c) (outcomes c).
Definition setOutput (c : t) (b : Buffer.t) : t :=
  mk (state_ c) (channel_ c) b (inputBuffer_ c) (writeCompleteCallback_ c)
     (highWaterMarkCallback_ c) (highWaterMark_ c) (queue c) (events c) (sent c) (writeShut c) (outcomes c).
Definition setInput (c : t) (b : Buffer.t) : t :=
  mk (state_ c) (channel_ c) (outputBuffer_ c) b (writeCompleteCallback_ c)
     (highWaterMarkCallback_ c) (highWaterMark_ c) (queue c) (events c) (sent c) (writeShut c) (outcomes c).
Definition setWriteCompleteCallback (c : t) (cb : option W) : t :=
  mk (state_ c) (channel_ c) (outputBuffer_ c) (inputBuffer_ c) cb
     (highWaterMarkCallback_ c) (highWaterMark_ c) (queue c) (events c) (sent c) (writeShut c) (outcomes c).
Definition queueInLoop (c : t) (k : task) : t :=
  mk (state_ c) (channel_ c) (outputBuffer_ c) (inputBuffer_ c) (writeCompleteCallback_ c)
     (highWaterMarkCallback_ c) (highWaterMark_ c) (queue c ++ [k]) (events c) (sent c) (writeShut c) (outcomes c).
Definition emit (c : t) (e : event) : t :=
  mk (state_ c) (channel_ c) (outputBuffer_ c) (inputBuffer_ c) (writeCompleteCallback_ c)
     (highWaterMarkCallback_ c) (highWaterMark_ c) (queue c) (events c ++ [e]) (sent c) (writeShut c) (outcomes c).
Definition shutdownWrite (c : t) : t :=
  mk (state_ c) (channel_ c) (outputBuffer_ c) (inputBuffer_ c) (writeCompleteCallback_ c)
     (highWaterMarkCallback_ c) (highWaterMark_ c) (queue c) (events c) (sent c) true (outcomes c).

(** The kernel has answered a [::write], taking the bytes [took]. *)
Definition after_write (c : t) (took : bytes) : t :=
  mk (state_ c) (channel_ c) (outputBuffer_ c) (inputBuffer_ c) (writeCompleteCallback_ c)
     (highWaterMarkCallback_ c) (highWaterMark_ c) (queue c) (events c) (sent c ++ took)
     (writeShut c) (tail (outcomes c)).

(** [::write(fd, data, len)]: the next outcome; at most [len] bytes are taken,
    and a socket without outcomes left would block. *)
Definition sys_write (c : t) (data : bytes) : write_outcome * t :=
  match outcomes c with
  | Wrote n :: _ => (Wrote (Nat.min n (length data)), after_write c (take n data))
  | WriteError e :: _ => (WriteError e, after_write c [])
  | [] => (WriteError EAGAIN, after_write c [])
  end.

Definition queue_write_complete (c : t) : t :=
  match writeCompleteCallback_ c with Some cb => queueInLoop c (TWriteComplete cb) | None => c end.

Definition shutdownInLoop (c : t) : t :=
  if Channel.isWriting (channel_ c) then c else shutdownWrite c.

(** A failed assertion is [None]. *)
Definition handleClose (c : t) : option t :=
  if bool_decide (state_ c = kConnected) || bool_decide (state_ c = kDisconnecting) then
    let c := setState c kDisconnected in
    let c := setChannel c (Channel.disableAll (channel_ c)) in
    Some (emit (emit c (EConnection false)) EClose)
  else None.

(** The output buffer has become empty. *)
Definition flushed (c : t) : t :=
  let c := setChannel c (Channel.disableWriting (channel_ c)) in
  let c := queue_write_complete c in
  if bool_decide (state_ c = kDisconnecting) then shutdownInLoop c else c.

(** [handleWrite].  When no byte is taken, [n > 0] fails and [errno] is looked at,
    an old one if [::write] had nothing to write. *)
Definition handleWrite (c : t) : option t :=
  if Channel.isWriting (channel_ c) then
    match sys_write c (Buffer.content (outputBuffer_ c)) with
    | (Wrote (S n), c) =>
        b ← Buffer.retrieve (outputBuffer_ c) (S n);
        let c := setOutput c b in
        if Buffer.readableBytes b =? 0 then Some (flushed c)
        else Some (queueInLoop c THandleWrite)
    | (Wrote O, c) => Some c
    | (WriteError e, c) =>
        if (negb (e =? EWOULDBLOCK) && negb (e =? EAGAIN))%Z
           && ((e =? EPIPE) || (e =? ECONNRESET))%Z
        then handleClose c else Some c
    end
  else Some c.

(** The second half of [sendInLoop]: what was not written is buffered. *)
Definition bufferRest (c : t) (rest : bytes) : option t :=
  let oldLen := Buffer.readableBytes (outputBuffer_ c) in
  let remaining := length rest in
  let c := if (highWaterMark_ c <=? Z.of_nat (oldLen + remaining))%Z && (Z.of_nat oldLen <? highWaterMark_ c)%Z
              && highWaterMarkCallback_ c
           then queueInLoop c (THighWaterMark (oldLen + remaining)) else c in
  b ← Buffer.append (outputBuffer_ c) rest;
  let c := setOutput c b in
  let c := if Channel.isWriting (channel_ c) then c
           else setChannel c (Channel.enableWriting (channel_ c)) in
  handleWrite c.

Definition sendInLoop (c : t) (data : bytes) : option t :=
  if bool_decide (state_ c = kDisconnected) then Some c
  else
    let '(nwrote, faultError, c) :=
      if negb (Channel.isWriting (channel_ c)) && (Buffer.readableBytes (outputBuffer_ c) =? 0) then
        match sys_write c data with
        | (Wrote n, c) =>
            (n, false, if length data - n =? 0 then queue_write_complete c else c)
        | (WriteError e, c) =>
            (0, (negb (e =? EWOULDBLOCK) && negb (e =? EAGAIN))%Z
                && ((e =? EPIPE) || (e =? ECONNRESET))%Z, c)
        end
      else (0, false, c) in
    if negb faultError && (0 <? length data - nwrote) then bufferRest c (drop nwrote data)
    else Some c.

(** [send], from the loop's thread. *)
Definition send (c : t) (data : bytes) : option t :=
  if bool_decide (state_ c = kConnected) then sendInLoop c data else Some c.

(** [send] of a buffer, which is emptied. *)
Definition sendBuffer (c : t) (buf : Buffer.t) : option (Buffer.t * t) :=
  if bool_decide (state_ c = kConnected) then
    c' ← sendInLoop c (Buffer.content buf); Some (Buffer.retrieveAll buf, c')
  else Some (buf, c).

(** [send] from another thread.  The overloads that bind an [FKString] do not
    copy the bytes, which are then the sender's to keep. *)
Definition sendFromOther (c : t) (data : bytes) : t :=
  if bool_decide (state_ c = kConnected) then queueInLoop c (TSendInLoop data) else c.

Definition shutdownFromOther (c : t) : t :=
  if bool_decide (state_ c = kConnected)
  then queueInLoop (setState c kDisconnecting) TShutdownInLoop else c.

Definition shutdown (c : t) : t :=
  if bool_decide (state_ c = kConnected) then shutdownInLoop (setState c kDisconnecting) else c.

Definition forceClose (c : t) : t :=
  if bool_decide (state_ c = kConnected) || bool_decide (state_ c = kDisconnecting)
  then queueInLoop (setState c kDisconnecting) TForceClose else c.

Definition forceCloseInLoop (c : t) : option t :=
  if bool_decide (state_ c = kConnected) || bool_decide (state_ c = kDisconnecting)
  then handleClose c else Some c.

Definition connectEstablished (c : t) : option t :=
  if bool_decide (state_ c = kConnecting) then
    let c := setState c kConnected in
    let c := setChannel c (Channel.enableReading (Channel.tie (channel_ c) true)) in
    Some (emit c (EConnection true))
  else None.

(** [connectDestroyed] ends with [channel_->remove()]. *)
Definition connectDestroyed (c : t) : option t :=
  let c := if bool_decide (state_ c = kConnected) then
             emit (setChannel (setState c kDisconnected) (Channel.disableAll (channel_ c)))
                  (EConnection false)
           else c in
  ch ← Channel.remove (channel_ c);
  Some (setChannel c ch).

(** [handleRead], on what [readv] delivers: an error, or bytes. *)
Definition handleRead (c : t) (outcome : Z + bytes) : option t :=
  '(n, _, b) ← Buffer.readFd (inputBuffer_ c) outcome;
  let c := setInput c b in
  if (0 <? n)%Z then Some (emit c EMessage)
  else if (n =? 0)%Z then handleClose c
  else Some c.

(** The loop runs a task the connection has queued; what the callbacks of the
    other two do is up to who installed them. *)
Definition runTask (c : t) (k : task) : option t :=
  match k with
  | TWriteComplete _ | THighWaterMark _ => Some c
  | THandleWrite => handleWrite c
  | TForceClose => forceCloseInLoop c
  | TSendInLoop data => sendInLoop c data
  | TShutdownInLoop => Some (shutdownInLoop c)
  end.

(** The loop has taken the queued tasks. *)
Definition clearQueue (c : t) : t :=
  mk (state_ c) (channel_ c) (outputBuffer_ c) (inputBuffer_ c) (writeCompleteCallback_ c)
     (highWaterMarkCallback_ c) (highWaterMark_ c) [] (events c) (sent c) (writeShut c) (outcomes c).

Definition setHighWaterMarkCallback (c : t) (cb : bool) (mark : Z) : t :=
  mk (state_ c) (channel_ c) (outputBuffer_ c) (inputBuffer_ c) (writeCompleteCallback_ c)
     cb mark (queue c) (events c) (sent c) (writeShut c) (outcomes c).

End connection.
Arguments task : clear implicits.
Arguments t : clear implicits.
End TcpConnection.
