(* ===== verification/TcpStream.v ===== *)
(** * What a TCP connection promises: no byte is lost, duplicated or reordered

    The invariant of a connection's sending side, its preservation by every
    operation, and the progress of the output buffer. *)

From S2P Require Import Prelude CxxString ByteBuffer Channel TcpConnection.
Import TcpConnection.

(** The errors after which [sendInLoop] and [handleWrite] give up. *)
Definition fatal (o : write_outcome) : bool :=
  match o with WriteError e => ((e =? EPIPE) || (e =? ECONNRESET))%Z | Wrote _ => false end.

Section stream.
Context {W : Type}.
Implicit Types (c : t W).

(** The sending side of an open connection: [out] is buffered, and what was
    sent, followed by [out], is all the data accepted so far. *)
Record sending (c : t W) (data out : bytes) : Prop := {
  snd_out : Buffer.holds (outputBuffer_ c) out;
  snd_data : sent c ++ out = data;
  snd_writing : Channel.isWriting (channel_ c) = negb (length out =? 0);
  snd_open : state_ c = kConnected \/ state_ c = kDisconnecting;
  snd_shut : writeShut c = bool_decide (state_ c = kDisconnecting) && (length out =? 0);
  snd_calm : Forall (fun o => fatal o = false) (outcomes c)
}.

Lemma sending_readable c data out :
  sending c data out -> Buffer.readableBytes (outputBuffer_ c) = length out.
Proof. intros [[Hwf <-] _ _ _ _ _]. by rewrite Buffer.length_content. Qed.

Lemma sending_wf c data out : sending c data out -> Buffer.wf (outputBuffer_ c).
Proof. by intros [[] _ _ _ _ _]. Qed.

(** ** What a write leaves *)

Lemma calm_tail c : Forall (fun o => fatal o = false) (outcomes c) ->
  Forall (fun o => fatal o = false) (tail (outcomes c)).
Proof. by intros []. Qed.

Lemma after_write_none c data out : sending c data out -> sending (after_write c []) data out.
Proof.
  intros [Hh Hd Hw Ho Hs Hc]. split; simpl; try done; [by rewrite app_nil_r|by apply calm_tail].
Qed.

Lemma after_write_some c data out n b :
  sending c data out -> n < length out -> Buffer.holds b (drop n out) ->
  sending (setOutput (after_write c (take n out)) b) data (drop n out).
Proof.
  intros [Hh Hd Hw Ho Hs Hc] Hn Hb.
  assert ((length (drop n out) =? 0) = (length out =? 0)) as El.
  { rewrite length_drop. by repeat nat_test. }
  split; simpl; try done; [by rewrite <- app_assoc, take_drop| | |by apply calm_tail].
  - by rewrite El.
  - by rewrite El.
Qed.

Lemma flushed_sending c data out b :
  sending c data out -> out <> [] -> Buffer.holds b [] ->
  sending (flushed (setOutput (after_write c out) b)) data [] /\
  state_ (flushed (setOutput (after_write c out) b)) = state_ c /\
  outcomes (flushed (setOutput (after_write c out) b)) = tail (outcomes c).
Proof.
  intros [Hh Hd Hw Ho Hs Hc] Hne Hb.
  assert ((length out =? 0) = false) as El by (destruct out; done).
  rewrite El, andb_false_r in Hs. unfold flushed, queue_write_complete, shutdownInLoop.
  apply calm_tail in Hc.
  destruct (writeCompleteCallback_ _); simpl; case_bool_decide as Hst; simpl;
    rewrite ?Channel.disableWriting_isWriting; (split; [|done]);
    split; simpl; rewrite ?app_nil_r; try done;
    first [ by rewrite Channel.disableWriting_isWriting
          | by rewrite bool_decide_true by done
          | by rewrite bool_decide_false by done ].
Qed.

(** ** handleWrite: what one call leaves in the queue

    [write_tasks cb n len]: the task left when [n] of [len] buffered bytes were
    taken. *)
Definition write_tasks (cb : option W) (n len : nat) : list (task W) :=
  if n =? 0 then []
  else if n =? len then match cb with Some cb => [TWriteComplete cb] | None => [] end
  else [THandleWrite].

(** [c'] is [c] after some writing: nothing but the output, the traffic and the
    queue has changed. *)
Record follows c c' : Prop := {
  fo_state : state_ c' = state_ c;
  fo_wcc : writeCompleteCallback_ c' = writeCompleteCallback_ c;
  fo_hwm : highWaterMarkCallback_ c' = highWaterMarkCallback_ c;
  fo_input : inputBuffer_ c' = inputBuffer_ c
}.

Lemma follows_refl c : follows c c.
Proof. by split. Qed.

Lemma follows_trans c1 c2 c3 : follows c1 c2 -> follows c2 c3 -> follows c1 c3.
Proof. intros [] []. split; congruence. Qed.

Lemma flushed_follows c : follows c (flushed c) /\
  queue (flushed c) = queue c ++ match writeCompleteCallback_ c with Some cb => [TWriteComplete cb] | None => [] end /\
  outcomes (flushed c) = outcomes c.
Proof.
  unfold flushed, queue_write_complete. cbn [writeCompleteCallback_ setChannel].
  destruct (writeCompleteCallback_ c) eqn:E; case_bool_decide; unfold shutdownInLoop; cbn [channel_ setChannel queueInLoop];
    rewrite ?Channel.disableWriting_isWriting; cbn; rewrite ?app_nil_r; (split; [by split; cbn|done]).
Qed.

Lemma handleWrite_effect c data out :
  sending c data out ->
  exists n c', handleWrite c = Some c' /\ n <= length out /\ sending c' data (drop n out) /\
    follows c c' /\ queue c' = queue c ++ write_tasks (writeCompleteCallback_ c) n (length out) /\
    outcomes c' = (if length out =? 0 then outcomes c else tail (outcomes c)) /\
    (forall k, head (outcomes c) = Some (Wrote (S k)) -> out <> [] -> 0 < n).
Proof.
  intros Hsd. pose proof Hsd as [Hh Hd Hw Ho Hs Hc]. unfold handleWrite. rewrite Hw.
  destruct (Nat.eqb_spec (length out) 0) as [E0|E0]; cbn [negb].
  { exists 0, c. apply nil_length_inv in E0 as ->. rewrite app_nil_r.
    split; [done|]. split; [done|]. split; [exact Hsd|]. split; [apply follows_refl|]. by split_and!. }
  assert (out <> []) as Hne by (by intros ->).
  pose proof Hh as [Hwf Hcont]. rewrite Hcont. unfold sys_write.
  assert (forall c0 l, outcomes c = l -> (forall k, head l <> Some (Wrote (S k))) -> c0 = after_write c [] ->
    exists n c', Some c0 = Some c' /\ n <= length out /\ sending c' data (drop n out) /\ follows c c' /\
      queue c' = queue c ++ write_tasks (writeCompleteCallback_ c) n (length out) /\
      outcomes c' = tail l /\ (forall k, head l = Some (Wrote (S k)) -> out <> [] -> 0 < n)) as Hnone.
  { intros c0 l El Hl ->. exists 0. eexists. split; [done|]. split; [lia|]. split; [by apply after_write_none|].
    split; [by split|]. split; [by rewrite app_nil_r|]. split; [by rewrite <- El|]. intros k Hk. by apply Hl in Hk. }
  destruct (outcomes c) as [|[n|e] l] eqn:Eo.
  - by apply Hnone.
  - destruct (Nat.min n (length out)) as [|k] eqn:Ek.
    { assert (n = 0) as -> by lia. rewrite take_0. by apply Hnone. }
    destruct (Buffer.retrieve_spec (outputBuffer_ c) (S k) Hwf) as (b & Eb & Hb).
    { rewrite (sending_readable _ _ _ Hsd). lia. }
    cbn [mbind option_bind outputBuffer_ after_write]. rewrite Eb. cbn [mbind option_bind].
    rewrite Hcont in Hb. rewrite <- (Buffer.length_content b), (proj2 Hb) by apply Hb.
    assert (take n out = take (S k) out) as ->.
    { rewrite <- Ek. destruct (decide (n <= length out)); [by rewrite Nat.min_l|].
      rewrite Nat.min_r, !take_ge by lia. done. }
    exists (S k). unfold write_tasks. change (S k =? 0) with false. cbv iota.
    destruct (Nat.eqb_spec (length (drop (S k) out)) 0) as [E1|E1].
    + rewrite length_drop in E1. assert (length out = S k) as El by lia. rewrite El, Nat.eqb_refl.
      rewrite drop_ge in Hb |- * by lia. rewrite take_ge by lia.
      destruct (flushed_sending c data out b Hsd Hne Hb) as (H1 & H2 & H3).
      destruct (flushed_follows (setOutput (after_write c out) b)) as ([] & Hq & _).
      eexists. split; [reflexivity|]. split; [lia|]. split; [exact H1|]. split; [by split|].
      split; [exact Hq|]. split; [by rewrite H3, Eo|]. lia.
    + rewrite length_drop in E1. assert ((S k =? length out) = false) as -> by (apply Nat.eqb_neq; lia).
      pose proof (after_write_some c data out (S k) b Hsd ltac:(lia) Hb) as [? ? ? ? ? ?].
      eexists. split; [reflexivity|]. split; [lia|]. split; [by split|]. split; [by split|].
      split; [done|]. split; [cbn; by rewrite Eo|]. lia.
  - apply Forall_cons in Hc as [He Hc]. unfold fatal in He. rewrite He, andb_false_r. by apply Hnone.
Qed.

(** The state a socket's answer leads to. *)
Lemma handleWrite_sending c data out :
  sending c data out ->
  exists c' out', handleWrite c = Some c' /\ sending c' data out' /\ state_ c' = state_ c /\
    length out' <= length out /\
    (out <> [] -> outcomes c' = tail (outcomes c)) /\
    (forall n, head (outcomes c) = Some (Wrote (S n)) -> out <> [] -> length out' < length out).
Proof.
  intros Hs. destruct (handleWrite_effect c data out Hs) as (n & c' & E & Hn & Hs' & Hf & _ & Ho & Hp).
  exists c', (drop n out). rewrite length_drop. split; [done|]. split; [done|].
  split; [apply Hf|]. split; [lia|]. split.
  - intros Hne. rewrite Ho. destruct (Nat.eqb_spec (length out) 0) as [E0|]; [by apply nil_length_inv in E0|done].
  - intros k Hk Hne. specialize (Hp k Hk Hne). destruct out; [done|cbn in *; lia].
Qed.

(** ** Sending *)

Lemma sending_queue c data out k : sending c data out -> sending (queueInLoop c k) data out.
Proof. by intros []. Qed.

(** More data in the buffer, with write events enabled. *)
Lemma sending_buffered c data out rest b :
  sending c data out -> state_ c = kConnected -> rest <> [] -> Buffer.holds b (out ++ rest) ->
  let c1 := setOutput c b in
  sending (if Channel.isWriting (channel_ c1) then c1
           else setChannel c1 (Channel.enableWriting (channel_ c1))) (data ++ rest) (out ++ rest).
Proof.
  intros [Hh Hd Hw Ho Hs Hc] Hst Hr Hb c1.
  assert ((length (out ++ rest) =? 0) = false) as El.
  { apply Nat.eqb_neq. rewrite length_app. destruct rest; [done|]. simpl. lia. }
  rewrite bool_decide_false in Hs by (by rewrite Hst).
  destruct (Channel.isWriting (channel_ c1)) eqn:Ew; split; simpl; try done;
    rewrite ?El, ?andb_false_r, <- ?Hd; try done; try by rewrite app_assoc.
  apply Channel.enableWriting_isWriting.
Qed.

Lemma bufferRest_sending c data out rest :
  sending c data out -> state_ c = kConnected -> rest <> [] ->
  exists c' out', bufferRest c rest = Some c' /\ sending c' (data ++ rest) out' /\
    state_ c' = kConnected.
Proof.
  intros Hsd Hst Hr. unfold bufferRest. set (oldLen := Buffer.readableBytes _).
  set (c1 := if (_ <=? _)%Z && _ && _ then queueInLoop c _ else c).
  assert (sending c1 data out /\ state_ c1 = kConnected) as [Hs1 Hst1].
  { unfold c1. destruct (_ && _ && _); by split; try apply sending_queue. }
  destruct (Buffer.append_spec (outputBuffer_ c1) out rest) as (b & Eb & Hb); [apply Hs1|].
  rewrite Eb. cbn [mbind option_bind].
  pose proof (sending_buffered c1 data out rest b Hs1 Hst1 Hr Hb) as Hs2. cbv zeta in Hs2.
  set (c2 := if Channel.isWriting _ then _ else _) in *.
  destruct (handleWrite_sending c2 _ _ Hs2) as (c3 & out3 & E3 & Hs3 & Hst3 & _).
  exists c3, out3. split; [exact E3|]. split; [done|]. rewrite Hst3. unfold c2.
  by destruct (Channel.isWriting _).
Qed.

(** The direct write, when nothing is buffered. *)
Lemma after_write_direct c data took :
  sending c data [] -> sending (after_write c took) (data ++ took) [].
Proof.
  intros [Hh Hd Hw Ho Hs Hc]. rewrite app_nil_r in Hd.
  split; simpl; try done; [by rewrite app_nil_r, Hd|by apply calm_tail].
Qed.

Lemma sendInLoop_sending c data out d :
  sending c data out -> state_ c = kConnected ->
  exists c' out', sendInLoop c d = Some c' /\ sending c' (data ++ d) out' /\ state_ c' = kConnected.
Proof.
  intros Hsd Hst. unfold sendInLoop. rewrite bool_decide_false by (by rewrite Hst).
  rewrite (sending_readable _ _ _ Hsd). pose proof Hsd as [_ _ -> _ _ Hc]. rewrite negb_involutive.
  (* The continuation, from the state after the direct write. *)
  assert (forall c1 n, sending c1 (data ++ take n d) (if length out =? 0 then [] else out) ->
    state_ c1 = kConnected -> exists c' out',
      (if negb false && (0 <? length d - n) then bufferRest c1 (drop n d) else Some c1) = Some c' /\
      sending c' (data ++ d) out' /\ state_ c' = kConnected) as Hrest.
  { intros c1 n Hs1 Hst1. destruct (Nat.ltb_spec 0 (length d - n)); simpl.
    - destruct (bufferRest_sending c1 _ _ (drop n d) Hs1 Hst1) as (c' & out' & E & Hs' & Hst').
      { intros E. apply (f_equal length) in E. rewrite length_drop in E. simpl in E. lia. }
      exists c', out'. split; [done|]. by rewrite <- app_assoc, take_drop in Hs'.
    - exists c1. eexists. split; [done|]. split; [|done]. rewrite take_ge in Hs1 by lia. exact Hs1. }
  destruct (Nat.eqb_spec (length out) 0) as [E0|E0]; cbn [andb].
  - apply nil_length_inv in E0. subst out. unfold sys_write.
    pose proof (after_write_direct c data) as Hw.
    destruct (outcomes c) as [|[n|e] l].
    + apply Hrest; [rewrite take_0; by apply Hw|done].
    + assert (take (Nat.min n (length d)) d = take n d) as Et.
      { destruct (decide (n <= length d)); [by rewrite Nat.min_l|].
        rewrite Nat.min_r, !take_ge by lia. done. }
      apply Hrest.
      * rewrite Et. destruct (_ =? 0); [|by apply Hw].
        unfold queue_write_complete. destruct (writeCompleteCallback_ _); [|by apply Hw].
        by apply sending_queue, Hw.
      * by destruct (_ =? 0); [unfold queue_write_complete; destruct (writeCompleteCallback_ _)|].
    + apply Forall_cons in Hc as [He _]. unfold fatal in He. rewrite He, andb_false_r.
      apply Hrest; [rewrite take_0; by apply Hw|done].
  - apply Hrest; [by rewrite take_0, app_nil_r|done].
Qed.

Lemma shutdown_sending c data out :
  sending c data out -> sending (shutdown c) data out.
Proof.
  intros Hsd. unfold shutdown. case_bool_decide as Hst; [|done]. destruct Hsd as [Hh Hd Hw Ho Hs Hc].
  rewrite bool_decide_false in Hs by (by rewrite Hst).
  unfold shutdownInLoop, setState. cbn [channel_]. rewrite Hw.
  destruct (length out =? 0) eqn:E; cbn [negb]; split; simpl; rewrite ?E; rewrite ?Hw, ?E; try done; try by right.
Qed.

Lemma shutdown_frame c : state_ c = kConnected ->
  state_ (shutdown c) = kDisconnecting /\ queue (shutdown c) = queue c /\
  writeCompleteCallback_ (shutdown c) = writeCompleteCallback_ c.
Proof.
  intros Hst. unfold shutdown, shutdownInLoop. rewrite bool_decide_true by done. by destruct (Channel.isWriting _).
Qed.

(** ** Runs *)

(** What may happen to an open connection: the application sends or shuts down;
    the socket is writable, or the queued [handleWrite] runs. *)
Inductive op :=
  | OpSend (d : bytes)
  | OpShutdown
  | OpWritable.

Definition step (c : t W) (o : op) : option (t W) :=
  match o with
  | OpSend d => send c d
  | OpShutdown => Some (shutdown c)
  | OpWritable => handleWrite c
  end.

(** What a send contributes: nothing once the connection is shutting down. *)
Definition accepted (c : t W) (o : op) : bytes :=
  match o with
  | OpSend d => if bool_decide (state_ c = kConnected) then d else []
  | _ => []
  end.

Fixpoint run (c : t W) (os : list op) : option (bytes * t W) :=
  match os with
  | [] => Some ([], c)
  | o :: os' =>
      c' ← step c o;
      '(rest, c'') ← run c' os';
      Some (accepted c o ++ rest, c'')
  end.

Lemma step_sending c data out o :
  sending c data out ->
  exists c' out', step c o = Some c' /\ sending c' (data ++ accepted c o) out'.
Proof.
  intros Hs. destruct o as [d| |]; cbn [step accepted]; rewrite ?app_nil_r.
  - unfold send. case_bool_decide as Hst.
    + destruct (sendInLoop_sending c data out d Hs Hst) as (c' & out' & ? & ? & _). eauto.
    + rewrite app_nil_r. eauto.
  - do 2 eexists. split; [done|]. by apply shutdown_sending.
  - destruct (handleWrite_sending c data out Hs) as (c' & out' & ? & ? & _). eauto.
Qed.

Lemma run_sending os : forall c data out,
  sending c data out ->
  exists acc c' out', run c os = Some (acc, c') /\ sending c' (data ++ acc) out'.
Proof.
  induction os as [|o os IH]; intros c data out Hs; cbn [run].
  - exists [], c, out. by rewrite app_nil_r.
  - destruct (step_sending c data out o Hs) as (c1 & out1 & E1 & Hs1). rewrite E1.
    destruct (IH c1 _ out1 Hs1) as (acc & c' & out' & E & Hs').
    cbn [mbind option_bind]. rewrite E. cbn [mbind option_bind].
    do 3 eexists. split; [reflexivity|]. by rewrite app_assoc.
Qed.

(** A new connection, once established. *)
Lemma established_sending fd outs :
  Forall (fun o => fatal o = false) outs ->
  exists c : t W, connectEstablished (create fd outs) = Some c /\ sending c [] [].
Proof.
  intros Hc. eexists. split; [reflexivity|].
  split; simpl; try done; [|by left].
  split; [apply Buffer.buffer_wf_create|apply Buffer.content_create].
Qed.

(** ** Progress *)

Fixpoint writable (n : nat) (c : t W) : option (t W) :=
  match n with
  | O => Some c
  | S n' => c' ← handleWrite c; writable n' c'
  end.

(** When every write takes something, as many write events as there are bytes
    buffered are enough to flush the buffer. *)
Lemma writable_flushes n : forall c data out,
  sending c data out -> length out <= n ->
  (forall i, i < n -> exists k, outcomes c !! i = Some (Wrote (S k))) ->
  exists c', writable n c = Some c' /\ sending c' data [].
Proof.
  induction n as [|n IH]; intros c data out Hs Hl Hout; cbn [writable].
  - assert (out = []) as -> by (apply nil_length_inv; lia). eauto.
  - destruct (handleWrite_sending c data out Hs) as (c1 & out1 & E & Hs1 & _ & Hle & Ho1 & Hlt).
    rewrite E. cbn [mbind option_bind].
    destruct (decide (out = [])) as [->|Hne].
    + apply (IH c1 data out1); [done|simpl in Hle; lia|].
      assert (c1 = c) as ->.
      { pose proof (snd_writing _ _ _ Hs) as Hw. unfold handleWrite in E. rewrite Hw in E.
        by injection E as <-. }
      intros i Hi. apply Hout. lia.
    + destruct (Hout 0) as [k Hk]; [lia|].
      assert (length out1 < length out) as Hlt1.
      { apply (Hlt k); [|done]. by destruct (outcomes c); simplify_eq/=. }
      apply (IH c1 data out1); [done|lia|]. intros i Hi. rewrite Ho1 by done.
      destruct (Hout (S i)) as [k' Hk']; [lia|]. exists k'. by destruct (outcomes c); simplify_eq/=.
Qed.

(** What a channel with data is registered for does not matter to the rest. *)
Lemma bufferRest_effect c data out rest :
  sending c data out -> state_ c = kConnected -> rest <> [] -> highWaterMarkCallback_ c = false ->
  exists n c', bufferRest c rest = Some c' /\ n <= length (out ++ rest) /\
    sending c' (data ++ rest) (drop n (out ++ rest)) /\ follows c c' /\
    queue c' = queue c ++ write_tasks (writeCompleteCallback_ c) n (length (out ++ rest)) /\
    outcomes c' = tail (outcomes c) /\
    (forall k, head (outcomes c) = Some (Wrote (S k)) -> 0 < n).
Proof.
  intros Hsd Hst Hr Hhwm. unfold bufferRest. rewrite Hhwm, andb_false_r.
  destruct (Buffer.append_spec (outputBuffer_ c) out rest) as (b & Eb & Hb); [apply Hsd|].
  rewrite Eb. cbn [mbind option_bind].
  pose proof (sending_buffered c data out rest b Hsd Hst Hr Hb) as Hs2. cbv zeta in Hs2.
  set (c2 := if Channel.isWriting _ then _ else _) in *.
  assert (follows c c2 /\ queue c2 = queue c /\ outcomes c2 = outcomes c) as (Hf & Hq & Ho).
  { unfold c2. by destruct (Channel.isWriting _). }
  destruct (handleWrite_effect c2 _ _ Hs2) as (n & c3 & E3 & Hn & Hs3 & Hf3 & Hq3 & Ho3 & Hp).
  assert (out ++ rest <> []) as Hne by (destruct out, rest; done).
  exists n, c3. split; [exact E3|]. split; [done|]. split; [exact Hs3|].
  split; [by eapply follows_trans|]. rewrite Hq3, Ho3, Hq, Ho, (fo_wcc _ _ Hf).
  split; [done|]. split; [|intros k Hk; apply (Hp k); [by rewrite Ho|done]].
  destruct (Nat.eqb_spec (length (out ++ rest)) 0) as [E|]; [by apply nil_length_inv in E|done].
Qed.

(** Every write takes something. *)
Definition eager (os : list write_outcome) : Prop := Forall (fun o => exists k, o = Wrote (S k)) os.

Lemma eager_drop n os : eager os -> eager (drop n os).
Proof. apply Forall_drop. Qed.

Lemma eager_head os : eager os -> 0 < length os -> exists k, head os = Some (Wrote (S k)).
Proof. intros [|o l [k ->] _]; cbn; [lia|]. eauto. Qed.

(** Sending [d] when nothing is buffered: [n] bytes go at once, in [j] writes. *)
Definition sends c data d cb (x : option (t W)) : Prop :=
  exists n j c', x = Some c' /\ n <= length d /\ sending c' (data ++ d) (drop n d) /\ follows c c' /\
    (exists q, queue c' = queue c ++ q /\
       (q = (if n =? length d then [TWriteComplete cb] else [THandleWrite]) \/ (n < length d /\ q = []))) /\
    outcomes c' = drop j (outcomes c) /\
    (eager (outcomes c) -> length d <= length (outcomes c) -> 0 < n /\ j <= n).

(** The rest of the data, after a direct write of [m] bytes. *)
Lemma bufferRest_sends c data d cb c1 m :
  state_ c = kConnected -> writeCompleteCallback_ c = Some cb -> highWaterMarkCallback_ c = false ->
  sending c1 (data ++ take m d) [] -> follows c c1 -> m < length d ->
  queue c1 = queue c -> outcomes c1 = tail (outcomes c) ->
  (eager (outcomes c) -> 0 < length (outcomes c) -> 0 < m) ->
  sends c data d cb (bufferRest c1 (drop m d)).
Proof.
  intros Hst Hcb Hhwm Hs1 Hf Hm Hq1 Ho1 He1.
  assert (length (drop m d) = length d - m) as Hld by apply length_drop.
  destruct (bufferRest_effect c1 _ _ (drop m d) Hs1) as (n & c' & E & Hn & Hs' & Hf' & Hq' & Ho' & Hp).
  - by rewrite (fo_state _ _ Hf).
  - intros E. rewrite E in Hld. cbn in Hld. lia.
  - by rewrite (fo_hwm _ _ Hf).
  - cbn [app] in Hn, Hs', Hq'. exists (m + n), 2, c'. split; [done|]. split; [lia|].
    split; [by rewrite <- app_assoc, take_drop, drop_drop in Hs'|].
    split; [by eapply follows_trans|].
    split.
    + eexists. rewrite Hq', Hq1. split; [done|]. unfold write_tasks. rewrite (fo_wcc _ _ Hf), Hcb, Hld.
      destruct (Nat.eqb_spec n 0) as [->|]; [right; split; [lia|done]|left].
      destruct (Nat.eqb_spec n (length d - m)), (Nat.eqb_spec (m + n) (length d)); try lia; done.
    + rewrite Ho', Ho1. split; [by destruct (outcomes c) as [|? [|]]|]. intros He Hl.
      assert (0 < m) as Hm0 by (apply He1; [done|lia]).
      destruct (eager_head (tail (outcomes c))) as [k Hk].
      * by apply Forall_tail.
      * destruct (outcomes c); cbn in *; lia.
      * specialize (Hp k). rewrite Ho1 in Hp. specialize (Hp Hk). lia.
Qed.

Lemma sendInLoop_effect c data d cb :
  sending c data [] -> state_ c = kConnected -> writeCompleteCallback_ c = Some cb ->
  highWaterMarkCallback_ c = false -> d <> [] -> sends c data d cb (sendInLoop c d).
Proof.
  intros Hsd Hst Hcb Hhwm Hd. unfold sendInLoop. rewrite bool_decide_false by (by rewrite Hst).
  rewrite (sending_readable _ _ _ Hsd). pose proof Hsd as [_ _ -> _ _ Hc]. cbn [length Nat.eqb negb andb].
  assert (0 < length d) as Hlen by (destruct d; [done|cbn; lia]).
  assert (forall l, outcomes c = l -> (forall k l', l <> Wrote (S k) :: l') ->
    sends c data d cb (bufferRest (after_write c []) (drop 0 d))) as Hnone.
  { intros l El Hl. apply bufferRest_sends; try done.
    - rewrite take_0. by apply after_write_direct.
    - intros He Hpos. rewrite El in *. destruct He as [|o os [k ->]]; [cbn in Hpos; lia|].
      by destruct (Hl k os). }
  unfold sys_write. destruct (outcomes c) as [|[m|e] l] eqn:Eo; cbn [negb andb].
  - rewrite Nat.sub_0_r, (proj2 (Nat.ltb_lt _ _) Hlen). by apply (Hnone []).
  - assert (take (Nat.min m (length d)) d = take m d) as Et.
    { destruct (decide (m <= length d)); [by rewrite Nat.min_l|].
      rewrite Nat.min_r, !take_ge by lia. done. }
    pose proof (after_write_direct c data) as Hw.
    destruct (Nat.eqb_spec (length d - Nat.min m (length d)) 0) as [E0|E0].
    + assert ((0 <? length d - Nat.min m (length d)) = false) as -> by (apply Nat.ltb_ge; lia).
      exists (length d), 1. eexists. split; [reflexivity|]. split; [done|].
      rewrite drop_all. unfold queue_write_complete. cbn [writeCompleteCallback_ after_write]. rewrite Hcb.
      rewrite take_ge by lia. split; [apply sending_queue; by apply Hw|]. split; [by split|].
      split; [exists [TWriteComplete cb]; rewrite Nat.eqb_refl; by split; [|left]|].
      split; [cbn; by rewrite Eo|]. intros _ _. lia.
    + assert ((0 <? length d - Nat.min m (length d)) = true) as -> by (apply Nat.ltb_lt; lia).
      rewrite (Nat.min_l m) in * by lia.
      apply bufferRest_sends; try done; [by apply Hw|lia|].
      intros He _. rewrite Eo in He. inversion He as [|? ? [k [= ->]]]. lia.
  - apply Forall_cons in Hc as [He _]. unfold fatal in He. rewrite He, andb_false_r. cbn [negb andb].
    rewrite Nat.sub_0_r, (proj2 (Nat.ltb_lt _ _) Hlen). by apply (Hnone (WriteError e :: l)).
Qed.

End stream.
