(* ===== verification/Lifecycle.v ===== *)
(** * The life of a connection

    What an operation of a connection may do to its state, to the events its
    channel asks for, and to its owner: no operation fails an assertion, a
    connection that is down stays down, and going down is announced once. *)

From S2P Require Import Prelude CxxString ByteBuffer Channel TcpConnection.
Import TcpConnection.

#[export] Instance event_eq_dec : EqDecision event.
Proof. solve_decision. Defined.

Section life.
Context {W : Type}.
Implicit Types (c : t W).

Definition is_open c : Prop := state_ c = kConnected \/ state_ c = kDisconnecting.

#[export] Instance is_open_dec c : Decision (is_open c).
Proof. unfold is_open. apply _. Defined.

(** The buffers are well formed, and a connection that is not up asks for no
    event. *)
Record sound c : Prop := {
  so_in : Buffer.wf (inputBuffer_ c);
  so_out : Buffer.wf (outputBuffer_ c);
  so_quiet : ~ is_open c -> Channel.events_ (channel_ c) = 0%Z;
  so_events : (0 <= Channel.events_ (channel_ c) < 8)%Z
}.

Lemma sound_create fd outs : sound (create (W:=W) fd outs).
Proof. split; cbn; [apply Buffer.buffer_wf_create..|done|lia]. Qed.

(** The updates a channel has asked for: the last one is what it asks for now. *)
Record asks (ch ch' : Channel.t) (us : list Z) : Prop := {
  ask_updates : Channel.updates ch' = Channel.updates ch ++ us;
  ask_events : Forall (fun e => 0 <= e < 8)%Z us;
  ask_last : Channel.events_ ch' = default (Channel.events_ ch) (last us);
  ask_added : us = [] -> Channel.addedToLoop_ ch' = Channel.addedToLoop_ ch;
  ask_tie : Channel.tie_ ch' = Channel.tie_ ch
}.

(** What an operation does. *)
Record after c c' (us : list Z) (es : list event) : Prop := {
  af_sound : sound c';
  af_fd : Channel.fd_ (channel_ c') = Channel.fd_ (channel_ c);
  af_asks : asks (channel_ c) (channel_ c') us;
  af_events : events c' = events c ++ es;
  af_close : EClose ∈ es <-> is_open c /\ ~ is_open c';
  af_down : ~ is_open c -> state_ c' = state_ c;
  af_up : is_open c -> ~ is_open c' -> state_ c' = kDisconnected;
  af_silent : ~ is_open c -> us = []
}.

(** The operation [m] ends without a failed assertion. *)
Definition does c (m : option (t W)) : Prop := exists c' us es, m = Some c' /\ after c c' us es.

Lemma asks_nil ch : asks ch ch [].
Proof. split; [by rewrite app_nil_r|done..]. Qed.

Lemma asks_app ch1 ch2 ch3 us us' : asks ch1 ch2 us -> asks ch2 ch3 us' -> asks ch1 ch3 (us ++ us').
Proof.
  intros [E1 F1 L1 A1 T1] [E2 F2 L2 A2 T2]. split; [by rewrite E2, E1, app_assoc|by apply Forall_app| | |by rewrite T2].
  - rewrite L2, L1, last_app. by destruct (last us').
  - intros [-> ->]%app_eq_nil. by rewrite A2, A1.
Qed.

Lemma after_refl c : sound c -> after c c [] [].
Proof.
  intros Hs. split; try done; [apply asks_nil|by rewrite app_nil_r|]. split; [by intros ?%not_elem_of_nil|tauto].
Qed.

Lemma after_trans c1 c2 c3 us es us' es' :
  after c1 c2 us es -> after c2 c3 us' es' -> after c1 c3 (us ++ us') (es ++ es').
Proof.
  intros [S1 F1 A1 E1 C1 D1 U1 N1] [S2 F2 A2 E2 C2 D2 U2 N2].
  assert (~ is_open c1 -> ~ is_open c2) as Hd by (intros H; unfold is_open; by rewrite D1).
  assert (~ is_open c2 -> ~ is_open c3) as Hd' by (intros H; unfold is_open; by rewrite D2).
  split; [done|congruence|by eapply asks_app|by rewrite E2, E1, app_assoc| | | |].
  - rewrite elem_of_app, C1, C2. clear - Hd Hd'. destruct (decide (is_open c1)), (decide (is_open c2)); tauto.
  - intros H. rewrite D2 by auto. auto.
  - intros H H3. destruct (decide (is_open c2)) as [H2|H2]; [auto|]. rewrite D2; auto.
  - intros H. by rewrite N1, N2 by auto.
Qed.

Lemma does_ret c : sound c -> does c (Some c).
Proof. intros Hs. by exists c, [], []; split; [|apply after_refl]. Qed.

Lemma does_after c c1 us es m : after c c1 us es -> (sound c1 -> does c1 m) -> does c m.
Proof.
  intros Ha Hd. destruct (Hd (af_sound _ _ _ _ Ha)) as (c' & us' & es' & -> & Ha').
  do 3 eexists. split; [done|]. by eapply after_trans.
Qed.

(** ** The steps operations are made of *)

(** A step that leaves state, channel and callbacks alone. *)
Lemma after_same c c' :
  sound c -> Buffer.wf (inputBuffer_ c') -> Buffer.wf (outputBuffer_ c') ->
  state_ c' = state_ c -> channel_ c' = channel_ c -> events c' = events c -> after c c' [] [].
Proof.
  intros [Hi Ho Hq He] Hi' Ho' Hst Hch Hev.
  assert (is_open c' <-> is_open c) as Hop by (unfold is_open; by rewrite Hst).
  split; rewrite ?Hch; try done; [split; rewrite ?Hch; try done; intros H; apply Hq; tauto|apply asks_nil| | |].
  - by rewrite app_nil_r.
  - split; [by intros ?%not_elem_of_nil|tauto].
  - tauto.
Qed.

Lemma after_queue c k : sound c -> after c (queueInLoop c k) [] [].
Proof. intros Hs. by apply after_same; try apply Hs. Qed.
Lemma after_wrote c took : sound c -> after c (after_write c took) [] [].
Proof. intros Hs. by apply after_same; try apply Hs. Qed.
Lemma after_shut c : sound c -> after c (shutdownWrite c) [] [].
Proof. intros Hs. by apply after_same; try apply Hs. Qed.
Lemma after_clear c : sound c -> after c (clearQueue c) [] [].
Proof. intros Hs. by apply after_same; try apply Hs. Qed.
Lemma after_output c b : sound c -> Buffer.wf b -> after c (setOutput c b) [] [].
Proof. intros Hs Hb. by apply after_same; try apply Hs. Qed.
Lemma after_input c b : sound c -> Buffer.wf b -> after c (setInput c b) [] [].
Proof. intros Hs Hb. by apply after_same; try apply Hs. Qed.

(** A message is announced. *)
Lemma after_emit c e : sound c -> e <> EClose -> after c (emit c e) [] [e].
Proof.
  intros [Hi Ho Hq He] Hne. split; try done; [apply asks_nil|]. split; [|intros []; done].
  intros E%list_elem_of_singleton. by destruct Hne.
Qed.

(** The channel of an open connection changes what it asks for. *)
Lemma after_channel c ch e :
  sound c -> is_open c -> (0 <= e < 8)%Z -> Channel.fd_ ch = Channel.fd_ (channel_ c) ->
  Channel.events_ ch = e -> Channel.updates ch = Channel.updates (channel_ c) ++ [e] ->
  Channel.tie_ ch = Channel.tie_ (channel_ c) ->
  after c (setChannel c ch) [e] [].
Proof.
  intros [Hi Ho Hq He] Hop Hb Hf Hev Hu Ht. split; try done.
  - split; try done. cbn. lia.
  - split; try done. by constructor.
  - cbn. by rewrite app_nil_r.
  - split; [by intros ?%not_elem_of_nil|]. by intros [_ []].
Qed.

Lemma small_cases e : (0 <= e < 8)%Z -> e ∈ [0; 1; 2; 3; 4; 5; 6; 7]%Z.
Proof. intros. rewrite !elem_of_cons, elem_of_nil. lia. Qed.

Lemma after_enableWriting c : sound c -> is_open c ->
  exists e, after c (setChannel c (Channel.enableWriting (channel_ c))) [e] [].
Proof.
  intros Hs Hop. eexists. apply after_channel; [done|done| |done|reflexivity|done|done]. cbn.
  pose proof (small_cases _ (so_events _ Hs)) as Hin. revert Hin. generalize (Channel.events_ (channel_ c)).
  intros e Hin. repeat (apply elem_of_cons in Hin as [->|Hin]; [done|]). by apply not_elem_of_nil in Hin.
Qed.

Lemma after_disableWriting c : sound c -> is_open c ->
  exists e, after c (setChannel c (Channel.disableWriting (channel_ c))) [e] [].
Proof.
  intros Hs Hop. eexists. apply after_channel; [done|done| |done|reflexivity|done|done]. cbn.
  pose proof (small_cases _ (so_events _ Hs)) as Hin. revert Hin. generalize (Channel.events_ (channel_ c)).
  intros e Hin. repeat (apply elem_of_cons in Hin as [->|Hin]; [done|]). by apply not_elem_of_nil in Hin.
Qed.

Lemma writing_open c : sound c -> Channel.isWriting (channel_ c) = true -> is_open c.
Proof.
  intros Hs Hw. destruct (decide (is_open c)) as [|Hn]; [done|].
  unfold Channel.isWriting in Hw. by rewrite (so_quiet _ Hs Hn) in Hw.
Qed.

(** ** Every operation *)

Lemma handleClose_does c : sound c -> is_open c -> does c (handleClose c).
Proof.
  intros Hs Hop. unfold handleClose.
  assert (bool_decide (state_ c = kConnected) || bool_decide (state_ c = kDisconnecting) = true) as ->.
  { destruct Hop as [-> | ->]; done. }
  do 3 eexists. split; [reflexivity|].
  assert (~ is_open (setState c kDisconnected)) as Hn by by intros [].
  split; cbn [events emit setChannel setState state_ channel_].
  - destruct Hs. split; try done; cbn; lia.
  - done.
  - split; try done. by repeat constructor.
  - by rewrite <- app_assoc.
  - split; [done|]. intros _. by right; left.
  - done.
  - done.
  - done.
Qed.

Lemma shutdownInLoop_after c : sound c -> after c (shutdownInLoop c) [] [].
Proof. intros Hs. unfold shutdownInLoop. destruct (Channel.isWriting _); [by apply after_refl|by apply after_shut]. Qed.

Lemma flushed_does c : sound c -> is_open c -> does c (Some (flushed c)).
Proof.
  intros Hs Hop. unfold flushed. destruct (after_disableWriting c Hs Hop) as [e He].
  eapply does_after; [exact He|]. intros Hs1. set (c1 := setChannel _ _) in *. unfold queue_write_complete.
  assert (forall c2, sound c2 -> does c2 (Some (if bool_decide (state_ c2 = kDisconnecting) then shutdownInLoop c2 else c2)))
    as Hd.
  { intros c2 Hs2. case_bool_decide; [|by apply does_ret]. do 3 eexists. split; [done|]. by apply shutdownInLoop_after. }
  destruct (writeCompleteCallback_ c1) as [cb|]; [|by apply Hd].
  eapply does_after; [by apply (after_queue _ (TWriteComplete cb))|]. apply Hd.
Qed.

Lemma handleWrite_does c : sound c -> does c (handleWrite c).
Proof.
  intros Hs. unfold handleWrite. destruct (Channel.isWriting (channel_ c)) eqn:Ew; [|by apply does_ret].
  pose proof (writing_open c Hs Ew) as Hop. set (d := Buffer.content (outputBuffer_ c)).
  assert (forall took, does c (Some (after_write c took))) as Hret.
  { intros took. eapply does_after; [by apply (after_wrote c took)|]. apply does_ret. }
  assert (forall e took, does c (if (negb (e =? EWOULDBLOCK) && negb (e =? EAGAIN) && ((e =? EPIPE) || (e =? ECONNRESET)))%Z
    then handleClose (after_write c took) else Some (after_write c took))) as Herr.
  { intros e took. destruct (_ && _)%bool; [|by apply Hret].
    eapply does_after; [by apply (after_wrote c took)|]. intros Hs1. by apply handleClose_does. }
  unfold sys_write. destruct (outcomes c) as [|[n|e] l]; [by apply Herr| |by apply Herr].
  destruct (Nat.min n (length d)) as [|k] eqn:Ek; [by apply Hret|].
  pose proof (so_out _ Hs) as Hwf.
  destruct (Buffer.retrieve_spec (outputBuffer_ c) (S k) Hwf) as (b & Eb & Hb & _).
  { rewrite <- (Buffer.length_content _ Hwf). fold d. lia. }
  cbn [outputBuffer_ after_write]. rewrite Eb. cbn [mbind option_bind].
  eapply does_after; [by apply (after_wrote c (take n d))|]. intros Hs1.
  eapply does_after; [by apply (after_output _ b)|]. intros Hs2.
  destruct (Buffer.readableBytes b =? 0); [by apply flushed_does|].
  eapply does_after; [by apply (after_queue _ THandleWrite)|]. apply does_ret.
Qed.

Lemma bufferRest_does c rest : sound c -> is_open c -> does c (bufferRest c rest).
Proof.
  intros Hs Hop. unfold bufferRest. cbv zeta.
  set (n := Buffer.readableBytes (outputBuffer_ c) + length rest).
  assert (exists c1, after c c1 [] [] /\ is_open c1 /\ outputBuffer_ c1 = outputBuffer_ c /\
    (if (highWaterMark_ c <=? Z.of_nat n)%Z && (Z.of_nat (Buffer.readableBytes (outputBuffer_ c)) <? highWaterMark_ c)%Z &&
        highWaterMarkCallback_ c then queueInLoop c (THighWaterMark n) else c) = c1) as (c1 & H1 & Hop1 & Eo & ->).
  { destruct (_ && _)%bool; eexists; [split; [by apply (after_queue c (THighWaterMark n))|done]|by split; [apply after_refl|]]. }
  eapply does_after; [exact H1|]. intros Hs1.
  destruct (Buffer.append_spec (outputBuffer_ c1) _ rest (conj (so_out _ Hs1) eq_refl)) as (b & -> & Hb & _).
  cbn [mbind option_bind]. eapply does_after; [by apply (after_output _ b)|]. intros Hs2.
  destruct (Channel.isWriting _); [by apply handleWrite_does|].
  destruct (after_enableWriting (setOutput c1 b) Hs2 Hop1) as [e He].
  eapply does_after; [exact He|]. apply handleWrite_does.
Qed.

Lemma sendInLoop_does c data : sound c -> state_ c <> kConnecting -> does c (sendInLoop c data).
Proof.
  intros Hs Hne. unfold sendInLoop. case_bool_decide as Hd; [by apply does_ret|].
  assert (is_open c) as Hop by (unfold is_open; destruct (state_ c); tauto).
  assert (forall c1 (b : bool) rest, after c c1 [] [] -> is_open c1 ->
    does c (if b then bufferRest c1 rest else Some c1)) as Hk.
  { intros c1 b rest Ha Hop1. eapply does_after; [exact Ha|]. intros Hs1.
    destruct b; [by apply bufferRest_does|by apply does_ret]. }
  destruct (_ && _)%bool; [|by apply Hk; [apply after_refl|]].
  assert (forall took, after c (after_write c took) [] []) as Hw by (intros; by apply after_wrote).
  unfold sys_write. destruct (outcomes c) as [|[n|e] l]; [by apply Hk| |by apply Hk].
  destruct (_ =? 0); [|by apply Hk]. apply Hk.
  - unfold queue_write_complete. destruct (writeCompleteCallback_ _) as [cb|]; [|done].
    refine (after_trans _ _ _ [] [] [] [] (Hw _) _). by apply after_queue, (af_sound _ _ _ _ (Hw _)).
  - unfold queue_write_complete. by destruct (writeCompleteCallback_ _).
Qed.

Lemma send_does c data : sound c -> does c (send c data).
Proof.
  intros Hs. unfold send. case_bool_decide as Hst; [|by apply does_ret]. apply sendInLoop_does; [done|congruence].
Qed.

(** An open connection is closing. *)
Lemma after_disconnecting c : sound c -> is_open c -> after c (setState c kDisconnecting) [] [].
Proof.
  intros [Hi Ho Hq He] Hop. assert (is_open (setState c kDisconnecting)) as Hop' by by right.
  split; try done; [apply asks_nil|cbn; by rewrite app_nil_r|].
  split; [by intros ?%not_elem_of_nil|tauto].
Qed.

Lemma shutdown_does c : sound c -> does c (Some (shutdown c)).
Proof.
  intros Hs. unfold shutdown. case_bool_decide as Hst; [|by apply does_ret].
  eapply does_after; [apply after_disconnecting; [done|by left]|]. intros Hs1.
  do 3 eexists. split; [done|]. by apply shutdownInLoop_after.
Qed.

Lemma open_test c : bool_decide (state_ c = kConnected) || bool_decide (state_ c = kDisconnecting) = bool_decide (is_open c).
Proof. repeat case_bool_decide; unfold is_open in *; tauto. Qed.

Lemma forceClose_does c : sound c -> does c (Some (forceClose c)).
Proof.
  intros Hs. unfold forceClose. rewrite open_test. case_bool_decide as Hop; [|by apply does_ret].
  eapply does_after; [by apply after_disconnecting|]. intros Hs1.
  do 3 eexists. split; [done|]. by apply after_queue.
Qed.

Lemma forceCloseInLoop_does c : sound c -> does c (forceCloseInLoop c).
Proof.
  intros Hs. unfold forceCloseInLoop. rewrite open_test. case_bool_decide as Hop; [by apply handleClose_does|by apply does_ret].
Qed.

(** Reading at the end of the stream closes the connection, which must be open. *)
Lemma handleRead_does c r :
  sound c -> is_open c -> (forall d, r = inr d -> length d <= Buffer.readv_room (inputBuffer_ c)) ->
  does c (handleRead c r).
Proof.
  intros Hs Hop Hroom. unfold handleRead.
  assert (exists n err b, Buffer.readFd (inputBuffer_ c) r = Some (n, err, b) /\ Buffer.wf b) as (n & err & b & -> & Hb).
  { destruct r as [e|d]; [do 3 eexists; split; [done|apply Hs]|].
    destruct (Buffer.readFd_spec _ _ d (conj (so_in _ Hs) eq_refl) (Hroom d eq_refl)) as (b & -> & Hb & _).
    by do 3 eexists. }
  cbn [mbind option_bind]. eapply does_after; [by apply (after_input c b)|]. intros Hs1.
  destruct (0 <? n)%Z; [eapply does_after; [by apply (after_emit _ EMessage)|]; apply does_ret|].
  destruct (n =? 0)%Z; [by apply handleClose_does|by apply does_ret].
Qed.

Lemma runTask_does c k : sound c -> state_ c <> kConnecting -> does c (runTask c k).
Proof.
  intros Hs Hne. destruct k; cbn [runTask]; auto using does_ret, handleWrite_does, forceCloseInLoop_does, sendInLoop_does.
  do 3 eexists. split; [done|]. by apply shutdownInLoop_after.
Qed.

End life.
