(* ===== verification/EPollPoller.v ===== *)
(** * The epoll poller (network/poller/EPollPoller)

    The poller's channel map and the kernel's interest set, which
    [updateChannel] and [removeChannel] keep in step with the channels. *)

From S2P Require Import Prelude Channel Poller.

#[local] Open Scope Z_scope.

Module EPollPoller.

Definition kNew : Z := -1.
Definition kAdded : Z := 1.
Definition kDeleted : Z := 2.
Definition kInitEventListSize : nat := 16.

Inductive ctl := EPOLL_CTL_ADD | EPOLL_CTL_MOD | EPOLL_CTL_DEL.

(** [channels_], the size of [events_], and the epoll instance: the descriptors
    registered, each with its events and the channel in [data.ptr].  The
    channels are objects: [heap] maps an identity to its state. *)
Record t := mk {
  channels_ : gmap Z nat;
  events_size : nat;
  interest : gmap Z (Z * nat);
  heap : gmap nat Channel.t
}.

Definition create (heap : gmap nat Channel.t) : t := mk ∅ kInitEventListSize ∅ heap.

Definition set_channels (p : t) (m : gmap Z nat) : t := mk m (events_size p) (interest p) (heap p).
Definition set_interest (p : t) (m : gmap Z (Z * nat)) : t := mk (channels_ p) (events_size p) m (heap p).
Definition set_channel (p : t) (id : nat) (c : Channel.t) : t :=
  mk (channels_ p) (events_size p) (interest p) (<[id := c]> (heap p)).

(** [epoll_ctl], in the kernel: [None] is an error (EEXIST, ENOENT). *)
Definition epoll_ctl (k : gmap Z (Z * nat)) (op : ctl) (fd events : Z) (id : nat) :
    option (gmap Z (Z * nat)) :=
  match op, k !! fd with
  | EPOLL_CTL_ADD, None => Some (<[fd := (events, id)]> k)
  | EPOLL_CTL_MOD, Some _ => Some (<[fd := (events, id)]> k)
  | EPOLL_CTL_DEL, Some _ => Some (delete fd k)
  | _, _ => None
  end.

(** [update]: an error of a DEL is logged, of an ADD or a MOD it aborts. *)
Definition update (p : t) (op : ctl) (id : nat) (c : Channel.t) : option t :=
  match epoll_ctl (interest p) op (Channel.fd_ c) (Channel.events_ c) id with
  | Some k => Some (set_interest p k)
  | None => match op with EPOLL_CTL_DEL => Some p | _ => None end
  end.

(** A failed assertion and an abort are [None]. *)
Definition updateChannel (p : t) (id : nat) : option t :=
  c ← heap p !! id;
  let fd := Channel.fd_ c in
  let index := Channel.index_ c in
  if (index =? kNew) || (index =? kDeleted) then
    p ← (if index =? kNew then
           match channels_ p !! fd with
           | None => Some (set_channels p (<[fd := id]> (channels_ p)))
           | Some _ => None
           end
         else if bool_decide (channels_ p !! fd = Some id) then Some p else None);
    let c := Channel.set_index c kAdded in
    update (set_channel p id c) EPOLL_CTL_ADD id c
  else if bool_decide (channels_ p !! fd = Some id) && (index =? kAdded) then
    if Channel.isNoneEvent c then
      p ← update p EPOLL_CTL_DEL id c;
      Some (set_channel p id (Channel.set_index c kDeleted))
    else update p EPOLL_CTL_MOD id c
  else None.

Definition removeChannel (p : t) (id : nat) : option t :=
  c ← heap p !! id;
  let fd := Channel.fd_ c in
  let index := Channel.index_ c in
  if bool_decide (channels_ p !! fd = Some id) && Channel.isNoneEvent c
     && ((index =? kAdded) || (index =? kDeleted)) then
    let p := set_channels p (delete fd (channels_ p)) in
    p ← (if index =? kAdded then update p EPOLL_CTL_DEL id c else Some p);
    Some (set_channel p id (Channel.set_index c kNew))
  else None.

Definition hasChannel (p : t) (id : nat) : bool :=
  match heap p !! id with
  | Some c => bool_decide (channels_ p !! Channel.fd_ c = Some id)
  | None => false
  end.

(** [fillActiveChannels] on the events the kernel returned: each names the
    channel it was registered with. *)
Fixpoint fillActiveChannels (p : t) (evs : list (Z * nat)) : option (list nat * t) :=
  match evs with
  | [] => Some ([], p)
  | (revents, id) :: evs' =>
      c ← heap p !! id;
      if bool_decide (channels_ p !! Channel.fd_ c = Some id) then
        '(active, p') ← fillActiveChannels (set_channel p id (Channel.set_revents c revents)) evs';
        Some (id :: active, p')
      else None
  end.

(** [poll] on the events returned by [epoll_wait]; the event array doubles when
    it was full. *)
Definition poll (p : t) (evs : list (Z * nat)) : option (list nat * t) :=
  match evs with
  | [] => Some ([], p)
  | _ =>
      '(active, p') ← fillActiveChannels p evs;
      Some (active, if (length evs =? events_size p')%nat
                    then mk (channels_ p') (events_size p' * 2) (interest p') (heap p') else p')
  end.

(** ** The invariant *)

(** Where a channel stands, by its index. *)
Definition in_step (p : t) (id : nat) (c : Channel.t) : Prop :=
  let fd := Channel.fd_ c in
  (Channel.index_ c = kNew /\ channels_ p !! fd <> Some id) \/
  (Channel.index_ c = kAdded /\ channels_ p !! fd = Some id /\ exists e, interest p !! fd = Some (e, id)) \/
  (Channel.index_ c = kDeleted /\ channels_ p !! fd = Some id /\ interest p !! fd = None).

(** What is registered is a channel of the map, with its descriptor. *)
Record wf (p : t) : Prop := {
  wf_step : forall id c, heap p !! id = Some c -> in_step p id c;
  wf_map : forall fd id, channels_ p !! fd = Some id ->
    exists c, heap p !! id = Some c /\ Channel.fd_ c = fd;
  wf_interest : forall fd e id, interest p !! fd = Some (e, id) -> channels_ p !! fd = Some id
}.

(** The kernel waits for exactly the events the channel [c] asks for: none when
    it is not registered. *)
Definition watched (p : t) (id : nat) (c : Channel.t) : Prop :=
  match interest p !! Channel.fd_ c with
  | Some (e, id') => id' = id /\ e = Channel.events_ c
  | None => Channel.events_ c = 0
  end.

Lemma epoll_wf_create heap :
  (forall id c, heap !! id = Some c -> Channel.index_ c = kNew) -> wf (create heap).
Proof.
  intros Hn. unfold create. split; unfold in_step; cbn [channels_ interest].
  - intros id c Hc. left. split; [by apply (Hn id)|by rewrite lookup_empty].
  - intros fd id. by rewrite lookup_empty.
  - intros fd e id. by rewrite lookup_empty.
Qed.

(** ** updateChannel *)

(** A change that concerns one descriptor, held by channel [id] or by none. *)
Record concerns (p p' : t) (fd : Z) (id : nat) (c' : Channel.t) : Prop := {
  con_heap : heap p' = <[id := c']> (heap p);
  con_map : forall fd', fd' <> fd -> channels_ p' !! fd' = channels_ p !! fd';
  con_interest : forall fd', fd' <> fd -> interest p' !! fd' = interest p !! fd';
  con_size : events_size p' = events_size p
}.

Lemma wf_concerns p p' fd id c' :
  wf p -> concerns p p' fd id c' -> Channel.fd_ c' = fd ->
  (channels_ p !! fd = Some id \/ channels_ p !! fd = None) ->
  (channels_ p' !! fd = Some id \/ channels_ p' !! fd = None) ->
  (forall e i, interest p' !! fd = Some (e, i) -> i = id /\ channels_ p' !! fd = Some id) ->
  (forall fd', channels_ p !! fd' = Some id -> fd' = fd) ->
  in_step p' id c' -> wf p'.
Proof.
  intros [Hs Hm Hi] [Eh Em Ei _] Hfd Hb Ha Hint Huniq Hstep. split.
  - intros i c Hc. rewrite Eh in Hc. destruct (decide (i = id)) as [->|Hne].
    { rewrite lookup_insert_eq in Hc. by injection Hc as <-. }
    rewrite lookup_insert_ne in Hc by done. specialize (Hs i c Hc). unfold in_step in *.
    destruct (decide (Channel.fd_ c = fd)) as [E|E].
    + left. rewrite E in *. split; [|naive_solver].
      destruct Hs as [[? _]|[(_ & E' & _)|(_ & E' & _)]]; [done| |];
        destruct Hb as [Hb|Hb]; rewrite Hb in E'; by simplify_eq.
    + by rewrite Em, Ei by done.
  - intros fd' i Hf. destruct (decide (fd' = fd)) as [->|Hne].
    { assert (i = id) as -> by (destruct Ha as [Ha|Ha]; rewrite Ha in Hf; by simplify_eq).
      exists c'. by rewrite Eh, lookup_insert_eq. }
    rewrite Em in Hf by done. destruct (Hm fd' i Hf) as (c & Hc & Hcf).
    exists c. rewrite Eh, lookup_insert_ne; [done|]. intros ->. by apply Hne, Huniq.
  - intros fd' e i Hf. destruct (decide (fd' = fd)) as [->|Hne].
    + by destruct (Hint e i Hf) as [-> ?].
    + rewrite Em by done. rewrite Ei in Hf by done. by eapply Hi.
Qed.

Lemma wf_only_fd p id c fd' :
  wf p -> heap p !! id = Some c -> channels_ p !! fd' = Some id -> fd' = Channel.fd_ c.
Proof. intros [_ Hm _] Hc Hf. destruct (Hm fd' id Hf) as (c' & Hc' & <-). by simplify_eq. Qed.

Lemma interest_free p fd : wf p -> channels_ p !! fd = None -> interest p !! fd = None.
Proof.
  intros [_ _ Hi] Hf. destruct (interest p !! fd) as [[e i]|] eqn:E; [|done].
  apply Hi in E. congruence.
Qed.

(** What an update of channel [id] achieves. *)
Record tracked (p p' : t) (id : nat) (c c' : Channel.t) : Prop := {
  trk_wf : wf p';
  trk_concerns : concerns p p' (Channel.fd_ c) id c';
  trk_channel : Channel.events_ c' = Channel.events_ c /\ Channel.fd_ c' = Channel.fd_ c;
  trk_registered : channels_ p' !! Channel.fd_ c = Some id;
  trk_watched : watched p' id c'
}.

(** It is enough to see what became of the descriptor. *)
Lemma track p p' id c c' :
  wf p -> heap p !! id = Some c -> concerns p p' (Channel.fd_ c) id c' ->
  Channel.events_ c' = Channel.events_ c /\ Channel.fd_ c' = Channel.fd_ c ->
  (channels_ p !! Channel.fd_ c = Some id \/ channels_ p !! Channel.fd_ c = None) ->
  channels_ p' !! Channel.fd_ c = Some id ->
  (Channel.index_ c' = kAdded /\ interest p' !! Channel.fd_ c = Some (Channel.events_ c, id) \/
   Channel.index_ c' = kDeleted /\ interest p' !! Channel.fd_ c = None /\ Channel.events_ c = 0) ->
  tracked p p' id c c'.
Proof.
  intros Hwf Hc Hcon [He Hfd] Hb Ha Hk. split; try done.
  - eapply (wf_concerns p p' (Channel.fd_ c) id c'); try done; [by left| | |].
    + intros e i Hi. destruct Hk as [[_ Hk]|(_ & Hk & _)]; rewrite Hk in Hi; by simplify_eq.
    + intros fd' Hf. by eapply wf_only_fd.
    + unfold in_step. rewrite Hfd. destruct Hk as [[-> ->]|(-> & -> & _)]; naive_solver.
  - unfold watched. rewrite He, Hfd. by destruct Hk as [[_ ->]|(_ & -> & ?)].
Qed.

(** Registering a channel that is not in the interest set. *)
Lemma add_tracked p id c m :
  wf p -> heap p !! id = Some c -> interest p !! Channel.fd_ c = None ->
  (channels_ p !! Channel.fd_ c = Some id \/ channels_ p !! Channel.fd_ c = None) ->
  m = <[Channel.fd_ c := id]> (channels_ p) ->
  exists p', update (set_channel (set_channels p m) id (Channel.set_index c kAdded)) EPOLL_CTL_ADD id
               (Channel.set_index c kAdded) = Some p' /\
    tracked p p' id c (Channel.set_index c kAdded).
Proof.
  intros Hwf Hc Hi Hch ->. unfold update, epoll_ctl.
  cbn [interest set_channel set_channels Channel.fd_ Channel.set_index]. rewrite Hi.
  eexists. split; [reflexivity|]. apply track; try done.
  - split; cbn; [done|intros; by rewrite lookup_insert_ne|intros; by rewrite lookup_insert_ne|done].
  - cbn. by rewrite lookup_insert_eq.
  - left. cbn. by rewrite lookup_insert_eq.
Qed.

Lemma updateChannel_tracked p id c :
  wf p -> heap p !! id = Some c ->
  (Channel.index_ c = kNew -> channels_ p !! Channel.fd_ c = None) ->
  exists p' c', updateChannel p id = Some p' /\ tracked p p' id c c'.
Proof.
  intros Hwf Hc Hnew. pose proof (wf_step _ Hwf id c Hc) as Hst. unfold updateChannel. rewrite Hc.
  cbn [mbind option_bind]. destruct Hst as [[Ei _]|[(Ei & Hm & e & Hk)|(Ei & Hm & Hk)]]; rewrite Ei.
  - cbn [Z.eqb kNew Pos.eqb orb]. rewrite (Hnew Ei). cbn [mbind option_bind].
    destruct (add_tracked p id c _ Hwf Hc (interest_free _ _ Hwf (Hnew Ei)) (or_intror (Hnew Ei)) eq_refl)
      as (p' & E & Ht). eauto.
  - cbn [Z.eqb kNew kAdded kDeleted Pos.eqb orb]. rewrite bool_decide_true by done. cbn [andb].
    unfold update, epoll_ctl. rewrite Hk. destruct (Channel.isNoneEvent c) eqn:En.
    + cbn [mbind option_bind]. do 2 eexists. split; [reflexivity|].
      apply (track _ _ _ _ (Channel.set_index c kDeleted)); try done; [|by left|].
      * split; cbn; [done|done|intros; by rewrite lookup_delete_ne|done].
      * right. cbn. rewrite lookup_delete_eq. apply Z.eqb_eq in En. done.
    + do 2 eexists. split; [reflexivity|]. apply (track _ _ _ _ c); try done; [|by left|].
      * split; cbn; [by rewrite insert_id|done|intros; by rewrite lookup_insert_ne|done].
      * left. cbn. by rewrite lookup_insert_eq.
  - cbn [Z.eqb kNew kDeleted Pos.eqb orb]. rewrite bool_decide_true by done. cbn [mbind option_bind].
    destruct (add_tracked p id c _ Hwf Hc Hk (or_introl Hm) eq_refl) as (p' & E & Ht).
    rewrite insert_id in E by done.
    exists p', (Channel.set_index c kAdded). split; [|done]. rewrite <- E. by destruct p.
Qed.

(** ** removeChannel *)

(** A channel with no interest left is forgotten by the poller and the kernel. *)
Lemma removeChannel_forgets p id c :
  wf p -> heap p !! id = Some c -> Channel.isNoneEvent c = true -> Channel.index_ c <> kNew ->
  exists p', removeChannel p id = Some p' /\ wf p' /\
    concerns p p' (Channel.fd_ c) id (Channel.set_index c kNew) /\
    channels_ p' !! Channel.fd_ c = None /\ interest p' !! Channel.fd_ c = None.
Proof.
  intros Hwf Hc Hn Hnew. pose proof (wf_step _ Hwf id c Hc) as Hst. unfold removeChannel. rewrite Hc.
  cbn [mbind option_bind].
  assert (exists k, (if Channel.index_ c =? kAdded
    then update (set_channels p (delete (Channel.fd_ c) (channels_ p))) EPOLL_CTL_DEL id c
    else Some (set_channels p (delete (Channel.fd_ c) (channels_ p))))
    = Some (set_interest (set_channels p (delete (Channel.fd_ c) (channels_ p))) k) /\
    k !! Channel.fd_ c = None /\
    (forall fd, fd <> Channel.fd_ c -> k !! fd = interest p !! fd) /\
    channels_ p !! Channel.fd_ c = Some id /\
    ((Channel.index_ c =? kAdded) || (Channel.index_ c =? kDeleted) = true))
    as (k & Ek & Hk1 & Hk2 & Hm & Hidx).
  { destruct Hst as [[Ei _]|[(Ei & Hm & e & Hk)|(Ei & Hm & Hk)]]; [done| |]; rewrite Ei.
    - unfold update, epoll_ctl. cbn [interest set_channels]. rewrite Hk.
      exists (delete (Channel.fd_ c) (interest p)). split; [done|].
      rewrite lookup_delete_eq. repeat split; try done. intros. by rewrite lookup_delete_ne.
    - exists (interest p). split; [by destruct p|]. done. }
  rewrite bool_decide_true, Hn, Hidx by done. cbn [andb]. rewrite Ek. cbn [mbind option_bind].
  eexists. split; [reflexivity|].
  match goal with |- wf ?q /\ _ => set (p' := q) end.
  assert (concerns p p' (Channel.fd_ c) id (Channel.set_index c kNew)) as Hcon.
  { split; cbn; [done|intros; by rewrite lookup_delete_ne|done|done]. }
  assert (channels_ p' !! Channel.fd_ c = None) as Hgone by (cbn; by rewrite lookup_delete_eq).
  split; [|done]. eapply (wf_concerns p p'); try done; [by left|by right| | |].
  - cbn. by rewrite Hk1.
  - intros fd' Hf. by eapply wf_only_fd.
  - left. split; [done|]. cbn [Channel.fd_ Channel.set_index]. congruence.
Qed.

(** ** The contract of a poller *)

(** The events of a channel change. *)
Lemma wf_set_events p id c e :
  wf p -> heap p !! id = Some c -> wf (set_channel p id (Channel.set_events c e)).
Proof.
  intros [Hs Hm Hi] Hc. split; cbn [heap channels_ interest set_channel].
  - intros i c' [[-> <-]|[_ Hc']]%lookup_insert_Some; [exact (Hs _ _ Hc)|exact (Hs _ _ Hc')].
  - intros fd i Hf. destruct (Hm fd i Hf) as (c' & Hc' & Hfd).
    destruct (decide (i = id)) as [->|Hne]; [|exists c'; by rewrite lookup_insert_ne].
    exists (Channel.set_events c e). rewrite lookup_insert_eq. by simplify_eq.
  - done.
Qed.

(** What [epoll_wait] returns when the kernel has the events [ready]: as many as
    the array holds, each with the channel it was registered with. *)
Definition returned (p : t) (ready : list (Z * Z)) : list (Z * nat) :=
  take (events_size p)
    (omap (fun x : Z * Z => (fun en : Z * nat => (x.2, en.2)) <$> interest p !! x.1) ready).

(** A poll, and the active channels with the events it has stored in them. *)
Definition poll_ready (p : t) (ready : list (Z * Z)) : option (list (nat * Z) * t) :=
  match poll p (returned p ready) with
  | Some (ids, p') => Some (happened (heap p') ids, p')
  | None => None
  end.

#[global] Instance epoll : Poller t := {
  p_create := create;
  p_heap := heap;
  p_set := set_channel;
  p_update := updateChannel;
  p_remove := removeChannel;
  p_asked p f := default 0 (fst <$> interest p !! f);
  p_owner p f := snd <$> interest p !! f;
  p_poll := poll_ready
}.

(** The state of the poller against the list of registered channels. *)
Record epoll_sim (fds : gmap nat Z) (p : t) (a : watchlist) : Prop := {
  es_wf : wf p;
  es_fds : forall id, fds !! id = Channel.fd_ <$> heap p !! id;
  es_live : forall id, live a !! id = status (heap p) (channels_ p) id;
  es_watched : forall id c, heap p !! id = Some c -> channels_ p !! Channel.fd_ c = Some id ->
    watched p id c;
  es_size : events_size p <> 0%nat
}.

(** An operation on the channel [id] keeps the simulation, given what it does
    to that channel. *)
Lemma epoll_sim_concerns fds p p' a id f c c' l g :
  epoll_sim fds p a -> heap p !! id = Some c -> Channel.fd_ c = f -> Channel.fd_ c' = f ->
  wf p' -> concerns p p' f id c' ->
  (forall i, channels_ p !! f = Some i -> i = id) -> (forall i, channels_ p' !! f = Some i -> i = id) ->
  (forall i, i <> id -> l !! i = live a !! i) -> l !! id = status (heap p') (channels_ p') id ->
  (channels_ p' !! f = Some id -> watched p' id c') ->
  epoll_sim fds p' (mkWatch l g).
Proof.
  intros [_ Hf Hl Hw Hz] Hc <- Hfd Hwf [Eh Em Ei Es] Hb Ha Hoth Hid Hwid. split; cbn [live]; try done.
  - intros i. rewrite Eh, Hf. destruct (decide (i = id)) as [->|Hne].
    + rewrite lookup_insert_eq, Hc. simpl. by rewrite Hfd.
    + by rewrite lookup_insert_ne.
  - intros i. destruct (decide (i = id)) as [->|Hne]; [done|]. rewrite Hoth, Hl by done. symmetry.
    apply (status_frame _ _ _ _ id (Channel.fd_ c)); try done; rewrite ?Eh, ?lookup_insert_ne by done; try done.
    + intros c1 Hc1. exists (Channel.index_ c1). by destruct c1.
    + intros E. by apply Hne, Hb.
    + intros E. by apply Hne, Ha.
  - intros i c1 Hc1 Hm. rewrite Eh in Hc1. destruct (decide (i = id)) as [->|Hne].
    + rewrite lookup_insert_eq in Hc1. simplify_eq. apply Hwid. by rewrite Hfd in Hm.
    + rewrite lookup_insert_ne in Hc1 by done.
      assert (Channel.fd_ c1 <> Channel.fd_ c) as Hfne by (intros E; rewrite E in Hm; by apply Hne, Ha).
      unfold watched. rewrite Ei by done. rewrite Em in Hm by done. by apply Hw.
  - by rewrite Es.
Qed.

Lemma epoll_create_sim h : new_channels h -> epoll_sim (Channel.fd_ <$> h) (create h) nothing.
Proof.
  intros Hn. split; cbn.
  - apply epoll_wf_create. intros id c Hc. by apply Hn in Hc as [-> _].
  - intros id. by rewrite lookup_fmap.
  - intros id. rewrite lookup_empty. unfold status. by destruct (h !! id).
  - intros id c _. by rewrite lookup_empty.
  - done.
Qed.

(** Only the channel [id] is registered under its descriptor, if any is. *)
Lemma epoll_change_owner fds p a id c :
  epoll_sim fds p a -> heap p !! id = Some c ->
  (live a !! id = None -> free a (Channel.fd_ c)) ->
  channels_ p !! Channel.fd_ c = Some id \/ channels_ p !! Channel.fd_ c = None.
Proof.
  intros Hs Hc Hfree. destruct (live a !! id) as [[f e]|] eqn:E.
  - left. rewrite (es_live _ _ _ Hs) in E. apply status_Some in E as (c' & Hc' & Hm & Hf & _).
    by simplify_eq.
  - right. eapply free_None; [apply (es_live _ _ _ Hs)| |by apply Hfree].
    intros i Hi. exact (wf_map _ (es_wf _ _ _ Hs) _ _ Hi).
Qed.

Lemma epoll_change_sim fds p a id c e :
  epoll_sim fds p a -> heap p !! id = Some c ->
  (live a !! id = None -> free a (Channel.fd_ c)) ->
  exists p', updateChannel (set_channel p id (Channel.set_events c e)) id = Some p' /\
    epoll_sim fds p' (list_channel a id (Channel.fd_ c) e).
Proof.
  intros Hs Hc Hfree. pose proof (epoll_change_owner _ _ _ _ _ Hs Hc Hfree) as Hown.
  pose proof (es_wf _ _ _ Hs) as Hwf. set (c0 := Channel.set_events c e).
  destruct (updateChannel_tracked (set_channel p id c0) id c0) as (p' & c' & E & Ht).
  - by apply wf_set_events.
  - cbn. by rewrite lookup_insert_eq.
  - intros Hi. cbn. destruct Hown as [Hm|Hm]; [|done]. exfalso.
    destruct (wf_step _ Hwf id c Hc) as [[_ ?]|[(Hi' & _)|(Hi' & _)]]; [done| |];
      cbn in Hi; by rewrite Hi in Hi'.
  - destruct Ht as [Hwf' Hcon [He Hfd] Hreg Hwatch]. exists p'. split; [done|].
    destruct Hcon as [Eh Em Ei Es]. cbn in Eh, Em, Ei, Es, He, Hfd, Hreg. rewrite insert_insert_eq in Eh.
    apply (epoll_sim_concerns fds p p' a id (Channel.fd_ c) c c'); try done.
    + intros i Hi. destruct Hown as [Hm|Hm]; by simplify_eq.
    + intros i Hi. by simplify_eq.
    + intros i Hne. by rewrite lookup_insert_ne.
    + rewrite lookup_insert_eq. symmetry. apply status_Some. exists c'.
      by rewrite Eh, lookup_insert_eq.
Qed.

Lemma epoll_remove_sim fds p a id f :
  epoll_sim fds p a -> live a !! id = Some (f, 0) ->
  exists p', removeChannel p id = Some p' /\
    epoll_sim fds p' (mkWatch (delete id (live a)) ({[id]} ∪ gone a)).
Proof.
  intros Hs Hl. rewrite (es_live _ _ _ Hs) in Hl. apply status_Some in Hl as (c & Hc & Hm & Hf & He).
  pose proof (es_wf _ _ _ Hs) as Hwf. subst f.
  destruct (removeChannel_forgets p id c) as (p' & E & Hwf' & Hcon & Hgone & Hint); try done.
  - by apply Z.eqb_eq.
  - intros Hi. destruct (wf_step _ Hwf id c Hc) as [[_ ?]|[(Hi' & _)|(Hi' & _)]]; [done| |];
      by rewrite Hi in Hi'.
  - exists p'. split; [done|].
    apply (epoll_sim_concerns fds p p' a id (Channel.fd_ c) c (Channel.set_index c kNew)); try done.
    + intros i Hi. by simplify_eq.
    + intros i Hi. by simplify_eq.
    + intros i Hne. by rewrite lookup_delete_ne.
    + rewrite lookup_delete_eq. unfold status. destruct Hcon as [-> _ _ _].
      rewrite lookup_insert_eq. cbn. by rewrite bool_decide_false by congruence.
    + intros Hi. congruence.
Qed.

Lemma epoll_step_sim fds p a o a' :
  epoll_sim fds p a -> spec_step fds a o = Some a' ->
  exists p', impl_step p o = Some p' /\ epoll_sim fds p' a'.
Proof.
  intros Hs E. destruct o as [id e|id]; simpl in E.
  - rewrite (es_fds _ _ _ Hs) in E. destruct (heap p !! id) as [c|] eqn:Hc; [|done]. simpl in E.
    destruct (bool_decide (id ∉ gone a) && (0 <=? e) && (e <? 2 ^ 15)); [|done].
    unfold impl_step. cbn [p_heap epoll]. rewrite Hc. cbn [mbind option_bind p_update p_set].
    assert (live a !! id = None -> free a (Channel.fd_ c)) as Hfree.
    { intros E1. rewrite E1 in E. by destruct (bool_decide_reflect (free a (Channel.fd_ c))). }
    assert (a' = list_channel a id (Channel.fd_ c) e) as ->.
    { destruct (live a !! id); [congruence|]. by destruct (_ && _); simplify_eq. }
    by apply epoll_change_sim.
  - destruct (live a !! id) as [[f [| |]]|] eqn:El; [|done..]. injection E as <-.
    by eapply epoll_remove_sim.
Qed.

Lemma epoll_shows fds p a : epoll_sim fds p a -> shows p a.
Proof.
  intros [Hwf _ Hl Hw _]. split; cbn.
  - intros id f e E. rewrite Hl in E. apply status_Some in E as (c & Hc & Hm & Hf & He). subst f.
    specialize (Hw id c Hc Hm). unfold watched in Hw.
    destruct (interest p !! Channel.fd_ c) as [[e' i]|]; simpl; [by destruct Hw as [-> ->]; subst e|].
    subst e. by rewrite Hw.
  - intros f _ Hf. destruct (interest p !! f) as [[e i]|] eqn:E; [|done].
    apply (wf_interest _ Hwf) in E. rewrite (free_None a (heap p) (channels_ p) f) in E; try done.
    intros i' Hi. exact (wf_map _ Hwf _ _ Hi).
Qed.

(** ** Polling *)

(** A poll changes what has happened on the channels, and the event array. *)
Lemma epoll_sim_same fds p n h a :
  epoll_sim fds p a -> same_channels (heap p) h -> n <> 0%nat ->
  epoll_sim fds (mk (channels_ p) n (interest p) h) a.
Proof.
  intros [[Hs Hm Hi] Hf Hl Hw Hz] Hh Hn.
  assert (forall id c, h !! id = Some c -> exists c0, heap p !! id = Some c0 /\ Channel.fd_ c0 = Channel.fd_ c /\
    Channel.events_ c0 = Channel.events_ c /\ Channel.index_ c0 = Channel.index_ c) as Hback.
  { intros id c Hc. symmetry in Hh. exact (same_channels_l _ _ _ _ Hh Hc). }
  split; [split| | | |]; cbn [channels_ interest heap events_size].
  - intros id c Hc. destruct (Hback id c Hc) as (c0 & Hc0 & E1 & _ & E3). specialize (Hs id c0 Hc0).
    unfold in_step in *. cbn. by rewrite <- E1, <- E3.
  - intros fd id Hid. destruct (Hm fd id Hid) as (c & Hc & <-).
    destruct (same_channels_l _ _ _ _ Hh Hc) as (c' & Hc' & E & _). by exists c'.
  - done.
  - intros id. rewrite Hf. specialize (Hh id). destruct (heap p !! id), (h !! id); try done.
    injection Hh as E _ _. cbn. by rewrite E.
  - intros id. rewrite Hl. by apply status_same.
  - intros id c Hc Hid. destruct (Hback id c Hc) as (c0 & Hc0 & E1 & E2 & _). rewrite <- E1 in Hid.
    specialize (Hw id c0 Hc0 Hid). unfold watched in *. cbn. by rewrite <- E1, <- E2.
  - done.
Qed.

(** The channels of the events become active, in their order, with the events
    stored in them. *)
Lemma epoll_fillActiveChannels_spec evs : forall p,
  Forall (fun x => exists c, heap p !! x.2 = Some c /\ channels_ p !! Channel.fd_ c = Some x.2) evs ->
  NoDup (evs.*2) ->
  exists h, fillActiveChannels p evs = Some (evs.*2, mk (channels_ p) (events_size p) (interest p) h) /\
    same_channels (heap p) h /\
    (forall r id, (r, id) ∈ evs -> Channel.revents_ <$> h !! id = Some r) /\
    (forall id, id ∉ evs.*2 -> h !! id = heap p !! id).
Proof.
  induction evs as [|[r i] evs IH]; intros p Hall Hnd; cbn [fillActiveChannels fmap list_fmap].
  - exists (heap p). split; [by destruct p|]. split; [done|]. split; [by intros ? ? ?%not_elem_of_nil|done].
  - apply Forall_cons in Hall as [(c & Hc & Hm) Hall]. apply NoDup_cons in Hnd as [Hi Hnd]. cbn in Hc, Hm, Hi.
    rewrite Hc. cbn [mbind option_bind]. rewrite bool_decide_true by done.
    set (p1 := set_channel p i (Channel.set_revents c r)).
    destruct (IH p1) as (h & -> & Hsame & Hset & Hkeep); [|done|].
    { eapply Forall_impl; [exact Hall|]. intros [r' i'] (c' & Hc' & Hm'). cbn in *.
      destruct (decide (i' = i)) as [->|].
      - exists (Channel.set_revents c r). rewrite lookup_insert_eq. by simplify_eq.
      - exists c'. by rewrite lookup_insert_ne. }
    exists h. cbn. split; [done|]. split; [|split].
    + transitivity (heap p1); [by apply same_channels_set|done].
    + intros r' i' [E|Hin]%elem_of_cons; [|by apply Hset]. injection E as -> ->.
      rewrite (Hkeep i Hi). cbn. by rewrite lookup_insert_eq.
    + intros id [Hne Hid]%not_elem_of_cons. rewrite (Hkeep id Hid). cbn. by rewrite lookup_insert_ne.
Qed.

(** The events the kernel returns name the channels registered for them. *)
Lemma epoll_reported fds p a ready :
  epoll_sim fds p a -> reportable a ready ->
  let evs := omap (fun x : Z * Z => (fun en : Z * nat => (x.2, en.2)) <$> interest p !! x.1) ready in
  NoDup (evs.*2) /\ length evs = length ready /\
    Forall (fun x => exists f e c, (f, x.1) ∈ ready /\ live a !! x.2 = Some (f, e) /\
    heap p !! x.2 = Some c /\ Channel.fd_ c = f /\ channels_ p !! f = Some x.2) evs.
Proof.
  intros Hs [Hnd Hall]. cbv zeta. induction ready as [|[f r] ready IH]; [by repeat constructor|].
  apply Forall_cons in Hall as [(Hr & id & e & Hl & He) Hall]. apply NoDup_cons in Hnd as [Hf Hnd].
  cbn in Hr, Hl, Hf.
  pose proof Hl as Hst. rewrite (es_live _ _ _ Hs) in Hst. apply status_Some in Hst as (c & Hc & Hm & Hfd & Hev).
  pose proof (es_watched _ _ _ Hs id c Hc) as Hw. rewrite Hfd in Hw. specialize (Hw Hm). unfold watched in Hw.
  rewrite Hfd in Hw. cbn [omap list_omap fst snd].
  destruct (interest p !! f) as [[e' i]|] eqn:Ei; [destruct Hw as [-> ->]|by rewrite Hw in Hev].
  cbn. destruct (IH Hnd Hall) as (IH1 & IH2 & IH3). split; [|split].
  - apply NoDup_cons. split; [|exact IH1]. intros (x & Hx1 & Hx2)%list_elem_of_fmap.
    eapply Forall_forall in IH3; [|exact Hx2]. destruct IH3 as (f' & e0 & c' & Hin & Hl' & _). rewrite <- Hx1, Hl in Hl'.
    injection Hl' as <- <-. apply Hf. apply list_elem_of_fmap. by exists (f, x.1).
  - by rewrite IH2.
  - constructor.
    + exists f, e, c. cbn. split; [by left|]. done.
    + eapply Forall_impl; [exact IH3|]. intros x (f' & e0 & c' & Hin & Hrest). exists f', e0, c'.
      split; [by right|done].
Qed.

Lemma epoll_poll_sim fds p a ready :
  epoll_sim fds p a -> reportable a ready ->
  exists active p', p_poll p ready = Some (active, p') /\ epoll_sim fds p' a /\ found a ready active.
Proof.
  intros Hs Hr. destruct (epoll_reported _ _ _ _ Hs Hr) as (Hnd & Hlen & Hall). cbn [p_poll epoll].
  unfold poll_ready, returned. set (all := omap _ ready) in *. set (evs := take (events_size p) all).
  assert (NoDup (evs.*2)) as Hnd'.
  { rewrite <- (take_drop (events_size p) all), fmap_app in Hnd. by apply NoDup_app in Hnd as [? _]. }
  assert (Forall (fun x => exists f e c, (f, x.1) ∈ ready /\ live a !! x.2 = Some (f, e) /\
    heap p !! x.2 = Some c /\ Channel.fd_ c = f /\ channels_ p !! f = Some x.2) evs) as Hevs by by apply Forall_take.
  destruct (epoll_fillActiveChannels_spec evs p) as (h & E & Hsame & Hset & _); [|done|].
  { eapply Forall_impl; [exact Hevs|]. intros x (f & e & c & _ & _ & Hc & <- & Hm). by exists c. }
  assert (length evs = Nat.min (events_size p) (length ready)) as Hle by (unfold evs; by rewrite length_take, Hlen).
  pose proof (es_size _ _ _ Hs) as Hz.
  assert (exists p', poll p evs = Some (evs.*2, p') /\ epoll_sim fds p' a /\
    forall id, is_Some (h !! id) -> heap p' !! id = h !! id) as (p' & -> & Hs' & Hh).
  { unfold poll. destruct evs as [|ev evs'] eqn:Ee.
    - injection E as E. apply (f_equal heap) in E. cbn in E. subst h. by exists p.
    - rewrite E. cbn [mbind option_bind]. eexists. split; [reflexivity|]. cbn [events_size].
      cbn [events_size channels_ interest heap].
      destruct (_ =? _)%nat; (split; [apply epoll_sim_same; [done|done|lia]|done]). }
  do 2 eexists. split; [reflexivity|]. split; [done|]. split.
  - by rewrite happened_ids.
  - intros id r Hin. apply list_elem_of_fmap in Hin as (i & [= -> ->] & Hi).
    apply list_elem_of_fmap in Hi as ([r0 i0] & -> & Hi). cbn [snd].
    pose proof (Hset r0 i0 Hi) as Hri. rewrite Hh by (destruct (h !! i0); done). rewrite Hri. cbn.
    eapply Forall_forall in Hevs as (f & e & c & Hin & Hl & _); [|exact Hi]. by exists f, e.
  - intros Hne Hnil. apply fmap_nil_inv, fmap_nil_inv in Hnil.
    rewrite Hnil in Hle. destruct ready; [done|]. cbn in Hle. lia.
Qed.

#[global] Instance epoll_spec : PollerSpec t := {
  sim := epoll_sim;
  sim_create := epoll_create_sim;
  sim_step := epoll_step_sim;
  sim_shows := epoll_shows;
  sim_poll := epoll_poll_sim
}.

End EPollPoller.
