(* ===== verification/PollPoller.v ===== *)
(** * The poll poller (network/poller/PollPoller)

    The vector of [pollfd]s, indexed by the channels, and its upkeep when
    channels come, change and go. *)

From S2P Require Import Prelude Channel Poller.
From S2P Require Import EPollPoller.

#[local] Open Scope Z_scope.

Module PollPoller.

Record pollfd := mkPollfd { fd : Z; events : Z; revents : Z }.

Record t := mk {
  pollfds_ : list pollfd;
  channels_ : gmap Z nat;
  heap : gmap nat Channel.t
}.

Definition create (heap : gmap nat Channel.t) : t := mk [] ∅ heap.

Definition set_channel (p : t) (id : nat) (c : Channel.t) : t :=
  mk (pollfds_ p) (channels_ p) (<[id := c]> (heap p)).

(** The number that makes [poll] ignore an entry. *)
Definition ignored (fd : Z) : Z := - fd - 1.

(** [assert]s that fail, and a null channel, are [None]. *)
Definition updateChannel (p : t) (id : nat) : option t :=
  c ← heap p !! id;
  let cfd := Channel.fd_ c in
  let entry := mkPollfd cfd (swrap 16 (Channel.events_ c)) 0 in
  if Channel.index_ c <? 0 then
    match channels_ p !! cfd with
    | Some _ => None
    | None =>
        let pollfds := pollfds_ p ++ [entry] in
        let idx := Z.of_nat (length pollfds) - 1 in
        Some (mk pollfds (<[cfd := id]> (channels_ p))
                 (<[id := Channel.set_index c idx]> (heap p)))
    end
  else
    let idx := Channel.index_ c in
    if bool_decide (channels_ p !! cfd = Some id) then
      pfd ← pollfds_ p !! Z.to_nat idx;
      if (fd pfd =? cfd) || (fd pfd =? ignored cfd) then
        let entry := if Channel.isNoneEvent c
                     then mkPollfd (ignored cfd) (events entry) 0 else entry in
        Some (mk (<[Z.to_nat idx := entry]> (pollfds_ p)) (channels_ p) (heap p))
      else None
    else None.

(** The vector's last element takes the place of the removed one. *)
Definition removeChannel (p : t) (id : nat) : option t :=
  c ← heap p !! id;
  let cfd := Channel.fd_ c in
  let idx := Channel.index_ c in
  if bool_decide (channels_ p !! cfd = Some id) && Channel.isNoneEvent c
     && (0 <=? idx) then
    pfd ← pollfds_ p !! Z.to_nat idx;
    if (fd pfd =? ignored cfd) && (events pfd =? Channel.events_ c) then
      let channels := delete cfd (channels_ p) in
      let n := length (pollfds_ p) in
      if (Z.to_nat idx =? n - 1)%nat then
        Some (mk (take (n - 1) (pollfds_ p)) channels (heap p))
      else
        back ← last (pollfds_ p);
        let channelAtEnd := if fd back <? 0 then - fd back - 1 else fd back in
        id' ← channels !! channelAtEnd;
        c' ← heap p !! id';
        Some (mk (take (n - 1) (<[Z.to_nat idx := back]> (pollfds_ p))) channels
                 (<[id' := Channel.set_index c' idx]> (heap p)))
    else None
  else None.

(** [fillActiveChannels] after [::poll] has stored the [revents]. *)
Fixpoint fillActiveChannels (p : t) (numEvents : nat) (pfds : list pollfd) : option (list nat * t) :=
  match numEvents, pfds with
  | S n, pfd :: pfds' =>
      if 0 <? revents pfd then
        id ← channels_ p !! fd pfd;
        c ← heap p !! id;
        if Channel.fd_ c =? fd pfd then
          '(active, p') ← fillActiveChannels (set_channel p id (Channel.set_revents c (revents pfd))) n pfds';
          Some (id :: active, p')
        else None
      else fillActiveChannels p numEvents pfds'
  | _, _ => Some ([], p)
  end.

Definition poll (p : t) (numEvents : nat) (polled : list Z) : option (list nat * t) :=
  let pfds := zip_with (fun e r => mkPollfd (fd e) (events e) r) (pollfds_ p) polled in
  fillActiveChannels (mk pfds (channels_ p) (heap p)) numEvents pfds.

(** ** The invariant *)

Definition of_channel (pfd : pollfd) (c : Channel.t) : Prop :=
  fd pfd = Channel.fd_ c \/ fd pfd = ignored (Channel.fd_ c).

(** A channel is registered at its index, and every entry has its channel. *)
Definition registered (p : t) (id : nat) (c : Channel.t) : Prop :=
  channels_ p !! Channel.fd_ c = Some id /\
  0 <= Channel.index_ c /\
  exists pfd, pollfds_ p !! Z.to_nat (Channel.index_ c) = Some pfd /\ of_channel pfd c.

Definition unregistered (p : t) (id : nat) (c : Channel.t) : Prop :=
  channels_ p !! Channel.fd_ c <> Some id.

Record wf (p : t) : Prop := {
  wf_fd : forall id c, heap p !! id = Some c -> 0 <= Channel.fd_ c;
  wf_map : forall f id, channels_ p !! f = Some id ->
    exists c, heap p !! id = Some c /\ Channel.fd_ c = f /\ registered p id c;
  wf_entry : forall i pfd, pollfds_ p !! i = Some pfd ->
    exists id c, heap p !! id = Some c /\ Channel.index_ c = Z.of_nat i /\
      channels_ p !! Channel.fd_ c = Some id
}.

Lemma poll_wf_create h :
  (forall id c, h !! id = Some c -> 0 <= Channel.fd_ c) -> wf (create h).
Proof.
  intros Hf. unfold create. split; cbn [heap channels_ pollfds_].
  - exact Hf.
  - intros f id. by rewrite lookup_empty.
  - intros i pfd. by rewrite lookup_nil.
Qed.

(** The descriptor an entry stands for. *)
Definition entry_fd (pfd : pollfd) : Z := if fd pfd <? 0 then - fd pfd - 1 else fd pfd.

Lemma of_channel_fd pfd c : 0 <= Channel.fd_ c -> of_channel pfd c -> entry_fd pfd = Channel.fd_ c.
Proof.
  unfold of_channel, entry_fd, ignored. intros Hp [E|E]; rewrite E.
  - destruct (Z.ltb_spec (Channel.fd_ c) 0); lia.
  - destruct (Z.ltb_spec (- Channel.fd_ c - 1) 0); lia.
Qed.

(** The channel at an entry is the one the map has for its descriptor. *)
Lemma entry_channel p i pfd :
  wf p -> pollfds_ p !! i = Some pfd ->
  exists id c, heap p !! id = Some c /\ Channel.index_ c = Z.of_nat i /\
    channels_ p !! Channel.fd_ c = Some id /\ of_channel pfd c /\ entry_fd pfd = Channel.fd_ c.
Proof.
  intros Hwf Hi. destruct (wf_entry _ Hwf i pfd Hi) as (id & c & Hc & Hidx & Hm).
  destruct (wf_map _ Hwf _ _ Hm) as (c2 & Hc2 & _ & _ & _ & pfd2 & Hp2 & Hof).
  assert (c2 = c) as -> by congruence. rewrite Hidx, Nat2Z.id, Hi in Hp2. injection Hp2 as <-.
  exists id, c. repeat split; try done. apply of_channel_fd; [|done]. by eapply wf_fd.
Qed.

(** Two registered channels with one index are one. *)
Lemma index_inj p id1 id2 c1 c2 :
  wf p -> heap p !! id1 = Some c1 -> heap p !! id2 = Some c2 ->
  channels_ p !! Channel.fd_ c1 = Some id1 -> channels_ p !! Channel.fd_ c2 = Some id2 ->
  Channel.index_ c1 = Channel.index_ c2 -> id1 = id2.
Proof.
  intros Hwf H1 H2 M1 M2 Hi.
  destruct (wf_map _ Hwf _ _ M1) as (c1' & Hc1 & _ & _ & _ & p1 & P1 & O1).
  destruct (wf_map _ Hwf _ _ M2) as (c2' & Hc2 & _ & _ & _ & p2 & P2 & O2).
  simplify_eq. rewrite Hi, P2 in P1. injection P1 as <-.
  apply of_channel_fd in O1; [|by eapply wf_fd]. apply of_channel_fd in O2; [|by eapply wf_fd].
  rewrite O1 in O2. rewrite O2 in M1. by simplify_eq.
Qed.

(** ** updateChannel *)

(** The entry a channel is represented by after an update. *)
Definition entry_for (c : Channel.t) (pfd : pollfd) : Prop :=
  of_channel pfd c /\ events pfd = swrap 16 (Channel.events_ c) /\ revents pfd = 0 /\
  (Channel.isNoneEvent c = false -> fd pfd = Channel.fd_ c).

Lemma updateChannel_new p id c :
  wf p -> heap p !! id = Some c -> Channel.index_ c < 0 -> channels_ p !! Channel.fd_ c = None ->
  (forall f, channels_ p !! f <> Some id) ->
  exists p' pfd, let c' := Channel.set_index c (Z.of_nat (length (pollfds_ p))) in
    updateChannel p id = Some p' /\ wf p' /\ heap p' = <[id := c']> (heap p) /\
    channels_ p' = <[Channel.fd_ c := id]> (channels_ p) /\
    pollfds_ p' = pollfds_ p ++ [pfd] /\ entry_for c' pfd.
Proof.
  intros Hwf Hc Hi Hm Hno. unfold updateChannel. rewrite Hc. cbn [mbind option_bind].
  destruct (Z.ltb_spec (Channel.index_ c) 0); [|lia]. rewrite Hm.
  set (e := mkPollfd _ _ _).
  replace (Z.of_nat (length (pollfds_ p ++ [e])) - 1) with (Z.of_nat (length (pollfds_ p)))
    by (rewrite length_app; simpl; lia).
  set (c' := Channel.set_index c _).
  assert (Channel.index_ c' = Z.of_nat (length (pollfds_ p))) as Hidx by done.
  assert ((pollfds_ p ++ [e]) !! Z.to_nat (Channel.index_ c') = Some e) as He.
  { rewrite Hidx, Nat2Z.id. by apply list_lookup_middle. }
  eexists _, e. split; [reflexivity|]. cbn [heap channels_ pollfds_].
  split; [|do 3 (split; [done|]); repeat split; by left].
  split; cbn [heap channels_ pollfds_].
  - intros id' c2 [[-> <-]|[Hne H2]]%lookup_insert_Some.
    + cbn. by eapply wf_fd.
    + by eapply wf_fd.
  - intros f id' [[<- <-]|[Hne H2]]%lookup_insert_Some.
    + exists c'. rewrite lookup_insert_eq. do 2 (split; [done|]). unfold registered.
      cbn [channels_ pollfds_]. split; [by rewrite lookup_insert_eq|].
      split; [lia|]. exists e. split; [exact He|by left].
    + destruct (wf_map _ Hwf f id' H2) as (c2 & Hc2 & Hf2 & Hm2 & Hp2 & pfd & Hpfd & Hof).
      assert (id' <> id) as Hid by (intros ->; by apply Hno in H2).
      exists c2. rewrite lookup_insert_ne by done. do 2 (split; [done|]). unfold registered.
      cbn [channels_ pollfds_]. subst f. rewrite lookup_insert_ne by done. do 2 (split; [done|]).
      exists pfd. split; [by apply lookup_app_l_Some|done].
  - intros i pfd [H1|[Hlen H1]]%lookup_app_Some.
    + destruct (wf_entry _ Hwf i pfd H1) as (id2 & c2 & Hc2 & Hi2 & Hm2).
      assert (id2 <> id) by (intros ->; by apply Hno in Hm2).
      exists id2, c2. rewrite lookup_insert_ne by done. do 2 (split; [done|]).
      rewrite lookup_insert_ne; [done|]. intros E. rewrite <- E in Hm2. congruence.
    + apply list_lookup_singleton_Some in H1 as [Hi0 <-].
      exists id, c'. rewrite lookup_insert_eq. split; [done|]. split; [rewrite Hidx; lia|].
      cbn. by rewrite lookup_insert_eq.
Qed.

(** Replacing an entry by another for the same channel. *)
Lemma wf_replace p id c i pfd :
  wf p -> heap p !! id = Some c -> channels_ p !! Channel.fd_ c = Some id ->
  Channel.index_ c = Z.of_nat i -> of_channel pfd c ->
  wf (mk (<[i := pfd]> (pollfds_ p)) (channels_ p) (heap p)).
Proof.
  intros Hwf Hc Hm Hi Hof. split; cbn [heap channels_ pollfds_].
  - by apply wf_fd.
  - intros f id' H2. destruct (wf_map _ Hwf f id' H2) as (c2 & Hc2 & Hf2 & Hm2 & Hp2 & pfd2 & Hpfd & Hof2).
    exists c2. do 2 (split; [done|]). unfold registered. cbn [channels_ pollfds_]. do 2 (split; [done|]).
    destruct (decide (Z.to_nat (Channel.index_ c2) = i)) as [E|E].
    + assert (id' = id) as ->.
      { eapply (index_inj p); try done. rewrite Hi, <- E. lia. }
      exists pfd. rewrite E, list_lookup_insert_eq; [|by rewrite <- E; eapply lookup_lt_Some].
      split; [done|]. by simplify_eq.
    + exists pfd2. by rewrite list_lookup_insert_ne.
  - intros j pfd2 H2. assert (is_Some (pollfds_ p !! j)) as [pfd3 H3].
    { apply lookup_lt_is_Some. apply lookup_lt_Some in H2. by rewrite length_insert in H2. }
    by apply (wf_entry _ Hwf j pfd3).
Qed.

Lemma updateChannel_known p id c :
  wf p -> heap p !! id = Some c -> 0 <= Channel.index_ c -> channels_ p !! Channel.fd_ c = Some id ->
  exists p' pfd, updateChannel p id = Some p' /\ wf p' /\ heap p' = heap p /\
    channels_ p' = channels_ p /\
    pollfds_ p' = <[Z.to_nat (Channel.index_ c) := pfd]> (pollfds_ p) /\ entry_for c pfd /\
    (Channel.isNoneEvent c = true -> fd pfd = ignored (Channel.fd_ c)).
Proof.
  intros Hwf Hc Hi Hm. unfold updateChannel. rewrite Hc. cbn [mbind option_bind].
  destruct (Z.ltb_spec (Channel.index_ c) 0); [lia|]. rewrite bool_decide_true by done.
  destruct (wf_map _ Hwf _ _ Hm) as (c2 & Hc2 & _ & _ & _ & pfd & Hpfd & Hof).
  simplify_eq. rewrite Hpfd. cbn [mbind option_bind].
  assert ((fd pfd =? Channel.fd_ c) || (fd pfd =? ignored (Channel.fd_ c)) = true) as ->.
  { apply orb_true_iff. rewrite !Z.eqb_eq. exact Hof. }
  set (e := if Channel.isNoneEvent c then _ else _).
  assert (entry_for c e /\ (Channel.isNoneEvent c = true -> fd e = ignored (Channel.fd_ c))) as [He1 He2].
  { unfold e, entry_for, of_channel. destruct (Channel.isNoneEvent c); cbn; naive_solver. }
  do 2 eexists. split; [reflexivity|]. split; [|by do 2 (split; [done|])].
  apply (wf_replace p id c); [done..| |apply He1]. lia.
Qed.

(** ** removeChannel *)

#[local] Open Scope nat_scope.

(** The vector after the removal of entry [i]: the last one moves to [i]. *)
Definition without (l : list pollfd) (i : nat) (back : pollfd) : list pollfd :=
  take (length l - 1) (<[i := back]> l).

Lemma without_lookup (l : list pollfd) i (back : pollfd) j pfd :
  last l = Some back -> i < length l - 1 ->
  without l i back !! j = Some pfd <->
  (j = i /\ pfd = back) \/ (j <> i /\ j < length l - 1 /\ l !! j = Some pfd).
Proof.
  intros Hb Hi. unfold without. destruct (decide (j < length l - 1)) as [Hj|Hj].
  - rewrite lookup_take_lt by lia. destruct (decide (j = i)) as [->|Hne].
    + rewrite list_lookup_insert_eq by lia. split; [intros [= <-]; by left|].
      by intros [[_ ->]|(? & _)].
    + rewrite list_lookup_insert_ne by done. split; [by right|]. by intros [[-> _]|(_ & _ & ?)].
  - rewrite lookup_take_ge by lia. split; [done|]. intros [[-> _]|(_ & ? & _)]; lia.
Qed.

Lemma last_entry (l : list pollfd) back : last l = Some back -> l !! (length l - 1)%nat = Some back.
Proof. intros Hl. by rewrite last_lookup, <- Nat.sub_1_r in Hl. Qed.

(** What a removal achieves: the channel is gone, and every other channel still
    has the entry it had, with its index kept up to date. *)
Record removed (p p' : t) (id : nat) (c : Channel.t) : Prop := {
  rmv_wf : wf p';
  rmv_map : channels_ p' = delete (Channel.fd_ c) (channels_ p);
  rmv_heap : forall i, i = id \/ heap p !! i = None \/
    (exists c', heap p !! i = Some c' /\ channels_ p !! Channel.fd_ c' <> Some i) ->
    heap p' !! i = heap p !! i;
  rmv_length : S (length (pollfds_ p')) = length (pollfds_ p);
  rmv_others : forall id' c', id' <> id -> heap p !! id' = Some c' ->
    channels_ p !! Channel.fd_ c' = Some id' ->
    exists idx, heap p' !! id' = Some (Channel.set_index c' idx) /\
      channels_ p' !! Channel.fd_ c' = Some id' /\
      pollfds_ p' !! Z.to_nat idx = pollfds_ p !! Z.to_nat (Channel.index_ c')
}.

Lemma set_index_same c : Channel.set_index c (Channel.index_ c) = c.
Proof. by destruct c. Qed.

(** The removed channel is the last one. *)
Lemma removed_last p id c :
  wf p -> heap p !! id = Some c -> channels_ p !! Channel.fd_ c = Some id ->
  Z.to_nat (Channel.index_ c) = (length (pollfds_ p) - 1)%nat -> pollfds_ p <> [] ->
  removed p (mk (take (length (pollfds_ p) - 1) (pollfds_ p))
                (delete (Channel.fd_ c) (channels_ p)) (heap p)) id c.
Proof.
  intros Hwf Hc Hm Hi Hne. set (n := length (pollfds_ p)) in *.
  assert (0 < n)%nat by (unfold n; destruct (pollfds_ p); [done|simpl; lia]).
  assert (forall id' c', id' <> id -> heap p !! id' = Some c' ->
    channels_ p !! Channel.fd_ c' = Some id' -> Z.to_nat (Channel.index_ c') < n - 1)%nat as Hlt.
  { intros id' c' Hid Hc' Hm'. destruct (wf_map _ Hwf _ _ Hm') as (c2 & Hc2 & _ & _ & Hp & pfd & Hpfd & _).
    simplify_eq. apply lookup_lt_Some in Hpfd. fold n in Hpfd.
    enough (Z.to_nat (Channel.index_ c') <> n - 1)%nat by lia. intros E. apply Hid.
    eapply (index_inj p); try done.
    destruct (wf_map _ Hwf _ _ Hm) as (c3 & Hc3 & _ & _ & Hp3 & _). simplify_eq. lia. }
  split; cbn [channels_ pollfds_ heap].
  - split; cbn [channels_ pollfds_ heap].
    + by apply wf_fd.
    + intros f id' [Hf H2]%lookup_delete_Some.
      destruct (wf_map _ Hwf f id' H2) as (c2 & Hc2 & Hf2 & Hm2 & Hp2 & pfd & Hpfd & Hof).
      exists c2. do 2 (split; [done|]). unfold registered. cbn [channels_ pollfds_].
      rewrite lookup_delete_ne by congruence. do 2 (split; [done|]). exists pfd.
      assert (id' <> id) by (intros ->; simplify_eq). rewrite lookup_take_lt by eauto. done.
    + intros i pfd [Hip Hin]%lookup_take_Some.
      destruct (wf_entry _ Hwf i pfd Hip) as (id2 & c2 & Hc2 & Hi2 & Hm2).
      exists id2, c2. do 2 (split; [done|]). rewrite lookup_delete_ne; [done|].
      intros E. rewrite <- E, Hm in Hm2. simplify_eq. rewrite Hi2, Nat2Z.id in Hi. lia.
  - done.
  - done.
  - rewrite length_take. lia.
  - intros id' c' Hid Hc' Hm'. exists (Channel.index_ c'). rewrite set_index_same.
    split; [done|]. rewrite lookup_delete_ne by (intros E; rewrite E in Hm; congruence).
    split; [done|]. apply lookup_take_lt. by eapply Hlt.
Qed.

(** The last entry belongs to another channel [id'], which takes over the index. *)
Section swap.
Context (p : t) (id id' : nat) (c c' : Channel.t) (back : pollfd).
Hypothesis Hwf : wf p.
Hypothesis Hc : heap p !! id = Some c.
Hypothesis Hm : channels_ p !! Channel.fd_ c = Some id.
Hypothesis Hb : last (pollfds_ p) = Some back.
Hypothesis Hi : Z.to_nat (Channel.index_ c) < length (pollfds_ p) - 1.
Hypothesis Hc' : heap p !! id' = Some c'.
Hypothesis Hi' : Channel.index_ c' = Z.of_nat (length (pollfds_ p) - 1).
Hypothesis Hm' : channels_ p !! Channel.fd_ c' = Some id'.
Hypothesis Hof : of_channel back c'.

Definition swapped : t :=
  mk (without (pollfds_ p) (Z.to_nat (Channel.index_ c)) back) (delete (Channel.fd_ c) (channels_ p))
     (<[id' := Channel.set_index c' (Channel.index_ c)]> (heap p)).

Lemma swap_index_pos : (0 <= Channel.index_ c)%Z.
Proof. destruct (wf_map _ Hwf _ _ Hm) as (c0 & Hc0 & _ & _ & Hp & _). by simplify_eq. Qed.

Lemma swap_ids : id' <> id.
Proof. pose proof swap_index_pos. intros E. rewrite E in Hc'. simplify_eq. lia. Qed.

Lemma swap_fds : Channel.fd_ c' <> Channel.fd_ c.
Proof. pose proof swap_ids. intros E. rewrite E in Hm'. congruence. Qed.

(** A third channel is strictly before the last entry, and not at the gap. *)
Lemma swap_others i c2 :
  i <> id -> i <> id' -> heap p !! i = Some c2 -> channels_ p !! Channel.fd_ c2 = Some i ->
  (0 <= Channel.index_ c2)%Z /\ Z.to_nat (Channel.index_ c2) <> Z.to_nat (Channel.index_ c) /\
  Z.to_nat (Channel.index_ c2) < length (pollfds_ p) - 1 /\ Channel.fd_ c2 <> Channel.fd_ c.
Proof.
  intros H2 H2' Hc2 Hm2. pose proof swap_index_pos.
  destruct (wf_map _ Hwf _ _ Hm2) as (c3 & Hc3 & _ & _ & Hp & pfd & Hpfd & _). simplify_eq.
  apply lookup_lt_Some in Hpfd. split; [done|]. split; [|split].
  - intros E. apply H2. eapply (index_inj p); try done. lia.
  - enough (Z.to_nat (Channel.index_ c2) <> length (pollfds_ p) - 1) by lia. intros E. apply H2'.
    eapply (index_inj p); try done. lia.
  - intros E. rewrite E in Hm2. congruence.
Qed.

Lemma swapped_lookup j pfd : pollfds_ swapped !! j = Some pfd <->
  (j = Z.to_nat (Channel.index_ c) /\ pfd = back) \/
  (j <> Z.to_nat (Channel.index_ c) /\ j < length (pollfds_ p) - 1 /\ pollfds_ p !! j = Some pfd).
Proof. by apply without_lookup. Qed.

Lemma swapped_map f i : channels_ swapped !! f = Some i ->
  exists c2, heap swapped !! i = Some c2 /\ Channel.fd_ c2 = f /\ registered swapped i c2.
Proof.
  unfold registered. cbn [channels_ heap swapped]. intros [Hf H2]%lookup_delete_Some.
  destruct (decide (i = id')) as [->|Hne].
  - exists (Channel.set_index c' (Channel.index_ c)). rewrite lookup_insert_eq.
    destruct (wf_map _ Hwf f id' H2) as (c2 & Hc2 & Hf2 & _). simplify_eq. do 2 (split; [done|]).
    cbn [Channel.fd_ Channel.set_index Channel.index_]. rewrite lookup_delete_ne by apply not_eq_sym, swap_fds.
    split; [done|]. split; [apply swap_index_pos|]. exists back. split; [|done]. apply swapped_lookup. by left.
  - destruct (wf_map _ Hwf f i H2) as (c2 & Hc2 & Hf2 & Hm2 & Hp2 & pfd & Hpfd & Hof2).
    exists c2. rewrite lookup_insert_ne by done. do 2 (split; [done|]).
    assert (i <> id) as Hiid by (intros ->; simplify_eq).
    destruct (swap_others i c2 Hiid Hne Hc2 Hm2) as (_ & Hj1 & Hj2 & Hj3).
    rewrite lookup_delete_ne by done. do 2 (split; [done|]). exists pfd. split; [|done].
    apply swapped_lookup. by right.
Qed.

Lemma swapped_wf : wf swapped.
Proof.
  split; [|apply swapped_map|].
  - cbn [heap swapped]. intros i x [[-> <-]|[_ Hx]]%lookup_insert_Some; [cbn|]; by eapply wf_fd.
  - intros j pfd [[-> ->]|(Hj1 & Hj2 & Hj3)]%swapped_lookup; unfold swapped; cbn [channels_ heap].
    + exists id', (Channel.set_index c' (Channel.index_ c)). rewrite lookup_insert_eq.
      split; [done|]. cbn [Channel.fd_ Channel.set_index Channel.index_]. pose proof swap_index_pos.
      split; [lia|]. rewrite lookup_delete_ne; [done|]. apply not_eq_sym, swap_fds.
    + destruct (wf_entry _ Hwf j pfd Hj3) as (i & c2 & Hc2 & Hi2 & Hm2).
      assert (i <> id') by (intros ->; simplify_eq; lia).
      exists i, c2. rewrite lookup_insert_ne by done. do 2 (split; [done|]).
      rewrite lookup_delete_ne; [done|]. intros E. rewrite <- E in Hm2. simplify_eq. lia.
Qed.

Lemma removed_swap : removed p swapped id c.
Proof.
  split; [apply swapped_wf|done| | |].
  - pose proof swap_ids. intros i [->|[Hno|(x & Hx & Hno)]]; apply lookup_insert_ne; [done|congruence|].
    intros <-. by simplify_eq.
  - unfold swapped, without. cbn [pollfds_]. rewrite length_take, length_insert. lia.
  - intros i c2 Hne Hc2 Hm2. unfold swapped at 1 2. cbn [heap channels_].
    destruct (decide (i = id')) as [->|Hne'].
    + simplify_eq. exists (Channel.index_ c). rewrite lookup_insert_eq.
      split; [done|]. split; [rewrite lookup_delete_ne; [done|]; apply not_eq_sym, swap_fds|].
      rewrite Hi', Nat2Z.id.
      transitivity (Some back); [apply swapped_lookup; by left|]. symmetry. by apply last_entry.
    + destruct (swap_others i c2 Hne Hne' Hc2 Hm2) as (_ & Hj1 & Hj2 & Hj3).
      exists (Channel.index_ c2). rewrite set_index_same, lookup_insert_ne, lookup_delete_ne by done.
      do 2 (split; [done|]). destruct (pollfds_ p !! _) as [pfd|] eqn:E.
      * apply swapped_lookup. by right.
      * apply lookup_ge_None in E. lia.
Qed.

End swap.

Lemma removeChannel_removed p id c pfd :
  wf p -> heap p !! id = Some c -> channels_ p !! Channel.fd_ c = Some id ->
  Channel.isNoneEvent c = true -> pollfds_ p !! Z.to_nat (Channel.index_ c) = Some pfd ->
  fd pfd = ignored (Channel.fd_ c) -> events pfd = Channel.events_ c ->
  exists p', removeChannel p id = Some p' /\ removed p p' id c.
Proof.
  intros Hwf Hc Hm Hn Hpfd Hfd Hev. unfold removeChannel. rewrite Hc. cbn [mbind option_bind].
  destruct (wf_map _ Hwf _ _ Hm) as (c0 & Hc0 & _ & _ & Hp0 & _). assert (c0 = c) as -> by congruence.
  rewrite bool_decide_true, Hn by done. destruct (Z.leb_spec 0%Z (Channel.index_ c)); [|lia]. cbn [andb].
  rewrite Hpfd. cbn [mbind option_bind]. rewrite Hfd, Hev, !Z.eqb_refl. cbn [andb].
  pose proof (lookup_lt_Some _ _ _ Hpfd) as Hlt.
  destruct (Nat.eqb_spec (Z.to_nat (Channel.index_ c)) (length (pollfds_ p) - 1)) as [E|E].
  - eexists. split; [reflexivity|]. apply removed_last; try done. by intros E0; rewrite E0 in Hlt; simpl in Hlt; lia.
  - destruct (last (pollfds_ p)) as [back|] eqn:Eb; [|apply last_None in Eb; rewrite Eb in Hlt; simpl in Hlt; lia].
    cbn [mbind option_bind].
    destruct (entry_channel p _ back Hwf (last_entry _ _ Eb)) as (id' & c' & Hc' & Hi' & Hm' & Hof & Hefd).
    fold (entry_fd back). rewrite Hefd.
    assert (Channel.fd_ c <> Channel.fd_ c').
    { intros E1. rewrite <- E1, Hm in Hm'. simplify_eq. rewrite Hi', Nat2Z.id in E. done. }
    rewrite lookup_delete_ne, Hm' by done. cbn [mbind option_bind]. rewrite Hc'. cbn [mbind option_bind].
    eexists. split; [reflexivity|]. eapply removed_swap; try done. lia.
Qed.

(** ** The contract of a poller *)

#[local] Open Scope Z_scope.

(** The events changes of a channel do not concern the invariant. *)
Lemma poll_wf_set_events p id c e :
  wf p -> heap p !! id = Some c -> wf (set_channel p id (Channel.set_events c e)).
Proof.
  intros [Hp Hm He] Hc.
  assert (forall i c1, heap p !! i = Some c1 -> exists c2, heap (set_channel p id (Channel.set_events c e)) !! i
    = Some c2 /\ Channel.fd_ c2 = Channel.fd_ c1 /\ Channel.index_ c2 = Channel.index_ c1) as Hs.
  { intros i c1 H1. cbn. destruct (decide (i = id)) as [->|Hne].
    - rewrite lookup_insert_eq. eexists. split; [done|]. by simplify_eq.
    - rewrite lookup_insert_ne by done. by exists c1. }
  split; cbn [heap channels_ pollfds_ set_channel].
  - intros i c' [[-> <-]|[_ Hc']]%lookup_insert_Some; [exact (Hp _ _ Hc)|exact (Hp _ _ Hc')].
  - intros f i Hf. destruct (Hm f i Hf) as (c1 & H1 & Hfd & Hr & Hi & pfd & Hpfd & Hof).
    destruct (Hs i c1 H1) as (c2 & H2 & Ef & Ei). exists c2. unfold registered, of_channel.
    cbn [channels_ pollfds_ set_channel]. rewrite Ef, Ei. repeat split; try done. by exists pfd.
  - intros i pfd Hpfd. destruct (He i pfd Hpfd) as (j & c1 & H1 & Hi & Hr).
    destruct (Hs j c1 H1) as (c2 & H2 & Ef & Ei). exists j, c2. by rewrite Ef, Ei.
Qed.

(** The first entry the kernel looks at for a descriptor. *)
Definition entry_of (p : t) (f : Z) : option pollfd :=
  snd <$> list_find (fun e => fd e = f) (pollfds_ p).

(** The [revents] [::poll] stores when the kernel has the events [ready]. *)
Definition answered (p : t) (ready : list (Z * Z)) : list Z :=
  (fun e => default 0 ((list_to_map ready : gmap Z Z) !! fd e)) <$> pollfds_ p.

(** A poll, and the active channels with the events it has stored in them. *)
Definition poll_ready (p : t) (ready : list (Z * Z)) : option (list (nat * Z) * t) :=
  let polled := answered p ready in
  match poll p (length (filter (fun r => r <> 0) polled)) polled with
  | Some (ids, p') => Some (happened (heap p') ids, p')
  | None => None
  end.

#[global] Instance poller : Poller t := {
  p_create := create;
  p_heap := heap;
  p_set := set_channel;
  p_update := updateChannel;
  p_remove := removeChannel;
  p_asked p f := default 0 (events <$> entry_of p f);
  p_owner p f := channels_ p !! f;
  p_poll := poll_ready
}.

(** The entry of a channel holds its events, and is ignored when there are none. *)
Definition entry_ok (c : Channel.t) (pfd : pollfd) : Prop :=
  events pfd = Channel.events_ c /\
  fd pfd = if Channel.isNoneEvent c then ignored (Channel.fd_ c) else Channel.fd_ c.

Record poll_sim (fds : gmap nat Z) (p : t) (a : watchlist) : Prop := {
  ps_wf : wf p;
  ps_fds : forall id, fds !! id = Channel.fd_ <$> heap p !! id;
  ps_live : forall id, live a !! id = status (heap p) (channels_ p) id;
  ps_fresh : forall id c, heap p !! id = Some c -> live a !! id = None -> id ∉ gone a ->
    Channel.index_ c < 0;
  ps_entry : forall id c, heap p !! id = Some c -> channels_ p !! Channel.fd_ c = Some id ->
    exists pfd, pollfds_ p !! Z.to_nat (Channel.index_ c) = Some pfd /\ entry_ok c pfd
}.

Lemma poll_create_sim h : new_channels h -> poll_sim (Channel.fd_ <$> h) (create h) nothing.
Proof.
  intros Hn. split; cbn.
  - apply poll_wf_create. intros id c Hc. by apply Hn in Hc as [_ ?].
  - intros id. by rewrite lookup_fmap.
  - intros id. rewrite lookup_empty. unfold status. by destruct (h !! id).
  - intros id c Hc _ _. apply Hn in Hc as [-> _]. done.
  - intros id c _. by rewrite lookup_empty.
Qed.

Lemma poll_live fds p a id c :
  poll_sim fds p a -> heap p !! id = Some c -> channels_ p !! Channel.fd_ c = Some id ->
  live a !! id = Some (Channel.fd_ c, Channel.events_ c).
Proof. intros Hs Hc Hm. rewrite (ps_live _ _ _ Hs). apply status_Some. by exists c. Qed.

(** What an update makes of the events, when they fit 16 bits. *)
Lemma entry_for_ok c pfd :
  0 <= Channel.events_ c < 2 ^ 15 -> entry_for c pfd ->
  (Channel.isNoneEvent c = true -> fd pfd = ignored (Channel.fd_ c)) -> entry_ok c pfd.
Proof.
  intros He (_ & Hev & _ & Hfd) Hn. split.
  - rewrite Hev. apply swrap_small; lia.
  - destruct (Channel.isNoneEvent c); auto.
Qed.

(** What an operation on channel [id] may do to another channel: move its entry. *)
Definition keeps_entry (p p' : t) (i : nat) (c : Channel.t) : Prop :=
  exists idx, heap p' !! i = Some (Channel.set_index c idx) /\
    (channels_ p !! Channel.fd_ c = Some i ->
     pollfds_ p' !! Z.to_nat idx = pollfds_ p !! Z.to_nat (Channel.index_ c)) /\
    (channels_ p !! Channel.fd_ c <> Some i -> idx = Channel.index_ c).

(** An operation on channel [id], of descriptor [f], which becomes [c']. *)
Record operation (p p' : t) (id : nat) (f : Z) (c' : Channel.t) : Prop := {
  op_wf : wf p';
  op_channel : heap p' !! id = Some c' /\ Channel.fd_ c' = f;
  op_entry : channels_ p' !! f = Some id ->
    exists pfd, pollfds_ p' !! Z.to_nat (Channel.index_ c') = Some pfd /\ entry_ok c' pfd;
  op_map : forall f', f' <> f -> channels_ p' !! f' = channels_ p !! f';
  op_none : forall i, heap p !! i = None -> heap p' !! i = None;
  op_others : forall i c, i <> id -> heap p !! i = Some c -> keeps_entry p p' i c
}.

Lemma poll_sim_operation fds p p' a id c c' l g :
  poll_sim fds p a -> heap p !! id = Some c -> operation p p' id (Channel.fd_ c) c' ->
  (forall i, channels_ p !! Channel.fd_ c = Some i -> i = id) ->
  (forall i, channels_ p' !! Channel.fd_ c = Some i -> i = id) ->
  (forall i, i <> id -> l !! i = live a !! i) -> l !! id = status (heap p') (channels_ p') id ->
  (forall i, i <> id -> i ∉ g -> i ∉ gone a) -> (l !! id = None -> id ∈ g) ->
  poll_sim fds p' (mkWatch l g).
Proof.
  intros Hs Hc [Hwf' [Hc' Hfd] Hent Hmap Hno Hoth] Hb Ha Hl Hlid Hg Hgid.
  split; cbn [live gone]; try done.
  - intros i. rewrite (ps_fds _ _ _ Hs). destruct (decide (i = id)) as [->|Hne].
    + rewrite Hc, Hc'. simpl. by rewrite Hfd.
    + destruct (heap p !! i) as [c1|] eqn:E1; [|by rewrite Hno].
      by destruct (Hoth i c1 Hne E1) as (idx & -> & _).
  - intros i. destruct (decide (i = id)) as [->|Hne]; [done|].
    rewrite Hl, (ps_live _ _ _ Hs) by done. symmetry.
    apply (status_frame _ _ _ _ id (Channel.fd_ c)); auto.
    intros c1 H1. destruct (Hoth i c1 Hne H1) as (idx & H2 & _). by exists idx.
  - intros i c1 H1 H2 H3. destruct (decide (i = id)) as [->|Hne]; [by apply Hgid in H2|].
    rewrite Hl in H2 by done. destruct (heap p !! i) as [c2|] eqn:E2; [|apply Hno in E2; congruence].
    destruct (Hoth i c2 Hne E2) as (idx & H4 & _ & H5). rewrite H4 in H1. injection H1 as <-. cbn.
    rewrite H5; [by apply (ps_fresh _ _ _ Hs i c2 E2 H2), Hg|].
    intros H6. by rewrite (poll_live _ _ _ _ _ Hs E2 H6) in H2.
  - intros i c1 H1 H2. destruct (decide (i = id)) as [->|Hne].
    { rewrite Hc' in H1. injection H1 as <-. apply Hent. by rewrite Hfd in H2. }
    assert (Channel.fd_ c1 <> Channel.fd_ c) as Hfne by (intros E; rewrite E in H2; by apply Hne, Ha).
    rewrite Hmap in H2 by done.
    destruct (heap p !! i) as [c2|] eqn:E2; [|apply Hno in E2; congruence].
    destruct (Hoth i c2 Hne E2) as (idx & H4 & H5 & _). rewrite H4 in H1. injection H1 as <-.
    cbn [Channel.fd_ Channel.set_index] in H2. cbn [Channel.index_ Channel.set_index].
    rewrite H5 by done. exact (ps_entry _ _ _ Hs _ _ E2 H2).
Qed.

(** A channel that is registered changes its events. *)
Lemma poll_change_live fds p a id c e :
  poll_sim fds p a -> heap p !! id = Some c -> channels_ p !! Channel.fd_ c = Some id ->
  0 <= e < 2 ^ 15 ->
  exists p', updateChannel (set_channel p id (Channel.set_events c e)) id = Some p' /\
    poll_sim fds p' (list_channel a id (Channel.fd_ c) e).
Proof.
  intros Hs Hc Hm He. pose proof (ps_wf _ _ _ Hs) as Hwf. set (c0 := Channel.set_events c e).
  destruct (wf_map _ Hwf _ _ Hm) as (c1 & Hc1 & _ & _ & Hi & _). simplify_eq.
  destruct (updateChannel_known (set_channel p id c0) id c0) as (p' & pfd & E & Hwf' & Eh & Em & El & Hpfd & Hno);
    try done; [by apply poll_wf_set_events|cbn; by rewrite lookup_insert_eq|].
  cbn [heap channels_ pollfds_ set_channel] in Eh, Em, El. exists p'. split; [done|].
  apply (poll_sim_operation fds p p' a id c c0); try done.
  - split; rewrite ?Eh, ?Em, ?El; try done.
    + by rewrite lookup_insert_eq.
    + intros _. exists pfd. split; [|by apply entry_for_ok].
      apply list_lookup_insert_eq. destruct (ps_entry _ _ _ Hs _ _ Hc Hm) as (x & Hx & _).
      by eapply lookup_lt_Some.
    + intros i Hi0. rewrite lookup_insert_ne; [done|]. congruence.
    + intros i c1 Hne H1. exists (Channel.index_ c1). rewrite set_index_same, Eh, lookup_insert_ne by done.
      split; [done|]. split; [|done]. intros H2. rewrite El. apply list_lookup_insert_ne. cbn. intros Ei.
      apply Hne. destruct (wf_map _ Hwf _ _ H2) as (c2 & Hc2 & _ & _ & Hi2 & _). simplify_eq.
      eapply (index_inj p); try done. lia.
  - intros i Hi'. congruence.
  - intros i Hi'. rewrite Em in Hi'. congruence.
  - intros i Hne. by rewrite lookup_insert_ne.
  - rewrite lookup_insert_eq. symmetry. apply status_Some. exists c0. by rewrite Eh, Em, lookup_insert_eq.
  - by rewrite lookup_insert_eq.
Qed.

(** A new channel is registered. *)
Lemma poll_change_new fds p a id c e :
  poll_sim fds p a -> heap p !! id = Some c -> live a !! id = None -> id ∉ gone a ->
  free a (Channel.fd_ c) -> 0 <= e < 2 ^ 15 -> e <> 0 ->
  exists p', updateChannel (set_channel p id (Channel.set_events c e)) id = Some p' /\
    poll_sim fds p' (list_channel a id (Channel.fd_ c) e).
Proof.
  intros Hs Hc Hl Hg Hfree He Hne0. pose proof (ps_wf _ _ _ Hs) as Hwf. set (c0 := Channel.set_events c e).
  assert (channels_ p !! Channel.fd_ c = None) as Hm.
  { eapply free_None; [apply (ps_live _ _ _ Hs)| |done]. intros i Hi.
    destruct (wf_map _ Hwf _ _ Hi) as (c1 & H1 & H2 & _). by exists c1. }
  destruct (updateChannel_new (set_channel p id c0) id c0) as (p' & pfd & E & Hwf' & Eh & Em & El & Hpfd); try done.
  { by apply poll_wf_set_events. }
  { cbn. by rewrite lookup_insert_eq. }
  { exact (ps_fresh _ _ _ Hs id c Hc Hl Hg). }
  { cbn. intros f Hf. destruct (wf_map _ Hwf _ _ Hf) as (c1 & H1 & H2 & _). simplify_eq. }
  set (c' := Channel.set_index c0 _) in *.
  cbn [heap channels_ pollfds_ set_channel] in Eh, Em, El, Hpfd. rewrite insert_insert_eq in Eh.
  exists p'. split; [done|]. apply (poll_sim_operation fds p p' a id c c'); try done.
  - split; rewrite ?Eh, ?Em, ?El; try done.
    + by rewrite lookup_insert_eq.
    + intros _. exists pfd. cbn. rewrite Nat2Z.id.
      split; [by apply list_lookup_middle|]. apply (entry_for_ok c' pfd); [done|done|].
      intros Hn. by apply Z.eqb_eq in Hn.
    + intros f' Hf'. by rewrite lookup_insert_ne.
    + intros i Hi. rewrite lookup_insert_ne; [done|]. congruence.
    + intros i c1 Hne H1. exists (Channel.index_ c1). rewrite set_index_same, Eh, lookup_insert_ne by done.
      split; [done|]. split; [|done]. intros H2. rewrite El.
      destruct (ps_entry _ _ _ Hs _ _ H1 H2) as (x & Hx & _). rewrite Hx. by apply lookup_app_l_Some.
  - intros i Hi. congruence.
  - intros i Hi. rewrite Em in Hi. cbn in Hi. rewrite lookup_insert_eq in Hi. congruence.
  - intros i Hne. by rewrite lookup_insert_ne.
  - rewrite lookup_insert_eq. symmetry. apply status_Some. exists c'. by rewrite Eh, Em, !lookup_insert_eq.
  - by rewrite lookup_insert_eq.
Qed.

(** A registered channel without events is removed. *)
Lemma poll_remove_sim fds p a id f :
  poll_sim fds p a -> live a !! id = Some (f, 0) ->
  exists p', removeChannel p id = Some p' /\
    poll_sim fds p' (mkWatch (delete id (live a)) ({[id]} ∪ gone a)).
Proof.
  intros Hs Hl. pose proof (ps_wf _ _ _ Hs) as Hwf. rewrite (ps_live _ _ _ Hs) in Hl.
  apply status_Some in Hl as (c & Hc & Hm & <- & He).
  destruct (ps_entry _ _ _ Hs _ _ Hc Hm) as (pfd & Hpfd & Hev & Hfd).
  assert (Channel.isNoneEvent c = true) as Hn by by apply Z.eqb_eq. rewrite Hn in Hfd.
  destruct (removeChannel_removed p id c pfd Hwf Hc Hm Hn Hpfd Hfd Hev) as (p' & E & [Hwf' Em Eh _ Hoth]).
  assert (channels_ p' !! Channel.fd_ c = None) as Hgone by (by rewrite Em, lookup_delete_eq).
  exists p'. split; [done|]. apply (poll_sim_operation fds p p' a id c c); try done.
  - split; try done.
    + by rewrite Eh by auto.
    + congruence.
    + intros f' Hf. by rewrite Em, lookup_delete_ne.
    + intros i Hi. by rewrite Eh by auto.
    + intros i c1 Hi H1. destruct (decide (channels_ p !! Channel.fd_ c1 = Some i)) as [H2|H2].
      * destruct (Hoth i c1 Hi H1 H2) as (idx & H3 & _ & H4). by exists idx.
      * exists (Channel.index_ c1). rewrite set_index_same, Eh by eauto. done.
  - intros i Hi. congruence.
  - intros i Hi. congruence.
  - intros i Hne. by rewrite lookup_delete_ne.
  - rewrite lookup_delete_eq. unfold status. rewrite Eh, Hc by auto. cbn.
    by rewrite bool_decide_false by congruence.
  - set_solver.
  - set_solver.
Qed.

Lemma poll_step_sim fds p a o a' :
  poll_sim fds p a -> spec_step fds a o = Some a' ->
  exists p', impl_step p o = Some p' /\ poll_sim fds p' a'.
Proof.
  intros Hs E. destruct o as [id e|id]; simpl in E.
  - rewrite (ps_fds _ _ _ Hs) in E. destruct (heap p !! id) as [c|] eqn:Hc; [|done]. simpl in E.
    destruct (bool_decide_reflect (id ∉ gone a)) as [Hg|]; [|done]. cbn [andb] in E.
    destruct (Z.leb_spec 0 e); [|done]. destruct (Z.ltb_spec e (2 ^ 15)); [|done]. cbn [andb] in E.
    unfold impl_step. cbn [p_heap poller]. rewrite Hc. cbn [mbind option_bind p_update p_set].
    destruct (live a !! id) as [[f e']|] eqn:El.
    + injection E as <-. rewrite (ps_live _ _ _ Hs) in El.
      apply status_Some in El as (c1 & Hc1 & Hm & Hf & _). simplify_eq. by apply poll_change_live.
    + destruct (bool_decide_reflect (free a (Channel.fd_ c))); [|done].
      destruct (Z.eqb_spec e 0); [done|]. injection E as <-. by apply poll_change_new.
  - destruct (live a !! id) as [[f [| |]]|] eqn:El; [|done..]. injection E as <-.
    by eapply poll_remove_sim.
Qed.

(** Every entry the kernel looks at for a descriptor is that of its channel. *)
Lemma entry_of_Some fds p a f pfd :
  poll_sim fds p a -> 0 <= f -> entry_of p f = Some pfd ->
  exists id c, heap p !! id = Some c /\ channels_ p !! f = Some id /\ Channel.fd_ c = f /\
    events pfd = Channel.events_ c.
Proof.
  intros Hs Hf E. unfold entry_of in E. apply fmap_Some in E as ([i x] & E & ->).
  apply list_find_Some in E as (Hi & Hx & _). pose proof (ps_wf _ _ _ Hs) as Hwf. cbn.
  destruct (entry_channel p i x Hwf Hi) as (id & c & Hc & Hidx & Hm & _ & Hefd).
  assert (Channel.fd_ c = f) as <-.
  { rewrite <- Hefd. unfold entry_fd. rewrite Hx. destruct (Z.ltb_spec f 0); lia. }
  destruct (ps_entry _ _ _ Hs _ _ Hc Hm) as (y & Hy & Hev & _).
  rewrite Hidx, Nat2Z.id, Hi in Hy. injection Hy as <-. by exists id, c.
Qed.

Lemma poll_shows fds p a : poll_sim fds p a -> shows p a.
Proof.
  intros Hs. pose proof (ps_wf _ _ _ Hs) as Hwf. split; cbn.
  - intros id f e E. rewrite (ps_live _ _ _ Hs) in E.
    apply status_Some in E as (c & Hc & Hm & <- & <-). split; [|done].
    destruct (entry_of p (Channel.fd_ c)) as [pfd|] eqn:E.
    + destruct (entry_of_Some _ _ _ _ _ Hs (wf_fd _ Hwf _ _ Hc) E) as (i & c1 & H1 & H2 & _ & Hev).
      simplify_eq. done.
    + destruct (ps_entry _ _ _ Hs _ _ Hc Hm) as (y & Hy & Hev & Hfd).
      destruct (Channel.isNoneEvent c) eqn:En; [by apply Z.eqb_eq in En|].
      apply fmap_None, list_find_None in E. by destruct (Forall_lookup_1 _ _ _ _ E Hy).
  - intros f Hf Hfree. destruct (entry_of p f) as [pfd|] eqn:E; [|done].
    destruct (entry_of_Some _ _ _ _ _ Hs Hf E) as (i & c & H1 & H2 & H3 & _). subst f.
    pose proof (poll_live _ _ _ _ _ Hs H1 H2) as Hl. by apply Hfree in Hl.
Qed.

(** ** Polling *)

(** A poll changes what has happened, in the channels and in the entries. *)
Lemma poll_sim_same fds p pfds h a :
  poll_sim fds p a -> same_channels (heap p) h ->
  (fun e => (fd e, events e)) <$> pfds = (fun e => (fd e, events e)) <$> pollfds_ p ->
  poll_sim fds (mk pfds (channels_ p) h) a.
Proof.
  intros [[Hfd Hm Hent] Hf Hl Hfr Hok] Hh He.
  assert (forall id c, h !! id = Some c -> exists c0, heap p !! id = Some c0 /\ Channel.fd_ c0 = Channel.fd_ c /\
    Channel.events_ c0 = Channel.events_ c /\ Channel.index_ c0 = Channel.index_ c) as Hback.
  { intros id c Hc. symmetry in Hh. exact (same_channels_l _ _ _ _ Hh Hc). }
  assert (forall i e, pollfds_ p !! i = Some e -> exists e', pfds !! i = Some e' /\ fd e' = fd e /\ events e' = events e)
    as Hto.
  { intros i e Hi. apply (f_equal (fun l => l !! i)) in He. rewrite !list_lookup_fmap, Hi in He.
    destruct (pfds !! i) as [e'|]; [|done]. injection He as ? ?. by exists e'. }
  split; [split| | | |]; cbn [channels_ pollfds_ heap].
  - intros id c Hc. destruct (Hback id c Hc) as (c0 & Hc0 & <- & _). by eapply Hfd.
  - intros f id Hid. destruct (Hm f id Hid) as (c & Hc & <- & Hreg & Hidx & e & Hei & Hof).
    destruct (same_channels_l _ _ _ _ Hh Hc) as (c' & Hc' & E1 & _ & E3). exists c'.
    destruct (Hto _ _ Hei) as (e' & Hei' & E4 & _). split; [done|]. split; [done|].
    split; [cbn; by rewrite E1|]. rewrite E3. split; [done|]. exists e'. split; [done|].
    unfold of_channel in *. by rewrite E1, E4.
  - intros i e' Hi. apply (f_equal (fun l => l !! i)) in He. rewrite !list_lookup_fmap, Hi in He.
    destruct (pollfds_ p !! i) as [e|] eqn:Ee; [|done]. destruct (Hent i e Ee) as (id & c & Hc & Hidx & Hch).
    destruct (same_channels_l _ _ _ _ Hh Hc) as (c' & Hc' & E1 & _ & E3). exists id, c'. by rewrite E1, E3.
  - intros id. rewrite Hf. specialize (Hh id). destruct (heap p !! id), (h !! id); try done.
    injection Hh as E _ _. cbn. by rewrite E.
  - intros id. rewrite Hl. by apply status_same.
  - intros id c Hc Hnone Hgone. destruct (Hback id c Hc) as (c0 & Hc0 & _ & _ & <-). by eapply Hfr.
  - intros id c Hc Hid. destruct (Hback id c Hc) as (c0 & Hc0 & E1 & E2 & E3). rewrite <- E1 in Hid.
    destruct (Hok id c0 Hc0 Hid) as (e & Hei & Hev & Hefd). rewrite <- E3.
    destruct (Hto _ _ Hei) as (e' & Hei' & E4 & E5). exists e'. split; [done|]. unfold entry_ok, Channel.isNoneEvent in *.
    by rewrite <- E1, <- E2, E4, E5.
Qed.

(** An entry at position [i] belongs to the channel with that index. *)
Definition owned (p : t) (i : nat) (e : pollfd) (id : nat) : Prop :=
  exists c, channels_ p !! fd e = Some id /\ heap p !! id = Some c /\ Channel.fd_ c = fd e /\
    Channel.index_ c = Z.of_nat i.

(** The channels of the entries on which something has happened become active. *)
Lemma poll_fillActiveChannels_spec pfds : forall p k,
  (forall i e, pfds !! i = Some e -> 0 < revents e -> exists id, owned p (k + i) e id) ->
  exists ids h,
    fillActiveChannels p (length (filter (fun e => 0 < revents e) pfds)) pfds =
      Some (ids, mk (pollfds_ p) (channels_ p) h) /\
    same_channels (heap p) h /\ NoDup ids /\
    (forall id, id ∈ ids -> exists i e, pfds !! i = Some e /\ 0 < revents e /\ owned p (k + i) e id /\
       Channel.revents_ <$> h !! id = Some (revents e)) /\
    (forall id, id ∉ ids -> h !! id = heap p !! id) /\
    length ids = length (filter (fun e => 0 < revents e) pfds).
Proof.
  induction pfds as [|e pfds IH]; intros p k Hown.
  - exists [], (heap p). cbn. split; [by destruct p|]. split; [done|]. split; [constructor|].
    split; [by intros id ?%not_elem_of_nil|done].
  - assert (forall i e', pfds !! i = Some e' -> 0 < revents e' -> exists id, owned p (S k + i) e' id) as Hrest.
    { intros i e' Hi Hr. destruct (Hown (S i) e' Hi Hr) as (id & Ho). exists id. by rewrite <- Nat.add_succ_comm in Ho. }
    rewrite filter_cons. destruct (decide (0 < revents e)) as [Hr|Hr].
    + destruct (Hown 0%nat e eq_refl Hr) as (id & c & Hid & Hc & Hf & Hidx). rewrite Nat.add_0_r in Hidx.
      cbn [length fillActiveChannels]. destruct (Z.ltb_spec 0 (revents e)); [|lia].
      rewrite Hid. cbn [mbind option_bind]. rewrite Hc. cbn [mbind option_bind]. rewrite Hf, Z.eqb_refl.
      set (p1 := set_channel p id (Channel.set_revents c (revents e))).
      assert (forall i e' id', owned p i e' id' <-> owned p1 i e' id') as Hsame1.
      { intros i e' id'. unfold owned. cbn. destruct (decide (id' = id)) as [->|Hne]; [|by rewrite lookup_insert_ne].
        rewrite lookup_insert_eq. split.
        - intros (c' & ? & ? & ? & ?). simplify_eq. by exists (Channel.set_revents c (revents e)).
        - intros (c' & ? & [= <-] & ? & ?). by exists c. }
      destruct (IH p1 (S k)) as (ids & h & -> & Hs & Hnd & Hin & Hout & Hlen).
      { intros i e' Hi Hr'. destruct (Hrest i e' Hi Hr') as (id' & Ho). exists id'. by apply Hsame1. }
      cbn [mbind option_bind]. exists (id :: ids), h. split; [done|].
      assert (id ∉ ids) as Hni.
      { intros Hi. destruct (Hin id Hi) as (i & e' & _ & _ & Ho & _). apply Hsame1 in Ho as (c' & _ & ? & _ & ?).
        simplify_eq. lia. }
      split; [transitivity (heap p1); [by apply same_channels_set|done]|]. split; [by constructor|].
      split; [|split; [|cbn; by rewrite Hlen]].
      * intros id' [->|Hi]%elem_of_cons.
        -- exists 0%nat, e. split; [done|]. split; [done|]. rewrite Nat.add_0_r. split; [by exists c|].
           rewrite Hout by done. cbn. by rewrite lookup_insert_eq.
        -- destruct (Hin id' Hi) as (i & e' & ? & ? & Ho & ?). exists (S i), e'. rewrite <- Nat.add_succ_comm.
           split; [done|]. split; [done|]. split; [by apply Hsame1|done].
      * intros id' [Hne Hi]%not_elem_of_cons. rewrite (Hout id' Hi). cbn. by rewrite lookup_insert_ne.
    + destruct (IH p (S k) Hrest) as (ids & h & E & Hs & Hnd & Hin & Hout & Hlen). exists ids, h.
      split; [|split; [done|split; [done|split; [|done]]]].
      * destruct (length _) eqn:En; [by rewrite <- E; destruct pfds|]. cbn [fillActiveChannels].
        destruct (Z.ltb_spec 0 (revents e)); [lia|done].
      * intros id Hi. destruct (Hin id Hi) as (i & e' & ? & ? & ? & ?). exists (S i), e'.
        by rewrite <- Nat.add_succ_comm.
Qed.

(** The entry of a watched descriptor, after [::poll]. *)
Definition polled_entry (ready : list (Z * Z)) (e : pollfd) : pollfd :=
  mkPollfd (fd e) (events e) (default 0 ((list_to_map ready : gmap Z Z) !! fd e)).

Lemma polled_entries p ready :
  zip_with (fun e r => mkPollfd (fd e) (events e) r) (pollfds_ p) (answered p ready) =
  polled_entry ready <$> pollfds_ p.
Proof. unfold answered. rewrite zip_with_fmap_r. induction (pollfds_ p) as [|e l IH]; [done|]. cbn. by f_equal. Qed.

Lemma polled_ready ready f r :
  NoDup (ready.*1) -> default 0 ((list_to_map ready : gmap Z Z) !! f) = r -> r <> 0 -> (f, r) ∈ ready.
Proof.
  intros Hnd <- Hr. destruct (list_to_map ready !! f) as [r'|] eqn:E; [|done].
  by apply elem_of_list_to_map_2 in E.
Qed.

(** The kernel counts the entries on which something has happened. *)
Lemma answered_count p ready :
  Forall (fun x : Z * Z => 0 < x.2) ready ->
  length (filter (fun r => r <> 0) (answered p ready)) =
  length (filter (fun e => 0 < revents e) (polled_entry ready <$> pollfds_ p)).
Proof.
  intros Hall. unfold answered. induction (pollfds_ p) as [|e l IH]; [done|]. cbn [fmap list_fmap].
  rewrite !filter_cons. cbn [revents polled_entry].
  assert (forall r, list_to_map (M:=gmap Z Z) ready !! fd e = Some r -> 0 < r) as Hp.
  { intros r E. apply elem_of_list_to_map_2 in E. by eapply Forall_forall in Hall; [|exact E]. }
  destruct (list_to_map ready !! fd e) as [r|]; cbn.
  - specialize (Hp r eq_refl). destruct (decide (r <> 0)), (decide (0 < r)); try lia. cbn. by rewrite IH.
  - done.
Qed.

Lemma poll_poll_sim fds p a ready :
  poll_sim fds p a -> reportable a ready ->
  exists active p', p_poll p ready = Some (active, p') /\ poll_sim fds p' a /\ found a ready active.
Proof.
  intros Hs [Hnd Hall]. pose proof (ps_wf _ _ _ Hs) as Hwf. cbn [p_poll poller]. unfold poll_ready, poll.
  rewrite polled_entries, answered_count by (eapply Forall_impl; [exact Hall|]; cbn; intros x [? _]; lia).
  set (pfds := polled_entry ready <$> pollfds_ p). set (p1 := mk pfds (channels_ p) (heap p)).
  assert (forall f r, (f, r) ∈ ready -> 0 < r /\ exists id c, heap p !! id = Some c /\ Channel.fd_ c = f /\
    channels_ p !! f = Some id /\ live a !! id = Some (f, Channel.events_ c) /\ Channel.events_ c <> 0) as Hready.
  { intros f r Hin. eapply Forall_forall in Hall as (Hr & id & e & Hl & He); [|exact Hin]. cbn in Hr, Hl.
    split; [lia|]. pose proof Hl as Hst. rewrite (ps_live _ _ _ Hs) in Hst.
    apply status_Some in Hst as (c & Hc & Hm & Hf & Hev). exists id, c. by rewrite Hev. }
  assert (forall i e, pfds !! i = Some e -> 0 < revents e -> exists id, owned p1 i e id) as Hown.
  { intros i e' Hi Hr. unfold pfds in Hi. apply list_lookup_fmap_Some in Hi as (e & -> & Hi).
    pose proof (polled_ready ready (fd e) _ Hnd eq_refl ltac:(cbn in Hr; lia)) as Hin.
    destruct (Hready _ _ Hin) as (_ & id & c & Hc & Hf & Hm & _).
    destruct (entry_channel p i e Hwf Hi) as (id2 & c2 & Hc2 & Hidx & Hm2 & _ & Hefd).
    assert (Channel.fd_ c2 = fd e) as E2.
    { rewrite <- Hefd. unfold entry_fd. pose proof (wf_fd _ Hwf _ _ Hc). destruct (Z.ltb_spec (fd e) 0); lia. }
    rewrite E2 in Hm2. exists id2, c2. by rewrite E2. }
  destruct (poll_fillActiveChannels_spec pfds p1 0) as (ids & h & -> & Hsame & Hndi & Hin & Hout & Hlen).
  { intros i e Hi Hr. by apply Hown. }
  do 2 eexists. split; [reflexivity|]. split; [|split].
  - apply (poll_sim_same fds p); [done|exact Hsame|]. unfold p1, pfds. cbn. by rewrite <- list_fmap_compose.
  - by rewrite happened_ids.
  - intros id r (i & [= <- ->] & Hi)%list_elem_of_fmap. destruct (Hin id Hi) as (j & e & Hj & Hr & Ho & Hrev).
    cbn [heap]. rewrite Hrev. cbn. unfold pfds in Hj. apply list_lookup_fmap_Some in Hj as (e0 & -> & Hj).
    pose proof (polled_ready ready (fd e0) _ Hnd eq_refl ltac:(cbn in Hr; lia)) as Hr0.
    destruct (Hready _ _ Hr0) as (_ & id' & c & Hc & Hf & Hm & Hl & _).
    destruct Ho as (c' & Hm' & _). cbn in Hm'. simplify_eq. by exists (fd e0), (Channel.events_ c).
  - intros Hne Hnil. apply fmap_nil_inv in Hnil. rewrite Hnil in Hlen. cbn in Hlen.
    destruct ready as [|[f r] ready']; [done|]. destruct (Hready f r ltac:(by left)) as (Hr & id & c & Hc & Hf & Hm & _ & He).
    rewrite <- Hf in Hm. destruct (ps_entry _ _ _ Hs _ _ Hc Hm) as (e & Hi & _ & Hfd).
    assert (Channel.isNoneEvent c = false) as Hn by (by apply Z.eqb_neq). rewrite Hn in Hfd.
    assert (polled_entry ((f, r) :: ready') e ∈ filter (fun e => 0 < revents e) pfds) as Hmem.
    { apply list_elem_of_filter. split; [|apply list_elem_of_fmap_2; by eapply list_elem_of_lookup_2].
      cbn. rewrite Hfd, Hf, lookup_insert_eq. done. }
    destruct (filter _ pfds); [by apply not_elem_of_nil in Hmem|done].
Qed.

#[global] Instance poll_spec : PollerSpec t := {
  sim := poll_sim;
  sim_create := poll_create_sim;
  sim_step := poll_step_sim;
  sim_shows := poll_shows;
  sim_poll := poll_poll_sim
}.

End PollPoller.

(** * The poller of a loop (network/poller/DefaultPoller.cpp)

    [Poller::newDefaultPoller] picks the implementation by an environment
    variable; the calls through a [Poller *] are dispatched to it.  The contract
    holds of the result because both implementations have it. *)

(** The object behind a [Poller *]. *)
Inductive AnyPoller :=
  | AnEPoll (p : EPollPoller.t)
  | APoll (p : PollPoller.t).

(** [getenv] is what [::getenv("MYMUDUO_USE_POLL")] gives. *)
Definition newDefaultPoller (getenv : option bytes) (channels : gmap nat Channel.t) : AnyPoller :=
  match getenv with
  | Some _ => APoll (PollPoller.create channels)
  | None => AnEPoll (EPollPoller.create channels)
  end.

#[export] Instance any_poller : Poller AnyPoller := {
  p_create h := newDefaultPoller None h;
  p_heap p := match p with AnEPoll p => p_heap p | APoll p => p_heap p end;
  p_set p id c := match p with AnEPoll p => AnEPoll (p_set p id c) | APoll p => APoll (p_set p id c) end;
  p_update p id :=
    match p with AnEPoll p => AnEPoll <$> p_update p id | APoll p => APoll <$> p_update p id end;
  p_remove p id :=
    match p with AnEPoll p => AnEPoll <$> p_remove p id | APoll p => APoll <$> p_remove p id end;
  p_asked p f := match p with AnEPoll p => p_asked p f | APoll p => p_asked p f end;
  p_owner p f := match p with AnEPoll p => p_owner p f | APoll p => p_owner p f end;
  p_poll p ready :=
    match p with
    | AnEPoll p => prod_map id AnEPoll <$> p_poll p ready
    | APoll p => prod_map id APoll <$> p_poll p ready
    end
}.

(** ** The contract *)

Definition any_sim (fds : gmap nat Z) (p : AnyPoller) (a : watchlist) : Prop :=
  match p with AnEPoll p => sim fds p a | APoll p => sim fds p a end.

Lemma any_sim_create getenv h : new_channels h -> any_sim (Channel.fd_ <$> h) (newDefaultPoller getenv h) nothing.
Proof.
  destruct getenv; intros Hn; [exact (sim_create (P:=PollPoller.t) h Hn)|exact (sim_create (P:=EPollPoller.t) h Hn)].
Qed.

Lemma any_sim_step fds p a o a' :
  any_sim fds p a -> spec_step fds a o = Some a' -> exists p', impl_step p o = Some p' /\ any_sim fds p' a'.
Proof.
  destruct p as [p|p]; intros Hs E; destruct (sim_step fds p a o a' Hs E) as (p' & Ep & Hs').
  - exists (AnEPoll p'). split; [|done]. destruct o as [id e|id]; cbn in *.
    + destruct (EPollPoller.heap p !! id); [|done]. cbn in *. by rewrite Ep.
    + by rewrite Ep.
  - exists (APoll p'). split; [|done]. destruct o as [id e|id]; cbn in *.
    + destruct (PollPoller.heap p !! id); [|done]. cbn in *. by rewrite Ep.
    + by rewrite Ep.
Qed.

Lemma any_sim_poll fds p a ready :
  any_sim fds p a -> reportable a ready ->
  exists active p', p_poll p ready = Some (active, p') /\ any_sim fds p' a /\ found a ready active.
Proof.
  destruct p as [p|p]; intros Hs Hr; destruct (sim_poll fds p a ready Hs Hr) as (active & p' & E & Hs' & Hf);
    exists active; [exists (AnEPoll p')|exists (APoll p')]; (split; [cbn in *; by rewrite E|done]).
Qed.

#[export] Instance any_poller_spec : PollerSpec AnyPoller := {
  sim := any_sim;
  sim_create h := any_sim_create None h;
  sim_step := any_sim_step;
  sim_shows fds p a := match p with AnEPoll p => sim_shows fds p a | APoll p => sim_shows fds p a end;
  sim_poll := any_sim_poll
}.

(** Whatever the environment says, the poller of the loop keeps the contract. *)
Lemma default_poller_refines getenv h os a :
  new_channels h -> spec_run (Channel.fd_ <$> h) nothing os = Some a ->
  exists p, impl_run (newDefaultPoller getenv h) os = Some p /\ shows p a.
Proof.
  intros Hn Ha. assert (sim (Channel.fd_ <$> h) (newDefaultPoller getenv h) nothing) as H0 by exact (any_sim_create getenv h Hn).
  destruct (run_sim _ _ _ _ _ H0 Ha) as (p & E & Hs). exists p. split; [done|]. exact (sim_shows _ _ _ Hs).
Qed.
