(* ===== verification/TimerQueue.v ===== *)
(** * Timers (network/Timer, network/TimerQueue)

    The two sets of a timer queue, and the life of a timer from [addTimer] to its
    expiry or its cancellation.  A [Timer *] is an address; the object it points
    to is in [timers_heap].  An interval in seconds enters as the number of
    microseconds [addTime] makes of it. *)

From S2P Require Import Prelude TimeStamp.
Import TimeStamp.TimeStamp.

Module TimerQueue.

Record Timer := mkTimer {
  expiration_ : TimeStamp.t;
  interval_ : Z;
  repeat_ : bool;
  sequence_ : Z
}.

(** [restart]. *)
Definition restart (tm : Timer) (now : TimeStamp.t) : Timer :=
  mkTimer (if repeat_ tm then addTime now (interval_ tm) else invalid)
    (interval_ tm) (repeat_ tm) (sequence_ tm).

(** An [Entry] of [timers_]: microseconds and address, ordered as pairs. *)
Definition entry : Type := Z * Z.
Definition entry_ltb (a b : entry) : bool :=
  (a.1 <? b.1)%Z || ((a.1 =? b.1)%Z && (a.2 <? b.2)%Z).
Definition entry_lt (a b : entry) : Prop := entry_ltb a b = true.

Definition UINTPTR_MAX : Z := 2 ^ 64 - 1.

(** [timerfd]: the expiration [resetTimerfd] was last given, while it is armed. *)
Record t := mk {
  timers_ : list entry;
  activeTimers_ : gset (Z * Z);
  callingExpiredTimers_ : bool;
  cancelingTimers_ : gset (Z * Z);
  timers_heap : gmap Z Timer;
  timerfd : option TimeStamp.t
}.

Definition create : t := mk [] ∅ false ∅ ∅ None.

Definition set_sets (q : t) (l : list entry) (a : gset (Z * Z)) : t :=
  mk l a (callingExpiredTimers_ q) (cancelingTimers_ q) (timers_heap q) (timerfd q).
Definition set_heap (q : t) (h : gmap Z Timer) : t :=
  mk (timers_ q) (activeTimers_ q) (callingExpiredTimers_ q) (cancelingTimers_ q) h (timerfd q).
Definition set_calling (q : t) (b : bool) (c : gset (Z * Z)) : t :=
  mk (timers_ q) (activeTimers_ q) b c (timers_heap q) (timerfd q).
Definition resetTimerfd (q : t) (e : TimeStamp.t) : t :=
  mk (timers_ q) (activeTimers_ q) (callingExpiredTimers_ q) (cancelingTimers_ q) (timers_heap q) (Some e).
Definition readTimerfd (q : t) : t :=
  mk (timers_ q) (activeTimers_ q) (callingExpiredTimers_ q) (cancelingTimers_ q) (timers_heap q) None.

(** [howMuchTimeFromNow], in microseconds: at least 100. *)
Definition howMuchTimeFromNow (when now : TimeStamp.t) : Z :=
  Z.max 100 (microSecondsSinceEpoch when - microSecondsSinceEpoch now).

(** [std::set::insert]: [None] when the element is there already. *)
Fixpoint set_insert (e : entry) (l : list entry) : option (list entry) :=
  match l with
  | [] => Some [e]
  | x :: l' =>
      if entry_ltb e x then Some (e :: l)
      else if entry_ltb x e then cons x <$> set_insert e l'
      else None
  end.

(** [std::set::erase]: the number of elements removed. *)
Definition set_erase (e : entry) (l : list entry) : nat * list entry :=
  (length (filter (fun x => x = e) l), filter (fun x => x <> e) l).

Definition sizes_agree (q : t) : bool := length (timers_ q) =? size (activeTimers_ q).

(** [insert]: whether the earliest expiration has changed.  A failed assertion
    and an invalid address are [None]. *)
Definition insert (q : t) (a : Z) : option (bool * t) :=
  if negb (sizes_agree q) then None
  else
    tm ← (timers_heap q !! a : option Timer);
    let when := expiration_ tm in
    let earliestChanged :=
      match timers_ q with
      | [] => true
      | e :: _ => (microSecondsSinceEpoch when <? e.1)%Z
      end in
    l ← set_insert (microSecondsSinceEpoch when, a) (timers_ q);
    let active := (a, sequence_ tm) in
    if bool_decide (active ∈ activeTimers_ q) then None
    else
      let q := set_sets q l ({[active]} ∪ activeTimers_ q) in
      if negb (sizes_agree q) then None else Some (earliestChanged, q).

(** [addTimerInLoop], on a timer allocated at [a]. *)
Definition addTimerInLoop (q : t) (a : Z) : option t :=
  '(earliestChanged, q) ← insert q a;
  tm ← (timers_heap q !! a : option Timer);
  Some (if earliestChanged : bool then resetTimerfd q (expiration_ tm) else q).

(** [addTimer]: [new Timer], then [addTimerInLoop]. *)
Definition addTimer (q : t) (a : Z) (tm : Timer) : option t :=
  addTimerInLoop (set_heap q (<[a := tm]> (timers_heap q))) a.

Definition cancelInLoop (q : t) (a seq : Z) : option t :=
  if negb (sizes_agree q) then None
  else if bool_decide ((a, seq) ∈ activeTimers_ q) then
    tm ← (timers_heap q !! a : option Timer);
    let '(n, l) := set_erase (microSecondsSinceEpoch (expiration_ tm), a) (timers_ q) in
    if negb (n =? 1) then None
    else
      let q := set_heap q (delete a (timers_heap q)) in
      let q := set_sets q l (activeTimers_ q ∖ {[(a, seq)]}) in
      if negb (sizes_agree q) then None else Some q
  else if callingExpiredTimers_ q then
    Some (set_calling q true ({[(a, seq)]} ∪ cancelingTimers_ q))
  else Some q.

(** The entries before [sentry], and the others. *)
Fixpoint split_at (sentry : entry) (l : list entry) : list entry * list entry :=
  match l with
  | [] => ([], [])
  | e :: l' =>
      if entry_ltb e sentry then let '(x, y) := split_at sentry l' in (e :: x, y) else ([], l)
  end.

(** The loop of [getExpired] that erases the active timers. *)
Fixpoint erase_active (h : gmap Z Timer) (expired : list entry) (act : gset (Z * Z)) :
    option (gset (Z * Z)) :=
  match expired with
  | [] => Some act
  | e :: expired' =>
      tm ← h !! e.2;
      if bool_decide ((e.2, sequence_ tm) ∈ act)
      then erase_active h expired' (act ∖ {[(e.2, sequence_ tm)]}) else None
  end.

Definition getExpired (q : t) (now : TimeStamp.t) : option (list entry * t) :=
  if negb (sizes_agree q) then None
  else
    let '(expired, rest) := split_at (microSecondsSinceEpoch now, UINTPTR_MAX) (timers_ q) in
    match rest with
    | e :: _ => if (microSecondsSinceEpoch now <? e.1)%Z then Some tt else None
    | [] => Some tt
    end;;
    act ← erase_active (timers_heap q) expired (activeTimers_ q);
    let q := set_sets q rest act in
    if negb (sizes_agree q) then None else Some (expired, q).

(** The loop of [reset]. *)
Fixpoint reset_loop (q : t) (expired : list entry) (now : TimeStamp.t) : option t :=
  match expired with
  | [] => Some q
  | e :: expired' =>
      tm ← (timers_heap q !! e.2 : option Timer);
      q ← (if repeat_ tm && negb (bool_decide ((e.2, sequence_ tm) ∈ cancelingTimers_ q)) then
             '(_, q) ← insert (set_heap q (<[e.2 := restart tm now]> (timers_heap q))) e.2;
             Some q
           else Some (set_heap q (delete e.2 (timers_heap q))));
      reset_loop q expired' now
  end.

Definition reset (q : t) (expired : list entry) (now : TimeStamp.t) : option t :=
  q ← reset_loop q expired now;
  nextExpire ← match timers_ q with
               | [] => Some default
               | e :: _ => tm ← (timers_heap q !! e.2 : option Timer); Some (expiration_ tm)
               end;
  Some (if (0 <? microSecondsSinceEpoch nextExpire)%Z then resetTimerfd q nextExpire else q).

(** What a timer's callback does to the queue. *)
Inductive command :=
  | CAdd (a : Z) (tm : Timer)
  | CCancel (a seq : Z).

Definition run_command (q : t) (c : command) : option t :=
  match c with
  | CAdd a tm => addTimer q a tm
  | CCancel a seq => cancelInLoop q a seq
  end.

Fixpoint run_commands (q : t) (cs : list command) : option t :=
  match cs with
  | [] => Some q
  | c :: cs' => q' ← run_command q c; run_commands q' cs'
  end.

(** [handleRead]; [callback] is what each expired timer's function does. *)
Definition handleRead (q : t) (callback : Timer -> list command) (now : TimeStamp.t) : option (list Z * t) :=
  '(expired, q) ← getExpired (readTimerfd q) now;
  let q := set_calling q true ∅ in
  tms ← mapM (fun e : entry => timers_heap q !! e.2) expired;
  q ← run_commands q (flat_map callback tms);
  q ← reset (set_calling q false (cancelingTimers_ q)) expired now;
  Some (snd <$> expired, q).

End TimerQueue.
