(* ===== verification/TimerFacts.v ===== *)
(** * The timer queue's two sets stay in step

    The invariant that makes every assertion of TimerQueue.cpp hold, and what
    expiry and cancellation do. *)

From Stdlib Require Import Sorting.Sorted.
From S2P Require Import Prelude TimeStamp TimerQueue.
Import TimeStamp.TimeStamp TimerQueue.TimerQueue.

(** ** The order of the entries *)

Lemma entry_ltb_spec a b : entry_lt a b <-> (a.1 < b.1)%Z \/ (a.1 = b.1 /\ (a.2 < b.2)%Z).
Proof. unfold entry_lt, entry_ltb. rewrite orb_true_iff, andb_true_iff, Z.eqb_eq, !Z.ltb_lt. done. Qed.

Lemma entry_lt_irrefl a : ~ entry_lt a a.
Proof. rewrite entry_ltb_spec. lia. Qed.

#[export] Instance entry_lt_trans : Transitive entry_lt.
Proof. intros a b c. rewrite !entry_ltb_spec. lia. Qed.

Lemma entry_total a b : ~ entry_lt a b -> ~ entry_lt b a -> a = b.
Proof. rewrite !entry_ltb_spec. intros H1 H2. destruct a, b; simpl in *. f_equal; lia. Qed.

Definition ordered (l : list entry) : Prop := StronglySorted entry_lt l.

Lemma ordered_NoDup l : ordered l -> NoDup l.
Proof.
  induction 1 as [|e l Hl IH He]; constructor; [|done].
  rewrite Forall_forall in He. intros Hin. by apply (entry_lt_irrefl e), He.
Qed.

(** [set_insert] adds an element that is not there. *)
Lemma set_insert_spec e l :
  ordered l -> e ∉ l ->
  exists l', set_insert e l = Some l' /\ ordered l' /\ l' ≡ₚ e :: l /\
    head l' = (match l with [] => Some e | x :: _ => if entry_ltb e x then Some e else Some x end).
Proof.
  induction 1 as [|x l Hl IH Hx]; intros Hn; cbn [set_insert].
  - exists [e]. split; [done|]. split; [by repeat constructor|done].
  - destruct (entry_ltb e x) eqn:E1.
    + exists (e :: x :: l). split; [done|]. split; [|done]. constructor; [by constructor|].
      constructor; [done|]. eapply Forall_impl; [exact Hx|]. intros y. by apply entry_lt_trans.
    + destruct (entry_ltb x e) eqn:E2.
      * destruct IH as (l' & -> & Ho & Hp & _); [set_solver|]. exists (x :: l').
        split; [done|]. split; [|split; [by rewrite Hp, Permutation_swap|done]].
        constructor; [done|]. rewrite Hp. by constructor.
      * exfalso. apply Hn. rewrite (entry_total e x); [by left| |]; unfold entry_lt; congruence.
Qed.

(** Splitting an ordered list. *)
Lemma split_at_spec s l :
  ordered l ->
  (split_at s l).1 ++ (split_at s l).2 = l /\
  Forall (fun e => entry_lt e s) (split_at s l).1 /\ Forall (fun e => ~ entry_lt e s) (split_at s l).2.
Proof.
  induction 1 as [|x l Hl IH Hx]; cbn [split_at]; [done|].
  destruct (entry_ltb x s) eqn:E.
  - destruct (split_at s l) as [u v]; simpl in *. destruct IH as (<- & H1 & H2). by repeat constructor.
  - simpl. split; [done|]. split; [done|]. constructor; [unfold entry_lt; congruence|].
    eapply Forall_impl; [exact Hx|]. intros y Hxy Hys. simpl in Hxy.
    assert (entry_lt x s) as Hxs by (etrans; eassumption). unfold entry_lt in Hxs. congruence.
Qed.

(** ** The invariant *)

Definition seq_at (h : gmap Z Timer) (a : Z) : Z := from_option sequence_ 0%Z (h !! a).
Definition active_of (h : gmap Z Timer) (e : entry) : Z * Z := (e.2, seq_at h e.2).

Definition good_entry (h : gmap Z Timer) (e : entry) : Prop :=
  (e.2 < UINTPTR_MAX)%Z /\ exists tm, h !! e.2 = Some tm /\ microSecondsSinceEpoch (expiration_ tm) = e.1.

Record wf (q : t) : Prop := {
  wf_ordered : ordered (timers_ q);
  wf_addr : NoDup (timers_ q).*2;
  wf_timers : Forall (good_entry (timers_heap q)) (timers_ q);
  wf_active : activeTimers_ q = list_to_set (active_of (timers_heap q) <$> timers_ q)
}.

Lemma active_NoDup h l : NoDup l.*2 -> NoDup (active_of h <$> l).
Proof.
  intros Hn. apply (NoDup_fmap_1 fst). rewrite <- list_fmap_compose. exact Hn.
Qed.

Lemma active_size h l : NoDup l.*2 -> size (list_to_set (active_of h <$> l) : gset (Z * Z)) = length l.
Proof. intros Hn. rewrite size_list_to_set by by apply active_NoDup. apply length_fmap. Qed.

Lemma wf_sizes q : wf q -> sizes_agree q = true.
Proof.
  intros [_ Ha _ Hact]. unfold sizes_agree. rewrite Hact, active_size by done. apply Nat.eqb_refl.
Qed.

Lemma queue_wf_create : wf create.
Proof. split; simpl; try constructor. Qed.

Lemma elem_of_active h l a s :
  (a, s) ∈ (list_to_set (active_of h <$> l) : gset (Z * Z)) <-> s = seq_at h a /\ a ∈ l.*2.
Proof.
  rewrite elem_of_list_to_set, !list_elem_of_fmap. unfold active_of. split.
  - intros (e & [= -> ->] & He). eauto.
  - intros [-> (e & -> & He)]. eauto.
Qed.

Lemma active_perm h l k : l ≡ₚ k ->
  (list_to_set (active_of h <$> l) : gset (Z * Z)) = list_to_set (active_of h <$> k).
Proof. intros Hp. apply list_to_set_perm_L. by rewrite Hp. Qed.

(** The heap may change where no entry points. *)
Lemma wf_heap q h :
  wf q -> (forall a, a ∈ (timers_ q).*2 -> h !! a = timers_heap q !! a) -> wf (set_heap q h).
Proof.
  intros [Ho Ha Ht Hact] Hh.
  assert (forall e, e ∈ timers_ q -> h !! e.2 = timers_heap q !! e.2) as He.
  { intros e He. apply Hh. by apply list_elem_of_fmap_2. }
  split; simpl; [done|done| |].
  - apply Forall_forall. rewrite Forall_forall in Ht. intros e Hin. unfold good_entry.
    rewrite He by done. by apply Ht.
  - rewrite Hact. f_equal. apply list_fmap_ext. intros i e Hi. unfold active_of, seq_at.
    rewrite He; [done|]. by eapply list_elem_of_lookup_2.
Qed.

(** ** Inserting *)

Lemma insert_wf q a tm :
  wf q -> timers_heap q !! a = Some tm -> a ∉ (timers_ q).*2 -> (a < UINTPTR_MAX)%Z ->
  exists q' l, TimerQueue.insert q a =
      Some (match timers_ q with
            | [] => true
            | e :: _ => (microSecondsSinceEpoch (expiration_ tm) <? e.1)%Z
            end, q') /\
    q' = set_sets q l (activeTimers_ q') /\ wf q' /\
    l ≡ₚ (microSecondsSinceEpoch (expiration_ tm), a) :: timers_ q.
Proof.
  intros Hwf Ha Hn Hlt. pose proof Hwf as [Ho Hnd Ht Hact]. unfold TimerQueue.insert.
  rewrite (wf_sizes _ Hwf). cbn [negb]. rewrite Ha. cbn [mbind option_bind].
  set (e := (microSecondsSinceEpoch (expiration_ tm), a)).
  destruct (set_insert_spec e (timers_ q) Ho) as (l & El & Hol & Hpl & _).
  { intros Hin. apply Hn. by apply (list_elem_of_fmap_2 snd _ e). }
  rewrite El. cbn [mbind option_bind].
  assert ((a, sequence_ tm) ∉ activeTimers_ q) as Hna by (rewrite Hact, elem_of_active; naive_solver).
  rewrite bool_decide_false by done.
  assert (wf (set_sets q l ({[(a, sequence_ tm)]} ∪ activeTimers_ q))) as Hw.
  { split; simpl; [done| | |].
    - rewrite Hpl. simpl. by constructor.
    - rewrite Hpl. constructor; [|done]. split; [done|]. by exists tm.
    - rewrite (active_perm _ _ _ Hpl), Hact, fmap_cons, list_to_set_cons.
      do 2 f_equal. unfold active_of, seq_at. simpl. by rewrite Ha. }
  rewrite (wf_sizes _ Hw). cbn [negb]. do 2 eexists. split; [reflexivity|]. done.
Qed.

(** ** Cancelling *)

Lemma filter_keep (l : list entry) e : e ∉ l -> filter (fun x => x <> e) l = l.
Proof.
  induction l as [|x l IH]; intros Hn; [done|].
  rewrite filter_cons_True by set_solver. f_equal. apply IH. set_solver.
Qed.

Lemma set_erase_spec (l : list entry) e :
  NoDup l -> e ∈ l -> (set_erase e l).1 = 1 /\ e :: (set_erase e l).2 ≡ₚ l.
Proof.
  intros Hn Hin. unfold set_erase. simpl. induction Hn as [|x l Hx Hn IH]; [by apply not_elem_of_nil in Hin|].
  destruct (decide (x = e)) as [->|Hne].
  - rewrite filter_cons_True, (filter_cons_False (fun x => x <> e)) by naive_solver.
    rewrite filter_keep by done. split; [|done]. simpl. f_equal.
    clear IH Hin Hn. induction l as [|y l IH]; [done|].
    rewrite filter_cons_False by set_solver. apply IH. set_solver.
  - apply elem_of_cons in Hin as [->|Hin]; [done|]. destruct (IH Hin) as [E1 E2].
    rewrite filter_cons_False, filter_cons_True by done. split; [done|].
    rewrite Permutation_swap. by rewrite E2.
Qed.

Lemma wf_NoDup q : wf q -> NoDup (timers_ q).
Proof. intros Hwf. apply ordered_NoDup, Hwf. Qed.

Lemma ordered_filter P `{!forall e, Decision (P e)} l : ordered l -> ordered (filter P l).
Proof.
  induction 1 as [|x l Hl IH Hx]; [constructor|]. destruct (decide (P x)).
  - rewrite filter_cons_True by done. constructor; [done|].
    rewrite Forall_forall in *. intros y [_ Hy]%list_elem_of_filter. by apply Hx.
  - by rewrite filter_cons_False.
Qed.

(** A timer in the queue is found by its address and its sequence number. *)
Lemma cancel_active q a :
  wf q -> a ∈ (timers_ q).*2 ->
  exists q' when, cancelInLoop q a (seq_at (timers_heap q) a) = Some q' /\ wf q' /\
    ((when, a) :: timers_ q' ≡ₚ timers_ q) /\ (a ∉ (timers_ q').*2) /\
    timers_heap q' = delete a (timers_heap q) /\ timerfd q' = timerfd q /\
    callingExpiredTimers_ q' = callingExpiredTimers_ q /\ cancelingTimers_ q' = cancelingTimers_ q.
Proof.
  intros Hwf Hin. pose proof Hwf as [Ho Hnd Ht Hact]. unfold cancelInLoop.
  rewrite (wf_sizes _ Hwf). cbn [negb]. rewrite bool_decide_true by by rewrite Hact, elem_of_active.
  apply list_elem_of_fmap in Hin as ([w a'] & Ea & He). simpl in Ea. subst a'.
  rewrite Forall_forall in Ht. destruct (Ht _ He) as (_ & tm & Htm & Hw). simpl in Htm, Hw.
  rewrite Htm. cbn [mbind option_bind]. rewrite Hw.
  destruct (set_erase_spec _ _ (wf_NoDup _ Hwf) He) as [E1 E2].
  destruct (set_erase (w, a) (timers_ q)) as [n l] eqn:El; simpl in E1, E2. subst n. cbn [Nat.eqb negb].
  assert (Hl : l = filter (fun x => x <> (w, a)) (timers_ q)) by (by injection El).
  assert (Hnd' : NoDup ((w, a) :: l).*2) by by rewrite E2.
  apply NoDup_cons in Hnd' as [Hna Hnd']. simpl in Hna.
  set (q1 := set_heap q _).
  assert (wf (set_sets q1 l (activeTimers_ q1 ∖ {[(a, seq_at (timers_heap q) a)]}))) as Hw1.
  { split; simpl; [rewrite Hl; by apply ordered_filter|done| |].
    - apply Forall_forall. intros e Hel.
      destruct (Ht e) as (Hlt & tm' & Htm' & Hw'); [rewrite <- E2; by right|].
      split; [done|]. exists tm'. rewrite lookup_delete_ne; [done|].
      intros ->. apply Hna. by apply list_elem_of_fmap_2.
    - rewrite Hact, <- (active_perm _ _ _ E2), fmap_cons, list_to_set_cons.
      unfold active_of at 1. simpl.
      rewrite difference_union_distr_l_L, difference_diag_L, union_empty_l_L.
      assert (active_of (delete a (timers_heap q)) <$> l = active_of (timers_heap q) <$> l) as ->.
      { apply list_fmap_ext. intros i e Hi. unfold active_of, seq_at. rewrite lookup_delete_ne; [done|].
        intros ->. apply Hna, list_elem_of_fmap_2. by eapply list_elem_of_lookup_2. }
      apply difference_disjoint_L. apply disjoint_singleton_r. rewrite elem_of_active. naive_solver. }
  rewrite (wf_sizes _ Hw1). cbn [negb]. exists (set_sets q1 l (activeTimers_ q1 ∖ {[(a, seq_at (timers_heap q) a)]})), w.
  split; [done|]. split; [exact Hw1|]. split; [exact E2|]. by repeat split.
Qed.

Lemma cancel_inactive q a s :
  wf q -> (s <> seq_at (timers_heap q) a \/ a ∉ (timers_ q).*2) ->
  cancelInLoop q a s =
    Some (if callingExpiredTimers_ q then set_calling q true ({[(a, s)]} ∪ cancelingTimers_ q) else q).
Proof.
  intros Hwf Hn. unfold cancelInLoop. rewrite (wf_sizes _ Hwf). cbn [negb].
  rewrite bool_decide_false; [by destruct (callingExpiredTimers_ q)|].
  rewrite (wf_active _ Hwf), elem_of_active. naive_solver.
Qed.

(** ** Expiring *)

Lemma erase_active_spec h expired rest :
  NoDup ((expired ++ rest).*2) -> Forall (fun e => is_Some (h !! e.2)) expired ->
  erase_active h expired (list_to_set (active_of h <$> (expired ++ rest))) =
    Some (list_to_set (active_of h <$> rest)).
Proof.
  induction expired as [|e l IH]; intros Hn Hs; [done|].
  apply Forall_cons in Hs as [[tm Htm] Hs]. cbn [app fmap list_fmap] in Hn.
  apply NoDup_cons in Hn as [He Hn]. cbn [erase_active]. rewrite Htm. cbn [mbind option_bind].
  assert (sequence_ tm = seq_at h e.2) as -> by (unfold seq_at; by rewrite Htm).
  rewrite bool_decide_true by (rewrite elem_of_active; split; [done|by left]).
  cbn [app fmap list_fmap list_to_set]. rewrite <- (IH Hn Hs) at 1. f_equal.
  unfold active_of at 1. rewrite difference_union_distr_l_L, difference_diag_L, union_empty_l_L.
  apply difference_disjoint_L, disjoint_singleton_r. rewrite elem_of_active. naive_solver.
Qed.

Definition due (now : TimeStamp.t) (e : entry) : Prop := (e.1 <= microSecondsSinceEpoch now)%Z.

Lemma ordered_app_l l k : ordered (l ++ k) -> ordered k.
Proof. induction l as [|x l IH]; [done|]. intros [? _]%StronglySorted_inv. by apply IH. Qed.

(** [getExpired] takes exactly the timers whose time has come. *)
Lemma getExpired_wf q now :
  wf q ->
  exists expired q', getExpired q now = Some (expired, q') /\ wf q' /\
    expired ++ timers_ q' = timers_ q /\
    Forall (due now) expired /\ Forall (fun e => ~ due now e) (timers_ q') /\
    q' = set_sets q (timers_ q') (activeTimers_ q').
Proof.
  intros Hwf. pose proof Hwf as [Ho Hnd Ht Hact]. unfold getExpired.
  rewrite (wf_sizes _ Hwf). cbn [negb].
  destruct (split_at_spec (microSecondsSinceEpoch now, UINTPTR_MAX) _ Ho) as (Hs & H1 & H2).
  destruct (split_at _ (timers_ q)) as [expired rest]; simpl in *.
  rewrite <- Hs in Hnd, Ht, Hact, Ho. apply Forall_app in Ht as [Ht1 Ht2].
  assert (Forall (due now) expired) as Hd1.
  { apply Forall_forall. intros e He. rewrite Forall_forall in H1. specialize (H1 e He).
    rewrite entry_ltb_spec in H1. unfold due. simpl in H1. lia. }
  assert (Forall (fun e => ~ due now e) rest) as Hd2.
  { apply Forall_forall. intros e He. rewrite Forall_forall in H2, Ht2.
    specialize (H2 e He). destruct (Ht2 e He) as [Hlt _]. rewrite entry_ltb_spec in H2.
    unfold due. simpl in H2. lia. }
  assert (match rest with
          | [] => Some tt
          | e :: _ => if (microSecondsSinceEpoch now <? e.1)%Z then Some tt else None
          end = Some tt) as ->.
  { destruct rest as [|e rest]; [done|]. apply Forall_cons in Hd2 as [Hd _]. unfold due in Hd.
    destruct (Z.ltb_spec (microSecondsSinceEpoch now) e.1); [done|lia]. }
  cbn [mbind option_bind]. rewrite Hact, erase_active_spec; [|done|].
  2: { eapply Forall_impl; [exact Ht1|]. intros e (_ & tm & Htm & _). eauto. }
  cbn [mbind option_bind].
  assert (wf (set_sets q rest (list_to_set (active_of (timers_heap q) <$> rest)))) as Hw.
  { split; simpl; [by eapply ordered_app_l| |done|done]. rewrite fmap_app in Hnd.
    by apply NoDup_app in Hnd as (_ & _ & ?). }
  rewrite (wf_sizes _ Hw). cbn [negb]. do 2 eexists. split; [reflexivity|]. done.
Qed.

(** ** Restarting *)

(** What [reset] puts back for an expired timer. *)
Definition restarts (q : t) (e : entry) : bool :=
  match timers_heap q !! e.2 with
  | Some tm => repeat_ tm && negb (bool_decide ((e.2, sequence_ tm) ∈ cancelingTimers_ q))
  | None => false
  end.
Definition restarted (q : t) (now : TimeStamp.t) (e : entry) : entry :=
  match timers_heap q !! e.2 with
  | Some tm => (microSecondsSinceEpoch (expiration_ (restart tm now)), e.2)
  | None => e
  end.

(** The expired timers are objects outside the queue. *)
Record outside (q : t) (expired : list entry) : Prop := {
  out_nodup : NoDup expired.*2;
  out_heap : Forall (fun e => is_Some (timers_heap q !! e.2) /\ (e.2 < UINTPTR_MAX)%Z) expired;
  out_disjoint : forall a, a ∈ expired.*2 -> a ∉ (timers_ q).*2
}.

Lemma restarts_ext q q' e :
  timers_heap q' !! e.2 = timers_heap q !! e.2 -> cancelingTimers_ q' = cancelingTimers_ q ->
  restarts q' e = restarts q e.
Proof. unfold restarts. by intros -> ->. Qed.

Lemma restarted_ext q q' now e :
  timers_heap q' !! e.2 = timers_heap q !! e.2 -> restarted q' now e = restarted q now e.
Proof. unfold restarted. by intros ->. Qed.

(** One turn of the loop. *)
Lemma reset_one q e now tm :
  wf q -> timers_heap q !! e.2 = Some tm -> (e.2 < UINTPTR_MAX)%Z -> e.2 ∉ (timers_ q).*2 ->
  exists q', (if repeat_ tm && negb (bool_decide ((e.2, sequence_ tm) ∈ cancelingTimers_ q)) then
             '(_, q) ← TimerQueue.insert (set_heap q (<[e.2 := restart tm now]> (timers_heap q))) e.2;
             Some q
           else Some (set_heap q (delete e.2 (timers_heap q)))) = Some q' /\ wf q' /\
    timers_ q' ≡ₚ (if restarts q e then [restarted q now e] else []) ++ timers_ q /\
    (forall a, a <> e.2 -> timers_heap q' !! a = timers_heap q !! a) /\
    cancelingTimers_ q' = cancelingTimers_ q /\ timerfd q' = timerfd q.
Proof.
  intros Hwf Htm Hlt Hn. unfold restarts, restarted. rewrite Htm.
  destruct (repeat_ tm && _) eqn:Er.
  - set (q1 := set_heap q (<[e.2 := restart tm now]> (timers_heap q))).
    assert (wf q1) as Hw1.
    { apply wf_heap; [done|]. intros a Ha. rewrite lookup_insert_ne; [done|]. by intros <-. }
    destruct (insert_wf q1 e.2 (restart tm now) Hw1) as (q' & l & E & Eq & Hw' & Hp);
      [by simpl; rewrite lookup_insert_eq|done|done|].
    rewrite E. cbn [mbind option_bind]. exists q'. split; [done|]. split; [done|].
    rewrite Eq. cbn. split; [exact Hp|]. split; [|done]. intros a Ha. by rewrite lookup_insert_ne.
  - eexists. split; [reflexivity|]. split; [|split; [done|split; [|done]]].
    + apply wf_heap; [done|]. intros a Ha. rewrite lookup_delete_ne; [done|]. by intros <-.
    + intros a Ha. simpl. by rewrite lookup_delete_ne.
Qed.

Lemma filter_ext_in (P Q : entry -> Prop) `{!forall e, Decision (P e), !forall e, Decision (Q e)} (l : list entry) :
  (forall e, e ∈ l -> P e <-> Q e) -> filter P l = filter Q l.
Proof.
  induction l as [|e l IH]; intros Hl; [done|].
  assert (filter P l = filter Q l) as E by (apply IH; set_solver).
  destruct (decide (P e)) as [Hp|Hp].
  - rewrite !filter_cons_True; [by rewrite E|apply Hl; [by left|done]|done].
  - rewrite !filter_cons_False; [done|by intros ?%Hl; [|left]|done].
Qed.

Lemma reset_loop_wf expired now : forall q,
  wf q -> outside q expired ->
  exists q', reset_loop q expired now = Some q' /\ wf q' /\
    timers_ q' ≡ₚ (restarted q now <$> filter (fun e => restarts q e = true) expired) ++ timers_ q /\
    timerfd q' = timerfd q.
Proof.
  induction expired as [|e l IH]; intros q Hwf [Hnd Hh Hdis]; cbn [reset_loop]; [by exists q|].
  apply Forall_cons in Hh as [[[tm Htm] Hlt] Hh]. apply NoDup_cons in Hnd as [Hne Hnd].
  rewrite Htm. cbn [mbind option_bind].
  destruct (reset_one q e now tm Hwf Htm Hlt) as (q1 & E & Hw1 & Hp & Hsame & Hcan & Hfd); [apply Hdis; by left|].
  rewrite E. cbn [mbind option_bind].
  assert (forall x, x ∈ l -> timers_heap q1 !! x.2 = timers_heap q !! x.2) as Hx.
  { intros x Hx. apply Hsame. intros Ex. apply Hne. rewrite <- Ex. by apply list_elem_of_fmap_2. }
  destruct (IH q1 Hw1) as (q' & E' & Hw' & Hp' & Hfd').
  { split; [done| |].
    - apply Forall_forall. intros x Hxl. rewrite Hx by done. rewrite Forall_forall in Hh. by apply Hh.
    - intros a Ha Hin. rewrite Hp, fmap_app, elem_of_app in Hin. destruct Hin as [Hin|Hin].
      + destruct (restarts q e); [|by apply not_elem_of_nil in Hin].
        unfold restarted in Hin. rewrite Htm in Hin. apply list_elem_of_singleton in Hin as ->. done.
      + revert Hin. apply Hdis. by right. }
  exists q'. split; [done|]. split; [done|]. split; [|by rewrite Hfd'].
  rewrite Hp', Hp.
  assert (restarted q1 now <$> filter (fun x => restarts q1 x = true) l =
          restarted q now <$> filter (fun x => restarts q x = true) l) as ->.
  { rewrite (filter_ext_in _ (fun x => restarts q x = true)).
    - apply list_fmap_ext. intros i x Hi. apply restarted_ext, Hx.
      by apply list_elem_of_lookup_2, list_elem_of_filter in Hi as [_ ?].
    - intros x Hxl. by rewrite (restarts_ext q q1) by auto. }
  destruct (restarts q e) eqn:Er.
  - rewrite filter_cons_True by done. simpl. by rewrite Permutation_middle.
  - by rewrite filter_cons_False by congruence.
Qed.

(** The earliest timer is at time 0: [reset] leaves the descriptor alone. *)
Definition overdue (q : t) : Prop := exists e rest, timers_ q = e :: rest /\ (e.1 <= 0)%Z.

Lemma reset_wf q expired now :
  wf q -> outside q expired ->
  exists q', reset q expired now = Some q' /\ wf q' /\
    timers_ q' ≡ₚ (restarted q now <$> filter (fun e => restarts q e = true) expired) ++ timers_ q /\
    (overdue q' -> timerfd q' = timerfd q).
Proof.
  intros Hwf Hout. destruct (reset_loop_wf expired now q Hwf Hout) as (q' & E & Hw & Hp & Hfd).
  unfold reset. rewrite E. cbn [mbind option_bind].
  assert (exists ne, (match timers_ q' with
                      | [] => Some default
                      | e :: _ => tm ← (timers_heap q' !! e.2 : option Timer); Some (expiration_ tm)
                      end) = Some ne /\ (overdue q' -> (microSecondsSinceEpoch ne <= 0)%Z)) as (ne & -> & Hne).
  { pose proof (wf_timers _ Hw) as Ht. unfold overdue.
    destruct (timers_ q') as [|e l]; [exists default; split; [done|]; by intros (? & ? & ? & _)|].
    apply Forall_cons in Ht as [(_ & tm & -> & Htm) _]. exists (expiration_ tm). split; [done|].
    intros (? & ? & [= <- <-] & ?). lia. }
  cbn [mbind option_bind].
  destruct (Z.ltb_spec 0 (microSecondsSinceEpoch ne)); (eexists; split; [reflexivity|]; split; [|split; [exact Hp|]]).
  - by destruct Hw; split.
  - intros Ho. specialize (Hne Ho). lia.
  - exact Hw.
  - done.
Qed.

(** ** A whole expiry *)

(** Commands whose new timers are really new. *)
Fixpoint commands_ok (q : t) (cs : list command) : Prop :=
  match cs with
  | [] => True
  | c :: cs' =>
      match c with
      | CAdd a _ => timers_heap q !! a = None /\ (a < UINTPTR_MAX)%Z
      | CCancel _ _ => True
      end /\ forall q', run_command q c = Some q' -> commands_ok q' cs'
  end.

Lemma addTimer_wf q a tm :
  wf q -> timers_heap q !! a = None -> (a < UINTPTR_MAX)%Z ->
  exists q', addTimer q a tm = Some q' /\ wf q' /\
    timers_ q' ≡ₚ (microSecondsSinceEpoch (expiration_ tm), a) :: timers_ q /\
    timers_heap q' = <[a := tm]> (timers_heap q) /\
    callingExpiredTimers_ q' = callingExpiredTimers_ q /\ cancelingTimers_ q' = cancelingTimers_ q /\
    timerfd q' = if match timers_ q with
                    | [] => true
                    | e :: _ => (microSecondsSinceEpoch (expiration_ tm) <? e.1)%Z
                    end then Some (expiration_ tm) else timerfd q.
Proof.
  intros Hwf Ha Hlt. unfold addTimer, addTimerInLoop.
  assert (a ∉ (timers_ q).*2) as Hn.
  { intros (e & -> & He)%list_elem_of_fmap. pose proof (wf_timers _ Hwf) as Ht.
    rewrite Forall_forall in Ht. destruct (Ht e He) as (_ & tm' & Htm & _). congruence. }
  set (q1 := set_heap q _).
  assert (wf q1) as Hw1.
  { apply wf_heap; [done|]. intros x Hx. rewrite lookup_insert_ne; [done|]. by intros <-. }
  destruct (insert_wf q1 a tm Hw1) as (q' & l & E & Eq & Hw' & Hp); [by simpl; rewrite lookup_insert_eq|done|done|].
  rewrite E. cbn [mbind option_bind].
  assert (timers_heap q' !! a = Some tm) as -> by (rewrite Eq; simpl; by rewrite lookup_insert_eq).
  cbn [mbind option_bind]. eexists. split; [reflexivity|].
  assert (timers_ q' = l /\ timers_heap q' = <[a := tm]> (timers_heap q) /\
    callingExpiredTimers_ q' = callingExpiredTimers_ q /\ cancelingTimers_ q' = cancelingTimers_ q /\
    timerfd q' = timerfd q) as (E1 & E2 & E3 & E4 & E5) by (by rewrite Eq).
  rewrite <- E1 in Hp. cbn [timers_ set_heap q1] in Hp.
  change (timers_ q1) with (timers_ q). destruct (match timers_ q with [] => true | _ => _ end).
  - split; [by destruct Hw'; split|]. done.
  - done.
Qed.

(** The callbacks' commands keep the queue in order and leave the expired timers
    outside it. *)
Lemma run_commands_wf cs expired : forall q,
  wf q -> outside q expired -> callingExpiredTimers_ q = true -> commands_ok q cs ->
  exists q', run_commands q cs = Some q' /\ wf q' /\ outside q' expired /\
    cancelingTimers_ q ⊆ cancelingTimers_ q' /\
    (forall e, e ∈ expired -> timers_heap q' !! e.2 = timers_heap q !! e.2).
Proof.
  induction cs as [|c cs IH]; intros q Hwf Hout Hcall Hok; cbn [run_commands]; [by exists q|].
  destruct Hok as [Hc Hok]. pose proof Hout as [Hnd Hh Hdis].
  assert (exists q1, run_command q c = Some q1 /\ wf q1 /\ outside q1 expired /\
    callingExpiredTimers_ q1 = true /\ cancelingTimers_ q ⊆ cancelingTimers_ q1 /\
    (forall e, e ∈ expired -> timers_heap q1 !! e.2 = timers_heap q !! e.2))
    as (q1 & E1 & Hw1 & Hout1 & Hcall1 & Hcan1 & Hsame1).
  { destruct c as [a tm|a s]; cbn [run_command].
    - destruct Hc as [Ha Hlt].
      destruct (addTimer_wf q a tm Hwf Ha Hlt) as (q1 & E & Hw1 & Hp & Hheap & Hcall1 & Hcan1 & _).
      exists q1. split; [done|]. split; [done|].
      assert (forall e, e ∈ expired -> timers_heap q1 !! e.2 = timers_heap q !! e.2) as Hsame.
      { intros e He. rewrite Hheap, lookup_insert_ne; [done|]. intros ->.
        rewrite Forall_forall in Hh. destruct (Hh e He) as [[? ?] _]. congruence. }
      split; [|by rewrite Hcall1, Hcan1]. split; [done| |].
      + apply Forall_forall. intros e He. rewrite Hsame by done. rewrite Forall_forall in Hh. by apply Hh.
      + intros x Hx. rewrite Hp. cbn [fmap list_fmap]. intros [->|Hin]%elem_of_cons.
        * apply list_elem_of_fmap in Hx as (e & Ee & He). rewrite Forall_forall in Hh.
          destruct (Hh e He) as [[? ?] _]. simpl in Ee. congruence.
        * by apply (Hdis x).
    - destruct (decide (s = seq_at (timers_heap q) a /\ a ∈ (timers_ q).*2)) as [[-> Hin]|Hn].
      + destruct (cancel_active q a Hwf Hin) as (q1 & w & E & Hw1 & Hp & _ & Hheap & _ & Hcall1 & Hcan1).
        exists q1. split; [done|]. split; [done|].
        assert (forall e, e ∈ expired -> timers_heap q1 !! e.2 = timers_heap q !! e.2) as Hsame.
        { intros e He. rewrite Hheap, lookup_delete_ne; [done|]. intros ->.
          by apply (Hdis e.2); [apply list_elem_of_fmap_2|]. }
        split; [|by rewrite Hcall1, Hcan1]. split; [done| |].
        * apply Forall_forall. intros e He. rewrite Hsame by done. rewrite Forall_forall in Hh. by apply Hh.
        * intros x Hx Hx1. apply (Hdis x Hx). rewrite <- Hp. cbn [fmap list_fmap]. by right.
      + rewrite cancel_inactive by (try done; destruct (decide (s = seq_at (timers_heap q) a)); naive_solver).
        rewrite Hcall. eexists. split; [reflexivity|]. split; [by destruct Hwf; split|].
        split; [by split|]. split; [done|]. split; [|done]. simpl. set_solver. }
  rewrite E1. cbn [mbind option_bind].
  destruct (IH q1 Hw1 Hout1 Hcall1 (Hok q1 E1)) as (q' & E & Hw & Hout' & Hcan & Hsame).
  exists q'. do 3 (split; [done|]). split; [set_solver|]. intros e He. by rewrite Hsame, Hsame1.
Qed.

(** The timers the callbacks of an expiry belong to. *)
Definition timers_of (q : t) (expired : list entry) : list Timer :=
  omap (fun e : entry => timers_heap q !! e.2) expired.

Lemma mapM_lookup (h : gmap Z Timer) (l : list entry) :
  Forall (fun e => is_Some (h !! e.2)) l ->
  mapM (fun e : entry => h !! e.2) l = Some (omap (fun e : entry => h !! e.2) l).
Proof.
  induction 1 as [|e l [tm Htm] Hl IH]; [done|]. cbn. rewrite Htm. cbn. by rewrite IH.
Qed.

(** [handleRead] runs the timers that are due, and puts back those that repeat
    and were not cancelled by a callback. *)
Lemma handleRead_wf q callback now :
  wf q ->
  (forall q1 expired, getExpired (readTimerfd q) now = Some (expired, q1) ->
     commands_ok (set_calling q1 true ∅) (flat_map callback (timers_of q1 expired))) ->
  exists fired q1 q2 q',
    getExpired (readTimerfd q) now = Some (fired, q1) /\
    fired ++ timers_ q1 = timers_ q /\ Forall (due now) fired /\ Forall (fun e => ~ due now e) (timers_ q1) /\
    timers_heap q1 = timers_heap q /\
    run_commands (set_calling q1 true ∅) (flat_map callback (timers_of q fired)) = Some q2 /\
    (forall e, e ∈ fired -> timers_heap q2 !! e.2 = timers_heap q !! e.2) /\
    handleRead q callback now = Some (fired.*2, q') /\ wf q' /\
    timers_ q' ≡ₚ (restarted q2 now <$> filter (fun e => restarts q2 e = true) fired) ++ timers_ q2.
Proof.
  intros Hwf Hok. unfold handleRead.
  assert (wf (readTimerfd q)) as Hw0 by (by destruct Hwf; split).
  destruct (getExpired_wf (readTimerfd q) now Hw0) as (fired & q1 & E & Hw1 & Hsplit & Hd1 & Hd2 & Eq1).
  specialize (Hok q1 fired E). exists fired, q1. rewrite E. cbn [mbind option_bind]. cbn [timers_ readTimerfd] in Hsplit.
  set (q2 := set_calling q1 true ∅) in *.
  assert (timers_heap q1 = timers_heap q) as Hheap by (by rewrite Eq1).
  pose proof (wf_addr _ Hwf) as Hnd. pose proof (wf_timers _ Hwf) as Ht. rewrite <- Hsplit in Hnd, Ht.
  rewrite fmap_app in Hnd. apply NoDup_app in Hnd as (Hnd1 & Hdis & _). apply Forall_app in Ht as [Ht1 _].
  assert (outside q2 fired) as Hout.
  { split; [done| |done]. eapply Forall_impl; [exact Ht1|]. simpl. rewrite Hheap.
    intros e (? & tm & ? & _). eauto. }
  rewrite mapM_lookup.
  2: { eapply Forall_impl; [apply Hout|]. by intros e [? _]. }
  cbn [mbind option_bind].
  destruct (run_commands_wf _ fired q2 ltac:(by destruct Hw1; split) Hout eq_refl Hok)
    as (q3 & E3 & Hw3 & Hout3 & _ & Hsame). unfold timers_of in *. cbn [timers_heap set_calling q2] in *.
  rewrite E3, <- Hheap. cbn [mbind option_bind].
  set (q4 := set_calling q3 false (cancelingTimers_ q3)).
  destruct (reset_wf q4 fired now ltac:(by destruct Hw3; split) ltac:(by destruct Hout3; split))
    as (q' & E' & Hw' & Hp & _).
  rewrite E'. exists q3, q'. do 6 (split; [done|]). split; [|by do 2 (split; [done|])].
  intros e He. by apply Hsame.
Qed.

(** ** The program's clock *)

(** Every time stamp the program computes is 0: a repeating timer fires once,
    its descriptor is not armed again, and neither is it by any timer added
    later. *)
Definition later_timer (tm : Timer) : Prop := exists ts delta, expiration_ tm = addTime ts delta.

(** A repeating timer that is due, with callbacks that leave the queue alone. *)
Definition repeats_now (q : t) (now : TimeStamp.t) : Prop :=
  exists e tm, e ∈ timers_ q /\ due now e /\ timers_heap q !! e.2 = Some tm /\ repeat_ tm = true.

Lemma handleRead_stalls q now :
  wf q -> repeats_now q now ->
  exists fired q', handleRead q (fun _ => []) now = Some (fired, q') /\ wf q' /\
    timerfd q' = None /\ overdue q'.
Proof.
  intros Hwf (e & tm & He & Hdue & Htm & Hrep). unfold handleRead.
  assert (wf (readTimerfd q)) as Hw0 by (by destruct Hwf; split).
  destruct (getExpired_wf (readTimerfd q) now Hw0) as (fired & q1 & E & Hw1 & Hsplit & Hd1 & Hd2 & Eq1).
  rewrite E. cbn [mbind option_bind]. cbn [timers_ readTimerfd] in Hsplit.
  assert (timers_heap q1 = timers_heap q) as Hheap by (by rewrite Eq1).
  assert (timerfd q1 = None) as Hfd by (by rewrite Eq1).
  pose proof (wf_addr _ Hwf) as Hnd. pose proof (wf_timers _ Hwf) as Ht. rewrite <- Hsplit in Hnd, Ht.
  rewrite fmap_app in Hnd. apply NoDup_app in Hnd as (Hnd1 & Hdis & _). apply Forall_app in Ht as [Ht1 _].
  set (q2 := set_calling q1 true ∅).
  assert (outside (set_calling q2 false (cancelingTimers_ q2)) fired) as Hout.
  { split; [done| |done]. eapply Forall_impl; [exact Ht1|]. simpl. rewrite Hheap.
    intros x (? & y & ? & _). eauto. }
  rewrite mapM_lookup.
  2: { eapply Forall_impl; [apply Hout|]. by intros x [? _]. }
  cbn [mbind option_bind].
  assert (flat_map (fun _ : Timer => [] : list command)
            (omap (fun e : entry => timers_heap q2 !! e.2) fired) = []) as ->
    by (by induction (omap _ _)).
  cbn [run_commands mbind option_bind]. set (q4 := set_calling q2 false _) in *.
  destruct (reset_wf q4 fired now ltac:(by destruct Hw1; split) Hout) as (q' & E' & Hw' & Hp & Hkeep).
  rewrite E'. cbn [mbind option_bind]. exists (snd <$> fired), q'. split; [done|]. split; [done|].
  assert (e ∈ fired) as Hf.
  { rewrite <- Hsplit in He. apply elem_of_app in He as [?|He]; [done|]. rewrite Forall_forall in Hd2.
    by destruct (Hd2 e He). }
  assert (overdue q') as Ho; [|split; [by rewrite Hkeep|done]].
  assert (restarted q4 now e ∈ timers_ q') as Hin.
  { rewrite Hp. apply elem_of_app. left. apply list_elem_of_fmap_2, list_elem_of_filter.
    split; [|done]. unfold restarts. change (timers_heap q4) with (timers_heap q1).
    rewrite Hheap, Htm, Hrep. done. }
  assert ((restarted q4 now e).1 = 0%Z) as Hz.
  { unfold restarted, restart. change (timers_heap q4) with (timers_heap q1).
    by rewrite Hheap, Htm, Hrep. }
  pose proof (wf_ordered _ Hw') as Hord. unfold overdue.
  destruct (timers_ q') as [|x l] eqn:El; [by apply not_elem_of_nil in Hin|].
  exists x, l. split; [done|]. apply elem_of_cons in Hin as [<-|Hin]; [lia|].
  apply StronglySorted_inv in Hord as [_ Hx]. rewrite Forall_forall in Hx. specialize (Hx _ Hin).
  rewrite entry_ltb_spec in Hx. lia.
Qed.

Fixpoint add_all (q : t) (l : list (Z * Timer)) : option t :=
  match l with
  | [] => Some q
  | (a, tm) :: l' => q' ← addTimer q a tm; add_all q' l'
  end.

Lemma add_all_stalled l : forall q,
  wf q -> timerfd q = None -> overdue q ->
  Forall (fun p : Z * Timer => later_timer p.2 /\ (p.1 < UINTPTR_MAX)%Z /\ timers_heap q !! p.1 = None) l ->
  NoDup l.*1 ->
  exists q', add_all q l = Some q' /\ timerfd q' = None.
Proof.
  induction l as [|[a tm] l IH]; intros q Hwf Hfd (e & rest & Ht & He) Hall Hnd; cbn [add_all]; [eauto|].
  apply Forall_cons in Hall as [((ts & delta & Htm) & Hlt & Ha) Hall]. simpl in *.
  apply NoDup_cons in Hnd as [Hna Hnd].
  destruct (addTimer_wf q a tm Hwf Ha Hlt) as (q1 & E & Hw1 & Hp & Hheap & _ & _ & Hfd1).
  rewrite E. cbn [mbind option_bind]. apply IH; [done| | | |done].
  - rewrite Hfd1, Ht, Htm, Hfd. unfold addTime, of_micro. simpl.
    destruct (Z.ltb_spec 0 e.1); [lia|done].
  - pose proof (wf_ordered _ Hw1) as Ho. destruct (timers_ q1) as [|x l1] eqn:E1.
    { apply Permutation_length in Hp. done. }
    exists x, l1. split; [done|]. apply StronglySorted_inv in Ho as [_ Hx]. rewrite Forall_forall in Hx.
    assert (e ∈ x :: l1) as Hin by (rewrite Hp, Ht; right; by left).
    apply elem_of_cons in Hin as [->|Hin]; [done|]. specialize (Hx e Hin).
    rewrite entry_ltb_spec in Hx. lia.
  - apply Forall_forall. intros [b tb] Hb. rewrite Forall_forall in Hall.
    destruct (Hall _ Hb) as (? & ? & Hbn). do 2 (split; [done|]). simpl in *.
    rewrite Hheap, lookup_insert_ne; [done|]. intros ->. apply Hna.
    by apply (list_elem_of_fmap_2 fst _ (b, tb)).
Qed.
