(* ===== verification/HttpServer.v ===== *)
(** * The HTTP server (network/http/HttpServer)

    What happens when bytes arrive on a connection: the parser runs over the
    input buffer, the application's callback is called, and the response goes to
    the connection's output.  The callbacks are parameters; main.cpp passes
    [HttpUploadHandler::onRequest] and [HttpUploadHandler::onConnection]. *)

From S2P Require Import Prelude CxxString TimeStamp ByteBuffer OrdMap HttpRequest HttpContext.
From S2P Require Import HttpResponse World Channel TcpConnection.

Module HttpServer.
Section server.
Context `{Platform}.
Variable httpCallback_ : M bool.
Variable connectionCallback_ : bool -> M unit.

(** A connection with the state the handlers see.  [context_] of the connection
    is [w_ctx]; the [req] a callback gets is a reference to the request in it. *)
Record conn := mkConn {
  tcp : TcpConnection.t callback;
  world : World
}.

(** The callback of a server that was not given one. *)
Definition defaultHttpCallback : M bool :=
  setStatusCode k404NotFound;;
  setStatusMessage ($"Not Found");;
  on_resp (fun r => HttpResponse.setCloseConnection r true);;
  mret true.

(** [context->request()] handed to the callback, and back. *)
Definition with_request (w : World) : World :=
  match w_ctx w with Some c => set_req (HttpContext.request_ c) w | None => w end.
Definition store_request (w : World) : World :=
  set_ctx ((fun c => HttpContext.setRequest c (w_req w)) <$> w_ctx w) w.

(** The callback, on a new response.  [setWriteCompleteCallback] is called on
    the connection. *)
Definition call (close : bool) (s : conn) : outcome bool * conn :=
  let '(r, w) := httpCallback_ (set_resp (HttpResponse.create close) (with_request (world s))) in
  (r, mkConn (TcpConnection.setWriteCompleteCallback (tcp s) (w_wcc w))
             (store_request w)).

(** An exception that leaves the callback, undefined behaviour, a failed
    assertion, a loop that does not end, and the use of an object that has been
    freed. *)
Inductive crash := CException (what : bytes) | CUndefined | CAssert | CForever | CFreed.

Definition assert_ok {A} (x : option A) : crash + A :=
  match x with Some a => inr a | None => inl CAssert end.

(** The connection callback, with what [connected()] answers. *)
Definition connectionCallback (connected : bool) (s : conn) : crash + conn :=
  match connectionCallback_ connected (world s) with
  | (Ok _, w) => inr (mkConn (tcp s) w)
  | (Exn e, _) => inl (CException e)
  | (Undef, _) => inl CUndefined
  end.

Definition is_down (c : TcpConnection.t callback) : bool :=
  match TcpConnection.state_ c with TcpConnection.kDisconnected => true | _ => false end.

(** An operation of the connection.  When it ends in [handleClose], which is
    then the last that it does, the connection callback is called. *)
Definition on_tcp (f : TcpConnection.t callback -> option (TcpConnection.t callback)) (s : conn) : crash + conn :=
  match f (tcp s) with
  | None => inl CAssert
  | Some c =>
      if negb (is_down (tcp s)) && is_down c then connectionCallback false (mkConn c (world s))
      else inr (mkConn c (world s))
  end.

Definition send (s : conn) (data : bytes) : crash + conn := on_tcp (fun c => TcpConnection.send c data) s.

Definition shutdown (s : conn) : conn := mkConn (TcpConnection.shutdown (tcp s)) (world s).

Definition onConnection (connected : bool) (s : conn) : conn :=
  if connected then mkConn (tcp s) (set_ctx (Some HttpContext.create) (world s)) else s.

Definition wants_close (req : HttpReq) : bool :=
  let connection := HttpRequest.getHeader req ($"Connection") in
  bool_decide (connection = $"close") ||
  (bool_decide (HttpRequest.version_ req = kHttp10) && negb (bool_decide (connection = $"Keep-Alive"))).

(** [onRequest]: whether the request was answered synchronously. *)
Definition onRequest (s : conn) (req : HttpReq) : crash + (bool * conn) :=
  match call (wants_close req) s with
  | (Exn e, _) => inl (CException e)
  | (Undef, _) => inl CUndefined
  | (Ok false, s) => inr (false, s)
  | (Ok true, s) =>
      let response := w_resp (world s) in
      match HttpResponse.appendToBuffer response Buffer.create_default with
      | None => inl CAssert
      | Some buf =>
          match send s (Buffer.content buf) with
          | inl e => inl e
          | inr s => inr (true, if HttpResponse.closeConnection_ response then shutdown s else s)
          end
      end
  end.

Definition bad_request : bytes := $"HTTP/1.1 400 Bad Request" ++ Buffer.kCRLF ++ Buffer.kCRLF.

Definition reset_context (s : conn) : conn :=
  mkConn (tcp s) (set_ctx (HttpContext.reset <$> w_ctx (world s)) (world s)).

(** The parser has run: context and input buffer. *)
Definition after_parse (s : conn) (c : HttpContext.t custom) (b : Buffer.t) : conn :=
  mkConn (TcpConnection.setInput (tcp s) b) (set_ctx (Some c) (world s)).

(** [onMessage]: the input is in the connection's input buffer; [fuel] bounds
    the turns of the parser's loop. *)
Definition onMessage (fuel : nat) (now : TimeStamp.t) (s : conn) : crash + conn :=
  match w_ctx (world s) with
  | None => inr s
  | Some context =>
      match HttpContext.parseRequest fuel now context (TcpConnection.inputBuffer_ (tcp s)) with
      | OutOfFuel => inl CForever
      | Aborted => inl CAssert
      | Overrun => inl CUndefined
      | Finished (c, b, result) =>
          let s := after_parse s c b in
          match result with
          | kError =>
              match send s bad_request with
              | inl e => inl e
              | inr s => inr (shutdown s)
              end
          | kHeadersComplete =>
              let req := HttpContext.request_ c in
              if HttpContext.expectBody c
                 && bool_decide (HttpRequest.path_ req = $"/upload")
                 && bool_decide (HttpRequest.method_ req = kPost)
                 && negb (Z.of_nat (length (HttpRequest.body_ req)) <? 1024 * 1024)%Z
              then
                match call false s with
                | (Exn e, _) => inl (CException e)
                | (Undef, _) => inl CUndefined
                | (Ok _, s) => inr s
                end
              else inr s
          | kGotRequest =>
              match onRequest s (HttpContext.request_ c) with
              | inl e => inl e
              | inr (true, s) => inr (reset_context s)
              | inr (false, s) => inr s
              end
          | kNeedMore => inr s
          end
      end
  end.

End server.
End HttpServer.
