(* ===== verification/HttpServing.v ===== *)
(** * From the bytes of a request to the bytes of its response *)

From S2P Require Import Prelude CxxString TimeStamp ByteBuffer OrdMap HttpRequest HttpContext.
From S2P Require Import HttpParse HttpResponse World Channel TcpConnection TcpStream HttpServer.
Import HttpServer.

Section serving.
Context `{Platform}.
Variable httpCallback_ : M bool.
Variable connectionCallback_ : bool -> M unit.

(** The state in which the callback meets a request. *)
Definition callback_world (close : bool) (c : HttpContext.t custom) (w : World) : World :=
  set_resp (HttpResponse.create close) (set_req (HttpContext.request_ c) (set_ctx (Some c) w)).

Lemma sending_frame (c : TcpConnection.t callback) data out wc b :
  sending c data out ->
  sending (TcpConnection.setWriteCompleteCallback (TcpConnection.setInput c b) wc) data out.
Proof. by intros []. Qed.

(** An operation that leaves the connection up does not call back. *)
Lemma on_tcp_up f s c :
  f (tcp s) = Some c -> TcpConnection.state_ c <> TcpConnection.kDisconnected ->
  on_tcp connectionCallback_ f s = inr (mkConn c (world s)).
Proof.
  intros E Hst. unfold on_tcp. rewrite E.
  assert (is_down c = false) as -> by (unfold is_down; by destruct (TcpConnection.state_ c)).
  by rewrite andb_false_r.
Qed.

Lemma send_up s data c :
  TcpConnection.state_ (tcp s) = TcpConnection.kConnected -> TcpConnection.sendInLoop (tcp s) data = Some c ->
  TcpConnection.state_ c <> TcpConnection.kDisconnected ->
  send connectionCallback_ s data = inr (mkConn c (world s)).
Proof.
  intros Hst E Hc. apply on_tcp_up; [|done]. unfold TcpConnection.send. by rewrite bool_decide_true by done.
Qed.

(** A connection that is shutting down drops what it is given. *)
Lemma send_refused s data :
  TcpConnection.state_ (tcp s) = TcpConnection.kDisconnecting -> send connectionCallback_ s data = inr s.
Proof.
  intros Hst. unfold send. rewrite (on_tcp_up _ _ (tcp s)); [by destruct s| |by rewrite Hst].
  unfold TcpConnection.send. by rewrite bool_decide_false by (by rewrite Hst).
Qed.

(** A parsed request whose callback answers: what the connection does with the
    response. *)
Lemma onRequest_call s c w1 :
  TcpConnection.state_ (tcp s) = TcpConnection.kConnected -> w_ctx (world s) = Some c ->
  httpCallback_ (callback_world (wants_close (HttpContext.request_ c)) c (world s)) = (Ok true, w1) ->
  onRequest httpCallback_ connectionCallback_ s (HttpContext.request_ c) =
    match on_tcp connectionCallback_ (fun c => TcpConnection.sendInLoop c (HttpResponse.serialize (w_resp w1)))
            (mkConn (TcpConnection.setWriteCompleteCallback (tcp s) (w_wcc w1)) (store_request w1)) with
    | inr s' => inr (true, if HttpResponse.closeConnection_ (w_resp w1) then shutdown s' else s')
    | inl e => inl e
    end.
Proof.
  intros Hst Hc Hcb. unfold onRequest, call.
  assert (set_resp (HttpResponse.create (wants_close (HttpContext.request_ c))) (with_request (world s)) =
          callback_world (wants_close (HttpContext.request_ c)) c (world s)) as ->.
  { unfold with_request, callback_world. rewrite Hc. destruct (world s); simpl in *. by subst. }
  rewrite Hcb. cbv beta iota zeta. cbn [world].
  assert (w_resp (store_request w1) = w_resp w1) as -> by done.
  destruct (HttpResponse.appendToBuffer_holds (w_resp w1) Buffer.create_default [])
    as (buf & -> & [_ Hbuf]); [split; [apply Buffer.buffer_wf_create|apply Buffer.content_create]|].
  rewrite Hbuf. cbn [app]. unfold send, on_tcp, TcpConnection.send. cbn [tcp world].
  by rewrite bool_decide_true by done.
Qed.

(** The serialized response follows what was sent before, and the connection is
    half-closed when the response says so. *)
Lemma onRequest_answers s c data out w1 :
  sending (tcp s) data out -> TcpConnection.state_ (tcp s) = TcpConnection.kConnected ->
  w_ctx (world s) = Some c ->
  httpCallback_ (callback_world (wants_close (HttpContext.request_ c)) c (world s)) = (Ok true, w1) ->
  exists s' out', onRequest httpCallback_ connectionCallback_ s (HttpContext.request_ c) = inr (true, s') /\
    sending (tcp s') (data ++ HttpResponse.serialize (w_resp w1)) out' /\
    world s' = store_request w1 /\
    TcpConnection.state_ (tcp s') =
      (if HttpResponse.closeConnection_ (w_resp w1) then TcpConnection.kDisconnecting
       else TcpConnection.kConnected).
Proof.
  intros Hs Hst Hc Hcb. rewrite (onRequest_call s c w1) by done.
  set (c1 := TcpConnection.setWriteCompleteCallback (tcp s) _).
  assert (sending c1 data out) as Hs1 by (by destruct Hs).
  destruct (sendInLoop_sending c1 data out (HttpResponse.serialize (w_resp w1)) Hs1 Hst)
    as (c2 & out2 & E & Hs2 & Hst2).
  rewrite (on_tcp_up _ _ c2) by (done || by rewrite Hst2).
  destruct (HttpResponse.closeConnection_ (w_resp w1)).
  - do 2 eexists. split; [reflexivity|]. cbn [tcp world shutdown].
    split; [by apply shutdown_sending|]. split; [done|].
    unfold TcpConnection.shutdown. rewrite bool_decide_true by done.
    unfold TcpConnection.shutdownInLoop. by destruct (Channel.isWriting _).
  - do 2 eexists. split; [reflexivity|]. done.
Qed.

(** A complete request is parsed, and handed to [onRequest]. *)
Lemma onMessage_request fuel now s ctx m path query v hs body rest :
  w_ctx (world s) = Some ctx -> fresh ctx -> m <> kInvalid -> v <> kUnknown -> good_target path query ->
  Forall good_header hs -> Forall plain hs -> (Z.of_nat (length body) < 2 ^ 31)%Z ->
  Buffer.holds (TcpConnection.inputBuffer_ (tcp s)) (complete_request m path query v hs body ++ rest) ->
  exists c b, HttpContext.request_ c = parsed ctx now m path query v hs body /\
    HttpContext.customContext_ c = HttpContext.customContext_ ctx /\
    onMessage httpCallback_ connectionCallback_ (S (S (S fuel))) now s =
      match onRequest httpCallback_ connectionCallback_ (after_parse s c b) (HttpContext.request_ c) with
      | inl e => inl e
      | inr (true, s') => inr (reset_context s')
      | inr (false, s') => inr s'
      end.
Proof.
  intros Hctx Hf Hm Hv Ht Hg Hp Hl Hb. unfold onMessage. rewrite Hctx.
  destruct (parse_complete_request fuel now ctx _ m path query v hs body rest Hf Hm Hv Ht Hg Hp Hl Hb)
    as (c & b & -> & _ & Hreq & Hcc & Hrest).
  by exists c, b.
Qed.

(** [Post]: what is known of the state in which the callback returned. *)
Lemma serve_request_post fuel now s data out ctx m path query v hs body rest (Post : World -> Prop) :
  sending (tcp s) data out -> TcpConnection.state_ (tcp s) = TcpConnection.kConnected ->
  w_ctx (world s) = Some ctx -> fresh ctx -> m <> kInvalid -> v <> kUnknown -> good_target path query ->
  Forall good_header hs -> Forall plain hs -> (Z.of_nat (length body) < 2 ^ 31)%Z ->
  Buffer.holds (TcpConnection.inputBuffer_ (tcp s)) (complete_request m path query v hs body ++ rest) ->
  let req := parsed ctx now m path query v hs body in
  (forall c, HttpContext.request_ c = req ->
     HttpContext.customContext_ c = HttpContext.customContext_ ctx ->
     exists w, httpCallback_ (callback_world (wants_close req) c (world s)) = (Ok true, w) /\ Post w) ->
  exists s' out' w, onMessage httpCallback_ connectionCallback_ (S (S (S fuel))) now s = inr s' /\
    sending (tcp s') (data ++ HttpResponse.serialize (w_resp w)) out' /\ Post w /\
    world s' = set_ctx (HttpContext.reset <$> w_ctx (store_request w)) (store_request w) /\
    TcpConnection.state_ (tcp s') =
      (if HttpResponse.closeConnection_ (w_resp w) then TcpConnection.kDisconnecting
       else TcpConnection.kConnected).
Proof.
  intros Hs Hst Hctx Hf Hm Hv Ht Hg Hp Hl Hb req Hcb.
  destruct (onMessage_request fuel now s ctx m path query v hs body rest) as (c & b & Hreq & Hcc & ->); try done.
  set (s1 := after_parse s c b).
  destruct (Hcb c Hreq Hcc) as (w & Hw & Hpost). fold req in Hreq. rewrite <- Hreq in Hw.
  destruct (onRequest_answers s1 c data out w) as (s' & out' & -> & Hs' & Hws & Hst');
    [by destruct Hs|done|done|exact Hw|].
  exists (reset_context s'), out', w. split; [reflexivity|]. cbn [tcp world reset_context].
  rewrite Hws. split; [exact Hs'|]. by split.
Qed.

Lemma serve_request fuel now s data out ctx m path query v hs body rest r (Post : World -> Prop) :
  sending (tcp s) data out -> TcpConnection.state_ (tcp s) = TcpConnection.kConnected ->
  w_ctx (world s) = Some ctx -> fresh ctx -> m <> kInvalid -> v <> kUnknown -> good_target path query ->
  Forall good_header hs -> Forall plain hs -> (Z.of_nat (length body) < 2 ^ 31)%Z ->
  Buffer.holds (TcpConnection.inputBuffer_ (tcp s)) (complete_request m path query v hs body ++ rest) ->
  let req := parsed ctx now m path query v hs body in
  (forall c, HttpContext.request_ c = req ->
     HttpContext.customContext_ c = HttpContext.customContext_ ctx ->
     exists w, httpCallback_ (callback_world (wants_close req) c (world s)) = (Ok true, w) /\
       w_resp w = r /\ Post w) ->
  exists s' out' w, onMessage httpCallback_ connectionCallback_ (S (S (S fuel))) now s = inr s' /\
    sending (tcp s') (data ++ HttpResponse.serialize r) out' /\ Post w /\
    world s' = set_ctx (HttpContext.reset <$> w_ctx (store_request w)) (store_request w) /\
    TcpConnection.state_ (tcp s') =
      (if HttpResponse.closeConnection_ r then TcpConnection.kDisconnecting
       else TcpConnection.kConnected).
Proof.
  intros Hs Hst Hctx Hf Hm Hv Ht Hg Hp Hl Hb req Hcb.
  destruct (serve_request_post fuel now s data out ctx m path query v hs body rest
    (fun w => w_resp w = r /\ Post w)) as (s' & out' & w & E & Hs' & [<- Hw] & Hws & Hst'); try done.
  by exists s', out', w.
Qed.

Lemma serve_complete_request fuel now s data out ctx m path query v hs body rest r w1 :
  sending (tcp s) data out -> TcpConnection.state_ (tcp s) = TcpConnection.kConnected ->
  w_ctx (world s) = Some ctx -> fresh ctx -> m <> kInvalid -> v <> kUnknown -> good_target path query ->
  Forall good_header hs -> Forall plain hs -> (Z.of_nat (length body) < 2 ^ 31)%Z ->
  Buffer.holds (TcpConnection.inputBuffer_ (tcp s)) (complete_request m path query v hs body ++ rest) ->
  let req := parsed ctx now m path query v hs body in
  (forall c, HttpContext.request_ c = req ->
     HttpContext.customContext_ c = HttpContext.customContext_ ctx ->
     exists w, httpCallback_ (callback_world (wants_close req) c (world s)) = (Ok true, w) /\
       w_resp w = r /\ (HttpContext.reset <$> w_ctx (store_request w)) = w1) ->
  exists s' out', onMessage httpCallback_ connectionCallback_ (S (S (S fuel))) now s = inr s' /\
    sending (tcp s') (data ++ HttpResponse.serialize r) out' /\
    w_ctx (world s') = w1 /\
    TcpConnection.state_ (tcp s') =
      (if HttpResponse.closeConnection_ r then TcpConnection.kDisconnecting
       else TcpConnection.kConnected).
Proof.
  intros Hs Hst Hctx Hf Hm Hv Ht Hg Hp Hl Hb req Hcb.
  destruct (serve_request fuel now s data out ctx m path query v hs body rest r
              (fun w => (HttpContext.reset <$> w_ctx (store_request w)) = w1)
              Hs Hst Hctx Hf Hm Hv Ht Hg Hp Hl Hb Hcb) as (s' & out' & w & E & Hs' & Hw & Hws & Hst').
  exists s', out'. split; [done|]. split; [done|]. split; [|done]. by rewrite Hws.
Qed.

(** A part of a large upload: whatever the callback answers, nothing is sent and
    the connection stays open. *)
Lemma part_not_answered fuel now s ctx c b s' :
  w_ctx (world s) = Some ctx ->
  HttpContext.parseRequest fuel now ctx (TcpConnection.inputBuffer_ (tcp s)) =
    Finished (c, b, kHeadersComplete) ->
  onMessage httpCallback_ connectionCallback_ fuel now s = inr s' ->
  TcpConnection.sent (tcp s') = TcpConnection.sent (tcp s) /\
  TcpConnection.outputBuffer_ (tcp s') = TcpConnection.outputBuffer_ (tcp s) /\
  TcpConnection.queue (tcp s') = TcpConnection.queue (tcp s) /\
  TcpConnection.state_ (tcp s') = TcpConnection.state_ (tcp s).
Proof.
  intros Hctx Hp. unfold onMessage. rewrite Hctx, Hp. cbv beta iota zeta.
  destruct (_ && _); [|by intros [= <-]]. unfold call.
  destruct (httpCallback_ _) as [[[]|e|] w]; by intros [= <-].
Qed.

End serving.
