(* ===== verification/Wire.v ===== *)
(** * From the wire to the handlers and back

    The HTTP server with the application's dispatcher as its callback, from the
    bytes that arrive to the bytes that leave: a request without a login, and
    the upload of a file. *)

From S2P Require Import Prelude CxxString TimeStamp ByteBuffer OrdMap Regex HttpRequest HttpContext.
From S2P Require Import HttpParse HttpResponse World Session Accounts Upload Download Files Share.
From S2P Require Import Routes Handlers Access Uploading UploadMessages Channel TcpConnection TcpStream HttpServer HttpServing.
Import HttpServer.

Section wire.
Context `{Platform}.

(** The answer to a request that needs a login. *)
Definition login_refusal (close : bool) (text : bytes) : HttpResponse.t :=
  error_response (HttpResponse.create close) no_login k401Unauthorized text.

Lemma session_asked_frame sid w :
  w_fs (session_asked sid w) = w_fs w /\ w_mapping (session_asked sid w) = w_mapping w /\
  w_down (session_asked sid w) = w_down w /\ w_resp (session_asked sid w) = w_resp w /\
  (w_sql (session_asked sid w) = w_sql w \/
   w_sql (session_asked sid w) = w_sql w ++ [session_select (escaped w sid)]).
Proof.
  unfold session_asked, asked. case_bool_decide; [by auto 6|]. destruct (negb (w_mysql w)); cbn; by auto 6.
Qed.

(** What a refused request leaves untouched: the statements sent are at most
    the lookup of its session. *)
Definition untouched (sid : bytes) (w0 w : World) : Prop :=
  w_fs w = w_fs w0 /\ w_mapping w = w_mapping w0 /\ w_down w = w_down w0 /\
  (w_sql w = w_sql w0 \/ w_sql w = w_sql w0 ++ [session_select (escaped w0 sid)]).

Lemma refused_request_served fuel now s data out ctx m path query v hs body rest h ps text :
  sending (tcp s) data out -> TcpConnection.state_ (tcp s) = TcpConnection.kConnected ->
  w_ctx (world s) = Some ctx -> fresh ctx -> m <> kInvalid -> v <> kUnknown -> good_target path query ->
  Forall good_header hs -> Forall plain hs -> (Z.of_nat (length body) < 2 ^ 31)%Z ->
  Buffer.holds (TcpConnection.inputBuffer_ (tcp s)) (complete_request m path query v hs body ++ rest) ->
  findRoute initRoutes m path = Some (h, ps) -> needs_login h = true ->
  let req := parsed ctx now m path query v hs body in
  let sid := HttpRequest.getHeader req ($"X-Session-ID") in
  session_row sid (world s) = None ->
  json_dump (error_body no_login k401Unauthorized) = inr text ->
  exists s' out', onMessage Routes.onRequest Routes.onConnection (S (S (S fuel))) now s = inr s' /\
    sending (tcp s') (data ++ HttpResponse.serialize (login_refusal (wants_close req) text)) out' /\
    untouched sid (world s) (world s') /\
    TcpConnection.state_ (tcp s') =
      (if wants_close req then TcpConnection.kDisconnecting else TcpConnection.kConnected).
Proof.
  intros Hs Hst Hctx Hf Hm Hv Ht Hg Hp Hl Hb Hroute Hlogin req sid Hsid Htext.
  destruct (serve_request Routes.onRequest Routes.onConnection fuel now s data out ctx m path query v hs body rest
    (login_refusal (wants_close req) text) (untouched sid (world s))) as (s' & out' & w & E & Hs' & Hw & Hws & Hst');
    try done.
  - intros c Hreq _. fold req in Hreq. set (w := callback_world (wants_close req) c (world s)).
    assert (w_req w = req) as Hwreq by (by rewrite <- Hreq).
    assert (session_row sid w = None) as Hsw by exact Hsid.
    pose proof (onRequest_refuses w h ps text) as Hon. rewrite Hwreq in Hon.
    eexists. split; [by apply Hon|]. clear Hon.
    fold sid. set (w1 := set_req (HttpRequest.setPathParams req ps) w).
    destruct (session_asked_frame sid w1) as (Hfs & Hmap & Hdown & Hresp & Hsql).
    split; [unfold answered; cbn [w_resp set_wcc set_resp]; by rewrite Hresp|].
    split; [exact Hfs|]. split; [exact Hmap|]. split; [exact Hdown|exact Hsql].
  - exists s', out'. split; [done|]. split; [done|]. split; [|done]. rewrite Hws. exact Hw.
Qed.

(** ** An upload *)

(** The last message of an upload, when the request already has its body. *)
Lemma post_last body w W :
  post_parts [body] w = (Ok [true], W) -> HttpRequest.body_ (w_req w) = body ->
  handleFileUpload w = (Ok true, W).
Proof.
  intros E Hb. cbn [post_parts] in E. rewrite (bind_ok (setReqBody body) _ w tt (req_body body w)) in E by done.
  assert (req_body body w = w) as Ew by (subst body; by destruct w as [[]]). rewrite Ew in E.
  unfold mbind, M_bind, mret, M_ret in E. destruct (handleFileUpload w) as [[a|e|] W1]; [|done..].
  by injection E as -> ->.
Qed.

Lemma upload_routed w W :
  HttpRequest.method_ (w_req w) = kPost -> HttpRequest.path_ (w_req w) = $"/upload" ->
  handleFileUpload (set_req (HttpRequest.setPathParams (w_req w) ∅) w) = (Ok true, W) ->
  Routes.onRequest w = (Ok true, W).
Proof.
  intros Hm Hp E. unfold Routes.onRequest. apply try_ok. rewrite get_bind, Hm, Hp.
  assert (findRoute initRoutes kPost ($"/upload") = Some (HFileUpload, ∅)) as -> by (vm_compute; reflexivity).
  cbv iota. exact E.
Qed.

(** A logged-in client's request for an upload, as the parser leaves it. *)
Record upload_client (req : HttpReq) (w : World) (sid b original : bytes) : Prop := {
  uc_mysql : w_mysql w = true;
  uc_sid : HttpRequest.getHeader req ($"X-Session-ID") = sid;
  uc_type : HttpRequest.getHeader req ($"Content-Type") = $"multipart/form-data; boundary=" ++ b;
  uc_name : exists h, HttpRequest.getHeader req ($"X-File-Name") = h /\ h <> [] /\ urlDecode h = Some original;
  uc_boundary : b <> [] /\ no_newline b;
  uc_open : open_out_ok (upload_file w) = true;
  uc_room : forall n, write_ok (upload_file w) n = true
}.

(** What an upload leaves. *)
Definition stored (w0 : World) (original content : bytes) (W : World) : Prop :=
  w_fs W = <[upload_file w0 := content]> (w_fs w0) /\ w_mapping W = w_mapping w0 /\
  HttpResponse.statusCode_ (w_resp W) = k200Ok /\
  exists id u, u_originalFilename u = original /\ u_totalBytes u = Z.of_nat (length content) /\
    json_dump (upload_answer id u) = inr (HttpResponse.body_ (w_resp W)).

Lemma upload_request_served fuel now s data out ctx query v hs rest sid uid b original head content tail :
  let body := end_part ($"--" ++ b) (first_part head content) tail in
  let req := parsed ctx now kPost ($"/upload") query v hs body in
  sending (tcp s) data out -> TcpConnection.state_ (tcp s) = TcpConnection.kConnected ->
  w_ctx (world s) = Some ctx -> fresh ctx -> HttpContext.customContext_ ctx = None ->
  v <> kUnknown -> good_target ($"/upload") query ->
  Forall good_header hs -> Forall plain hs -> (Z.of_nat (length body) < 2 ^ 31)%Z ->
  Buffer.holds (TcpConnection.inputBuffer_ (tcp s))
    (complete_request kPost ($"/upload") query v hs body ++ rest) ->
  session_lasts 1 sid uid (w_db (world s)) -> upload_client req (world s) sid b original -> part_header head ->
  find (($"--" ++ b) ++ $"--") (first_part head content ++ ($"--" ++ b) ++ $"--") 0 =
    Some (length (first_part head content)) ->
  (forall id v, u_originalFilename v = original -> exists s, json_dump (upload_answer id v) = inr s) ->
  exists s' out' W, onMessage Routes.onRequest Routes.onConnection (S (S (S fuel))) now s = inr s' /\
    sending (tcp s') (data ++ HttpResponse.serialize (w_resp W)) out' /\
    stored (world s) original content W /\ w_fs (world s') = w_fs W /\ w_mapping (world s') = w_mapping W.
Proof.
  intros body req Hs Hst Hctx Hf Hcu Hv Ht Hg Hp Hl Hb Hlog Hc Hh Hfind Hj.
  destruct (serve_request_post Routes.onRequest Routes.onConnection fuel now s data out ctx kPost ($"/upload") query v hs body rest
    (stored (world s) original content)) as (s' & out' & W & E & Hs' & HW & Hws & _); try done.
  - intros c Hreq Hcc. fold req in Hreq |- *. set (w := callback_world (wants_close req) c (world s)).
    assert (w_req w = req) as Hwreq by (by rewrite <- Hreq).
    set (w1 := set_req (HttpRequest.setPathParams (w_req w) ∅) w).
    assert (upload_request w1 c sid b original) as Hur.
    { destruct Hc. unfold w1. rewrite Hwreq. split; cbn; try done. by rewrite Hcc. }
    destruct (upload_one_message sid uid w1 c b original head content tail Hlog Hur Hh Hfind) as (W & u & EW & Ha & Hup).
    { fold body. lia. }
    { exact Hj. }
    exists W. split.
    + apply upload_routed; [by rewrite Hwreq|by rewrite Hwreq|]. apply (post_last body); [exact EW|].
      unfold w1. by rewrite Hwreq.
    + destruct Hup as [Hfs _ _ _ Hstat [id Hbody] _ Hmap]. destruct (alike_keeps _ _ Ha) as (_ & _ & Hfs1 & _).
      split; [rewrite Hfs, Hfs1; done|]. split; [rewrite Hmap; by destruct Ha as (?&?&?&?&?& ->)|].
      split; [done|]. do 2 eexists. split; [|split; [|exact Hbody]]; [done|].
      cbn. rewrite wrap_small; [lia|]. unfold body, end_part, first_part in Hl. rewrite !length_app in Hl. lia.
  - exists s', out', W. split; [done|]. split; [done|]. split; [done|]. by rewrite Hws.
Qed.

End wire.
