(* ===== verification/Delivery.v ===== *)
(** * A download on the wire

    The connection, the tasks it queues in its loop, and the handlers' callbacks
    together: from the request to the last byte of the file. *)

From S2P Require Import Prelude CxxString TimeStamp ByteBuffer OrdMap Regex HttpRequest HttpContext.
From S2P Require Import HttpParse HttpResponse World Session Accounts Upload Download Files Share.
From S2P Require Import Routes Handlers Access Streaming Channel TcpConnection TcpStream HttpServer HttpServing.
Import HttpServer.

Section loop.
Context `{Platform}.

(** ** The loop of a connection *)

(** The object that the callback has captured is gone. *)
Definition freed (cb : callback) (w : World) : bool :=
  match cb with
  | CbShutdown => false
  | CbDownload id => match w_down w !! id with Some _ => false | None => true end
  end.

(** The write-complete callback, called on the connection. *)
Definition writeComplete (cb : callback) (s : conn) : crash + conn :=
  if freed cb (world s) then inl CFreed
  else
    match run_callback cb (world s) with
    | (Ok (WcSend chunk), w) => send Routes.onConnection (mkConn (tcp s) w) chunk
    | (Ok WcShutdown, w) => inr (shutdown (mkConn (tcp s) w))
    | (Exn e, _) => inl (CException e)
    | (Undef, _) => inl CUndefined
    end.

(** One functor of the loop.  Nobody installs a high-water mark callback. *)
Definition runTask (k : TcpConnection.task callback) (s : conn) : crash + conn :=
  match k with
  | TcpConnection.TWriteComplete cb => writeComplete cb s
  | k => on_tcp Routes.onConnection (fun c => TcpConnection.runTask c k) s
  end.

Fixpoint runTasks (ks : list (TcpConnection.task callback)) (s : conn) : crash + conn :=
  match ks with
  | [] => inr s
  | k :: ks' => match runTask k s with inl e => inl e | inr s' => runTasks ks' s' end
  end.

(** [doPendingFunctors], as far as the connection's tasks go: those that are
    queued meanwhile wait for the next turn. *)
Definition doPendingFunctors (s : conn) : crash + conn :=
  runTasks (TcpConnection.queue (tcp s)) (mkConn (TcpConnection.clearQueue (tcp s)) (world s)).

(** A turn of the loop; [writable] when the poller reports the socket writable. *)
Definition turn (writable : bool) (s : conn) : crash + conn :=
  match (if writable then on_tcp Routes.onConnection TcpConnection.handleWrite s else inr s) with
  | inl e => inl e
  | inr s' => doPendingFunctors s'
  end.

Fixpoint turns (ws : list bool) (s : conn) : crash + conn :=
  match ws with
  | [] => inr s
  | w :: ws' => match turn w s with inl e => inl e | inr s' => turns ws' s' end
  end.

End loop.

Section delivery.
Context `{Platform}.
Abbreviation task := (TcpConnection.task callback).
Abbreviation THandleWrite := TcpConnection.THandleWrite.
Abbreviation TWriteComplete := TcpConnection.TWriteComplete.

(** ** The tasks that wait *)

Definition is_call (k : task) : bool := match k with TcpConnection.TWriteComplete _ => true | _ => false end.
Definition calls (ks : list task) : nat := length (List.filter is_call ks).

Lemma calls_app ks ks' : calls (ks ++ ks') = calls ks + calls ks'.
Proof. unfold calls. by rewrite List.filter_app, length_app. Qed.

Definition writes_or_calls (cb : callback) (k : task) : Prop := k = THandleWrite \/ k = TWriteComplete cb.

(** While [cb] delivers, one call of it waits exactly when nothing is buffered. *)
Record waiting (cb : callback) (out : bytes) (ks : list task) : Prop := {
  wa_kind : Forall (writes_or_calls cb) ks;
  wa_one : calls ks = if length out =? 0 then 1 else 0
}.

Lemma write_tasks_kind cb n len : Forall (writes_or_calls cb) (write_tasks (Some cb) n len).
Proof.
  unfold write_tasks. destruct (n =? 0); [done|]. destruct (n =? len); (constructor; [|done]); [by right|by left].
Qed.

(** [n] bytes of [out] were taken. *)
Lemma waiting_written cb out ks n :
  n <= length out -> waiting cb out ks -> waiting cb (drop n out) (ks ++ write_tasks (Some cb) n (length out)).
Proof.
  intros Hn [Hk H1]. split; [apply Forall_app; by split; [|apply write_tasks_kind]|].
  rewrite calls_app, H1, length_drop. unfold write_tasks.
  destruct (Nat.eqb_spec n 0) as [->|]; [rewrite Nat.sub_0_r; by rewrite Nat.add_0_r|].
  destruct (Nat.eqb_spec n (length out)), (Nat.eqb_spec (length out) 0), (Nat.eqb_spec (length out - n) 0);
    try lia; done.
Qed.

Lemma waiting_called cb ks :
  Forall (writes_or_calls cb) ks -> calls ks = 0 -> Forall (eq THandleWrite) ks.
Proof.
  induction 1 as [|k ks [->| ->] _ IH]; [done| |done]. intros Hc. by constructor; [|apply IH].
Qed.

(** ** A download in progress *)

(** The client gets [base] and [body] in the end; [part] is what has been taken
    from the download.  The index bounds the turns that
    are left when every write takes something ([live]); [rest] are the tasks the
    loop has taken from the queue and not run yet. *)
Inductive progress (live : bool) (base body : bytes) (id : nat) (rest : list task) (s : conn) : nat -> Prop :=
| pr_sending part out d :
    sending (tcp s) (base ++ part) out ->
    TcpConnection.state_ (tcp s) = TcpConnection.kConnected ->
    TcpConnection.writeCompleteCallback_ (tcp s) = Some (CbDownload id) ->
    TcpConnection.highWaterMarkCallback_ (tcp s) = false ->
    w_down (world s) !! id = Some d -> streaming d ->
    part ++ remaining d = body ->
    waiting (CbDownload id) out (rest ++ TcpConnection.queue (tcp s)) ->
    (live = true -> eager (TcpConnection.outcomes (tcp s)) /\
       unsent d + length out <= length (TcpConnection.outcomes (tcp s))) ->
    progress live base body id rest s (S (2 * (unsent d) + length out))
| pr_done :
    sending (tcp s) (base ++ body) [] ->
    TcpConnection.state_ (tcp s) = TcpConnection.kDisconnecting ->
    TcpConnection.writeCompleteCallback_ (tcp s) = Some (CbDownload id) ->
    Forall (eq THandleWrite) (rest ++ TcpConnection.queue (tcp s)) ->
    progress live base body id rest s 0.

Lemma progress_sent live base body id rest s m :
  progress live base body id rest s m -> TcpConnection.sent (tcp s) `prefix_of` base ++ body.
Proof.
  intros [part out d [_ Hs _ _ _ _] _ _ _ _ _ <- _ _|[_ <- _ _ _ _] _ _ _]; [|by rewrite app_nil_r].
  rewrite app_assoc, <- Hs, <- app_assoc. by apply prefix_app_r.
Qed.

Lemma progress_done live base body id rest s :
  progress live base body id rest s 0 ->
  TcpConnection.sent (tcp s) = base ++ body /\ TcpConnection.writeShut (tcp s) = true /\
  TcpConnection.state_ (tcp s) = TcpConnection.kDisconnecting.
Proof.
  intros Hp. inversion Hp as [|[_ E _ _ Hs _] Hst _ _]. rewrite app_nil_r in E.
  by rewrite Hs, Hst.
Qed.

Lemma progress_takes live base body id s m :
  progress live base body id [] s m ->
  progress live base body id (TcpConnection.queue (tcp s)) (mkConn (TcpConnection.clearQueue (tcp s)) (world s)) m.
Proof.
  intros [part out d Hs Hst Hcb Hh Hd Hp Ht Hw Hl|Hs Hst Hcb Hw].
  - apply (pr_sending _ _ _ _ _ (mkConn _ _) part); cbn; try done; [by destruct Hs|by rewrite app_nil_r].
  - apply pr_done; cbn; [by destruct Hs|done..|by rewrite app_nil_r].
Qed.

(** Either bytes leave, or nothing was buffered. *)
Lemma handleWrite_progress live base body id rest s m :
  progress live base body id rest s m ->
  exists s' m', on_tcp Routes.onConnection TcpConnection.handleWrite s = inr s' /\ progress live base body id rest s' m' /\
    (m' = m \/ m' < m) /\
    (live = true -> m' < m \/ m' = 0 \/ calls (rest ++ TcpConnection.queue (tcp s')) = 1).
Proof.
  intros [part out d Hs Hst Hcb Hh Hd Hp Ht Hw Hl|Hs Hst Hcb Hw].
  - destruct (handleWrite_effect (tcp s) _ out Hs) as (n & c' & E & Hn & Hs' & Hf & Hq & Ho & Hpos).
    rewrite (on_tcp_up _ _ _ c' E) by (by rewrite (fo_state _ _ Hf), Hst).
    rewrite Hcb in Hq.
    exists (mkConn c' (world s)), (S (2 * (unsent d) + length (drop n out))).
    split; [done|]. pose proof (waiting_written _ _ _ n Hn Hw) as Hw'. rewrite <- app_assoc, <- Hq in Hw'.
    assert (length out <> 0 -> live = true -> 0 < n) as Hn0.
    { intros Hne Hlive. destruct (Hl Hlive) as [He Hle].
      destruct (eager_head _ He) as [k Hk]; [lia|]. apply (Hpos k Hk). by intros ->. }
    split; [|split; [rewrite length_drop; lia|]].
    + apply (pr_sending _ _ _ _ _ (mkConn _ _) part); cbn [tcp world]; try done.
      * by rewrite (fo_state _ _ Hf).
      * by rewrite (fo_wcc _ _ Hf).
      * by rewrite (fo_hwm _ _ Hf).
      * intros Hlive. destruct (Hl Hlive) as [He Hle]. rewrite Ho.
        destruct (Nat.eqb_spec (length out) 0) as [E0|E0]; [rewrite length_drop; split; [done|lia]|].
        specialize (Hn0 E0 Hlive). split; [by apply Forall_tail|].
        rewrite length_drop. destruct (TcpConnection.outcomes (tcp s)); cbn in *; lia.
    + intros Hlive. destruct (Nat.eq_dec (length out) 0) as [E0|E0].
      * right; right. cbn [tcp]. destruct Hw' as [_ ->]. rewrite length_drop, E0. done.
      * left. specialize (Hn0 E0 Hlive). rewrite length_drop. lia.
  - destruct (handleWrite_effect (tcp s) _ [] Hs) as (n & c' & E & Hn & Hs' & Hf & Hq & _).
    rewrite (on_tcp_up _ _ _ c' E) by (by rewrite (fo_state _ _ Hf), Hst).
    exists (mkConn c' (world s)), 0. split; [done|]. split; [|auto].
    apply pr_done; cbn [tcp].
    + by rewrite drop_nil in Hs'.
    + by rewrite (fo_state _ _ Hf).
    + by rewrite (fo_wcc _ _ Hf).
    + rewrite Hq. cbn in Hn. assert (n = 0) as -> by lia. by rewrite app_nil_r.
Qed.

(** The callback sends the next chunk, or shuts the connection down. *)
Lemma writeComplete_progress live base body id rest s m :
  progress live base body id (TWriteComplete (CbDownload id) :: rest) s m ->
  exists s' m', writeComplete (CbDownload id) s = inr s' /\ progress live base body id rest s' m' /\ m' < m.
Proof.
  intros [part out d Hs Hst Hcb Hh Hd Hp Ht [Hk H1] Hl|_ _ _ Hw]; [|by apply Forall_cons in Hw as [? _]].
  apply Forall_cons in Hk as [_ Hk].
  change (S (calls (rest ++ TcpConnection.queue (tcp s))) = if length out =? 0 then 1 else 0) in H1.
  destruct (Nat.eqb_spec (length out) 0) as [E0|]; [|lia]. apply nil_length_inv in E0 as ->. injection H1 as H1.
  unfold writeComplete, freed. rewrite Hd.
  destruct (decide (unsent d = 0)) as [E0|Hne].
  - destruct (run_download_end id d (world s) Hd Hp E0) as (d' & -> & _). eexists. exists 0. split; [reflexivity|].
    split; [|lia]. rewrite (nil_length_inv (remaining d)) in Ht by (by rewrite length_remaining).
    rewrite app_nil_r in Ht. subst part.
    destruct (shutdown_frame _ Hst) as (Hst' & Hq' & Hcb').
    apply pr_done; cbn [tcp shutdown]; [by apply shutdown_sending|done|by rewrite Hcb'|rewrite Hq'; by eapply waiting_called].
  - destruct (run_download_more id d (world s) Hd Hp) as (d' & chunk & -> & Hp' & [Hk0 _] & Hlen & Hcat & _); [lia|].
    destruct (sendInLoop_effect (tcp s) _ chunk (CbDownload id) Hs Hst Hcb Hh)
      as (n & j & c' & E & Hn & Hs' & Hf & (q & Hq & Hqs) & Ho & He); [by intros ->; cbn in Hk0; lia|].
    rewrite (send_up _ _ _ c') by (done || by rewrite (fo_state _ _ Hf), Hst).
    do 2 eexists. split; [reflexivity|]. split.
    + apply (pr_sending _ _ _ _ _ (mkConn _ _) (part ++ chunk) (drop n chunk) d'); cbn [tcp world].
      * by rewrite app_assoc.
      * by rewrite (fo_state _ _ Hf).
      * by rewrite (fo_wcc _ _ Hf).
      * by rewrite (fo_hwm _ _ Hf).
      * cbn. by rewrite lookup_insert_eq.
      * done.
      * by rewrite <- app_assoc, Hcat.
      * rewrite Hq, app_assoc. split.
        -- apply Forall_app. split; [done|]. destruct Hqs as [->|[_ ->]]; [|done].
           destruct (_ =? _); (constructor; [|done]); [by right|by left].
        -- rewrite calls_app, H1, length_drop. destruct Hqs as [->|[Hlt ->]].
           ++ destruct (Nat.eqb_spec n (length chunk)), (Nat.eqb_spec (length chunk - n) 0); try lia; done.
           ++ destruct (Nat.eqb_spec (length chunk - n) 0); [lia|done].
      * intros Hlive. destruct (Hl Hlive) as [Hea Hlo]. cbn [length] in Hlo.
        destruct (He Hea) as [Hn0 Hjn]; [lia|]. rewrite Ho, !length_drop.
        split; [by apply eager_drop|lia].
    + rewrite length_drop. cbn [length]. lia.
Qed.

Lemma runTask_progress live base body id k rest s m :
  progress live base body id (k :: rest) s m ->
  exists s' m', runTask k s = inr s' /\ progress live base body id rest s' m' /\
    m' <= m /\ (is_call k = true -> m' < m).
Proof.
  intros Hp. assert (k = THandleWrite \/ k = TWriteComplete (CbDownload id)) as [->| ->].
  { destruct Hp as [? ? ? _ _ _ _ _ _ _ [Hk _] _|_ _ _ Hk]; apply Forall_cons in Hk as [Hk _]; [done|by left]. }
  - assert (progress live base body id rest s m) as Hp'.
    { destruct Hp as [part out d Hs Hst Hcb Hh Hd Hp Ht [Hk H1] Hl|Hs Hst Hcb Hk].
      - apply (pr_sending _ _ _ _ _ _ part); try done. split; [by apply Forall_cons in Hk as [_ ?]|done].
      - apply pr_done; try done. by apply Forall_cons in Hk as [_ ?]. }
    destruct (handleWrite_progress _ _ _ _ _ _ _ Hp') as (s' & m' & E & Hp2 & Hm & _).
    exists s', m'. split; [exact E|]. split; [done|]. split; [lia|done].
  - destruct (writeComplete_progress _ _ _ _ _ _ _ Hp) as (s' & m' & E & Hp' & Hm).
    exists s', m'. split; [exact E|]. split; [done|]. split; [lia|done].
Qed.

Lemma runTasks_progress live base body id ks : forall s m,
  progress live base body id ks s m ->
  exists s' m', runTasks ks s = inr s' /\ progress live base body id [] s' m' /\
    m' <= m /\ (0 < calls ks -> m' < m).
Proof.
  induction ks as [|k ks IH]; intros s m Hp; cbn [runTasks].
  - exists s, m. split; [done|]. split; [done|]. split; [lia|]. cbn. lia.
  - destruct (runTask_progress _ _ _ _ _ _ _ _ Hp) as (s1 & m1 & -> & Hp1 & Hm1 & Hc1).
    destruct (IH s1 m1 Hp1) as (s' & m' & -> & Hp' & Hm' & Hc').
    exists s', m'. split; [done|]. split; [done|]. split; [lia|]. unfold calls. cbn [List.filter].
    destruct (is_call k); [specialize (Hc1 eq_refl); lia|]. intros Hc. specialize (Hc' Hc). lia.
Qed.

(** A turn in which the socket is writable makes progress. *)
Lemma turn_progress live base body id w s m :
  progress live base body id [] s m ->
  exists s' m', turn w s = inr s' /\ progress live base body id [] s' m' /\
    m' <= m /\ (live = true -> w = true -> m' = 0 \/ m' < m).
Proof.
  intros Hp. unfold turn.
  assert (exists s1 m1, (if w then on_tcp Routes.onConnection TcpConnection.handleWrite s else inr s) = inr s1 /\
    progress live base body id [] s1 m1 /\ m1 <= m /\
    (live = true -> w = true -> m1 < m \/ m1 = 0 \/ calls (TcpConnection.queue (tcp s1)) = 1))
    as (s1 & m1 & -> & Hp1 & Hm1 & Hc1).
  { destruct w; [|by exists s, m].
    destruct (handleWrite_progress _ _ _ _ _ _ _ Hp) as (s1 & m1 & E & Hp1 & Hm & Hc).
    exists s1, m1. split; [done|]. split; [done|]. split; [lia|]. auto. }
  destruct (runTasks_progress _ _ _ _ _ _ _ (progress_takes _ _ _ _ _ _ Hp1)) as (s' & m' & E & Hp' & Hm' & Hc').
  exists s', m'. split; [exact E|]. split; [done|]. split; [lia|].
  intros Hlive Hw. destruct (Hc1 Hlive Hw) as [?|[?|Hone]]; [lia|lia|]. right.
  rewrite Hone in Hc'. lia.
Qed.

(** How often the socket was writable. *)
Definition writables (ws : list bool) : nat := length (List.filter (fun w => w) ws).

Lemma turns_progress live base body id ws : forall s m,
  progress live base body id [] s m ->
  exists s' m', turns ws s = inr s' /\ progress live base body id [] s' m' /\
    m' <= m /\ (live = true -> m' <= m - writables ws).
Proof.
  induction ws as [|w ws IH]; intros s m Hp; cbn [turns].
  - exists s, m. split; [done|]. split; [done|]. cbn. lia.
  - destruct (turn_progress _ _ _ _ w _ _ Hp) as (s1 & m1 & -> & Hp1 & Hm1 & Hc1).
    destruct (IH s1 m1 Hp1) as (s' & m' & -> & Hp' & Hm' & Hc').
    exists s', m'. split; [done|]. split; [done|]. split; [lia|]. intros Hlive.
    specialize (Hc' Hlive). unfold writables in *. cbn [List.filter]. destruct w; [|lia].
    specialize (Hc1 Hlive eq_refl). cbn [length]. lia.
Qed.

(** ** A connection that is shutting down

    The callback still runs, but what it sends is dropped. *)
Definition closing (total : bytes) (id : nat) (rest : list task) (s : conn) : Prop :=
  exists out, sending (tcp s) total out /\
    TcpConnection.state_ (tcp s) = TcpConnection.kDisconnecting /\
    TcpConnection.writeCompleteCallback_ (tcp s) = Some (CbDownload id) /\
    is_Some (w_down (world s) !! id) /\
    Forall (writes_or_calls (CbDownload id)) (rest ++ TcpConnection.queue (tcp s)).

Lemma closing_sent total id rest s :
  closing total id rest s -> TcpConnection.sent (tcp s) `prefix_of` total.
Proof. intros (out & [_ <- _ _ _ _] & _). by apply prefix_app_r. Qed.

Lemma handleWrite_closing total id rest s :
  closing total id rest s ->
  exists s', on_tcp Routes.onConnection TcpConnection.handleWrite s = inr s' /\ closing total id rest s'.
Proof.
  intros (out & Hs & Hst & Hcb & Hd & Hk).
  destruct (handleWrite_effect (tcp s) total out Hs) as (n & c' & E & Hn & Hs' & Hf & Hq & _).
  rewrite (on_tcp_up _ _ _ c' E) by (by rewrite (fo_state _ _ Hf), Hst).
  eexists. split; [reflexivity|]. exists (drop n out). cbn [tcp world].
  rewrite (fo_state _ _ Hf), (fo_wcc _ _ Hf), Hq, Hcb, app_assoc. split_and!; try done.
  apply Forall_app. by split; [|apply write_tasks_kind].
Qed.

Lemma writeComplete_closing total id rest s :
  closing total id rest s ->
  exists s', writeComplete (CbDownload id) s = inr s' /\ closing total id rest s'.
Proof.
  intros (out & Hs & Hst & Hcb & [d Hd] & Hk). unfold writeComplete, freed, run_callback. rewrite get_bind, Hd.
  unfold of_option, mbind, M_bind, mret, M_ret, modify.
  destruct (FileDownContext.readNextChunk d) as [[chunk|] d']; cbn;
    [rewrite (send_refused _ _ chunk) by done|unfold shutdown, TcpConnection.shutdown; cbn [tcp world];
     rewrite bool_decide_false by (by rewrite Hst)]; (eexists; split; [reflexivity|]); exists out; cbn; rewrite lookup_insert_eq; by split_and!.
Qed.

Lemma runTasks_closing total id ks : forall s,
  closing total id ks s -> exists s', runTasks ks s = inr s' /\ closing total id [] s'.
Proof.
  induction ks as [|k ks IH]; intros s Hc; cbn [runTasks]; [by exists s|].
  assert (closing total id ks s /\ writes_or_calls (CbDownload id) k) as [Hc' Hk].
  { destruct Hc as (out & Hs & Hst & Hcb & Hd & Hks). apply Forall_cons in Hks as [? ?]. split; [by exists out|done]. }
  assert (exists s1, runTask k s = inr s1 /\ closing total id ks s1) as (s1 & -> & Hc1).
  { destruct Hk as [->| ->]; [by apply handleWrite_closing|by apply writeComplete_closing]. }
  by apply IH.
Qed.

Lemma turns_closing total id ws : forall s,
  closing total id [] s -> exists s', turns ws s = inr s' /\ closing total id [] s'.
Proof.
  induction ws as [|w ws IH]; intros s Hc; cbn [turns]; [by exists s|].
  assert (exists s1, turn w s = inr s1 /\ closing total id [] s1) as (s1 & -> & Hc1); [|by apply IH].
  unfold turn. assert (exists s1, (if w then on_tcp Routes.onConnection TcpConnection.handleWrite s else inr s) = inr s1 /\
    closing total id [] s1) as (s1 & -> & Hc1); [destruct w; [by apply handleWrite_closing|by exists s]|].
  apply runTasks_closing. destruct Hc1 as (out & Hs & Hst & Hcb & Hd & Hk). exists out. cbn.
  rewrite app_nil_r. split_and!; try done. by destruct Hs.
Qed.

(** ** The request *)

(** The dispatcher answers the request in [w] with a file, from the state [w0]. *)
Record serves (w w0 : World) (server original content : bytes) (r : range) : Prop := {
  sv_request : Routes.onRequest w = serveFile server original w0;
  sv_file : w_fs w0 !! upload_path server = Some content;
  sv_open : open_in_ok (upload_path server) = true;
  sv_method : HttpRequest.method_ (w_req w0) <> kHead;
  sv_range : parseRange (HttpRequest.getHeader (w_req w0) ($"Range")) (Z.of_nat (length content)) = inr r;
  sv_satisfiable : r <> RangeUnsatisfiable;
  sv_ctx : exists c, w_ctx w0 = Some c /\ HttpContext.customContext_ c = None;
  sv_resp : w_resp w0 = w_resp w;
  sv_next : w_next w0 = w_next w
}.

Lemma range_start_le header (content : bytes) r :
  parseRange header (Z.of_nat (length content)) = inr r -> r <> RangeUnsatisfiable ->
  (0 <= range_start r <= Z.of_nat (length content))%Z.
Proof.
  intros Hr Hu. destruct r as [|s e|]; cbn; [lia| |done]. apply parseRange_bounds in Hr. lia.
Qed.

(** What is sent of the file. *)
Definition range_body (content : bytes) (r : range) : bytes := drop (Z.to_nat (range_start r)) content.

Lemma serves_answer w w0 server original content r :
  serves w w0 server original content r -> (Z.of_nat (length content) < 2 ^ 64)%Z ->
  let id := w_next w in
  exists W d, Routes.onRequest w = (Ok true, W) /\ w_wcc W = Some (CbDownload id) /\ w_next W = S id /\
    w_resp W = download_response (w_resp w) original (Z.of_nat (length content)) r /\
    w_down W !! id = Some d /\ streaming d /\ unsent d = length (range_body content r) /\
    remaining d = range_body content r /\ d_written d = false.
Proof.
  intros [Hreq Hfs Ho Hm Hr Hu (c & Hc & Hcc) Hresp Hnext] Hmax. cbv zeta. rewrite <- Hnext.
  pose proof (range_start_le _ _ _ Hr Hu) as Hb.
  do 2 eexists. split; [rewrite Hreq; by apply serveFile_starts|]. unfold downloading.
  split; [done|]. split; [done|]. split; [cbn; by rewrite Hresp|].
  split; [cbn; by rewrite lookup_insert_eq|].
  replace (range_start r) with (Z.of_nat (Z.to_nat (range_start r))) by lia.
  unfold range_body. rewrite length_drop. apply create_streaming; [done|lia].
Qed.

(** The connection has sent everything it was given, and has no task waiting. *)
Record idle (s : conn) (data : bytes) (ctx : HttpContext.t custom) : Prop := {
  id_sent : sending (tcp s) data [];
  id_open : TcpConnection.state_ (tcp s) = TcpConnection.kConnected;
  id_queue : TcpConnection.queue (tcp s) = [];
  id_hwm : TcpConnection.highWaterMarkCallback_ (tcp s) = false;
  id_ctx : w_ctx (world s) = Some ctx;
  id_fresh : fresh ctx
}.

(** The response is sent: the download is in progress, or closing when the
    connection is then shut down. *)
Lemma response_starts live tc w data head id d :
  sending tc data [] -> TcpConnection.state_ tc = TcpConnection.kConnected ->
  TcpConnection.writeCompleteCallback_ tc = Some (CbDownload id) ->
  TcpConnection.highWaterMarkCallback_ tc = false -> TcpConnection.queue tc = [] -> head <> [] ->
  w_down w !! id = Some d -> streaming d ->
  (live = true -> eager (TcpConnection.outcomes tc) /\
     length head + unsent d <= length (TcpConnection.outcomes tc)) ->
  exists tc', TcpConnection.sendInLoop tc head = Some tc' /\
    TcpConnection.state_ tc' = TcpConnection.kConnected /\
    closing (data ++ head) id [] (shutdown (mkConn tc' w)) /\
    exists k, k <= S (2 * unsent d + length head) /\
      progress live (data ++ head) (remaining d) id [] (mkConn tc' w) k.
Proof.
  intros Hs Hst Hcb Hh Hq Hhead Hdown Hstr Hlive.
  destruct (sendInLoop_effect tc data head (CbDownload id) Hs Hst Hcb Hh Hhead)
    as (n & j & tc' & -> & Hn & Hs' & Hfo & (q & Hq' & Hqs) & Ho & He). rewrite Hq in Hq'. cbn [app] in Hq'.
  assert (TcpConnection.state_ tc' = TcpConnection.kConnected) as Hst' by (by rewrite (fo_state _ _ Hfo)).
  assert (Forall (writes_or_calls (CbDownload id)) q) as Hkind.
  { destruct Hqs as [->|[_ ->]]; [|done]. destruct (_ =? _); (constructor; [|done]); [by right|by left]. }
  exists tc'. split; [done|]. split; [done|]. split.
  - destruct (shutdown_frame tc' Hst') as (E1 & E2 & E3). exists (drop n head). cbn.
    rewrite E1, E2, E3, (fo_wcc _ _ Hfo), Hq', Hdown. split_and!; try done. by apply shutdown_sending.
  - exists (S (2 * unsent d + length (drop n head))). rewrite length_drop at 1. split; [lia|].
    apply (pr_sending _ _ _ _ _ _ [] _ d); cbn [tcp world]; rewrite ?app_nil_r; try done.
    + by rewrite (fo_wcc _ _ Hfo).
    + by rewrite (fo_hwm _ _ Hfo).
    + rewrite Hq'. split; [done|]. rewrite length_drop. destruct Hqs as [->|[Hlt ->]].
      * destruct (Nat.eqb_spec n (length head)), (Nat.eqb_spec (length head - n) 0); try lia; done.
      * destruct (Nat.eqb_spec (length head - n) 0); [lia|done].
    + intros Hl'. destruct (Hlive Hl') as [Hea Hlo]. destruct (He Hea) as [Hn0 Hj]; [lia|].
      rewrite Ho, !length_drop. split; [by apply eager_drop|lia].
Qed.

(** From the request to the first bytes of the response. *)
Lemma download_request live fuel now s data ctx m path query v hs body rest server original content r :
  idle s data ctx -> m <> kInvalid -> v <> kUnknown -> good_target path query ->
  Forall good_header hs -> Forall plain hs -> (Z.of_nat (length body) < 2 ^ 31)%Z ->
  Buffer.holds (TcpConnection.inputBuffer_ (tcp s)) (complete_request m path query v hs body ++ rest) ->
  let close := wants_close (parsed ctx now m path query v hs body) in
  (forall c, HttpContext.request_ c = parsed ctx now m path query v hs body ->
     HttpContext.customContext_ c = HttpContext.customContext_ ctx ->
     exists w0, serves (callback_world close c (world s)) w0 server original content r) ->
  (Z.of_nat (length content) < 2 ^ 64)%Z ->
  let head := HttpResponse.serialize
    (download_response (HttpResponse.create close) original (Z.of_nat (length content)) r) in
  let file := range_body content r in
  (live = true -> eager (TcpConnection.outcomes (tcp s)) /\
     length head + length file <= length (TcpConnection.outcomes (tcp s))) ->
  let id := w_next (world s) in
  exists s1, onMessage Routes.onRequest Routes.onConnection (S (S (S fuel))) now s = inr s1 /\
    w_next (world s1) = S id /\
    if close then closing (data ++ head) id [] s1
    else exists k, k <= S (2 * length file + length head) /\
           progress live (data ++ head) file id [] s1 k /\
           exists d, w_down (world s1) !! id = Some d /\ d_written d = false.
Proof.
  intros [Hs Hst Hq Hh Hctx Hf] Hm Hv Ht Hg Hp Hl Hb close Hserves Hmax head file Hlive id.
  destruct (onMessage_request Routes.onRequest Routes.onConnection fuel now s ctx m path query v hs body rest)
    as (c & b & Hreq & Hcc & ->); try done.
  destruct (Hserves c Hreq Hcc) as [w0 Hsv].
  destruct (serves_answer _ _ _ _ _ _ Hsv Hmax) as (W & d & HW & Hwcc & Hnext & Hresp & Hdown & Hstr & Hfile & Hrem & Hwr).
  change (w_next (callback_world _ _ _)) with id in Hwcc, Hnext, Hdown.
  cbn [w_resp callback_world set_resp] in Hresp.
  assert (close = wants_close (HttpContext.request_ c)) as Hclose by (by rewrite Hreq).
  rewrite (onRequest_call Routes.onRequest Routes.onConnection (after_parse s c b) c W); [|done|done|by rewrite <- Hclose].
  clearbody close.
  rewrite Hwcc, Hresp. fold head. cbv zeta.
  assert (HttpResponse.closeConnection_ (download_response (HttpResponse.create close) original
    (Z.of_nat (length content)) r) = close) as -> by (by destruct r).
  set (tc := TcpConnection.setWriteCompleteCallback _ _).
  set (w := set_ctx (HttpContext.reset <$> w_ctx (store_request W)) (store_request W)).
  fold file in Hfile, Hrem.
  destruct (response_starts live tc w data head id d)
    as (tc' & E & Hst' & Hcl & k & Hk & Hpr); try done; [by destruct Hs|by rewrite Hfile|].
  rewrite (on_tcp_up _ _ _ tc') by (done || by rewrite Hst').
  rewrite Hrem in Hpr. rewrite Hfile in Hk.
  destruct close; eexists; (split; [reflexivity|]); (split; [exact Hnext|]); [exact Hcl|exists k; eauto].
Qed.

(** A permitted download is such an answer. *)
Lemma permitted_serves w ps auth uid w1 shareCode extractCode row i owner type withId dbCode server original
    content r :
  let w' := set_req (HttpRequest.setPathParams (w_req w) ps) w in
  findRoute initRoutes (HttpRequest.method_ (w_req w)) (HttpRequest.path_ (w_req w)) = Some (HDownload, ps) ->
  HttpRequest.getPathParam (w_req w') ($"filename") <> [] ->
  downloadUser w' = (Ok (auth, uid), w1) ->
  HttpRequest.getQuery (w_req w') ($"code") [] = Some shareCode ->
  HttpRequest.getQuery (w_req w') ($"extract_code") [] = Some extractCode ->
  let q := download_query w1 (HttpRequest.getPathParam (w_req w') ($"filename")) shareCode in
  first_row (answer q w1) = Some row ->
  (exists s, row !! 0 = Some (Some s) /\ stoi s = inr i) ->
  row !! 1 = Some (Some server) -> row !! 2 = Some (Some original) ->
  share_columns_of row owner type withId dbCode ->
  may_download auth uid shareCode extractCode row ->
  w_fs w !! upload_path server = Some content -> open_in_ok (upload_path server) = true ->
  HttpRequest.method_ (w_req w) <> kHead ->
  parseRange (HttpRequest.getHeader (w_req w) ($"Range")) (Z.of_nat (length content)) = inr r ->
  r <> RangeUnsatisfiable ->
  (exists c, w_ctx w = Some c /\ HttpContext.customContext_ c = None) ->
  serves w (asked q w1) server original content r.
Proof.
  intros w' Hroute Hf Hu Hc He q Hrow Hi H1 H2 Hcols Hmay Hfs Ho Hm Hr Hsat (c & Hctx & Hcc).
  destruct (downloadUser_frame _ _ _ Hu) as (db & sql & res & E1).
  destruct (asked_frame q w1) as (Qfs & _ & Qctx & _ & Qreq & Qresp & _).
  assert (w_fs w1 = w_fs w /\ w_ctx w1 = w_ctx w /\ w_req w1 = w_req w' /\ w_resp w1 = w_resp w /\ w_next w1 = w_next w)
    as (Wfs & Wctx & Wreq & Wresp & Wnext) by (by rewrite E1).
  assert (w_next (asked q w1) = w_next w) as Qnext by (rewrite <- Wnext; unfold asked; by destruct (negb _)).
  rewrite Wfs in Qfs. rewrite Wctx in Qctx. rewrite Wreq in Qreq. rewrite Wresp in Qresp.
  assert (serves w (asked q w1) server original content r <->
    Routes.onRequest w = serveFile server original (asked q w1)) as ->.
  { split; [by intros []|]. intros E. split; rewrite ?Qfs, ?Qreq; try done. rewrite Qctx. by exists c. }
  pose proof (handleDownload_serves w' auth uid w1 shareCode extractCode row i owner type withId dbCode
    server original Hf Hu Hc He Hrow Hi H1 H2 Hcols Hmay) as Hs. fold q in Hs.
  rewrite (serveFile_starts server original content c r (asked q w1)) in Hs |- *;
    rewrite ?Qfs, ?Qreq, ?Qctx; try done.
  unfold Routes.onRequest. apply try_ok. rewrite get_bind, Hroute. cbv iota. exact Hs.
Qed.

End delivery.
