(* ===== verification/Program.v ===== *)
(** * The program at work (app/main.cpp)

    The server of [main]: one loop, whose thread runs the HTTP server, the
    application and every connection.  The connections share the application's
    state; a turn of the loop handles events of any of them, and then runs the
    functors that they have queued, in order.  Objects live as long as something
    holds a [shared_ptr] to them. *)

From S2P Require Import Prelude CxxString TimeStamp ByteBuffer OrdMap HttpRequest HttpContext.
From S2P Require Import HttpResponse World Upload Download Routes Channel TcpConnection HttpServer Delivery.
Import HttpServer.

Module Program.
Section program.
Context `{Platform}.
Abbreviation task := (TcpConnection.task callback).

(** A connection, with its [context_]. *)
Record link := mkLink {
  l_tcp : TcpConnection.t callback;
  l_context : option (HttpContext.t custom)
}.

(** [pending] are the functors of the loop, each with its connection. *)
Record t := mk {
  links : gmap nat link;
  pending : list (nat * task);
  shared : World
}.

(** A connection and the application's state as its handlers see them. *)
Definition focus (lk : link) (w : World) : conn :=
  mkConn (l_tcp lk) (set_wcc (TcpConnection.writeCompleteCallback_ (l_tcp lk)) (set_ctx (l_context lk) w)).

(** ** Who holds what

    A [FileDownContext] is held by the [shared_ptr]s in the context of a
    connection, in its [writeCompleteCallback_], whose closure has captured one,
    and in the functors that are copies of it; a connection by its functors. *)
Definition captured (cb : callback) : list nat :=
  match cb with CbDownload id => [id] | CbShutdown => [] end.
Definition context_holds (x : option (HttpContext.t custom)) : list nat :=
  match x ≫= HttpContext.customContext_ with Some (CDown id) => [id] | _ => [] end.
Definition link_holds (lk : link) : list nat :=
  context_holds (l_context lk) ++
  match TcpConnection.writeCompleteCallback_ (l_tcp lk) with Some cb => captured cb | None => [] end.
Definition functor_holds (k : nat * task) : list nat :=
  match k.2 with TcpConnection.TWriteComplete cb => captured cb | _ => [] end.

(** [ks] are the functors in the vector that [doPendingFunctors] runs. *)
Definition held (ks : list (nat * task)) (p : t) : list nat :=
  concat (link_holds <$> (map_to_list (links p)).*2) ++ concat (functor_holds <$> (ks ++ pending p)).

(** The objects that nobody holds are freed; between two calls of handlers the
    application's state belongs to no connection. *)
Definition release (ks : list (nat * task)) (p : t) : t :=
  let w := shared p in
  mk (links p) (pending p)
     (set_wcc None (set_ctx None
       (set_down (filter (fun d => d.1 ∈ held ks p) (w_down w)) (w_next w) w))).

(** The closed connections: [handleClose] has taken them out of the server's
    table and queued [connectDestroyed]. *)
Definition is_closed (lk : link) : bool :=
  match TcpConnection.state_ (l_tcp lk) with TcpConnection.kDisconnected => true | _ => false end.
Definition closed (p : t) : list nat :=
  (List.filter (fun l => is_closed l.2) (map_to_list (links p))).*1.

(** When [connectDestroyed] of the connections [ids] has run, those that no
    functor holds are freed. *)
Definition destroy (ids : list nat) (p : t) : t :=
  mk (filter (fun l => l.1 ∈ ids -> l.1 ∈ (pending p).*1) (links p)) (pending p) (shared p).

(** ** Events and functors *)

(** What [f] does with the connection [id]; the functors it queues go to the
    loop. *)
Definition act (id : nat) (f : conn -> crash + conn) (p : t) : crash + t :=
  match links p !! id with
  | None => inl CFreed
  | Some lk =>
      match f (focus lk (shared p)) with
      | inl e => inl e
      | inr s =>
          inr (mk (<[id := mkLink (TcpConnection.clearQueue (tcp s)) (w_ctx (world s))]> (links p))
                  (pending p ++ (pair id <$> TcpConnection.queue (tcp s))) (world s))
      end
  end.

Definition run (ks : list (nat * task)) (id : nat) (f : conn -> crash + conn) (p : t) : crash + t :=
  match act id f p with inl e => inl e | inr p' => inr (release ks p') end.

(** An event of the connection [id]: the poller reports none for a connection
    that is closed, whose channel is disabled, or gone. *)
Definition on_event (id : nat) (f : conn -> crash + conn) (p : t) : crash + t :=
  match links p !! id with
  | Some lk => if is_closed lk then inr p else run [] id f p
  | None => inr p
  end.

(** [handleRead], with the message callback; [r] is what [readv] delivers, and
    [fuel] bounds the turns of the parser's loop. *)
Definition read (fuel : nat) (now : TimeStamp.t) (r : Z + bytes) (s : conn) : crash + conn :=
  match on_tcp Routes.onConnection (fun c => TcpConnection.handleRead c r) s with
  | inl e => inl e
  | inr s1 =>
      match r with
      | inr (_ :: _) => HttpServer.onMessage Routes.onRequest Routes.onConnection fuel now s1
      | _ => inr s1
      end
  end.

(** The connection comes up. *)
Definition establish (s : conn) : crash + conn :=
  match on_tcp Routes.onConnection TcpConnection.connectEstablished s with
  | inl e => inl e
  | inr s1 => connectionCallback Routes.onConnection true s1
  end.

(** A new connection on the descriptor [fd]; [outcomes] are what its writes will
    answer. *)
Definition connect (id : nat) (fd : Z) (outcomes : list write_outcome) (p : t) : crash + t :=
  let c := TcpConnection.create fd outcomes in
  run [] id establish (mk (<[id := mkLink c None]> (links p)) (pending p) (shared p)).

(** What the poller reports; an identity is used for one connection at a time. *)
Inductive event :=
  | EvConnect (id : nat) (fd : Z) (outcomes : list write_outcome)
  | EvRead (id : nat) (now : TimeStamp.t) (r : Z + bytes)
  | EvWrite (id : nat)
  | EvHangup (id : nat).

Definition handle (fuel : nat) (e : event) (p : t) : crash + t :=
  match e with
  | EvConnect id fd outcomes =>
      match links p !! id with Some _ => inr p | None => connect id fd outcomes p end
  | EvRead id now r => on_event id (read fuel now r) p
  | EvWrite id => on_event id (on_tcp Routes.onConnection TcpConnection.handleWrite) p
  | EvHangup id => on_event id (on_tcp Routes.onConnection TcpConnection.handleClose) p
  end.

Fixpoint handleAll (fuel : nat) (es : list event) (p : t) : crash + t :=
  match es with
  | [] => inr p
  | e :: es' => match handle fuel e p with inl x => inl x | inr p' => handleAll fuel es' p' end
  end.

(** [functors] is the local vector, [ks] what is left of it to run. *)
Fixpoint runFunctors (functors ks : list (nat * task)) (p : t) : crash + t :=
  match ks with
  | [] => inr p
  | (id, k) :: ks' =>
      match run functors id (Delivery.runTask k) p with inl x => inl x | inr p' => runFunctors functors ks' p' end
  end.

(** The [connectDestroyed] of the connections that are closed are among the
    functors; at the end the vector and the functors in it are destroyed. *)
Definition doPendingFunctors (p : t) : crash + t :=
  match runFunctors (pending p) (pending p) (mk (links p) [] (shared p)) with
  | inl x => inl x
  | inr p' => inr (release [] (destroy (closed p) p'))
  end.

(** A turn of [loop], and the turns that follow. *)
Definition turn (fuel : nat) (es : list event) (p : t) : crash + t :=
  match handleAll fuel es p with inl x => inl x | inr p' => doPendingFunctors p' end.

Fixpoint loop (fuel : nat) (ts : list (list event)) (p : t) : crash + t :=
  match ts with
  | [] => inr p
  | es :: ts' => match turn fuel es p with inl x => inl x | inr p' => loop fuel ts' p' end
  end.

(** The program when [loop.loop()] is called. *)
Definition start (w : World) : t := mk ∅ [] w.

(** The client of the connection [id] says nothing more and stays. *)
Definition silent (id : nat) (e : event) : Prop :=
  match e with EvConnect i _ _ | EvRead i _ _ | EvHangup i => i <> id | EvWrite _ => True end.

Definition writes (id : nat) (es : list event) : bool :=
  existsb (fun e => match e with EvWrite i => i =? id | _ => false end) es.

(** The turns in which the connection [id] is writable. *)
Definition writables (id : nat) (ts : list (list event)) : nat := length (List.filter (writes id) ts).

End program.
End Program.
