(* ===== verification/ProgramFacts.v ===== *)
(** * Connections do not disturb one another

    What the handlers do for one connection leaves the downloads of the others
    alone. *)

From S2P Require Import Prelude CxxString TimeStamp ByteBuffer OrdMap HttpRequest HttpContext.
From S2P Require Import HttpParse HttpResponse World Session Accounts Upload Download Files Share.
From S2P Require Import Routes Handlers Requests Streaming Channel TcpConnection TcpStream HttpServer Delivery Program.
Import HttpServer.

(** ** A connection that knows nothing of a callback *)

Section mute.
Context {W : Type} (cb : W).
Implicit Types (c : TcpConnection.t W).
Import TcpConnection.

Record mute c : Prop := {
  mu_wcc : writeCompleteCallback_ c <> Some cb;
  mu_queue : TWriteComplete cb ∉ queue c
}.

Lemma mute_same c c' :
  writeCompleteCallback_ c' = writeCompleteCallback_ c -> queue c' = queue c -> mute c -> mute c'.
Proof. intros E1 E2 [? ?]. split; congruence. Qed.

Lemma mute_queued c k : k <> TWriteComplete cb -> mute c -> mute (queueInLoop c k).
Proof.
  intros Hk [Hw Hq]. split; [done|]. cbn. rewrite elem_of_app, list_elem_of_singleton. by intros [?|<-].
Qed.

Lemma mute_complete c : mute c -> mute (queue_write_complete c).
Proof.
  intros Hm. unfold queue_write_complete. destruct (writeCompleteCallback_ c) eqn:E; [|done].
  apply mute_queued; [|done]. intros [= ->]. by destruct Hm.
Qed.

Definition hushed (m : option (t W)) : Prop := forall c', m = Some c' -> mute c'.

Lemma hushed_some c : mute c -> hushed (Some c).
Proof. by intros ? ? [= <-]. Qed.

Lemma hushed_bind {A} (x : option A) f : (forall a, x = Some a -> hushed (f a)) -> hushed (x ≫= f).
Proof. destruct x as [a|]; [intros Hf; by apply Hf|by intros _ ?]. Qed.

Lemma mute_shutdownInLoop c : mute c -> mute (shutdownInLoop c).
Proof. intros []. unfold shutdownInLoop. by destruct (Channel.isWriting _). Qed.

Lemma mute_shutdown c : mute c -> mute (shutdown c).
Proof. intros Hm. unfold shutdown. case_bool_decide; [|done]. apply mute_shutdownInLoop. by destruct Hm. Qed.

Lemma hushed_handleClose c : mute c -> hushed (handleClose c).
Proof. intros []. unfold handleClose. destruct (_ || _); [apply hushed_some; by split|by intros ?]. Qed.

Lemma mute_flushed c : mute c -> mute (flushed c).
Proof.
  intros Hm. unfold flushed. assert (mute (queue_write_complete (setChannel c (Channel.disableWriting (channel_ c))))) as H1.
  { apply mute_complete. by destruct Hm. }
  case_bool_decide; [by apply mute_shutdownInLoop|done].
Qed.

Lemma hushed_handleWrite c : mute c -> hushed (handleWrite c).
Proof.
  intros Hm. unfold handleWrite. destruct (Channel.isWriting _); [|by apply hushed_some].
  assert (forall took, mute (after_write c took)) as Hw by (intros; by destruct Hm).
  unfold sys_write. destruct (outcomes c) as [|[n|e] l].
  1,3: destruct (_ && _)%bool; [by apply hushed_handleClose|by apply hushed_some].
  destruct (Nat.min _ _); [by apply hushed_some|]. apply hushed_bind. intros b _.
  assert (mute (setOutput (after_write c (take n (Buffer.content (outputBuffer_ c)))) b)) as Hb by by destruct Hm.
  destruct (_ =? 0); [apply hushed_some; by apply mute_flushed|]. apply hushed_some. by apply mute_queued.
Qed.

Lemma hushed_bufferRest c rest : mute c -> hushed (bufferRest c rest).
Proof.
  intros Hm. unfold bufferRest. cbv zeta.
  match goal with |- context [setOutput ?x _] => set (c1 := x) end.
  assert (mute c1) as H1 by (unfold c1; destruct (_ && _)%bool; [by apply mute_queued|done]). clearbody c1.
  apply hushed_bind. intros b _. apply hushed_handleWrite.
  destruct (Channel.isWriting _); by destruct H1.
Qed.

Lemma hushed_sendInLoop c data : mute c -> hushed (sendInLoop c data).
Proof.
  intros Hm. unfold sendInLoop. case_bool_decide; [by apply hushed_some|].
  assert (forall c1 (b : bool) rest, mute c1 -> hushed (if b then bufferRest c1 rest else Some c1)) as Hk.
  { intros c1 b rest H1. destruct b; [by apply hushed_bufferRest|by apply hushed_some]. }
  assert (forall took, mute (after_write c took)) as Hw by (intros; by destruct Hm).
  destruct (_ && _)%bool; [|by apply Hk]. unfold sys_write. destruct (outcomes c) as [|[n|e] l]; try by apply Hk.
  apply Hk. destruct (_ =? 0); [by apply mute_complete|done].
Qed.

Lemma hushed_send c data : mute c -> hushed (send c data).
Proof. intros. unfold send. case_bool_decide; [by apply hushed_sendInLoop|by apply hushed_some]. Qed.

Lemma hushed_handleRead c r : mute c -> hushed (handleRead c r).
Proof.
  intros Hm. unfold handleRead. apply hushed_bind. intros [[n err] b] _.
  assert (mute (setInput c b)) as H1 by by destruct Hm.
  destruct (0 <? n)%Z; [apply hushed_some; by destruct H1|].
  destruct (n =? 0)%Z; [by apply hushed_handleClose|by apply hushed_some].
Qed.

Lemma hushed_established c : mute c -> hushed (connectEstablished c).
Proof. intros []. unfold connectEstablished. case_bool_decide; [apply hushed_some; by split|by intros ?]. Qed.

Lemma hushed_runTask c k : mute c -> hushed (runTask c k).
Proof.
  intros Hm. destruct k; cbn [runTask]; try by apply hushed_some.
  - by apply hushed_handleWrite.
  - unfold forceCloseInLoop. destruct (_ || _); [by apply hushed_handleClose|by apply hushed_some].
  - by apply hushed_sendInLoop.
  - apply hushed_some. by apply mute_shutdownInLoop.
Qed.

End mute.

(** ** What a request leaves alone *)

Section unaware.
Context `{Platform} (id : nat) (x : DownContext).

(** The download [id] is as in the state [x], but for what its file holds, and
    the connection at hand does not refer to it. *)
Record unaware (w : World) : Prop := {
  un_down : exists d, w_down w !! id = Some d /\ evolves x d;
  un_next : id < w_next w;
  un_ctx c : w_ctx w = Some c -> HttpContext.customContext_ c <> Some (CDown id);
  un_wcc : w_wcc w <> Some (CbDownload id)
}.

#[export] Instance unaware_stable : stable unaware.
Proof. split; intros; match goal with Hw : unaware _ |- _ => destruct Hw; by split end. Qed.

Lemma keeps_setCustom_unaware y : y <> Some (CDown id) -> keeps unaware (setCustom y).
Proof.
  intros Hy. apply keeps_modify. intros w [Hd Hn Hc Hw]. split; cbn; try done.
  intros c E. destruct (w_ctx w); [|done]. injection E as <-. done.
Qed.

(** Another download. *)
Definition elsewhere (i : nat) (w : World) : Prop := unaware w /\ i <> id.

#[export] Instance elsewhere_stable i : stable (elsewhere i).
Proof. apply stable_and; [apply _|by split]. Qed.

Lemma elsewhere_unaware i w : elsewhere i w -> unaware w.
Proof. by intros []. Qed.

Ltac next_keeps := next; [apply yields_keeps; [by apply elsewhere_unaware|]|].

Lemma yields_getDown_unaware : yields unaware unaware getDown
  (fun r w => unaware w /\ forall i, r = Some i -> i <> id).
Proof.
  intros w Hw. unfold getDown. rewrite get_bind. destruct (w_ctx w) as [c|] eqn:Ec; [|done].
  destruct (HttpContext.customContext_ c) as [[u|i]|] eqn:Eu; [done| |done].
  split; [done|]. intros ? [= <-] ->. by apply (un_ctx w Hw c).
Qed.

Lemma unaware_map g w : (forall d, evolves d (g d)) -> unaware w ->
  unaware (set_down (g <$> w_down w) (w_next w) w).
Proof.
  intros Hg [(d & Ed & He) Hn Hc Hw]. split; try done. exists (g d). cbn. rewrite lookup_fmap, Ed.
  split; [done|]. by etransitivity.
Qed.

Lemma unaware_put p s w : unaware w -> unaware (put_file p s w).
Proof. intros Hw. destruct (unaware_map (written p s) w (evolves_put p s) Hw). by split. Qed.

Lemma unaware_remove p w : unaware w -> unaware (remove_file p w).
Proof. intros Hw. destruct (unaware_map (unlinked p) w (evolves_unlinked p) Hw). by split. Qed.

Lemma yields_makeDown_unaware f o : yields unaware unaware (makeDown f o) elsewhere.
Proof.
  intros w [Hd Hn Hc Hw]. unfold makeDown. rewrite get_bind. destruct (w_fs w !! f); [|by split].
  destruct (open_in_ok f); [|by split].
  cbn. assert (w_next w <> id) by lia. split; [split|done]; cbn; try done; [|lia]. by rewrite lookup_insert_ne.
Qed.

Lemma keeps_seek_unaware i p : keeps (elsewhere i)
  (modify (fun w => set_down (alter (fun d => FileDownContext.seekTo d p) i (w_down w)) (w_next w) w)).
Proof.
  apply keeps_modify. intros w [[Hd Hn Hc Hw] Hi]. split; [split|done]; cbn; try done. by rewrite lookup_alter_ne.
Qed.

Lemma keeps_startDownload_unaware f o n part : keeps unaware (startDownload f o n part).
Proof.
  apply keeps_yields. unfold startDownload.
  next; [apply yields_keeps; [done|keeps]|]. cbv beta. rename a into w0.
  destruct (w_ctx w0); [|apply yields_keeps; [done|keeps]].
  next; [apply yields_getDown_unaware|]. rename a into cur.
  eapply (yields_bind _ _ _ elsewhere).
  - destruct cur as [i|].
    + intros w1 [Hw1 Hs]. cbn. split; [done|]. by apply Hs.
    + intros w1 [Hw1 _]. revert w1 Hw1.
      next; [apply yields_makeDown_unaware|]. rename a into i.
      next_keeps.
      { intros w [Hw Hi]. split; [|done]. apply (keeps_setCustom_unaware (Some (CDown i))); [congruence|done]. }
      next_keeps; [destruct part as [[s e]|]; keeps|].
      do 4 (next_keeps; [keeps|]). cbv zeta.
      next_keeps; [apply keeps_seek_unaware|].
      by intros w2 Hw2.
  - intros i. next; [apply yields_keeps; [by apply elsewhere_unaware|]|by intros w2 []].
    apply keeps_modify. intros w [[Hd Hn Hc Hw] Hi]. split; [split|done]; cbn; try done. congruence.
Qed.

Lemma keeps_onRequest_unaware : keeps unaware Routes.onRequest.
Proof.
  apply keeps_onRequest; [apply _|by intros ? ? []|apply unaware_put|apply unaware_remove| | |].
  - intros g _. apply keeps_modify. by intros ? [].
  - intros y Hy. by apply keeps_setCustom_unaware.
  - intros f o n part _. apply keeps_startDownload_unaware.
Qed.

Lemma keeps_callback_unaware cb : cb <> CbDownload id -> keeps unaware (run_callback cb).
Proof.
  intros Hcb. destruct cb as [|i]; cbn [run_callback]; [keeps|].
  intros w Hw. rewrite get_bind. destruct (w_down w !! i) as [d|]; [|done].
  rewrite (bind_ok (of_option (Some d)) _ w d w) by done.
  destruct (FileDownContext.readNextChunk d) as [chunk d'].
  change (unaware (set_down (<[i := d']> (w_down w)) (w_next w) w)). destruct Hw as [Hd Hn Hc Hw]. split; try done.
  cbn [w_down set_down]. rewrite lookup_insert_ne; [done|congruence].
Qed.

Lemma keeps_onConnection_unaware b : keeps unaware (Routes.onConnection b).
Proof.
  unfold Routes.onConnection. destruct b.
  - apply keeps_modify. intros w []. split; cbn; try done. by intros ? [= <-].
  - apply keeps_bind; [keeps|]. intros w0. apply keeps_bind.
    + destruct (w_ctx w0); [|keeps]. apply keeps_bind; [unfold getUpload; keeps|intros; keeps].
    + intros _. apply keeps_modify. intros w []. by split.
Qed.

End unaware.

(** The parser does not look at what the handlers have stored. *)
Section parser.
Import HttpContext.

Lemma processHeaders_custom {C} fuel : forall (c : t C) b c' b',
  processHeaders fuel c b = Finished (c', b') -> customContext_ c' = customContext_ c.
Proof.
  induction fuel as [|fuel IH]; intros c b c' b'; [done|]. cbn [processHeaders].
  destruct (Buffer.findCRLF b) as [crlf|]; [|by intros [= <- <-]].
  destruct (Buffer.retrieveUntil b _) as [b1|]; [|done].
  destruct (negb _); [|by intros [= <- <-]]. destruct (processHeaderLine _ _ _ _) as [c1|] eqn:El; [|done].
  intros E. rewrite (IH _ _ _ _ E). revert El. unfold processHeaderLine.
  repeat case_match; by intros [= <-].
Qed.

Lemma processBody_custom {C} (c : t C) b c' b' k : processBody c b = Some (c', b', k) -> customContext_ c' = customContext_ c.
Proof.
  unfold processBody. destruct (isChunked_ c); [by intros [= <- <- <-]|].
  destruct (0 <? _); cbn [mbind option_bind]; [|by intros [= <- <- <-]].
  destruct (Buffer.retrieve _ _); cbn [mbind option_bind]; [by intros [= <- <- <-]|done].
Qed.

Lemma parse_step_custom {C} now (c : t C) b r c' b' r' k :
  parse_step now c b r = Finished (c', b', r', k) -> customContext_ c' = customContext_ c.
Proof.
  unfold parse_step. destruct (state_ c).
  - destruct (Buffer.findCRLF b) as [crlf|]; [|by intros [= <- <- <- <-]].
    destruct (processRequestLine _ _) as [[r1 [|]]|]; [|by intros [= <- <- <- <-]|done].
    destruct (Buffer.retrieveUntil _ _); [by intros [= <- <- <- <-]|done].
  - destruct (processHeaders _ c b) as [[c1 b1]| | |] eqn:E; [|done..]. apply processHeaders_custom in E. rewrite <- E.
    case_bool_decide; [|by intros [= <- <- <- <-]].
    destruct (_ && _)%bool; [by intros [= <- <- <- <-]|]. destruct (0 <? _); by intros [= <- <- <- <-].
  - destruct (processBody c b) as [[[c1 b1] [|]]|] eqn:E; [..|done]; apply processBody_custom in E; rewrite <- E;
      by intros [= <- <- <- <-].
  - by intros [= <- <- <- <-].
Qed.

Lemma parseRequest_custom {C} fuel now (c : t C) b c' b' r :
  parseRequest fuel now c b = Finished (c', b', r) -> customContext_ c' = customContext_ c.
Proof.
  unfold parseRequest. generalize kNeedMore. revert c b. induction fuel as [|fuel IH]; intros c b r0; [done|].
  cbn [parse_loop]. destruct (parse_step now c b r0) as [[[[c1 b1] r1] [|]]| | |] eqn:E; [..|done|done|done];
    apply parse_step_custom in E; rewrite <- E; [apply IH|by intros [= <- <- <-]].
Qed.

End parser.

(** ** What a connection keeps, whatever it does

    [U]: what the application's state keeps for the connection; [D w]: the
    callbacks the connection does not know in the state [w]. *)
Class separated `{Platform} (U : World -> Prop) (D : World -> callback -> Prop) : Prop := {
  sep_resp r w : U w -> U (set_resp r w);
  sep_req r w : U w -> U (set_req r w);
  sep_ctx c c0 w : w_ctx w = Some c0 ->
    HttpContext.customContext_ c = HttpContext.customContext_ c0 \/ HttpContext.customContext_ c = None ->
    U w -> U (set_ctx (Some c) w);
  sep_wcc w cb : U w -> D w cb -> w_wcc w <> Some cb;
  sep_same w w' cb : w_down w' = w_down w -> D w' cb -> D w cb;
  sep_request w : U w -> U (Routes.onRequest w).2 /\ forall cb, D (Routes.onRequest w).2 cb -> D w cb;
  sep_callback w k : U w -> ~ D w k -> U (run_callback k w).2 /\ forall cb, D (run_callback k w).2 cb -> D w cb;
  sep_connection b w : U w -> U (Routes.onConnection b w).2 /\ forall cb, D (Routes.onConnection b w).2 cb -> D w cb
}.

Section apart.
Context `{Platform} (U : World -> Prop) (D : World -> callback -> Prop) `{!separated U D}.

Record apart (s : conn) : Prop := {
  ap_world : U (world s);
  ap_tcp cb : D (world s) cb -> mute cb (tcp s)
}.

(** If it ends, it ends apart, and knows no callback it should not have known
    before. *)
Definition stays (w : World) (r : crash + conn) : Prop :=
  forall s, r = inr s -> apart s /\ forall cb, D (world s) cb -> D w cb.

Lemma stays_inr s : apart s -> stays (world s) (inr s).
Proof. by intros ? ? [= <-]. Qed.

Lemma stays_later w w' r : (forall cb, D w' cb -> D w cb) -> stays w' r -> stays w r.
Proof. intros Hd Hr s E. destruct (Hr s E). auto. Qed.

(** A change of the world that the connection's callbacks survive. *)
Lemma apart_world s w : U w -> (forall cb, D w cb -> D (world s) cb) -> apart s -> apart (mkConn (tcp s) w).
Proof. intros Hw Hd [_ Hm]. split; [done|]. intros cb E. by apply Hm, Hd. Qed.

Lemma stays_onConnection b s : apart s -> stays (world s) (connectionCallback Routes.onConnection b s).
Proof.
  intros Ha s'. unfold connectionCallback.
  destruct (sep_connection b (world s) (ap_world _ Ha)) as [Hw Hd].
  pose proof (apart_world s _ Hw Hd Ha) as H1.
  destruct (Routes.onConnection b (world s)) as [[a|e|] w]; try done. by intros [= <-].
Qed.

Lemma stays_tcp f s : (forall cb, mute cb (tcp s) -> hushed cb (f (tcp s))) -> apart s -> stays (world s) (on_tcp Routes.onConnection f s).
Proof.
  intros Hf [Hu Hm] s'. unfold on_tcp. destruct (f (tcp s)) as [c|] eqn:E; [|done].
  assert (apart (mkConn c (world s))) as Ha by (split; [done|]; intros cb Hd; by apply (Hf cb (Hm cb Hd))).
  destruct (_ && _); [by apply (stays_onConnection false (mkConn c (world s)))|by intros [= <-]].
Qed.

Lemma stays_send s d : apart s -> stays (world s) (send Routes.onConnection s d).
Proof. apply stays_tcp. intros cb. apply hushed_send. Qed.

Lemma apart_shutdown s : apart s -> apart (shutdown s).
Proof. intros [Hu Hm]. split; [done|]. intros cb Hd. by apply mute_shutdown, Hm. Qed.

Lemma stays_call close s : apart s ->
  forall a s', call Routes.onRequest close s = (Ok a, s') -> apart s' /\ forall cb, D (world s') cb -> D (world s) cb.
Proof.
  intros [Hu Hm] a s'. unfold call. set (w := set_resp _ _).
  assert (U w /\ w_down w = w_down (world s)) as [Hw Hdw].
  { unfold w, with_request. clear w. destruct (w_ctx (world s)); (split; [|done]); repeat (apply sep_resp || apply sep_req); done. }
  destruct (sep_request w Hw) as [Hu1 Hd1]. destruct (Routes.onRequest w) as [r w1]. cbn in Hu1, Hd1.
  assert (forall cb, D w1 cb -> D (world s) cb) as Hd by (intros cb E; by eapply sep_same, Hd1).
  assert (U (store_request w1)) as Hst.
  { unfold store_request. destruct (w_ctx w1) as [c|] eqn:Ec; cbn.
    - apply (sep_ctx _ c); [done|by left|done].
    - by destruct w1; cbn in *; subst. }
  assert (forall cb, D (store_request w1) cb -> D w1 cb) as Hds by (intros cb; by apply sep_same).
  intros [= -> <-]. cbn [world]. split; [split; cbn [tcp world]; [done|]|by intros cb ?%Hds%Hd].
  intros cb E%Hds. destruct (Hm cb (Hd cb E)) as [_ Hq]. split; [|done]. by apply sep_wcc.
Qed.

Lemma stays_onRequest s req : apart s ->
  forall b s', onRequest Routes.onRequest Routes.onConnection s req = inr (b, s') -> apart s' /\ forall cb, D (world s') cb -> D (world s) cb.
Proof.
  intros Ha b s'. unfold onRequest. destruct (call _ _ s) as [[[|]|e|] s1] eqn:E; try done.
  - destruct (stays_call _ _ Ha _ _ E) as [H1 D1].
    destruct (HttpResponse.appendToBuffer _ _) as [buf|]; [|done].
    destruct (send _ s1 _) as [e|s2] eqn:Es; [done|]. destruct (stays_send _ _ H1 _ Es) as [H2 D2].
    intros [= <- <-]. split; [|intros cb; destruct (HttpResponse.closeConnection_ _); auto].
    destruct (HttpResponse.closeConnection_ _); [by apply apart_shutdown|done].
  - intros [= <- <-]. by apply (stays_call _ _ Ha _ _ E).
Qed.

Lemma stays_onMessage fuel now s : apart s -> stays (world s) (onMessage Routes.onRequest Routes.onConnection fuel now s).
Proof.
  intros Ha s'. unfold onMessage. destruct (w_ctx (world s)) as [ctx|] eqn:Ec; [|by intros [= <-]].
  destruct (HttpContext.parseRequest _ _ _ _) as [[[c b] r]| | |] eqn:E; [|done..].
  apply parseRequest_custom in E.
  assert (apart (after_parse s c b) /\ forall cb, D (world (after_parse s c b)) cb -> D (world s) cb) as [H1 D1].
  { assert (forall cb, D (set_ctx (Some c) (world s)) cb -> D (world s) cb) as Hd by (intros cb; by apply sep_same).
    split; [|exact Hd]. destruct Ha as [Hu Hm]. split; cbn [after_parse tcp world]; [by apply (sep_ctx _ ctx); [|left|]|].
    intros cb E1%Hd. by destruct (Hm cb E1). }
  set (s1 := after_parse s c b) in *. clearbody s1. destruct r.
  - destruct (send _ s1 bad_request) as [e|s2] eqn:Es; [done|]. destruct (stays_send _ _ H1 _ Es) as [H2 D2].
    intros [= <-]. split; [by apply apart_shutdown|auto].
  - by intros [= <-].
  - destruct (_ && _)%bool; [|by intros [= <-]].
    destruct (call _ _ s1) as [[a|e|] s2] eqn:Es; [|done..]. destruct (stays_call _ _ H1 _ _ Es). intros [= <-]. auto.
  - destruct (onRequest _ _ s1 _) as [e|[[|] s2]] eqn:Es; [done|..]; intros [= <-];
      destruct (stays_onRequest _ _ H1 _ _ Es) as [H2 D2]; [|auto].
    set (w := set_ctx (HttpContext.reset <$> w_ctx (world s2)) (world s2)).
    assert (forall cb, D w cb -> D (world s2) cb) as D3 by (intros cb; by apply sep_same).
    split; [|unfold reset_context; cbn [world]; auto]. apply apart_world; [|done|done].
    unfold w. clear w D3. destruct (w_ctx (world s2)) as [c2|] eqn:E2; cbn.
    + apply (sep_ctx _ c2); [done|by right|apply H2].
    + destruct H2 as [Hu _]. by destruct (world s2); cbn in *; subst.
Qed.

Lemma stays_runTask k s :
  (forall cb, k = TcpConnection.TWriteComplete cb -> ~ D (world s) cb) -> apart s -> stays (world s) (runTask k s).
Proof.
  intros Hk Ha. assert (stays (world s) (on_tcp Routes.onConnection (fun c => TcpConnection.runTask c k) s)) as Ht.
  { apply stays_tcp; [intros cb; apply hushed_runTask|done]. }
  destruct k as [|cb| | | |]; cbn [runTask]; try exact Ht. clear Ht.
  unfold writeComplete. destruct (freed cb (world s)); [by intros ?|].
  destruct (sep_callback (world s) cb (ap_world _ Ha) (Hk cb eq_refl)) as [Hw Hd].
  pose proof (apart_world s _ Hw Hd Ha) as H1.
  destruct (run_callback cb (world s)) as [[[chunk|]|e|] w]; [..|by intros ?|by intros ?]; cbn [snd] in *.
  - eapply stays_later; [exact Hd|]. by apply (stays_send (mkConn (tcp s) w)).
  - intros s' [= <-]. split; [by apply apart_shutdown|done].
Qed.

Lemma stays_establish s : apart s -> stays (world s) (Program.establish s).
Proof.
  intros Ha s'. unfold Program.establish.
  pose proof (stays_tcp TcpConnection.connectEstablished s (fun cb => hushed_established cb _) Ha) as Ht.
  destruct (on_tcp _ _ s) as [e|s1]; [done|]. destruct (Ht s1 eq_refl) as [H1 D1].
  by apply (stays_later _ (world s1) _ D1), stays_onConnection.
Qed.

Lemma stays_read fuel now r s : apart s -> stays (world s) (Program.read fuel now r s).
Proof.
  intros Ha s'. unfold Program.read.
  destruct (on_tcp _ _ s) as [e|s1] eqn:E; [done|].
  assert (apart s1 /\ forall cb, D (world s1) cb -> D (world s) cb) as [H1 D1].
  { eapply stays_tcp; [|exact Ha|exact E]. intros cb. apply hushed_handleRead. }
  destruct r as [e|[|y d]]; [by intros [= <-]..|]. by apply (stays_later _ (world s1) _ D1), stays_onMessage.
Qed.

End apart.
