(* ===== verification/SqlSafety.v ===== *)
(** * The statements the program sends to the database

    What MySQL reads outside the string literals of a statement is the
    program's own text: whatever a client sends, it ends up inside a literal. *)

From S2P Require Import Prelude CxxString OrdMap Regex HttpRequest HttpContext HttpResponse World.
From S2P Require Import Session Accounts Upload Download Files Share Routes Handlers Access.

(** ** Reading a statement

    MySQL's string literals: single quotes, and backslashes that escape the
    character behind them. *)
Inductive lexeme := Outside | Inside | Escaped.

Definition lex_step (st : lexeme) (c : ascii) : lexeme :=
  match st with
  | Outside => if bool_decide (c = "'"%char) then Inside else Outside
  | Inside =>
      if bool_decide (c = "'"%char) then Outside
      else if bool_decide (c = chr 92) then Escaped else Inside
  | Escaped => Inside
  end.

(** Where the reader is after [s], and what it has seen that is no part of a
    literal's content. *)
Definition lex_end (st : lexeme) (s : bytes) : lexeme := foldl lex_step st s.

Fixpoint lex_text (st : lexeme) (s : bytes) : bytes :=
  match s with
  | [] => []
  | c :: s' =>
      match st, lex_step st c with
      | Inside, Inside | Inside, Escaped | Escaped, _ => lex_text (lex_step st c) s'
      | _, st' => c :: lex_text st' s'
      end
  end.

(** A statement with its literals emptied; [None] when one is not closed. *)
Definition sql_text (q : bytes) : option bytes :=
  match lex_end Outside q with Outside => Some (lex_text Outside q) | _ => None end.

(** Text that stays inside the literal it is put into. *)
Definition quotable (e : bytes) : Prop := lex_end Inside e = Inside /\ lex_text Inside e = [].

Lemma lex_end_app st a b : lex_end st (a ++ b) = lex_end (lex_end st a) b.
Proof. apply foldl_app. Qed.

Lemma lex_text_app a : forall st b, lex_text st (a ++ b) = lex_text st a ++ lex_text (lex_end st a) b.
Proof.
  induction a as [|c a IH]; intros st b; [done|]. cbn [app lex_text lex_end foldl]. unfold lex_end in IH.
  destruct st; cbn [lex_step]; repeat case_bool_decide; cbn; by rewrite IH.
Qed.

(** Numbers and codes hold no quotes. *)
Definition calm (c : ascii) : bool := negb (bool_decide (c = "'"%char)) && negb (bool_decide (c = chr 92)).

Lemma calm_outside s : Forall (fun c => calm c = true) s -> lex_end Outside s = Outside.
Proof.
  induction 1 as [|c s Hc Hs IH]; [done|].
  unfold lex_end. cbn [foldl lex_step]. unfold calm in Hc. case_bool_decide; [done|]. by apply IH.
Qed.

Lemma calm_quotable s : Forall (fun c => calm c = true) s -> quotable s.
Proof.
  unfold quotable. induction 1 as [|c s Hc Hs IH]; [done|].
  unfold calm in Hc. unfold lex_end. cbn [foldl lex_step lex_text].
  do 2 (case_bool_decide; [done|]). by apply IH.
Qed.

Lemma digit_calm c : isdigit c = true -> calm c = true.
Proof. by destruct c as [[][][][][][][][]]. Qed.

Lemma number_outside z : lex_end Outside (to_string z) = Outside.
Proof.
  apply calm_outside. unfold to_string.
  assert (Forall (fun c => calm c = true) (udigits (S (Z.to_nat (Z.log2 (Z.abs z)))) (Z.abs z) [])) as Hd
    by (eapply Forall_impl; [apply udigits_digits|apply digit_calm]).
  destruct (z <? 0)%Z; [|done]. by constructor.
Qed.

(** ** Statements as pieces

    The program's text, numbers, and what comes from a client. *)
Inductive piece :=
  | Text (t : bytes)
  | Number (z : Z)
  | Client (e : bytes).

Definition piece_text (p : piece) : bytes :=
  match p with Text t => t | Number z => to_string z | Client e => e end.

Fixpoint render (ps : list piece) : bytes :=
  match ps with
  | [] => []
  | [p] => piece_text p
  | p :: ps' => piece_text p ++ render ps'
  end.

Lemma render_cons p ps : render (p :: ps) = piece_text p ++ render ps.
Proof. destruct ps; [by rewrite app_nil_r|done]. Qed.

Definition blank (p : piece) : piece := match p with Client _ => Client [] | p => p end.

(** Clients' text inside literals, numbers outside. *)
Fixpoint placed (st : lexeme) (ps : list piece) : bool :=
  match ps with
  | [] => match st with Outside => true | _ => false end
  | Text t :: ps' => placed (lex_end st t) ps'
  | Number _ :: ps' => match st with Outside => placed Outside ps' | _ => false end
  | Client _ :: ps' => match st with Inside => placed Inside ps' | _ => false end
  end.

Definition piece_ok (p : piece) : Prop := match p with Client e => quotable e | _ => True end.

(** [q] reads as [p]. *)
Definition reads_as (q p : bytes) : Prop := exists t, sql_text q = Some t /\ sql_text p = Some t.

Lemma placed_reads ps : forall st, placed st ps = true -> Forall piece_ok ps ->
  lex_end st (render ps) = Outside /\ lex_end st (render (blank <$> ps)) = Outside /\
  lex_text st (render ps) = lex_text st (render (blank <$> ps)).
Proof.
  induction ps as [|p ps IH]; intros st Hp Hok; [by destruct st|].
  apply Forall_cons in Hok as [Ho Hok]. rewrite fmap_cons, !render_cons, !lex_end_app, !lex_text_app.
  destruct p as [t|z|e]; cbn [placed piece_text blank] in *.
  - destruct (IH _ Hp Hok) as (-> & -> & ->). done.
  - destruct st; try done. rewrite number_outside. destruct (IH _ Hp Hok) as (-> & -> & ->). done.
  - destruct st; try done. destruct Ho as [-> ->]. change (lex_end Inside []) with Inside.
    change (lex_text Inside []) with (@nil ascii). destruct (IH _ Hp Hok) as (-> & -> & ->). done.
Qed.

Lemma reads_as_blank ps : placed Outside ps = true -> Forall piece_ok ps ->
  reads_as (render ps) (render (blank <$> ps)).
Proof.
  intros Hp Hok. destruct (placed_reads ps Outside Hp Hok) as (E1 & E2 & E3).
  exists (lex_text Outside (render ps)). unfold sql_text. rewrite E1, E2. by rewrite E3.
Qed.

Ltac reify_piece a :=
  lazymatch a with
  | s2b ?t => constr:(Text (s2b t))
  | to_string ?z => constr:(Number z)
  | _ => constr:(Client a)
  end.
Ltac reify q :=
  lazymatch q with
  | [] => constr:(@nil piece)
  | ?a ++ ?b => let x := reify_piece a in let y := reify b in constr:(x :: y)
  | _ => let x := reify_piece q in constr:([x])
  end.
Ltac reads := rewrite <- ?app_assoc;
  lazymatch goal with
  | |- reads_as ?q _ =>
      let ps := reify q in apply (reads_as_blank ps);
        [vm_compute; reflexivity|repeat first [apply Forall_nil_2 | apply Forall_cons_2; [done|]]]
  end.

Section statements.
Context `{Platform}.

(** The program's statements, with empty literals where a client's text goes. *)
Inductive program_statement : bytes -> Prop :=
  | ps_session_select : program_statement (session_select [])
  | ps_session_refresh : program_statement (session_refresh [])
  | ps_session_insert u : program_statement (session_insert [] u [])
  | ps_session_delete : program_statement (session_delete [])
  | ps_user_by_name : program_statement (user_by_name [])
  | ps_user_insert email : email ∈ [$"NULL"; $"''"] -> program_statement (user_insert [] [] email)
  | ps_login : program_statement (login_select [] [])
  | ps_search u : program_statement (search_select [] u)
  | ps_list type u : type ∈ [$"my"; $"shared"; $"all"; []] -> program_statement (list_query type u)
  | ps_file_shares f : program_statement
      ($"SELECT share_type, shared_with_id, share_code, expire_time, " ++
       $"extract_code FROM file_shares " ++ $"WHERE file_id = " ++ to_string f)
  | ps_user_name u : program_statement ($"SELECT username FROM users WHERE id = " ++ to_string u)
  | ps_own_file u : program_statement (own_file_select [] u)
  | ps_delete_shares f : program_statement (delete_shares f)
  | ps_delete_file f : program_statement (delete_file f)
  | ps_download_share : program_statement (download_by_share [] [])
  | ps_download : program_statement (download_by_name [])
  | ps_share_download : program_statement (share_download_select [] [])
  | ps_file_insert n u : program_statement (file_insert [] [] n [] u)
  | ps_own_check f u : program_statement (own_file_check f u)
  | ps_shared_with f u : program_statement
      ($"SELECT 1 FROM file_shares WHERE file_id = " ++ to_string f ++
       $" AND shared_with_id = " ++ to_string u ++ $" AND share_type = 'user'")
  | ps_share_insert f u with_id extract expire :
      (with_id = $"NULL" \/ exists i, with_id = to_string i) -> extract ∈ [$"NULL"; $"''"] ->
      (expire = $"NULL" \/ exists h, expire = $"DATE_ADD(NOW(), INTERVAL " ++ to_string h ++ $" HOUR)") ->
      program_statement (share_insert f u with_id [] [] extract expire)
  | ps_share_access : program_statement (share_access_select [] [])
  | ps_share_info : program_statement (share_info_select []).

(** A statement that reads as one of them. *)
Definition harmless (q : bytes) : Prop := exists p, program_statement p /\ reads_as q p.

(** Each statement, with what a client sent made quotable. *)
Ltac harmless p := intros; eexists; split; [apply p|].

Lemma harmless_session_select e : quotable e -> harmless (session_select e).
Proof. harmless ps_session_select. unfold session_select. reads. Qed.
Lemma harmless_session_refresh e : quotable e -> harmless (session_refresh e).
Proof. harmless ps_session_refresh. unfold session_refresh. reads. Qed.
Lemma harmless_session_insert s u n : quotable s -> quotable n -> harmless (session_insert s u n).
Proof. harmless (ps_session_insert u). unfold session_insert. reads. Qed.
Lemma harmless_session_delete e : quotable e -> harmless (session_delete e).
Proof. harmless ps_session_delete. unfold session_delete. reads. Qed.
Lemma harmless_user_by_name e : quotable e -> harmless (user_by_name e).
Proof. harmless ps_user_by_name. unfold user_by_name. reads. Qed.

(** An SQL expression that is NULL or a literal. *)
Definition null_or_quoted (s : bytes) : Prop := s = $"NULL" \/ exists e, s = $"'" ++ e ++ $"'" /\ quotable e.

Lemma harmless_user_insert n p email :
  quotable n -> quotable p -> null_or_quoted email -> harmless (user_insert n p email).
Proof.
  intros ? ? [->|(e & -> & ?)].
  - harmless (ps_user_insert ($"NULL")); [set_solver|]. unfold user_insert. reads.
  - harmless (ps_user_insert ($"''")); [set_solver|]. unfold user_insert. reads.
Qed.
Lemma harmless_login n p : quotable n -> quotable p -> harmless (login_select n p).
Proof. harmless ps_login. unfold login_select. reads. Qed.
Lemma harmless_search e u : quotable e -> harmless (search_select e u).
Proof. harmless (ps_search u). unfold search_select. reads. Qed.

Lemma harmless_list type u : harmless (list_query type u).
Proof.
  assert (exists t, t ∈ [$"my"; $"shared"; $"all"; []] /\ list_query type u = list_query t u) as (t & Ht & ->).
  { destruct (decide (type = $"my")) as [->|H1]; [eexists; split; [|done]; set_solver|].
    destruct (decide (type = $"shared")) as [->|H2]; [eexists; split; [|done]; set_solver|].
    destruct (decide (type = $"all")) as [->|H3]; [eexists; split; [|done]; set_solver|].
    exists []. split; [set_solver|]. unfold list_query. by rewrite !bool_decide_false. }
  exists (list_query t u). split; [by apply ps_list|].
  repeat (apply elem_of_cons in Ht as [->|Ht]); [..|by apply not_elem_of_nil in Ht];
    unfold list_query, list_columns; cbv zeta;
    repeat first [rewrite bool_decide_true by done | rewrite bool_decide_false by done]; reads.
Qed.

Lemma harmless_file_shares f : harmless
  ($"SELECT share_type, shared_with_id, share_code, expire_time, " ++
   $"extract_code FROM file_shares " ++ $"WHERE file_id = " ++ to_string f).
Proof. harmless (ps_file_shares f). reads. Qed.
Lemma harmless_user_name u : harmless ($"SELECT username FROM users WHERE id = " ++ to_string u).
Proof. harmless (ps_user_name u). reads. Qed.
Lemma harmless_own_file e u : quotable e -> harmless (own_file_select e u).
Proof. harmless (ps_own_file u). unfold own_file_select. reads. Qed.
Lemma harmless_delete_shares f : harmless (delete_shares f).
Proof. harmless (ps_delete_shares f). unfold delete_shares. reads. Qed.
Lemma harmless_delete_file f : harmless (delete_file f).
Proof. harmless (ps_delete_file f). unfold delete_file. reads. Qed.
Lemma harmless_download_share f c : quotable f -> quotable c -> harmless (download_by_share f c).
Proof. harmless ps_download_share. unfold download_by_share. reads. Qed.
Lemma harmless_download f : quotable f -> harmless (download_by_name f).
Proof. harmless ps_download. unfold download_by_name. reads. Qed.
Lemma harmless_share_download f c : quotable f -> quotable c -> harmless (share_download_select f c).
Proof. harmless ps_share_download. unfold share_download_select. reads. Qed.
Lemma harmless_file_insert n o k t u :
  quotable n -> quotable o -> quotable t -> harmless (file_insert n o k t u).
Proof. harmless (ps_file_insert k u). unfold file_insert. reads. Qed.
Lemma harmless_own_check f u : harmless (own_file_check f u).
Proof. harmless (ps_own_check f u). unfold own_file_check. reads. Qed.
Lemma harmless_shared_with f u : harmless
  ($"SELECT 1 FROM file_shares WHERE file_id = " ++ to_string f ++
   $" AND shared_with_id = " ++ to_string u ++ $" AND share_type = 'user'").
Proof. harmless (ps_shared_with f u). reads. Qed.

(** The expressions of a new share. *)
Definition null_or_number (s : bytes) : Prop := s = $"NULL" \/ exists i, s = to_string i.
Definition expiry (s : bytes) : Prop :=
  s = $"NULL" \/ exists h, s = $"DATE_ADD(NOW(), INTERVAL " ++ to_string h ++ $" HOUR)".

Lemma harmless_share_insert f u with_id t c extract expire :
  null_or_number with_id -> quotable t -> quotable c -> null_or_quoted extract -> expiry expire ->
  harmless (share_insert f u with_id t c extract expire).
Proof.
  intros Hw ? ? Hx He. destruct Hx as [->|(e & -> & ?)].
  - harmless (ps_share_insert f u with_id ($"NULL") expire); [done|set_solver|done|].
    unfold share_insert. destruct Hw as [->|[i ->]], He as [->|[h ->]]; reads.
  - harmless (ps_share_insert f u with_id ($"''") expire); [done|set_solver|done|].
    unfold share_insert. destruct Hw as [->|[i ->]], He as [->|[h ->]]; reads.
Qed.
Lemma harmless_share_access c e : quotable c -> quotable e -> harmless (share_access_select c e).
Proof. harmless ps_share_access. unfold share_access_select, share_columns. reads. Qed.
Lemma harmless_share_info c : quotable c -> harmless (share_info_select c).
Proof. harmless ps_share_info. unfold share_info_select, share_columns. reads. Qed.

End statements.

(** ** What the handlers send *)

Create HintDb emits.

Section emits.
Context `{Platform}.

(** What [mysql_real_escape_string] promises: a text that can be put between
    quotes, in which NUL is escaped too. *)
Definition escapes : Prop :=
  forall s, quotable (mysql_real_escape_string s) /\ chr 0 ∉ mysql_real_escape_string s.

Hypothesis Hescapes : escapes.

(** Whether there is a connection, and the statements sent before. *)
Variable (connected : bool) (before : list bytes).

(** Since then only harmless statements were sent, and none without a
    connection. *)
Definition tame (w : World) : Prop :=
  w_mysql w = connected /\
  exists new, w_sql w = before ++ new /\ Forall harmless new /\ (connected = false -> new = []).

(** [m] sends only such statements, and returns a value that meets [Q]. *)
Definition emits {A} (m : M A) (Q : A -> Prop) : Prop :=
  forall w, tame w -> tame (m w).2 /\ forall a, (m w).1 = Ok a -> Q a.

Definition anything {A} (_ : A) : Prop := True.

Lemma emits_ret {A} (a : A) (Q : A -> Prop) : Q a -> emits (mret a) Q.
Proof. intros Ha w Hw. split; [done|]. by intros ? [= <-]. Qed.
Lemma emits_throw {A} e (Q : A -> Prop) : emits (throw e) Q.
Proof. by intros w Hw. Qed.
Lemma emits_undef {A} (Q : A -> Prop) : emits undef Q.
Proof. by intros w Hw. Qed.
Lemma emits_get : emits get anything.
Proof. by intros w Hw. Qed.
Lemma emits_of_sum {A} (x : bytes + A) : emits (of_sum x) anything.
Proof. by destruct x; intros w Hw. Qed.
Lemma emits_of_option {A} (x : option A) : emits (of_option x) anything.
Proof. by destruct x; intros w Hw. Qed.
Lemma emits_modify f : (forall w, tame w -> tame (f w)) -> emits (modify f) anything.
Proof. intros Hf w Hw. split; [by apply Hf|done]. Qed.

Lemma emits_bind {A B} (m : M A) (f : A -> M B) R Q :
  emits m R -> (forall a, R a -> emits (f a) Q) -> emits (m ≫= f) Q.
Proof.
  intros Hm Hf w Hw. destruct (Hm w Hw) as [Hw1 HR]. unfold mbind, M_bind.
  destruct (m w) as [[a|e|] w1]; [|done..]. apply Hf; [by apply HR|done].
Qed.

Lemma emits_try {A} (m : M A) h (Q : A -> Prop) :
  emits m Q -> (forall e, emits (h e) Q) -> emits (try_catch m h) Q.
Proof.
  intros Hm Hh w Hw. destruct (Hm w Hw) as [Hw1 HQ]. unfold try_catch.
  destruct (m w) as [[a|e|] w1]; [done| |done]. by apply Hh.
Qed.

Lemma emits_weaken {A} (m : M A) (Q : A -> Prop) : emits m Q -> emits m anything.
Proof. intros Hm w Hw. by destruct (Hm w Hw). Qed.

(** The statements themselves. *)
Lemma emits_query q : (connected = true -> harmless q) -> emits (executeQuery q) anything.
Proof.
  intros Hq w [Em (new & Hs & Hn & Hd)]. split; [|done]. unfold executeQuery. rewrite Em.
  destruct (decide (connected = true)) as [Ec|Ec]; cycle 1.
  { apply not_true_is_false in Ec. rewrite Ec. by split; [|exists new]. }
  rewrite Ec. cbn [negb].
  assert (forall d res, tame (set_db d (w_sql w ++ [q]) res w)) as Ht.
  { intros d res. split; [done|]. exists (new ++ [q]). cbn. rewrite Hs, <- app_assoc.
    split; [done|]. split; [|by rewrite Ec]. apply Forall_app. split; [done|]. constructor; [by apply Hq|done]. }
  destruct (mysql_query q (w_db w)) as [[res|] db]; apply Ht.
Qed.

Lemma emits_result q : (connected = true -> harmless q) -> emits (executeQueryWithResult q) anything.
Proof.
  intros Hq. unfold executeQueryWithResult. eapply emits_bind; [by apply emits_query|intros ok _].
  destruct ok; cbn [negb]; [|by apply emits_ret]. eapply emits_bind; [apply emits_get|intros w _].
  eapply emits_bind; [by apply emits_modify|intros _ _]. by apply emits_ret.
Qed.

Lemma emits_escape s : emits (escapeString s) (fun e => connected = true -> quotable e).
Proof.
  intros w Hw. split; [done|]. intros a Ha Hc. unfold escapeString in Ha. rewrite get_bind in Ha.
  cbn in Ha. injection Ha as <-. rewrite (proj1 Hw), Hc. cbn.
  destruct (Hescapes s) as [Hq Hn]. rewrite (proj2 (find_char_absent _ _)) by done. by rewrite firstn_all.
Qed.

Lemma emits_draw_chars n chars :
  Forall (fun c => calm c = true) chars -> emits (draw_chars n chars) (fun s => connected = true -> quotable s).
Proof.
  intros Hc. assert (emits (draw_chars n chars) (Forall (fun c => calm c = true))) as Hd.
  { induction n as [|n IH]; cbn [draw_chars]; [by apply emits_ret|].
    eapply (emits_bind _ _ anything); [|intros i _].
    { unfold draw. eapply emits_bind; [apply emits_get|intros w _].
      eapply emits_bind; [by apply emits_modify|intros _ _]. by apply emits_ret. }
    eapply (emits_bind _ _ (fun c => calm c = true)).
    { intros w Hw. destruct (chars !! Z.to_nat i) as [c|] eqn:E; [|done]. split; [done|].
      cbn. intros ? [= <-]. by eapply (Forall_lookup_1 _ _ _ _ Hc). }
    intros c Hcc. eapply emits_bind; [apply IH|intros cs Hcs]. apply emits_ret. by constructor. }
  intros w Hw. destruct (Hd w Hw) as [Hw1 HQ]. split; [done|]. intros a Ha _. apply calm_quotable. by apply HQ.
Qed.


(** Through a computation: known computations by their lemmas, others by their
    definitions.  What escaping and drawing return is remembered. *)
Ltac head t := lazymatch t with ?f _ => head f | _ => t end.
Ltac trivial_post := first [exact I | assumption | intros; exact I].
Lemma emits_append p s : emits (modify (append_file p s)) anything.
Proof. apply emits_modify. intros w Hw. unfold append_file. by destruct (w_fs w !! p). Qed.

Ltac emits_step :=
  lazymatch goal with
  | |- emits (mbind _ (escapeString _)) _ => eapply emits_bind; [apply emits_escape|intros ? ?]
  | |- emits (mbind _ (draw_chars _ _)) _ =>
      eapply emits_bind; [apply emits_draw_chars; by repeat constructor|intros ? ?]
  | |- emits (mbind _ _) _ => eapply (emits_bind _ _ anything); [|intros ? _]
  | |- emits (mret _) _ => apply emits_ret; try exact I
  | |- emits (throw _) _ => apply emits_throw
  | |- emits undef _ => apply emits_undef
  | |- emits get _ => apply emits_get
  | |- emits (of_sum _) _ => apply emits_of_sum
  | |- emits (of_option _) _ => apply emits_of_option
  | |- emits (modify (append_file _ _)) _ => apply emits_append
  | |- emits (modify _) _ => apply emits_modify; intros ? ?; assumption
  | |- emits (try_catch _ _) _ => apply emits_try; [|intros ?]
  | |- emits (executeQuery _) _ => apply emits_query; intros ?
  | |- emits (executeQueryWithResult _) _ => apply emits_result; intros ?
  | |- emits (match ?x with _ => _ end) _ => destruct x
  end.
Ltac emits_unfold :=
  match goal with |- emits ?m _ => let h := head m in unfold h end.
Ltac emits := repeat (cbv zeta; first [emits_step | solve [eauto with emits] | emits_unfold; cbv beta]).

Lemma emits_validateSession s : emits (validateSession s) anything.
Proof. emits; auto using harmless_session_select, harmless_session_refresh. Qed.

Hint Resolve emits_validateSession : emits.

Lemma emits_saveSession s u n : emits (saveSession s u n) anything.
Proof. emits; auto using harmless_session_insert. Qed.
Lemma emits_endSession s : emits (endSession s) anything.
Proof. emits; auto using harmless_session_delete. Qed.
Hint Resolve emits_saveSession emits_endSession : emits.

Lemma emits_needLogin k : (forall u n, emits (k u n) anything) -> emits (needLogin k) anything.
Proof. intros Hk. emits. Qed.

(** *** Accounts *)

Lemma emits_email email : emits
  (if bool_decide (email = []) then mret ($"NULL") else e ← escapeString email; mret ($"'" ++ e ++ $"'"))
  (fun s => connected = true -> null_or_quoted s).
Proof.
  case_bool_decide; [apply emits_ret; by left|]. eapply emits_bind; [apply emits_escape|intros e He].
  apply emits_ret. intros Hc. right. exists e. by split; [|apply He].
Qed.

Lemma emits_handleRegister : emits handleRegister anything.
Proof.
  unfold handleRegister. apply emits_try; [|intros e; emits].
  do 4 (eapply (emits_bind _ _ anything); [emits|intros ? _]).
  eapply (emits_bind _ _ anything); [emits|intros email _]. destruct (_ || _); [emits|]. cbv zeta.
  eapply emits_bind; [apply emits_escape|intros u Hu].
  eapply emits_bind; [apply emits_result; auto using harmless_user_by_name|intros result _].
  destruct (first_row result); [emits|].
  eapply emits_bind; [apply emits_escape|intros u' Hu']. eapply emits_bind; [apply emits_escape|intros p Hp].
  eapply emits_bind; [apply emits_email|intros em Hem].
  eapply emits_bind; [apply emits_query; auto using harmless_user_insert|intros ok _]. emits.
Qed.

Lemma emits_handleLogin : emits handleLogin anything.
Proof. emits; auto using harmless_login. Qed.
Lemma emits_handleLogout : emits handleLogout anything.
Proof. emits. Qed.

Lemma emits_search_rows rows : emits (search_rows rows) anything.
Proof. induction rows as [|r rows IH]; cbn [search_rows]; emits. Qed.
Hint Resolve emits_search_rows : emits.
Lemma emits_handleSearchUsers : emits handleSearchUsers anything.
Proof. apply emits_needLogin. intros u n. emits; auto using harmless_search. Qed.

(** *** Files *)

Lemma emits_shareInfo f : emits (shareInfo f) anything.
Proof. emits; auto using harmless_file_shares, harmless_user_name. Qed.
Hint Resolve emits_shareInfo : emits.
Lemma emits_list_rows rows : emits (list_rows rows) anything.
Proof. induction rows as [|r rows IH]; cbn [list_rows]; emits. Qed.
Hint Resolve emits_list_rows : emits.
Lemma emits_handleListFiles : emits handleListFiles anything.
Proof. apply emits_needLogin. intros u n. emits; auto using harmless_list. Qed.
Lemma emits_handleDelete : emits handleDelete anything.
Proof.
  apply emits_needLogin. intros u n.
  emits; auto using harmless_own_file, harmless_delete_shares, harmless_delete_file.
Qed.

(** *** Uploads *)

Lemma emits_finishUpload u : emits (finishUpload u) anything.
Proof. emits; auto using harmless_file_insert. Qed.
Hint Resolve emits_finishUpload : emits.
Lemma emits_handleFileUpload : emits handleFileUpload anything.
Proof. apply emits_needLogin. intros u n. emits. Qed.

(** *** Downloads *)

Lemma emits_serveFile server original : emits (serveFile server original) anything.
Proof. emits. Qed.
Hint Resolve emits_serveFile : emits.

Lemma emits_download_query f c : (connected = true -> quotable f) -> emits
  (if bool_decide (c <> []) then s ← escapeString c; mret (download_by_share f s) else mret (download_by_name f))
  (fun q => connected = true -> harmless q).
Proof.
  intros Hf. case_bool_decide; [|apply emits_ret; auto using harmless_download].
  eapply emits_bind; [apply emits_escape|intros s Hs]. apply emits_ret. auto using harmless_download_share.
Qed.

Lemma emits_handleDownload : emits handleDownload anything.
Proof.
  unfold handleDownload. eapply (emits_bind _ _ anything); [emits|intros filename _].
  case_bool_decide; [emits|]. eapply (emits_bind _ _ anything); [emits|intros [auth uid] _].
  do 2 (eapply (emits_bind _ _ anything); [emits|intros ? _]). destruct (_ && _); [emits|].
  eapply emits_bind; [apply emits_escape|intros f Hf].
  eapply emits_bind; [by apply emits_download_query|intros q Hq].
  eapply emits_bind; [by apply emits_result|intros result _]. emits.
Qed.

Lemma emits_handleShareDownload : emits handleShareDownload anything.
Proof. emits; auto using harmless_share_download. Qed.

(** *** Shares *)

Lemma emits_expire_sql d : emits (expire_sql d) expiry.
Proof.
  unfold expire_sql. destruct (_ && _); [|apply emits_ret; by left].
  eapply emits_bind; [apply emits_of_sum|intros h _]. apply emits_ret.
  destruct (0 <? h)%Z; [right; by exists h|by left].
Qed.

Definition target_ok (t : option (bytes * bytes)) : Prop :=
  match t with
  | Some (with_id, extract) => null_or_number with_id /\ (connected = true -> null_or_quoted extract)
  | None => True
  end.

Lemma emits_share_target d f t : emits (share_target d f t) target_ok.
Proof.
  unfold share_target. destruct (_ && _).
  - eapply emits_bind; [apply emits_of_sum|intros i _]. cbv zeta.
    eapply emits_bind; [apply emits_result; intros _; apply harmless_shared_with|intros r _].
    destruct (first_row r); apply emits_ret; [done|]. split; [right; by exists i|by left].
  - destruct (bool_decide _); [|apply emits_ret; split; by left].
    eapply emits_bind; [apply emits_draw_chars; by repeat constructor|intros code Hcode].
    apply emits_ret. split; [by left|]. intros Hc. right. exists code. by split; [|apply Hcode].
Qed.

Lemma emits_handleShareFile : emits handleShareFile anything.
Proof.
  apply emits_needLogin. intros u n. apply emits_try; [|intros e; emits].
  do 4 (eapply (emits_bind _ _ anything); [emits|intros ? _]).
  eapply emits_bind; [apply emits_result; auto using harmless_own_check|intros result _].
  destruct (first_row result); [|emits]. case_bool_decide; [emits; auto using harmless_delete_shares|].
  eapply emits_bind; [apply emits_expire_sql|intros expire He].
  eapply emits_bind; [apply emits_draw_chars; by repeat constructor|intros code Hcode].
  eapply emits_bind; [apply emits_share_target|intros [[with_id extract]|] Ht]; [|emits].
  destruct Ht as [Hw Hx]. eapply emits_bind; [apply emits_escape|intros t Ht].
  eapply emits_bind; [apply emits_escape|intros c Hc].
  eapply emits_bind; [apply emits_query; auto using harmless_share_insert|intros ok _]. emits.
Qed.

Lemma emits_handleShareAccess : emits handleShareAccess anything.
Proof. emits; auto using harmless_share_access. Qed.
Lemma emits_handleShareInfo : emits handleShareInfo anything.
Proof. emits; auto using harmless_share_info. Qed.

(** *** The dispatcher *)

Lemma emits_run_handler h : emits (run_handler h) anything.
Proof.
  destruct h; cbn [run_handler]; [emits|..|apply emits_handleLogout].
  - apply emits_handleRegister.
  - apply emits_handleLogin.
  - emits.
  - apply emits_handleShareAccess.
  - apply emits_handleShareDownload.
  - apply emits_handleShareInfo.
  - apply emits_handleFileUpload.
  - apply emits_handleListFiles.
  - apply emits_handleDownload.
  - apply emits_handleDelete.
  - apply emits_handleShareFile.
  - apply emits_handleSearchUsers.
Qed.
Hint Resolve emits_run_handler : emits.

Lemma emits_onRequest : emits onRequest anything.
Proof.
  unfold onRequest. apply emits_try; [|intros e; emits].
  eapply emits_bind; [apply emits_get|intros w _]. destruct (findRoute _ _ _) as [[h ps]|]; emits.
Qed.

End emits.

(** From any state, whatever the request: the statements it sends read as the
    program's own, and none is sent without a connection. *)
Lemma onRequest_harmless `{Platform} w : escapes ->
  exists new, w_sql (onRequest w).2 = w_sql w ++ new /\ Forall harmless new /\ (w_mysql w = false -> new = []).
Proof.
  intros He. destruct (emits_onRequest He (w_mysql w) (w_sql w) w) as [[_ Hs] _]; [|done].
  split; [done|]. exists []. by rewrite app_nil_r.
Qed.

(** ** An escaping function that keeps the promise

    As MySQL's documentation describes it. *)
Definition backslashed (c : ascii) : option ascii :=
  if bool_decide (c = "'"%char) then Some c
  else if bool_decide (c = chr 34) then Some c
  else if bool_decide (c = chr 92) then Some c
  else if bool_decide (c = chr 0) then Some "0"%char
  else if bool_decide (c = chr 10) then Some "n"%char
  else if bool_decide (c = chr 13) then Some "r"%char
  else if bool_decide (c = chr 26) then Some "Z"%char
  else None.

Definition mysql_escape (s : bytes) : bytes :=
  flat_map (fun c => match backslashed c with Some d => [chr 92; d] | None => [c] end) s.

Lemma mysql_escape_quotable s : quotable (mysql_escape s).
Proof.
  induction s as [|c s [IH1 IH2]]; [done|]. unfold mysql_escape. cbn [flat_map]. fold (mysql_escape s).
  unfold quotable. rewrite lex_end_app, lex_text_app.
  destruct (backslashed c) as [d|] eqn:E.
  - assert (lex_end Inside [chr 92; d] = Inside /\ lex_text Inside [chr 92; d] = []) as [-> ->] by done.
    by rewrite IH1, IH2.
  - unfold backslashed in E. repeat case_bool_decide; try done.
    assert (quotable [c]) as [-> ->]; [|by rewrite IH1, IH2].
    apply calm_quotable. constructor; [|done]. unfold calm. by rewrite !bool_decide_false.
Qed.

Lemma mysql_escape_no_nul s : chr 0 ∉ mysql_escape s.
Proof.
  unfold mysql_escape. induction s as [|c s IH]; cbn [flat_map]; [apply not_elem_of_nil|].
  rewrite elem_of_app. intros [Hc|Hc]; [|done]. unfold backslashed in Hc.
  repeat (case_bool_decide; [set_solver|]). set_solver.
Qed.
