(* ===== verification/EventLoop.v ===== *)
(** * The event loop (network/EventLoop)

    The pending functors of a loop, its wake-ups, and its turns.  A functor is
    given by an identity; [run_functor] says what running it does: the functors
    it queues, in order, and whether it asks the loop to quit. *)

From S2P Require Import Prelude Channel.

Module EventLoop.
Section loop.
Context {F : Type}.
Variable run_functor : F -> list F * bool.

Record t := mk {
  quit_ : bool;
  eventHandling_ : bool;
  callingPendingFunctors_ : bool;
  pendingFunctors_ : list F;
  wakeups : nat;              (* the counter of the eventfd *)
  executed : list F           (* the functors run so far, oldest first *)
}.

Definition create : t := mk false false false [] 0 [].

Definition set_quit (l : t) (q : bool) : t :=
  mk q (eventHandling_ l) (callingPendingFunctors_ l) (pendingFunctors_ l) (wakeups l) (executed l).
Definition set_handling (l : t) (b : bool) : t :=
  mk (quit_ l) b (callingPendingFunctors_ l) (pendingFunctors_ l) (wakeups l) (executed l).
Definition set_calling (l : t) (b : bool) : t :=
  mk (quit_ l) (eventHandling_ l) b (pendingFunctors_ l) (wakeups l) (executed l).
Definition set_pending (l : t) (p : list F) : t :=
  mk (quit_ l) (eventHandling_ l) (callingPendingFunctors_ l) p (wakeups l) (executed l).

(** [wakeup] adds one to the eventfd; [handleRead] reads it back to 0. *)
Definition wakeup (l : t) : t :=
  mk (quit_ l) (eventHandling_ l) (callingPendingFunctors_ l) (pendingFunctors_ l) (S (wakeups l))
     (executed l).
Definition handleRead (l : t) : t :=
  mk (quit_ l) (eventHandling_ l) (callingPendingFunctors_ l) (pendingFunctors_ l) 0 (executed l).

(** [queueInLoop], from the loop's thread or from another one. *)
Definition queueInLoop (inLoopThread : bool) (cb : F) (l : t) : t :=
  let l := set_pending l (pendingFunctors_ l ++ [cb]) in
  if negb inLoopThread || callingPendingFunctors_ l then wakeup l else l.

(** Calling a functor, in the loop's thread. *)
Definition call (cb : F) (l : t) : t :=
  let l := mk (quit_ l) (eventHandling_ l) (callingPendingFunctors_ l) (pendingFunctors_ l)
              (wakeups l) (executed l ++ [cb]) in
  let '(queued, quits) := run_functor cb in
  let l := foldl (fun l f => queueInLoop true f l) l queued in
  if quits then set_quit l true else l.

Definition runInLoop (inLoopThread : bool) (cb : F) (l : t) : t :=
  if inLoopThread then call cb l else queueInLoop false cb l.

Definition quit (inLoopThread : bool) (l : t) : t :=
  let l := set_quit l true in if inLoopThread then l else wakeup l.

(** [doPendingFunctors]: the functors present at the swap, and only those. *)
Definition doPendingFunctors (l : t) : t :=
  let functors := pendingFunctors_ l in
  let l := set_pending (set_calling l true) [] in
  set_calling (foldl (fun l f => call f l) l functors) false.

(** One turn of [loop]: [handlers] are the event handlers of the channels the
    poller reported; [woken] when the wake-up channel is one of them. *)
Definition turn (handlers : list F) (woken : bool) (l : t) : t :=
  let l := set_handling l true in
  let l := if woken then handleRead l else l in
  let l := foldl (fun l f => call f l) l handlers in
  doPendingFunctors (set_handling l false).

(** The turns of [loop], until [quit_] is seen. *)
Fixpoint turns (ts : list (list F * bool)) (l : t) : t :=
  match ts with
  | [] => l
  | (handlers, woken) :: ts' => if quit_ l then l else turns ts' (turn handlers woken l)
  end.

(** [loop]; the thread that calls it and [looping_] are in [LoopObject]. *)
Definition loop (ts : list (list F * bool)) (l : t) : t := turns ts (set_quit l false).

(** ** Facts *)

(** What the functors of a list queue. *)
Definition queued_by (fs : list F) : list F := flat_map (fun f => (run_functor f).1) fs.

Lemma queue_all (fs : list F) : forall l,
  pendingFunctors_ (foldl (fun l f => queueInLoop true f l) l fs) = pendingFunctors_ l ++ fs /\
  executed (foldl (fun l f => queueInLoop true f l) l fs) = executed l /\
  callingPendingFunctors_ (foldl (fun l f => queueInLoop true f l) l fs) = callingPendingFunctors_ l /\
  wakeups (foldl (fun l f => queueInLoop true f l) l fs) =
    (if callingPendingFunctors_ l then wakeups l + length fs else wakeups l).
Proof.
  induction fs as [|f fs IH]; intros l; cbn [foldl].
  - rewrite app_nil_r, Nat.add_0_r. by destruct (callingPendingFunctors_ l).
  - destruct (IH (queueInLoop true f l)) as (-> & -> & -> & ->). unfold queueInLoop. simpl.
    destruct (callingPendingFunctors_ l) eqn:Ec; simpl; rewrite ?Ec, <- app_assoc; repeat split; lia.
Qed.

Lemma call_spec f l :
  pendingFunctors_ (call f l) = pendingFunctors_ l ++ (run_functor f).1 /\
  executed (call f l) = executed l ++ [f] /\
  callingPendingFunctors_ (call f l) = callingPendingFunctors_ l /\
  wakeups (call f l) =
    (if callingPendingFunctors_ l then wakeups l + length (run_functor f).1 else wakeups l).
Proof.
  unfold call. destruct (run_functor f) as [queued quits]. cbn [fst].
  set (l1 := mk _ _ _ _ _ _). destruct (queue_all queued l1) as (E1 & E2 & E3 & E4).
  destruct quits; simpl; by rewrite E1, E2, E3, E4.
Qed.

Lemma call_all fs : forall l,
  pendingFunctors_ (foldl (fun l f => call f l) l fs) = pendingFunctors_ l ++ queued_by fs /\
  executed (foldl (fun l f => call f l) l fs) = executed l ++ fs /\
  callingPendingFunctors_ (foldl (fun l f => call f l) l fs) = callingPendingFunctors_ l /\
  wakeups (foldl (fun l f => call f l) l fs) =
    (if callingPendingFunctors_ l then wakeups l + length (queued_by fs) else wakeups l).
Proof.
  induction fs as [|f fs IH]; intros l; cbn [foldl].
  - rewrite !app_nil_r, Nat.add_0_r. by destruct (callingPendingFunctors_ l).
  - destruct (IH (call f l)) as (-> & -> & -> & ->).
    destruct (call_spec f l) as (-> & -> & -> & ->). unfold queued_by. cbn [flat_map].
    rewrite <- !app_assoc, length_app. destruct (callingPendingFunctors_ l); repeat split; lia.
Qed.

(** [doPendingFunctors] runs the functors that were pending, in the order they
    were queued; those they queue wait for the next turn, and the loop has been
    woken for them. *)
Lemma doPendingFunctors_spec l :
  executed (doPendingFunctors l) = executed l ++ pendingFunctors_ l /\
  pendingFunctors_ (doPendingFunctors l) = queued_by (pendingFunctors_ l) /\
  wakeups (doPendingFunctors l) = wakeups l + length (queued_by (pendingFunctors_ l)) /\
  callingPendingFunctors_ (doPendingFunctors l) = false.
Proof.
  unfold doPendingFunctors.
  destruct (call_all (pendingFunctors_ l) (set_pending (set_calling l true) [])) as (E1 & E2 & _ & E4).
  simpl in *. by rewrite E1, E2, E4.
Qed.

(** Between two turns, a loop with work has a wake-up pending: the next poll
    returns at once. *)
Definition prompt (l : t) : Prop :=
  callingPendingFunctors_ l = false /\ (pendingFunctors_ l <> [] -> 0 < wakeups l).

Lemma turn_prompt handlers woken l :
  callingPendingFunctors_ l = false -> prompt (turn handlers woken l).
Proof.
  intros Hc. unfold turn. set (l1 := if woken then _ else _). set (l2 := foldl _ l1 handlers).
  destruct (doPendingFunctors_spec (set_handling l2 false)) as (_ & E2 & E3 & E4).
  split; [done|]. rewrite E2, E3. intros Hne. destruct (queued_by _); [done|]. simpl. lia.
Qed.

Lemma queue_from_outside_prompt f l : prompt l -> prompt (queueInLoop false f l).
Proof. intros [Hc Hp]. unfold queueInLoop. simpl. split; [done|]. intros _. simpl. lia. Qed.

(** Every functor pending before a turn has run after it, first those of the
    handlers' batch. *)
Lemma turn_runs handlers woken l :
  executed (turn handlers woken l) =
    executed l ++ handlers ++ pendingFunctors_ l ++ queued_by handlers.
Proof.
  unfold turn. set (l1 := if woken then _ else _).
  destruct (call_all handlers l1) as (E1 & E2 & _ & _).
  destruct (doPendingFunctors_spec (set_handling (foldl (fun l f => call f l) l1 handlers) false))
    as (-> & _). simpl. rewrite E1, E2. unfold l1. rewrite <- app_assoc. by destruct woken.
Qed.

End loop.
Arguments t : clear implicits.
End EventLoop.
