(* ===== verification/LoopObject.v ===== *)
(** * The loop as an object (network/EventLoop, network/TimerQueue)

    The loop of [EventLoop] with its thread, its poller and its timers: the
    checks that keep other threads out, the constructor and the destructor, and
    the timers that any thread may add and cancel.  [me] is the thread that
    makes a call; [None] is an abort, which a failed [assert] and a call from the
    wrong thread both are. *)

From S2P Require Import Prelude CxxString TimeStamp Channel Poller TimerQueue TimerFacts EventLoop.
From Stdlib Require Import SpecFloat.
Import TimerQueue.

Module LoopObject.
Section loop.
Context {P : Type} `{Poller P} {F : Type}.

(** A functor is the user's, or the part of [addTimer] or [cancel] that runs in
    the loop. *)
Inductive functor := FUser (f : F) | FAddTimer (a : Z) | FCancelTimer (a seq : Z).

(** What the user's code does with the loop, in its thread. *)
Inductive action :=
  | AQueue (f : F) | AQuit
  | AAddTimer (a : Z) (tm : Timer) | ACancelTimer (a seq : Z)
  | AUpdate (id : nat) (events : Z) | ARemove (id : nat).

(** The user's code: of a functor, of a timer, and of a channel with the events
    it got. *)
Record user := mkUser {
  on_functor : F -> list action;
  on_timer : Timer -> list action;
  on_event : nat -> Z -> list action
}.
Variable u : user.

Record t := mk {
  core : EventLoop.t functor;
  looping_ : bool;
  threadId_ : Z;
  pollReturnTime_ : TimeStamp.t;
  poller_ : P;
  timerQueue_ : TimerQueue.t;
  wakeupChannel_ : nat;
  timerfdChannel_ : nat;
  currentActiveChannel_ : option nat;
  activeChannels_ : list nat
}.

Definition set_core (l : t) (c : EventLoop.t functor) : t :=
  mk c (looping_ l) (threadId_ l) (pollReturnTime_ l) (poller_ l) (timerQueue_ l) (wakeupChannel_ l)
     (timerfdChannel_ l) (currentActiveChannel_ l) (activeChannels_ l).
Definition set_looping (l : t) (b : bool) : t :=
  mk (core l) b (threadId_ l) (pollReturnTime_ l) (poller_ l) (timerQueue_ l) (wakeupChannel_ l)
     (timerfdChannel_ l) (currentActiveChannel_ l) (activeChannels_ l).
Definition set_poller (l : t) (p : P) : t :=
  mk (core l) (looping_ l) (threadId_ l) (pollReturnTime_ l) p (timerQueue_ l) (wakeupChannel_ l)
     (timerfdChannel_ l) (currentActiveChannel_ l) (activeChannels_ l).
Definition set_timers (l : t) (q : TimerQueue.t) : t :=
  mk (core l) (looping_ l) (threadId_ l) (pollReturnTime_ l) (poller_ l) q (wakeupChannel_ l)
     (timerfdChannel_ l) (currentActiveChannel_ l) (activeChannels_ l).
Definition set_polled (l : t) (now : TimeStamp.t) (active : list nat) : t :=
  mk (core l) (looping_ l) (threadId_ l) now (poller_ l) (timerQueue_ l) (wakeupChannel_ l)
     (timerfdChannel_ l) (currentActiveChannel_ l) active.
Definition set_current (l : t) (c : option nat) : t :=
  mk (core l) (looping_ l) (threadId_ l) (pollReturnTime_ l) (poller_ l) (timerQueue_ l) (wakeupChannel_ l)
     (timerfdChannel_ l) c (activeChannels_ l).

(** ** Threads *)

Definition isInLoopThread (me : Z) (l : t) : bool := bool_decide (threadId_ l = me).

(** [assertInLoopThread]: [abortNotInLoopThread] logs at the level that aborts. *)
Definition assertInLoopThread (me : Z) (l : t) : option unit :=
  if isInLoopThread me l then Some tt else None.

Definition queueInLoop (me : Z) (f : functor) (l : t) : t :=
  set_core l (EventLoop.queueInLoop (isInLoopThread me l) f (core l)).

Definition quit (me : Z) (l : t) : t := set_core l (EventLoop.quit (isInLoopThread me l) (core l)).

(** ** Timers *)

Definition addTimerInLoop (me : Z) (a : Z) (l : t) : option t :=
  _ ← assertInLoopThread me l;
  q ← TimerQueue.addTimerInLoop (timerQueue_ l) a;
  Some (set_timers l q).

Definition cancelInLoop (me : Z) (a seq : Z) (l : t) : option t :=
  _ ← assertInLoopThread me l;
  q ← TimerQueue.cancelInLoop (timerQueue_ l) a seq;
  Some (set_timers l q).

(** [TimerQueue::addTimer]: the timer is made at [a], and put into the queue at
    once in the loop's thread, through a functor from any other. *)
Definition addTimer (me : Z) (a : Z) (tm : Timer) (l : t) : option t :=
  let q := timerQueue_ l in
  let l := set_timers l (set_heap q (<[a := tm]> (timers_heap q))) in
  if isInLoopThread me l then addTimerInLoop me a l else Some (queueInLoop me (FAddTimer a) l).

Definition cancel (me : Z) (a seq : Z) (l : t) : option t :=
  if isInLoopThread me l then cancelInLoop me a seq l else Some (queueInLoop me (FCancelTimer a seq) l).

(** [seq] is the next sequence number.  An interval that is not positive, or is
    no number, does not repeat. *)
Definition runAt (me : Z) (time : TimeStamp.t) (a seq : Z) (l : t) : option t :=
  addTimer me a (mkTimer time 0 false seq) l.

Definition runAfter (me : Z) (now : TimeStamp.t) (delay : TimeStamp.double) (a seq : Z) (l : t) : option t :=
  time ← TimeStamp.addSeconds now delay;
  runAt me time a seq l.

Definition runEvery (me : Z) (now : TimeStamp.t) (interval : TimeStamp.double) (a seq : Z) (l : t) : option t :=
  time ← TimeStamp.addSeconds now interval;
  micros ← TimeStamp.micros_of interval;
  addTimer me a (mkTimer time micros (SFltb (S754_zero false) interval) seq) l.

(** ** Channels *)

Definition updateChannel (me : Z) (id : nat) (l : t) : option t :=
  _ ← assertInLoopThread me l;
  p ← p_update (poller_ l) id;
  Some (set_poller l p).

(** While events are handled, a channel is removed by its own handler or by one
    of a channel that was not active with it. *)
Definition removeChannel (me : Z) (id : nat) (l : t) : option t :=
  _ ← assertInLoopThread me l;
  if EventLoop.eventHandling_ (core l)
     && negb (bool_decide (currentActiveChannel_ l = Some id) || bool_decide (id ∉ activeChannels_ l))
  then None
  else p ← p_remove (poller_ l) id; Some (set_poller l p).

(** The channel's owner changes the events, and the channel calls [updateChannel]. *)
Definition changeEvents (me : Z) (id : nat) (e : Z) (l : t) : option t :=
  c ← p_heap (poller_ l) !! id;
  updateChannel me id (set_poller l (p_set (poller_ l) id (Channel.set_events c e))).

(** ** Turns *)

Definition act (x : action) (l : t) : option t :=
  let me := threadId_ l in
  match x with
  | AQueue f => Some (queueInLoop me (FUser f) l)
  | AQuit => Some (quit me l)
  | AAddTimer a tm => addTimer me a tm l
  | ACancelTimer a seq => cancel me a seq l
  | AUpdate id e => changeEvents me id e l
  | ARemove id => removeChannel me id l
  end.

Fixpoint acts (xs : list action) (l : t) : option t :=
  match xs with [] => Some l | x :: xs' => l' ← act x l; acts xs' l' end.

Definition runFunctor (f : functor) (l : t) : option t :=
  match f with
  | FUser f => acts (on_functor u f) l
  | FAddTimer a => addTimerInLoop (threadId_ l) a l
  | FCancelTimer a seq => cancelInLoop (threadId_ l) a seq l
  end.

Fixpoint runFunctors (fs : list functor) (l : t) : option t :=
  match fs with [] => Some l | f :: fs' => l' ← runFunctor f l; runFunctors fs' l' end.

Definition doPendingFunctors (l : t) : option t :=
  let functors := EventLoop.pendingFunctors_ (core l) in
  let l := set_core l (EventLoop.set_pending (EventLoop.set_calling (core l) true) []) in
  l' ← runFunctors functors l;
  Some (set_core l' (EventLoop.set_calling (core l') false)).

(** What a timer's function does to the timers, and what else. *)
Definition timer_part (x : action) : option command :=
  match x with AAddTimer a tm => Some (CAdd a tm) | ACancelTimer a seq => Some (CCancel a seq) | _ => None end.
Definition loop_part (x : action) : bool := if timer_part x is Some _ then false else true.

(** [TimerQueue::handleRead], in the loop's thread.  What the functions do to the
    timers and what they do to the rest of the loop does not meet. *)
Definition timersExpire (now : TimeStamp.t) (l : t) : option t :=
  '(ids, q) ← TimerQueue.handleRead (timerQueue_ l) (fun tm => omap timer_part (on_timer u tm)) now;
  tms ← mapM (fun a => timers_heap (timerQueue_ l) !! a) ids;
  acts (List.filter loop_part (flat_map (on_timer u) tms)) (set_timers l q).

(** The events of a channel; the wake-up channel reads its counter. *)
Definition handleEvent (now : TimeStamp.t) (id : nat) (revents : Z) (l : t) : option t :=
  if bool_decide (id = wakeupChannel_ l) then Some (set_core l (EventLoop.handleRead (core l)))
  else if bool_decide (id = timerfdChannel_ l) then timersExpire now l
  else acts (on_event u id revents) l.

Fixpoint handleEvents (now : TimeStamp.t) (active : list (nat * Z)) (l : t) : option t :=
  match active with
  | [] => Some l
  | (id, r) :: active' => l' ← handleEvent now id r (set_current l (Some id)); handleEvents now active' l'
  end.

(** One turn of [loop]: the kernel has the events [ready]. *)
Definition turn (now : TimeStamp.t) (ready : list (Z * Z)) (l : t) : option t :=
  '(active, p) ← p_poll (poller_ l) ready;
  let l := set_polled (set_poller l p) now active.*1 in
  let l := set_core l (EventLoop.set_handling (core l) true) in
  l' ← handleEvents now active l;
  let l' := set_current l' None in
  doPendingFunctors (set_core l' (EventLoop.set_handling (core l') false)).

Fixpoint turns (ps : list (TimeStamp.t * list (Z * Z))) (l : t) : option t :=
  match ps with
  | [] => Some l
  | (now, ready) :: ps' =>
      if EventLoop.quit_ (core l) then Some l else l' ← turn now ready l; turns ps' l'
  end.

(** [loop], until [quit_] is seen or the polls [ps] are used up. *)
Definition loop (me : Z) (ps : list (TimeStamp.t * list (Z * Z))) (l : t) : option t :=
  if looping_ l then None
  else
    _ ← assertInLoopThread me l;
    l' ← turns ps (set_core (set_looping l true) (EventLoop.set_quit (core l) false));
    Some (set_looping l' false).

(** ** Construction and destruction *)

(** [t_loopInThisThread] of every thread: the loop it made. *)
Abbreviation loops := (gmap Z nat).

Definition getEventLoopOfCurrentThread (tls : loops) (me : Z) : option nat := tls !! me.

(** The constructor; the second loop of a thread aborts.  The channels [timer]
    and [wake] were made in [heap]. *)
Definition create (tls : loops) (me : Z) (self : nat) (heap : gmap nat Channel.t) (wake timer : nat) :
    option (t * loops) :=
  p ← impl_step (p_create heap) (Change timer Channel.kReadEvent);
  match tls !! me with
  | Some _ => None
  | None =>
      p' ← impl_step p (Change wake Channel.kReadEvent);
      Some (mk EventLoop.create false me TimeStamp.default p' TimerQueue.create wake timer None [], <[me := self]> tls)
  end.

(** The destructor, and those of the members: the wake-up channel, then the
    channel of the timers, leave the poller. *)
Definition removeOwn (me : Z) (id : nat) (l : t) : option t :=
  l' ← changeEvents me id Channel.kNoneEvent l; removeChannel me id l'.

Definition destroy (tls : loops) (me : Z) (l : t) : option (t * loops) :=
  l1 ← removeOwn me (wakeupChannel_ l) l;
  l2 ← removeOwn me (timerfdChannel_ l) l1;
  Some (l2, delete me tls).

(** ** Timers from any thread *)

Inductive call := TAdd (me a : Z) (tm : Timer) | TCancel (me a seq : Z) | TQueue (me : Z) (f : F) | TRun.

Definition exec (c : call) (l : t) : option t :=
  match c with
  | TAdd me a tm => addTimer me a tm l
  | TCancel me a seq => cancel me a seq l
  | TQueue me f => Some (queueInLoop me (FUser f) l)
  | TRun => doPendingFunctors l
  end.

Fixpoint run (cs : list call) (l : t) : option t :=
  match cs with [] => Some l | c :: cs' => l' ← exec c l; run cs' l' end.

(** [new] gives an address that is not in use. *)
Definition fits (c : call) (l : t) : Prop :=
  match c with TAdd _ a _ => timers_heap (timerQueue_ l) !! a = None /\ (a < UINTPTR_MAX)%Z | _ => True end.
Fixpoint calls_fit (cs : list call) (l : t) : Prop :=
  match cs with [] => True | c :: cs' => fits c l /\ forall l', exec c l = Some l' -> calls_fit cs' l' end.

Definition added (cs : list call) : list Z := omap (fun c => match c with TAdd _ a _ => Some a | _ => None end) cs.
Definition cancelled (cs : list call) : list Z := omap (fun c => match c with TCancel _ a _ => Some a | _ => None end) cs.

(** The timers that functors will put in, or take out. *)
Definition adds (fs : list functor) : list Z := omap (fun f => match f with FAddTimer a => Some a | _ => None end) fs.
Definition cancels (fs : list functor) : list Z :=
  omap (fun f => match f with FCancelTimer a _ => Some a | _ => None end) fs.

Abbreviation pending l := (EventLoop.pendingFunctors_ (core l)).
Abbreviation queued l := ((timers_ (timerQueue_ l)).*2).

Definition awaits (q : TimerQueue.t) (a : Z) : Prop :=
  (a < UINTPTR_MAX)%Z /\ is_Some (timers_heap q !! a) /\ a ∉ (timers_ q).*2.

Record sound (fs : list functor) (l : t) : Prop := {
  so_wf : wf (timerQueue_ l);
  so_calm : callingExpiredTimers_ (timerQueue_ l) = false;
  so_once : NoDup (adds (fs ++ pending l));
  so_adds : Forall (awaits (timerQueue_ l)) (adds (fs ++ pending l))
}.

Definition harmless (x : action) : Prop := match x with AQueue _ | AQuit => True | _ => False end.

Lemma adds_app fs fs' : adds (fs ++ fs') = adds fs ++ adds fs'.
Proof. apply omap_app. Qed.
Lemma cancels_app fs fs' : cancels (fs ++ fs') = cancels fs ++ cancels fs'.
Proof. apply omap_app. Qed.

Lemma pending_queue me f l : pending (queueInLoop me f l) = pending l ++ [f].
Proof. unfold queueInLoop, EventLoop.queueInLoop. cbn. by destruct (_ || _). Qed.
Lemma pending_quit me l : pending (quit me l) = pending l.
Proof. unfold quit, EventLoop.quit. cbn. by destruct (isInLoopThread me l). Qed.

(** The loop's state but for [quit_], wake-ups and functors that are neither
    additions nor cancellations. *)
Record same (l l' : t) : Prop := {
  sa_timers : timerQueue_ l' = timerQueue_ l;
  sa_thread : threadId_ l' = threadId_ l;
  sa_adds : adds (pending l') = adds (pending l);
  sa_cancels : cancels (pending l') = cancels (pending l)
}.

Lemma acts_harmless xs : forall l, Forall harmless xs -> exists l', acts xs l = Some l' /\ same l l'.
Proof.
  induction xs as [|x xs IH]; intros l Hx; [by exists l|]. apply Forall_cons in Hx as [Hx Hxs].
  cbn [acts]. assert (exists l1, act x l = Some l1 /\ same l l1) as (l1 & -> & [E1 E2 E3 E4]).
  { destruct x; try done; eexists; (split; [reflexivity|]); split; try done.
    1,2: rewrite pending_queue, ?adds_app, ?cancels_app; apply app_nil_r.
    1,2: by rewrite pending_quit. }
  destruct (IH l1 Hxs) as (l' & E & [F1 F2 F3 F4]). exists l'. split; [done|]. split; congruence.
Qed.

Lemma sound_same fs l l' : same l l' -> sound fs l -> sound fs l'.
Proof. intros [E1 E2 E3 E4] [? ? ? ?]. split; rewrite ?adds_app, ?E1, ?E3, <- ?adds_app; done. Qed.

(** An addition takes effect. *)
Lemma add_sound a fs l : sound (FAddTimer a :: fs) l -> exists l',
  addTimerInLoop (threadId_ l) a l = Some l' /\ sound fs l' /\ threadId_ l' = threadId_ l /\ pending l' = pending l /\
  queued l' ≡ₚ a :: queued l.
Proof.
  intros [Hw Hc Hn Ha]. apply NoDup_cons in Hn as [Hna Hn]. apply Forall_cons in Ha as [(Hlt & [tm Htm] & Hq) Ha].
  destruct (insert_wf _ a tm Hw Htm Hq Hlt) as (q & es & E & Eq & Hwq & Hp).
  assert (timers_heap q = timers_heap (timerQueue_ l) /\ callingExpiredTimers_ q = false /\ timers_ q = es) as (Eh & Ec & Et)
    by (by rewrite Eq).
  unfold addTimerInLoop, assertInLoopThread, isInLoopThread. rewrite bool_decide_true by done. cbn [mbind option_bind].
  unfold TimerQueue.addTimerInLoop. rewrite E. cbn [mbind option_bind]. rewrite Eh, Htm. cbn [mbind option_bind].
  eexists. split; [reflexivity|]. match goal with |- context [set_timers l ?x] => set (q' := x) end.
  assert (wf q' /\ timers_heap q' = timers_heap (timerQueue_ l) /\ callingExpiredTimers_ q' = false /\ timers_ q' = es)
    as (Hw' & Eh' & Ec' & Et') by (unfold q'; match goal with |- context [if ?b then _ else _] => destruct b end; [by destruct Hwq|done]).
  clearbody q'. assert (queued (set_timers l q') ≡ₚ a :: queued l) as Hperm by (cbn; by rewrite Et', Hp).
  split; [|done]. split; cbn; [done..|].
  change (Forall (awaits q') (adds (fs ++ pending l))). rewrite Forall_forall in Ha |- *. intros x Hx.
  destruct (Ha x Hx) as (Hx1 & Hx2 & Hx3). split; [done|]. rewrite Eh'. split; [done|].
  cbn in Hperm. rewrite Hperm. intros [->|?]%elem_of_cons; [by apply Hna|done].
Qed.

(** A cancellation takes out the timer, if it is in. *)
Lemma cancel_sound a s fs l : sound fs l -> exists l',
  cancelInLoop (threadId_ l) a s l = Some l' /\ sound fs l' /\ threadId_ l' = threadId_ l /\ pending l' = pending l /\
  forall x, (x ∈ queued l' -> x ∈ queued l) /\ (x ∈ queued l -> x <> a -> x ∈ queued l').
Proof.
  intros [Hw Hc Hn Ha]. unfold cancelInLoop, assertInLoopThread, isInLoopThread.
  rewrite bool_decide_true by done. cbn [mbind option_bind].
  destruct (decide (s = seq_at (timers_heap (timerQueue_ l)) a /\ a ∈ queued l)) as [[-> Hin]|Hout].
  - destruct (cancel_active _ a Hw Hin) as (q & w & -> & Hwq & Hp & Hna & Hh & _ & Hcq & _). cbn [mbind option_bind].
    eexists. split; [reflexivity|]. assert (queued l ≡ₚ a :: queued (set_timers l q)) as Hperm by (cbn; by rewrite <- Hp).
    split; [|split; [done|]; split; [done|]; intros x; rewrite Hperm, elem_of_cons; naive_solver].
    split; cbn; [done|by rewrite Hcq|done|].
    rewrite Forall_forall in Ha |- *. intros x Hx. destruct (Ha x Hx) as (Hx1 & Hx2 & Hx3). split; [done|].
    rewrite Hh, lookup_delete_ne by (by intros ->). split; [done|]. intros Hx4. apply Hx3. rewrite Hperm. by right.
  - rewrite cancel_inactive by (try done; destruct (decide (s = seq_at (timers_heap (timerQueue_ l)) a)); naive_solver).
    rewrite Hc. cbn [mbind option_bind]. eexists. split; [reflexivity|]. by destruct l.
Qed.

(** What a run of functors does to the queue: [A] may come in, [C] may go out. *)
Record effect (A C : list Z) (l l' : t) : Prop := {
  ef_thread : threadId_ l' = threadId_ l;
  ef_adds : adds (pending l') = adds (pending l);
  ef_cancels : cancels (pending l') = cancels (pending l);
  ef_in x : x ∈ queued l' -> x ∈ queued l \/ x ∈ A;
  ef_kept x : x ∈ queued l \/ x ∈ A -> x ∉ C -> x ∈ queued l'
}.

Section quiet.
Hypothesis quiet : forall f, Forall harmless (on_functor u f).

Lemma runFunctor_sound f fs l : sound (f :: fs) l ->
  exists l', runFunctor f l = Some l' /\ sound fs l' /\ effect (adds [f]) (cancels [f]) l l'.
Proof.
  intros Hs. destruct f as [f|a|a s]; cbn [runFunctor].
  - destruct (acts_harmless _ l (quiet f)) as (l' & E & Hl). exists l'. split; [done|].
    split; [apply (sound_same fs l); [done|by destruct Hs]|]. destruct Hl as [E1 E2 E3 E4].
    split; rewrite ?E1; try done; intros x; [by left|by intros [?|?%not_elem_of_nil] _].
  - destruct (add_sound a fs l Hs) as (l' & E & Hl & Et & Ep & Hp). exists l'. split; [done|]. split; [done|].
    split; rewrite ?Ep; try done; intros x; rewrite Hp, elem_of_cons; cbn; rewrite list_elem_of_singleton; naive_solver.
  - destruct (cancel_sound a s fs l) as (l' & E & Hl & Et & Ep & Hp); [by destruct Hs|].
    exists l'. split; [done|]. split; [done|]. split; rewrite ?Ep; try done; intros x.
    + intros Hx. left. by apply Hp.
    + cbn. rewrite list_elem_of_singleton. intros [Hx|Hx%not_elem_of_nil] Hne; [by apply Hp|done].
Qed.

Lemma runFunctors_sound fs : forall l, sound fs l ->
  exists l', runFunctors fs l = Some l' /\ sound [] l' /\ effect (adds fs) (cancels fs) l l'.
Proof.
  induction fs as [|f fs IH]; intros l Hs.
  - exists l. split; [done|]. split; [done|]. split; try done; [by left|by intros x [?|?%not_elem_of_nil] _].
  - cbn [runFunctors]. destruct (runFunctor_sound f fs l Hs) as (l1 & -> & Hs1 & [F1 F2 F3 F4 F5]).
    destruct (IH l1 Hs1) as (l' & E & Hs' & [G1 G2 G3 G4 G5]). exists l'. split; [done|]. split; [done|].
    change (f :: fs) with ([f] ++ fs). rewrite adds_app, cancels_app. split; [congruence..| |].
    + intros x [Hx|Hx]%G4; [destruct (F4 x Hx)|]; rewrite elem_of_app; auto.
    + intros x Hx [Hc1 Hc2]%not_elem_of_app. apply G5; [|done]. rewrite elem_of_app in Hx.
      destruct Hx as [Hx|[Hx|Hx]]; [left; apply F5; auto..|by right].
Qed.

(** ** Runs *)

(** [A] are the timers added so far, [C] those that somebody cancels. *)
Record tracked (A C : list Z) (l : t) : Prop := {
  tr_sound : sound [] l;
  tr_added x : x ∈ queued l \/ x ∈ adds (pending l) -> x ∈ A;
  tr_kept x : x ∈ A -> x ∉ C -> x ∈ queued l \/ x ∈ adds (pending l);
  tr_cancels x : x ∈ cancels (pending l) -> x ∈ C
}.

Lemma pending_tracked A C l : tracked A C l ->
  exists l', doPendingFunctors l = Some l' /\ tracked A C l' /\ adds (pending l') = [] /\ threadId_ l' = threadId_ l.
Proof.
  intros [[Hw Hc Hn Ha] Hadd Hk Hcn]. unfold doPendingFunctors. set (l0 := set_core l _).
  assert (sound (pending l) l0) as Hs0 by (split; cbn; rewrite ?app_nil_r; done).
  destruct (runFunctors_sound _ l0 Hs0) as (l1 & -> & Hs1 & [F1 F2 F3 F4 F5]). cbn [mbind option_bind].
  set (l2 := set_core l1 _). change (adds (pending l1) = []) in F2. change (cancels (pending l1) = []) in F3.
  assert (pending l2 = pending l1 /\ timerQueue_ l2 = timerQueue_ l1) as [Ep Eq] by done.
  exists l2. split; [done|]. split; [|by rewrite Ep]. split; rewrite ?Ep, ?Eq, ?F2, ?F3.
  - destruct Hs1. by split.
  - intros x [[Hx|Hx]%F4|Hx%not_elem_of_nil]; [..|done]; apply Hadd; auto.
  - intros x HA HC. left. apply F5; [by apply Hk|]. intros Hx%Hcn. done.
  - by intros x ?%not_elem_of_nil.
Qed.

Lemma queue_tracked me f A C l : (forall a, f = FAddTimer a -> False) ->
  (forall a s, f = FCancelTimer a s -> a ∈ C) -> tracked A C l -> tracked A C (queueInLoop me f l).
Proof.
  intros Hf Hfc [Hs Hadd Hk Hcn].
  assert (adds (pending (queueInLoop me f l)) = adds (pending l)) as Ea.
  { rewrite pending_queue, adds_app. destruct f; cbn; try apply app_nil_r. by destruct (Hf a). }
  split; rewrite ?Ea; try done.
  - destruct Hs. split; cbn [app] in *; rewrite ?Ea; done.
  - intros x. rewrite pending_queue, cancels_app, elem_of_app. intros [Hx|Hx]; [by apply Hcn|].
    destruct f; cbn in Hx; [by apply not_elem_of_nil in Hx..|]. apply list_elem_of_singleton in Hx as ->. by eapply Hfc.
Qed.

(** A timer is made, at an address that is not in use. *)
Lemma new_tracked A C a tm l : timers_heap (timerQueue_ l) !! a = None -> tracked A C l ->
  let q := timerQueue_ l in
  tracked A C (set_timers l (set_heap q (<[a := tm]> (timers_heap q)))) /\ (a ∉ queued l) /\ (a ∉ adds (pending l)).
Proof.
  intros Ha [[Hw Hc Hn Hadds] Hadd Hk Hcn] q. rewrite Forall_forall in Hadds.
  assert (a ∉ queued l) as Hq.
  { intros (e & -> & He)%list_elem_of_fmap. pose proof (wf_timers _ Hw) as Ht. rewrite Forall_forall in Ht.
    destruct (Ht e He) as (_ & tm' & E & _). congruence. }
  assert (a ∉ adds (pending l)) as Hp.
  { intros Hx. destruct (Hadds a Hx) as (_ & [? E] & _). congruence. }
  split; [|done]. split; [split|..]; cbn; try done.
  - apply wf_heap; [done|]. intros x Hx. rewrite lookup_insert_ne; [done|]. by intros ->.
  - apply Forall_forall. intros x Hx. destruct (Hadds x Hx) as (H1 & H2 & H3). split; [done|]. split; [|done].
    apply lookup_insert_is_Some'. by right.
Qed.

Lemma tracked_more A A' C C' l : A ⊆ A' -> C ⊆ C' -> (forall x, x ∈ A' -> x ∉ C' -> x ∈ A) ->
  tracked A C l -> tracked A' C' l.
Proof. intros HA HC Hx [Hs Hadd Hk Hcn]. split; [done|..]; auto. Qed.

Lemma addTimer_tracked me a tm A C l : timers_heap (timerQueue_ l) !! a = None -> (a < UINTPTR_MAX)%Z ->
  tracked A C l -> exists l', addTimer me a tm l = Some l' /\ tracked (a :: A) C l'.
Proof.
  intros Ha Hlt Ht. destruct (new_tracked A C a tm l Ha Ht) as ([Hs Hadd Hk Hcn] & Hq & Hp).
  unfold addTimer. set (l1 := set_timers l _) in *.
  change (queued l) with (queued l1) in Hq. change (pending l) with (pending l1) in Hp.
  change (isInLoopThread me l1) with (isInLoopThread me l).
  assert (awaits (timerQueue_ l1) a) as Haw by (split; [done|]; split; [cbn; by rewrite lookup_insert_eq|done]).
  destruct (isInLoopThread me l) eqn:Eth; unfold isInLoopThread in Eth.
  - apply bool_decide_eq_true in Eth as <-.
    destruct (add_sound a [] l1) as (l' & E & Hl & Et & Ep & Hperm).
    { destruct Hs as [Hw Hc Hn Had]. split; [done..|by apply NoDup_cons|by apply Forall_cons]. }
    exists l'. split; [exact E|]. split; rewrite ?Ep; try done; intros x; rewrite Hperm, !elem_of_cons.
    + intros [[->|Hx]|Hx]; [by left|right..]; auto.
    + intros [->|Hx] HC; [by left; left|]. destruct (Hk x Hx HC); auto.
  - eexists. split; [reflexivity|].
    assert (adds (pending (queueInLoop me (FAddTimer a) l1)) = adds (pending l1) ++ [a]) as Ea
      by by rewrite pending_queue, adds_app.
    split; rewrite ?Ea.
    + destruct Hs as [Hw Hc Hn Had]. split; cbn [app] in *; rewrite ?Ea; [done..| |].
      * apply NoDup_app. split; [done|]. split; [|apply NoDup_singleton].
        by intros x Hx ->%list_elem_of_singleton.
      * apply Forall_app. by split; [|constructor].
    + intros x. rewrite elem_of_app, list_elem_of_singleton, elem_of_cons.
      intros [Hx|[Hx| ->]]; [right..|by left]; apply Hadd; auto.
    + intros x. rewrite elem_of_app, list_elem_of_singleton, elem_of_cons.
      intros [->|Hx] HC; [by right; right|]. destruct (Hk x Hx HC); auto.
    + intros x. rewrite pending_queue, cancels_app. cbn. rewrite app_nil_r. apply Hcn.
Qed.

Lemma cancel_tracked me a s A C l : tracked A C l ->
  exists l', cancel me a s l = Some l' /\ tracked A (a :: C) l'.
Proof.
  intros Ht. apply (tracked_more A A C (a :: C)) in Ht; [|done|set_solver|done].
  unfold cancel. destruct (isInLoopThread me l) eqn:Eth.
  - apply bool_decide_eq_true in Eth as <-. destruct Ht as [Hs Hadd Hk Hcn].
    destruct (cancel_sound a s [] l Hs) as (l' & E & Hs' & _ & Ep & Hx). exists l'. split; [exact E|].
    split; rewrite ?Ep; try done.
    + intros x [Hq|Hp]; apply Hadd; [left; by apply Hx|by right].
    + intros x HA [Hne HC]%not_elem_of_cons. destruct (Hk x HA) as [Hq|Hp]; [by apply not_elem_of_cons|left; by apply Hx|by right].
  - eexists. split; [reflexivity|]. apply queue_tracked; [done| |done]. intros b s' [= <- <-]. by left.
Qed.

Lemma exec_tracked c A C l : tracked A C l -> fits c l ->
  exists l', exec c l = Some l' /\ tracked (added [c] ++ A) (cancelled [c] ++ C) l'.
Proof.
  intros Ht Hf. destruct c as [me a tm|me a s|me f|]; cbn [exec].
  - destruct Hf. by apply addTimer_tracked.
  - by apply cancel_tracked.
  - eexists. split; [reflexivity|]. by apply queue_tracked.
  - destruct (pending_tracked A C l Ht) as (l' & E & Ht' & _). by exists l'.
Qed.

Lemma run_tracked cs : forall A C l, tracked A C l -> calls_fit cs l ->
  exists l' A' C', run cs l = Some l' /\ tracked A' C' l' /\
    (forall x, x ∈ A' <-> x ∈ A \/ x ∈ added cs) /\ (forall x, x ∈ C' <-> x ∈ C \/ x ∈ cancelled cs).
Proof.
  induction cs as [|c cs IH]; intros A C l Ht Hf.
  - exists l, A, C. split; [done|]. split; [done|]. cbn. split; intros x; rewrite elem_of_nil; naive_solver.
  - destruct Hf as [Hc Hf]. cbn [run]. destruct (exec_tracked c A C l Ht Hc) as (l1 & E & Ht1).
    destruct (IH _ _ l1 Ht1 (Hf l1 E)) as (l' & A' & C' & E' & Ht' & HA & HC). rewrite E. exists l', A', C'.
    split; [exact E'|]. split; [done|]. change (c :: cs) with ([c] ++ cs). unfold added, cancelled in *.
    rewrite !omap_app. split; intros x; [rewrite HA|rewrite HC]; rewrite !elem_of_app; tauto.
Qed.

(** A new loop has no timers. *)
Lemma create_tracked tls me self heap wake timer l tls' :
  create tls me self heap wake timer = Some (l, tls') -> tracked [] [] l.
Proof.
  unfold create. destruct (impl_step _ _) as [p|]; [|done]. cbn [mbind option_bind].
  destruct (tls !! me); [done|]. destruct (impl_step p _); [|done]. intros [= <- <-].
  split; cbn.
  - split; cbn; [apply queue_wf_create|done|constructor|constructor].
  - by intros x [?%not_elem_of_nil|?%not_elem_of_nil].
  - by intros x ?%not_elem_of_nil.
  - by intros x ?%not_elem_of_nil.
Qed.

End quiet.

End loop.
End LoopObject.
