(* ===== verification/Connector.v ===== *)
(** * Outgoing connections (network/Connector)

    The connector's state machine, its channel, and the doubling delay between
    attempts.  Tasks queued in the loop and timers set with [runAfter] are kept
    in the state; what the system calls answer is an argument. *)

From S2P Require Import Prelude.
From S2P Require Import CxxString.

#[local] Open Scope Z_scope.

Module Connector.

Inductive States := kDisconnected | kConnecting | kConnected.

#[export] Instance States_eq_dec : EqDecision States.
Proof. solve_decision. Defined.

Definition kMaxRetryDelayMs : Z := 30 * 1000.
Definition kInitRetryDelayMs : Z := 500.

Definition EPERM : Z := 1.
Definition EINTR : Z := 4.
Definition EBADF : Z := 9.
Definition EAGAIN : Z := 11.
Definition EACCES : Z := 13.
Definition EFAULT : Z := 14.
Definition ENOTSOCK : Z := 88.
Definition EAFNOSUPPORT : Z := 97.
Definition EADDRINUSE : Z := 98.
Definition EADDRNOTAVAIL : Z := 99.
Definition ENETUNREACH : Z := 101.
Definition EISCONN : Z := 106.
Definition ECONNREFUSED : Z := 111.
Definition EALREADY : Z := 114.
Definition EINPROGRESS : Z := 115.

Inductive task := TStopInLoop | TResetChannel.

#[export] Instance task_eq_dec : EqDecision task.
Proof. solve_decision. Defined.

Record t := mk {
  connect_ : bool;
  state_ : States;
  channel_ : option Z;          (* the descriptor of the channel, if there is one *)
  retryDelayMs_ : Z;
  queue : list task;            (* tasks queued in the loop *)
  timers : list Z;              (* delays of the pending startInLoop timers *)
  closed : list Z;              (* descriptors closed *)
  delivered : list Z            (* descriptors given to newConnectionCallback_ *)
}.

Definition create : t := mk false kDisconnected None kInitRetryDelayMs [] [] [] [].

Definition setState (c : t) (s : States) : t :=
  mk (connect_ c) s (channel_ c) (retryDelayMs_ c) (queue c) (timers c) (closed c) (delivered c).
Definition setConnect (c : t) (b : bool) : t :=
  mk b (state_ c) (channel_ c) (retryDelayMs_ c) (queue c) (timers c) (closed c) (delivered c).
Definition setChannel (c : t) (ch : option Z) : t :=
  mk (connect_ c) (state_ c) ch (retryDelayMs_ c) (queue c) (timers c) (closed c) (delivered c).
Definition queueInLoop (c : t) (k : task) : t :=
  mk (connect_ c) (state_ c) (channel_ c) (retryDelayMs_ c) (queue c ++ [k]) (timers c) (closed c)
     (delivered c).
Definition close (c : t) (fd : Z) : t :=
  mk (connect_ c) (state_ c) (channel_ c) (retryDelayMs_ c) (queue c) (timers c) (closed c ++ [fd])
     (delivered c).
Definition deliver (c : t) (fd : Z) : t :=
  mk (connect_ c) (state_ c) (channel_ c) (retryDelayMs_ c) (queue c) (timers c) (closed c)
     (delivered c ++ [fd]).
Definition runAfter (c : t) (ms : Z) : t :=
  mk (connect_ c) (state_ c) (channel_ c) (retryDelayMs_ c) (queue c) (timers c ++ [ms]) (closed c)
     (delivered c).
Definition setDelay (c : t) (ms : Z) : t :=
  mk (connect_ c) (state_ c) (channel_ c) ms (queue c) (timers c) (closed c) (delivered c).

Definition retry (c : t) (sockfd : Z) : t :=
  let c := setState (close c sockfd) kDisconnected in
  if connect_ c then
    let c := runAfter c (retryDelayMs_ c) in
    setDelay c (Z.min (retryDelayMs_ c * 2) kMaxRetryDelayMs)
  else c.

(** [connecting] asserts that there is no channel; a failed assertion is [None]. *)
Definition connecting (c : t) (sockfd : Z) : option t :=
  let c := setState c kConnecting in
  match channel_ c with
  | Some _ => None
  | None => Some (setChannel c (Some sockfd))
  end.

Definition goes_on (err : Z) : bool :=
  (err =? 0) || (err =? EINPROGRESS) || (err =? EINTR) || (err =? EISCONN).
Definition may_retry (err : Z) : bool :=
  (err =? EAGAIN) || (err =? EADDRINUSE) || (err =? EADDRNOTAVAIL) || (err =? ECONNREFUSED)
  || (err =? ENETUNREACH).

(** [connect], on the descriptor of the new socket and the [errno] of
    [::connect], 0 when it succeeds. *)
Definition connect (c : t) (sockfd savedErrno : Z) : option t :=
  if goes_on savedErrno then connecting c sockfd
  else if may_retry savedErrno then Some (retry c sockfd)
  else Some (close c sockfd).

Definition startInLoop (c : t) (sockfd savedErrno : Z) : option t :=
  if bool_decide (state_ c = kDisconnected) then
    if connect_ c then connect c sockfd savedErrno else Some c
  else None.

Definition start (c : t) (sockfd savedErrno : Z) : option t :=
  startInLoop (setConnect c true) sockfd savedErrno.

Definition stop (c : t) : t := queueInLoop (setConnect c false) TStopInLoop.

(** [removeAndResetChannel]: the descriptor; a null channel is [None]. *)
Definition removeAndResetChannel (c : t) : option (Z * t) :=
  fd ← channel_ c; Some (fd, queueInLoop c TResetChannel).

Definition stopInLoop (c : t) : option t :=
  if bool_decide (state_ c = kConnecting) then
    '(fd, c) ← removeAndResetChannel (setState c kDisconnected); Some (retry c fd)
  else Some c.

Definition restart (c : t) (sockfd savedErrno : Z) : option t :=
  startInLoop (setConnect (setDelay (setState c kDisconnected) kInitRetryDelayMs) true) sockfd savedErrno.

Definition resetChannel (c : t) : t := setChannel c None.

(** [handleWrite], on [getSocketError] and [isSelfConnect]. *)
Definition handleWrite (c : t) (err : Z) (selfConnect : bool) : option t :=
  match state_ c with
  | kConnecting =>
      '(fd, c) ← removeAndResetChannel c;
      if negb (err =? 0) then Some (retry c fd)
      else if selfConnect then Some (retry c fd)
      else
        let c := setState c kConnected in
        Some (if connect_ c then deliver c fd else close c fd)
  | kDisconnected => Some c
  | kConnected => None
  end.

Definition handleError (c : t) : option t :=
  if bool_decide (state_ c = kConnecting) then
    '(fd, c) ← removeAndResetChannel c; Some (retry c fd)
  else Some c.

(** ** Events

    What can happen to a connector: calls from outside, the first queued task,
    the first timer, an event of its channel, which comes only while the channel
    is registered, that is while the connector is connecting.  [TcpClient] calls
    [restart] when a connection has ended, so never while connecting. *)
Inductive op :=
  | OpStart (fd err : Z)
  | OpRestart (fd err : Z)
  | OpStop
  | OpTask
  | OpTimer (fd err : Z)
  | OpWrite (err : Z) (self : bool)
  | OpError.

Definition setQueue (c : t) (q : list task) : t :=
  mk (connect_ c) (state_ c) (channel_ c) (retryDelayMs_ c) q (timers c) (closed c) (delivered c).
Definition setTimers (c : t) (l : list Z) : t :=
  mk (connect_ c) (state_ c) (channel_ c) (retryDelayMs_ c) (queue c) l (closed c) (delivered c).

(** [None]: an assertion fails, or there is no such event. *)
Definition step (c : t) (o : op) : option t :=
  match o with
  | OpStart fd err => start c fd err
  | OpRestart fd err => if bool_decide (state_ c = kConnecting) then None else restart c fd err
  | OpStop => Some (stop c)
  | OpTask =>
      match queue c with
      | TStopInLoop :: q => stopInLoop (setQueue c q)
      | TResetChannel :: q => Some (resetChannel (setQueue c q))
      | [] => None
      end
  | OpTimer fd err =>
      match timers c with
      | _ :: l => startInLoop (setTimers c l) fd err
      | [] => None
      end
  | OpWrite err self => if bool_decide (state_ c = kConnecting) then handleWrite c err self else None
  | OpError => if bool_decide (state_ c = kConnecting) then handleError c else None
  end.

(** The socket an event opens. *)
Definition opened (c : t) (o : op) : list Z :=
  match o with
  | OpStart fd _ | OpRestart fd _ => [fd]
  | OpTimer fd _ => if connect_ c then [fd] else []
  | _ => []
  end.

Fixpoint run (c : t) (os : list op) : option (list Z * t) :=
  match os with
  | [] => Some ([], c)
  | o :: os' =>
      c' ← step c o;
      '(fds, c'') ← run c' os';
      Some (opened c o ++ fds, c'')
  end.

(** ** Invariant *)

(** The delay is one of 500, 1000, 2000, ..., 30000, and so are the timers'. *)
Definition good_delay (ms : Z) : Prop :=
  exists n, ms = Z.min (kInitRetryDelayMs * 2 ^ n) kMaxRetryDelayMs /\ 0 <= n.

Lemma good_delay_init : good_delay kInitRetryDelayMs.
Proof. exists 0. split; [reflexivity|lia]. Qed.

Lemma good_delay_next ms : good_delay ms -> good_delay (Z.min (ms * 2) kMaxRetryDelayMs).
Proof.
  intros (n & -> & Hn). exists (n + 1). split; [|lia].
  rewrite Z.pow_add_r by lia. unfold kInitRetryDelayMs, kMaxRetryDelayMs.
  assert (0 < 2 ^ n) by (by apply Z.pow_pos_nonneg). lia.
Qed.

Lemma good_delay_bound ms : good_delay ms -> 500 <= ms <= 30000.
Proof.
  intros (n & -> & Hn). unfold kInitRetryDelayMs, kMaxRetryDelayMs.
  assert (0 < 2 ^ n) by (by apply Z.pow_pos_nonneg). lia.
Qed.

(** The descriptor of the attempt in progress. *)
Definition current (c : t) : list Z :=
  if bool_decide (state_ c = kConnecting) then option_list (channel_ c) else [].

Definition at_most_one_reset (q : list task) : Prop :=
  (length (filter (fun k => k = TResetChannel) q) <= 1)%nat.

Lemma no_reset q : TResetChannel ∉ q <-> filter (fun k => k = TResetChannel) q = [].
Proof.
  split; intros Hn.
  - induction q as [|k q IH]; [done|]. rewrite filter_cons_False by set_solver. apply IH. set_solver.
  - intros Hin. assert (TResetChannel ∈ filter (fun k => k = TResetChannel) q) as H
      by by apply list_elem_of_filter.
    rewrite Hn in H. by apply not_elem_of_nil in H.
Qed.

Lemma one_reset_last q : TResetChannel ∉ q -> at_most_one_reset (q ++ [TResetChannel]).
Proof. intros Hn%no_reset. unfold at_most_one_reset. by rewrite filter_app, Hn. Qed.

Lemma one_reset_stop q : at_most_one_reset q -> at_most_one_reset (q ++ [TStopInLoop]).
Proof. unfold at_most_one_reset. intros Hq. rewrite filter_app, length_app. simpl. lia. Qed.

Lemma one_reset_tail k q : at_most_one_reset (k :: q) ->
  at_most_one_reset q /\ (k = TResetChannel -> TResetChannel ∉ q).
Proof.
  unfold at_most_one_reset. rewrite no_reset. destruct k.
  - rewrite filter_cons_False by done. done.
  - rewrite filter_cons_True by done. simpl. split; [lia|]. intros _. apply length_zero_iff_nil. lia.
Qed.

(** [fds] are the sockets opened so far: each was closed, handed over, or is the
    one being connected. *)
Record inv (c : t) (fds : list Z) : Prop := {
  inv_delay : good_delay (retryDelayMs_ c);
  inv_timers : Forall good_delay (timers c);
  inv_channel : state_ c = kConnecting -> is_Some (channel_ c) /\ TResetChannel ∉ queue c;
  inv_reset : channel_ c = None -> TResetChannel ∉ queue c;
  inv_one : at_most_one_reset (queue c);
  inv_fds : fds ≡ₚ closed c ++ delivered c ++ current c
}.

Lemma inv_create : inv create [].
Proof. split; try done; [apply good_delay_init|set_solver|apply Nat.le_0_l]. Qed.

(** The end of an attempt: the channel is on its way out, its descriptor [fd]
    still to be disposed of. *)
Record ending (c : t) (fd : Z) (fds : list Z) : Prop := {
  end_delay : good_delay (retryDelayMs_ c);
  end_timers : Forall good_delay (timers c);
  end_channel : is_Some (channel_ c);
  end_one : at_most_one_reset (queue c);
  end_fds : fds ≡ₚ closed c ++ delivered c ++ [fd]
}.

Lemma removeAndResetChannel_ending c fds s :
  inv c fds -> state_ c = kConnecting ->
  exists fd c', removeAndResetChannel (setState c s) = Some (fd, c') /\ ending c' fd fds /\
    connect_ c' = connect_ c /\ state_ c' = s.
Proof.
  intros [Hd Ht Hc Hr Ho Hf] Hs. destruct (Hc Hs) as [[fd Efd] Hno].
  unfold removeAndResetChannel. cbn [channel_ setState]. rewrite Efd. do 2 eexists.
  split; [reflexivity|]. split; [|done]. split; simpl; try done; [by apply one_reset_last|].
  unfold current in Hf. by rewrite bool_decide_true, Efd in Hf.
Qed.

Lemma retry_inv c fd fds : ending c fd fds -> inv (retry c fd) fds.
Proof.
  intros [Hd Ht [x Hc] Ho Hf]. unfold retry. simpl.
  assert (fds ≡ₚ (closed c ++ [fd]) ++ delivered c ++ []) as Hf'.
  { rewrite Hf, app_nil_r, <- app_assoc. f_equiv. apply Permutation_app_comm. }
  destruct (connect_ c); split; simpl; try done; try by rewrite Hc.
  - by apply good_delay_next.
  - apply Forall_app. split; [done|by constructor].
Qed.

Lemma connect_inv c fds fd err c' :
  inv c fds -> state_ c = kDisconnected -> connect c fd err = Some c' -> inv c' (fd :: fds).
Proof.
  intros [Hd Ht Hc Hr Ho Hf] Hs. unfold connect.
  assert (fd :: fds ≡ₚ (closed c ++ [fd]) ++ delivered c ++ []) as Hf'.
  { rewrite Hf. unfold current. rewrite bool_decide_false by (by rewrite Hs).
    rewrite <- app_assoc. apply Permutation_middle. }
  destruct (goes_on err); [|destruct (may_retry err); intros [= <-]].
  - unfold connecting. simpl. destruct (channel_ c) eqn:E; [done|]. intros [= <-].
    split; simpl; try done; [by split; [|apply Hr]|].
    unfold current. simpl. rewrite Hf. unfold current. rewrite bool_decide_false by (by rewrite Hs).
    rewrite app_nil_r. rewrite (app_assoc (closed c)). apply Permutation_cons_append.
  - unfold retry. simpl. destruct (connect_ c); split; simpl; try done.
    + by apply good_delay_next.
    + apply Forall_app. split; [done|by constructor].
  - split; simpl; try done. unfold current. simpl. by rewrite Hs.
Qed.

Lemma startInLoop_inv c fds fd err c' :
  inv c fds -> startInLoop c fd err = Some c' ->
  inv c' ((if connect_ c then [fd] else []) ++ fds).
Proof.
  intros Hi. unfold startInLoop. case_bool_decide; [|done].
  destruct (connect_ c); [|by intros [= <-]]. by apply connect_inv.
Qed.

Lemma inv_setQueue c fds k q : inv c fds -> queue c = k :: q -> inv (setQueue c q) fds.
Proof.
  intros [Hd Ht Hc Hr Ho Hf] Hq. rewrite Hq in *. split; simpl; try done.
  - intros Hs. destruct (Hc Hs) as [? ?]. split; [done|set_solver].
  - intros Hn. specialize (Hr Hn). set_solver.
  - by apply one_reset_tail in Ho as [? _].
Qed.

Lemma handleWrite_inv c fds err self c' :
  inv c fds -> state_ c = kConnecting -> handleWrite c err self = Some c' -> inv c' fds.
Proof.
  intros Hi Hs. unfold handleWrite. rewrite Hs.
  destruct (removeAndResetChannel_ending c fds kConnecting Hi Hs) as (fd & c1 & E & He & Hcon & Hst).
  assert (setState c kConnecting = c) as Ec by (by destruct c; simpl in *; subst). rewrite Ec in E.
  rewrite E. cbn [mbind option_bind].
  destruct (negb (err =? 0)); [intros [= <-]; by apply retry_inv|].
  destruct self; [intros [= <-]; by apply retry_inv|]. intros [= <-].
  destruct He as [Hd Ht [x Hc] Ho Hf]. unfold setState. cbn [connect_].
  destruct (connect_ c1); split; simpl; try done; try by rewrite Hc.
  - unfold current. simpl. by rewrite Hf, app_nil_r.
  - unfold current. simpl. rewrite Hf, app_nil_r, <- app_assoc. f_equiv. apply Permutation_app_comm.
Qed.

Lemma step_inv c fds o c' : inv c fds -> step c o = Some c' -> inv c' (opened c o ++ fds).
Proof.
  intros Hi. destruct o as [fd err|fd err| | |fd err|err self|]; cbn [step opened app].
  - unfold start. intros Hs. apply (startInLoop_inv _ fds) in Hs; [done|]. by destruct Hi; split.
  - case_bool_decide as Hk; [done|]. unfold restart. intros Hs.
    apply (startInLoop_inv _ fds) in Hs; [done|].
    destruct Hi as [Hd Ht Hc Hr Ho Hf]. split; try done; [apply good_delay_init|].
    unfold current in *. by rewrite bool_decide_false in Hf by done.
  - intros [= <-]. destruct Hi as [Hd Ht Hc Hr Ho Hf]. split; simpl; try done.
    + intros Hs. destruct (Hc Hs). split; [done|set_solver].
    + intros Hn. specialize (Hr Hn). set_solver.
    + by apply one_reset_stop.
  - destruct (queue c) as [|[] q] eqn:Eq; [done| |].
    + pose proof (inv_setQueue c fds _ q Hi Eq) as Hq. unfold stopInLoop. case_bool_decide as Hs.
      * destruct (removeAndResetChannel_ending (setQueue c q) fds kDisconnected Hq Hs)
          as (fd & c1 & -> & He & _). cbn [mbind option_bind]. intros [= <-]. by apply retry_inv.
      * by intros [= <-].
    + intros [= <-]. pose proof (inv_setQueue c fds _ q Hi Eq) as [Hd Ht Hc Hr Ho Hf].
      assert (state_ c <> kConnecting) as Hns.
      { intros Hs. destruct (inv_channel _ _ Hi Hs) as [_ Hn]. apply Hn. rewrite Eq. by left. }
      split; simpl; try done.
      * intros _. pose proof (inv_one _ _ Hi) as Hone. rewrite Eq in Hone.
        apply one_reset_tail in Hone as [_ Hone]. by apply Hone.
      * unfold current in *. simpl in *. by rewrite bool_decide_false in * by done.
  - destruct (timers c) as [|ms l] eqn:Et; [done|]. intros Hs.
    apply (startInLoop_inv (setTimers c l) fds) in Hs; [done|].
    destruct Hi as [Hd Ht Hc Hr Ho Hf]. rewrite Et in Ht. apply Forall_cons in Ht as [_ Ht]. by split.
  - case_bool_decide as Hs; [|done]. by apply handleWrite_inv.
  - case_bool_decide as Hs; [|done]. unfold handleError. rewrite bool_decide_true by done.
    destruct (removeAndResetChannel_ending c fds kConnecting Hi Hs) as (fd & c1 & E & He & _).
    assert (setState c kConnecting = c) as Ec by (by destruct c; simpl in *; subst). rewrite Ec in E.
    rewrite E. cbn [mbind option_bind]. intros [= <-]. by apply retry_inv.
Qed.

Lemma run_inv os : forall c fds opd c',
  inv c fds -> run c os = Some (opd, c') -> exists fds', fds' ≡ₚ opd ++ fds /\ inv c' fds'.
Proof.
  induction os as [|o os IH]; intros c fds opd c' Hi; cbn [run].
  - intros [= <- <-]. by exists fds.
  - destruct (step c o) as [c1|] eqn:E; [|done]. cbn [mbind option_bind].
    destruct (run c1 os) as [[fds2 c2]|] eqn:E2; [|done]. cbn [mbind option_bind]. intros [= <- <-].
    destruct (IH _ _ _ _ (step_inv _ _ _ _ Hi E) E2) as (fds' & Hp & Hi').
    exists fds'. split; [|done]. rewrite Hp, !(app_assoc _ _ fds). f_equiv. apply Permutation_app_comm.
Qed.

End Connector.

(** * [TcpClient] (network/TcpClient.hpp, src/network/TcpClient.cpp)

    A connector and the one connection it is asked for.  Connections are given
    by identities; the tasks the client queues in the loop are kept.  What the
    system calls answer is an argument, and so is the text of the peer's
    address. *)

Module TcpClient.
Local Open Scope Z_scope.

Inductive task := TConnectDestroyed (conn : nat) | TSetCloseCallback (conn : nat) | TStopConnector.

Record t := mk {
  name_ : bytes;
  connector_ : Connector.t;
  retry_ : bool;
  connect_ : bool;
  nextConnId_ : Z;
  connection_ : option nat;
  names : list (nat * bytes);     (* the connections created, with their names *)
  shutdowns : list nat;           (* connections told to shut down *)
  forced : list nat;              (* connections told to close *)
  leaked : list Z;                (* descriptors given up without being closed *)
  queue : list task
}.

Definition create (name : bytes) : t :=
  mk name Connector.create false true 1 None [] [] [] [] [].

Definition set_connector (c : t) (k : Connector.t) : t :=
  mk (name_ c) k (retry_ c) (connect_ c) (nextConnId_ c) (connection_ c) (names c) (shutdowns c)
     (forced c) (leaked c) (queue c).
Definition set_connect (c : t) (b : bool) : t :=
  mk (name_ c) (connector_ c) (retry_ c) b (nextConnId_ c) (connection_ c) (names c) (shutdowns c)
     (forced c) (leaked c) (queue c).
Definition enableRetry (c : t) : t :=
  mk (name_ c) (connector_ c) true (connect_ c) (nextConnId_ c) (connection_ c) (names c) (shutdowns c)
     (forced c) (leaked c) (queue c).
Definition set_connection (c : t) (conn : option nat) : t :=
  mk (name_ c) (connector_ c) (retry_ c) (connect_ c) (nextConnId_ c) conn (names c) (shutdowns c)
     (forced c) (leaked c) (queue c).
Definition queueInLoop (c : t) (k : task) : t :=
  mk (name_ c) (connector_ c) (retry_ c) (connect_ c) (nextConnId_ c) (connection_ c) (names c) (shutdowns c)
     (forced c) (leaked c) (queue c ++ [k]).
Definition leak (c : t) (fd : Z) : t :=
  mk (name_ c) (connector_ c) (retry_ c) (connect_ c) (nextConnId_ c) (connection_ c) (names c) (shutdowns c)
     (forced c) (leaked c ++ [fd]) (queue c).

(** [connect()], on the socket the connector opens and the [errno] of its
    [connect]; the connector's assertions are [None]. *)
Definition connect (c : t) (sockfd savedErrno : Z) : option t :=
  let c := set_connect c true in
  k ← Connector.start (connector_ c) sockfd savedErrno; Some (set_connector c k).

Definition disconnect (c : t) : t :=
  let c := set_connect c false in
  match connection_ c with
  | Some conn =>
      mk (name_ c) (connector_ c) (retry_ c) (connect_ c) (nextConnId_ c) (connection_ c) (names c)
         (shutdowns c ++ [conn]) (forced c) (leaked c) (queue c)
  | None => c
  end.

Definition stop (c : t) : t :=
  let c := set_connect c false in set_connector c (Connector.stop (connector_ c)).

(** The name of the connection: the part after the client's name goes through
    32 bytes. *)
Definition connName (c : t) (ipPort : bytes) : bytes :=
  name_ c ++ snprintf 32 ($":" ++ ipPort ++ $"#" ++ to_string (nextConnId_ c)).

(** [newConnection(sockfd)]: [peer] is the text of the peer's address when
    [getpeername] succeeds, [local_ok] whether [getsockname] does, [conn] the
    new connection.  On a failure the descriptor is left alone. *)
Definition newConnection (c : t) (sockfd : Z) (peer : option bytes) (local_ok : bool) (conn : nat) : t :=
  match peer with
  | None => leak c sockfd
  | Some ipPort =>
      let nm := connName c ipPort in
      let c := mk (name_ c) (connector_ c) (retry_ c) (connect_ c) (nextConnId_ c + 1) (connection_ c)
                  (names c) (shutdowns c) (forced c) (leaked c) (queue c) in
      if local_ok then
        mk (name_ c) (connector_ c) (retry_ c) (connect_ c) (nextConnId_ c) (Some conn)
           (names c ++ [(conn, nm)]) (shutdowns c) (forced c) (leaked c) (queue c)
      else leak c sockfd
  end.

(** [removeConnection(conn)]: the [assert], the queued destruction, and the
    reconnection, on the socket it opens and the [errno] of its [connect]. *)
Definition removeConnection (c : t) (conn : nat) (sockfd savedErrno : Z) : option t :=
  if bool_decide (connection_ c = Some conn) then
    let c := queueInLoop (set_connection c None) (TConnectDestroyed conn) in
    if retry_ c && connect_ c then
      k ← Connector.restart (connector_ c) sockfd savedErrno; Some (set_connector c k)
    else Some c
  else None.

(** The destructor: [unique] says whether the client held the only reference.
    The last task stops the connector again after a second. *)
Definition destroy (c : t) (unique : bool) : t :=
  match connection_ c with
  | Some conn =>
      let c := queueInLoop c (TSetCloseCallback conn) in
      if unique then
        mk (name_ c) (connector_ c) (retry_ c) (connect_ c) (nextConnId_ c) (connection_ c) (names c)
           (shutdowns c) (forced c ++ [conn]) (leaked c) (queue c)
      else c
  | None => queueInLoop (set_connector c (Connector.stop (connector_ c))) TStopConnector
  end.

(** The name of an IPv4 connection is not cut before the hundred-millionth. *)
Lemma connName_uncut c ipPort : (length ipPort <= 21)%nat -> 0 < nextConnId_ c < 10 ^ 8 ->
  connName c ipPort = name_ c ++ $":" ++ ipPort ++ $"#" ++ to_string (nextConnId_ c).
Proof.
  intros Hi Hn. unfold connName. rewrite snprintf_fits; [done|].
  pose proof (to_string_length (nextConnId_ c) 7) as Hl. rewrite !length_app. simpl.
  destruct (Z.ltb_spec (nextConnId_ c) 0); [lia|]. simpl in Hl. lia.
Qed.
End TcpClient.
