(* ===== verification/TcpServer.v ===== *)
(** * The TCP server and its loops (network/TcpServer, network/EventLoopThreadPool)

    The choice of a loop for each new connection, and the table of connections. *)

From S2P Require Import Prelude CxxString.

Module EventLoopThreadPool.

(** Loops are given by identities. *)
Record t := mk {
  baseLoop_ : nat;
  started_ : bool;
  numThreads_ : nat;
  next_ : nat;
  loops_ : list nat
}.

Definition create (baseLoop : nat) : t := mk baseLoop false 0 0 [].
Definition setThreadNum (p : t) (n : nat) : t := mk (baseLoop_ p) (started_ p) n (next_ p) (loops_ p).

(** [start]: one new loop a thread, [fresh] gives their identities; the loops on
    which the initial callback runs.  A failed assertion is [None]. *)
Definition start (p : t) (fresh : nat -> nat) (cb : bool) : option (list nat * t) :=
  if started_ p then None
  else
    let loops := map fresh (seq 0 (numThreads_ p)) in
    Some (if cb then (if numThreads_ p =? 0 then [baseLoop_ p] else loops) else [],
          mk (baseLoop_ p) true (numThreads_ p) (next_ p) (loops_ p ++ loops)).

(** [stop]: the loops told to quit. *)
Definition stop (p : t) : option (list nat * t) :=
  if started_ p then Some (loops_ p, mk (baseLoop_ p) false (numThreads_ p) (next_ p) []) else None.

Definition getNextLoop (p : t) : option (nat * t) :=
  if started_ p then
    match loops_ p with
    | [] => Some (baseLoop_ p, p)
    | _ =>
        loop ← loops_ p !! next_ p;
        let next := S (next_ p) in
        Some (loop, mk (baseLoop_ p) (started_ p) (numThreads_ p)
                       (if length (loops_ p) <=? next then 0 else next) (loops_ p))
    end
  else None.

Definition getAllLoops (p : t) : option (list nat) :=
  if started_ p then Some (match loops_ p with [] => [baseLoop_ p] | ls => ls end) else None.

(** The loops of the next [k] connections. *)
Fixpoint next_loops (k : nat) (p : t) : option (list nat * t) :=
  match k with
  | O => Some ([], p)
  | S k' =>
      '(l, p) ← getNextLoop p;
      '(ls, p) ← next_loops k' p;
      Some (l :: ls, p)
  end.

(** Round robin: the [i]-th call from now gets loop [(next_ + i) mod n]. *)
Lemma next_loops_round_robin k : forall p,
  started_ p = true -> next_ p < length (loops_ p) ->
  exists p', next_loops k p =
    Some (map (fun i => nth ((next_ p + i) mod length (loops_ p)) (loops_ p) 0) (seq 0 k), p').
Proof.
  induction k as [|k IH]; intros p Hs Hn; cbn [next_loops]; [eauto|].
  set (n := length (loops_ p)) in *. unfold getNextLoop. rewrite Hs.
  destruct (lookup_lt_is_Some_2 (loops_ p) (next_ p) Hn) as [l Hl].
  assert (loops_ p <> []) as Hne by (intros E; unfold n in Hn; rewrite E in Hn; simpl in Hn; lia).
  set (nx := if n <=? S (next_ p) then 0 else S (next_ p)).
  set (p1 := mk (baseLoop_ p) true (numThreads_ p) nx (loops_ p)).
  replace (match loops_ p with [] => Some (baseLoop_ p, p) | _ :: _ => _ end) with (Some (l, p1))
    by (destruct (loops_ p) eqn:E; [done|]; rewrite Hl; done).
  cbn [mbind option_bind].
  destruct (IH p1 eq_refl) as (p' & E).
  { unfold p1, nx; cbn [next_ loops_]. fold n. destruct (Nat.leb_spec n (S (next_ p))); lia. }
  rewrite E. cbn [mbind option_bind]. eexists. do 2 f_equal. cbn [seq map]. f_equal.
  - rewrite Nat.add_0_r, Nat.mod_small by done. symmetry. by apply nth_lookup_Some.
  - rewrite <- seq_shift, map_map. apply map_ext. intros i. f_equal. cbn [loops_ next_ p1]. fold n.
    unfold nx. destruct (Nat.leb_spec n (S (next_ p))).
    + assert (next_ p + S i = i + 1 * n) as -> by lia. by rewrite Nat.Div0.mod_add.
    + f_equal. lia.
Qed.

End EventLoopThreadPool.

Module TcpServer.

(** A connection is given by an identity and its name. *)
Record t := mk {
  name_ : bytes;
  ipPort_ : bytes;
  started_ : Z;
  nextConnId_ : Z;
  connections_ : gmap bytes nat;
  threadPool_ : EventLoopThreadPool.t;
  listening : nat                (* how often the acceptor was told to listen *)
}.

Definition create (name ipPort : bytes) (loop : nat) : t :=
  mk name ipPort 0 1 ∅ (EventLoopThreadPool.create loop) 0.

Definition setThreadNum (s : t) (numThreads : nat) : t :=
  mk (name_ s) (ipPort_ s) (started_ s) (nextConnId_ s) (connections_ s)
     (EventLoopThreadPool.setThreadNum (threadPool_ s) numThreads) (listening s).

(** The destructor: the connections whose [connectDestroyed] is run in their
    loops, in the order of the table. *)
Definition destroy (s : t) : list nat := (map_to_list (connections_ s)).*2.

(** [start]: only the first call has an effect. *)
Definition start (s : t) (fresh : nat -> nat) : option t :=
  let first := (started_ s =? 0)%Z in
  let s := mk (name_ s) (ipPort_ s) 1 (nextConnId_ s) (connections_ s) (threadPool_ s) (listening s) in
  if first then
    '(_, p) ← EventLoopThreadPool.start (threadPool_ s) fresh true;
    Some (mk (name_ s) (ipPort_ s) (started_ s) (nextConnId_ s) (connections_ s) p (S (listening s)))
  else Some s.

Definition connName (s : t) (id : Z) : bytes := name_ s ++ $"-" ++ ipPort_ s ++ $"#" ++ to_string id.

(** [newConnection]: the loop and the name of the connection [conn]; the counter
    is an [int], whose overflow is undefined: the model stays below it. *)
Definition newConnection (s : t) (conn : nat) : option (nat * bytes * t) :=
  '(ioLoop, p) ← EventLoopThreadPool.getNextLoop (threadPool_ s);
  let nm := connName s (nextConnId_ s) in
  Some (ioLoop, nm, mk (name_ s) (ipPort_ s) (started_ s) (nextConnId_ s + 1)%Z
                       (<[nm := conn]> (connections_ s)) p (listening s)).

(** [removeConnectionInLoop]; it queues [connectDestroyed]. *)
Definition removeConnectionInLoop (s : t) (nm : bytes) : t :=
  mk (name_ s) (ipPort_ s) (started_ s) (nextConnId_ s) (delete nm (connections_ s)) (threadPool_ s)
     (listening s).

(** ** Names *)

Lemma to_string_inj a b : to_string a = to_string b -> a = b.
Proof.
  intros E. pose proof (strtoz_to_string a) as Ha. rewrite E, strtoz_to_string in Ha.
  injection Ha as Hs Hv. destruct (Z.ltb_spec a 0), (Z.ltb_spec b 0); try done; lia.
Qed.

Lemma connName_inj s a b : connName s a = connName s b -> a = b.
Proof. unfold connName. intros E. by simplify_list_eq; apply to_string_inj. Qed.

(** Every name in the table was given to an earlier connection. *)
Definition wf (s : t) : Prop :=
  forall nm c, connections_ s !! nm = Some c ->
  exists id, nm = connName s id /\ (1 <= id < nextConnId_ s)%Z.

Lemma server_wf_create name ipPort loop : wf (create name ipPort loop).
Proof. intros nm c. simpl. by rewrite lookup_empty. Qed.

(** A new connection displaces no other. *)
Lemma newConnection_adds s conn loop nm s' :
  wf s -> (1 <= nextConnId_ s)%Z -> newConnection s conn = Some (loop, nm, s') ->
  wf s' /\ connections_ s !! nm = None /\ connections_ s' = <[nm := conn]> (connections_ s) /\
  nextConnId_ s' = (nextConnId_ s + 1)%Z.
Proof.
  intros Hwf Hid. unfold newConnection. destruct (EventLoopThreadPool.getNextLoop _) as [[l p]|]; [|done].
  cbn [mbind option_bind]. intros [= <- <- <-].
  assert (connections_ s !! connName s (nextConnId_ s) = None) as Hn.
  { destruct (connections_ s !! connName s (nextConnId_ s)) eqn:E; [|done].
    destruct (Hwf _ _ E) as (id & Hnm & Hlt). apply connName_inj in Hnm. lia. }
  split; [|done]. intros nm c. cbn [connections_ nextConnId_]. 
  rewrite lookup_insert_Some. intros [[<- <-]|[_ E]].
  - exists (nextConnId_ s). split; [done|lia].
  - destruct (Hwf _ _ E) as (id & -> & Hlt). exists id. split; [done|lia].
Qed.

Lemma removeConnection_removes s nm :
  wf s -> wf (removeConnectionInLoop s nm) /\
  connections_ (removeConnectionInLoop s nm) !! nm = None /\
  (forall nm', nm' <> nm -> connections_ (removeConnectionInLoop s nm) !! nm' = connections_ s !! nm').
Proof.
  intros Hwf. split; [|split].
  - intros nm' c. cbn [connections_ removeConnectionInLoop]. rewrite lookup_delete_Some. intros [_ E].
    by apply (Hwf _ _ E).
  - simpl. by rewrite lookup_delete_eq.
  - intros nm' Hne. simpl. by rewrite lookup_delete_ne.
Qed.

End TcpServer.
