(* ===== verification/ServerLoops.v ===== *)
(** * The server at work

    [TcpServer], its loops with their pollers, and its connections together: the
    threads of the loops are interleaved, a handler of an event or a functor
    being one step.  The pollers are any that implement the contract. *)

From S2P Require Import Prelude CxxString ByteBuffer Channel Poller TcpConnection Lifecycle EventLoop TcpServer.

Module ServerLoops.
Section server.
Context {W P : Type} `{Poller P}.

(** ** The state *)

(** What the server and its connections queue in the loops.  A functor holds a
    reference to its connection, but for those of [send] and [shutdown] called in
    another thread ([TSendInLoop], [TShutdownInLoop]), which bind a raw pointer:
    no step below queues one, since the callbacks act in the thread of their
    connection's loop. *)
Inductive functor :=
  | FEstablished (id : nat)                       (* TcpConnection::connectEstablished *)
  | FRemove (id : nat)                            (* TcpServer::removeConnectionInLoop *)
  | FDestroyed (id : nat)                         (* TcpConnection::connectDestroyed *)
  | FTask (id : nat) (k : TcpConnection.task W).

(** A connection: its name, its loop, and the rest. *)
Record object := mkObject {
  o_name : bytes;
  o_loop : nat;
  o_tcp : TcpConnection.t W
}.

(** A loop with its poller; [active]: the channels the last poll found, with
    what has happened on them, that are still to be handled; [running]: the
    functors that [doPendingFunctors] has taken and not run yet. *)
Record loop := mkLoop {
  base : EventLoop.t functor;
  poller : P;
  active : list (nat * Z);
  running : list functor
}.

(** The connections that exist, by an identity that is used once; [retired] are
    the identities of those that are gone. *)
Record t := mk {
  server : TcpServer.t;
  objects : gmap nat object;
  loops : gmap nat loop;
  retired : gset nat
}.

Definition set_server (s : t) (sv : TcpServer.t) : t := mk sv (objects s) (loops s) (retired s).
Definition set_object (s : t) (id : nat) (o : object) : t :=
  mk (server s) (<[id := o]> (objects s)) (loops s) (retired s).
Definition set_loop (s : t) (l : nat) (L : loop) : t :=
  mk (server s) (objects s) (<[l := L]> (loops s)) (retired s).

Definition baseLoop (s : t) : nat := EventLoopThreadPool.baseLoop_ (TcpServer.threadPool_ (server s)).

(** Descriptors of the channels, and the channels that are no connections: each
    loop's wake-up channel and the one of its timers, and the acceptor of the
    server. *)
Variable fds : gmap nat Z.
Variable wake timer : nat -> nat.
Variable acceptor : nat.
(** The write-complete callback the server gives to new connections. *)
Variable writeCompleteCallback_ : option W.

(** ** What one thread does *)

(** [queueInLoop] of the loop [l], called in the thread of the loop [cur]. *)
Definition queueInLoop (cur l : nat) (f : functor) (s : t) : option t :=
  L ← loops s !! l;
  Some (set_loop s l (mkLoop (EventLoop.queueInLoop (cur =? l) f (base L)) (poller L) (active L) (running L))).

Fixpoint queueAll (cur l : nat) (fs : list functor) (s : t) : option t :=
  match fs with
  | [] => Some s
  | f :: fs' => s' ← queueInLoop cur l f s; queueAll cur l fs' s'
  end.

(** [removeConnectionInLoop], in the thread of the base loop. *)
Definition removeConnectionInLoop (cur id : nat) (s : t) : option t :=
  o ← objects s !! id;
  queueInLoop cur (o_loop o) (FDestroyed id)
    (set_server s (TcpServer.removeConnectionInLoop (server s) (o_name o))).

(** [removeConnection], the close callback: [runInLoop] of the base loop. *)
Definition removeConnection (cur id : nat) (s : t) : option t :=
  if cur =? baseLoop s then removeConnectionInLoop cur id s
  else queueInLoop cur (baseLoop s) (FRemove id) s.

(** What an operation has added to a log. *)
Definition added {A} (old new : list A) : list A := drop (length old) new.

(** An operation of the connection [id] in the thread of the loop [cur], which
    must be its loop: the channel's updates go to the poller, its tasks to the
    loop, and if it closed the close callback, the last thing that [handleClose]
    does, is called.  An object that is gone and a failed assertion are [None].
    What the user's connection callback does with a connection that just closed
    is left out: [send], [shutdown] and [forceClose] do nothing then. *)
Definition onConnection (cur id : nat) (f : TcpConnection.t W -> option (TcpConnection.t W)) (s : t) : option t :=
  o ← objects s !! id;
  if cur =? o_loop o then
    c ← f (o_tcp o);
    L ← loops s !! cur;
    p ← impl_run (poller L)
          (Change id <$> added (Channel.updates (TcpConnection.channel_ (o_tcp o)))
                               (Channel.updates (TcpConnection.channel_ c)));
    let s := set_object s id (mkObject (o_name o) (o_loop o) (TcpConnection.clearQueue c)) in
    let s := set_loop s cur (mkLoop (base L) p (active L) (running L)) in
    s ← queueAll cur cur (FTask id <$> TcpConnection.queue c) s;
    if existsb (fun e => match e with TcpConnection.EClose => true | _ => false end)
               (added (TcpConnection.events (o_tcp o)) (TcpConnection.events c))
    then removeConnection cur id s else Some s
  else None.

(** What the user's callbacks do with their connection. *)
Inductive use :=
  | USend (data : bytes)
  | UShutdown
  | UForceClose
  | URead (n : nat)                               (* up to [n] bytes of the input buffer *)
  | UWriteComplete (cb : option W)
  | UHighWaterMark (set : bool) (mark : Z).

Definition runUse (u : use) (c : TcpConnection.t W) : option (TcpConnection.t W) :=
  match u with
  | USend data => TcpConnection.send c data
  | UShutdown => Some (TcpConnection.shutdown c)
  | UForceClose => Some (TcpConnection.forceClose c)
  | URead n =>
      let b := TcpConnection.inputBuffer_ c in
      b' ← Buffer.retrieve b (Nat.min n (Buffer.readableBytes b)); Some (TcpConnection.setInput c b')
  | UWriteComplete cb => Some (TcpConnection.setWriteCompleteCallback c cb)
  | UHighWaterMark set mark => Some (TcpConnection.setHighWaterMarkCallback c set mark)
  end.

Fixpoint runUses (cur id : nat) (us : list use) (s : t) : option t :=
  match us with
  | [] => Some s
  | u :: us' => s' ← onConnection cur id (runUse u) s; runUses cur id us' s'
  end.

(** [connectEstablished] ends with the connection callback. *)
Definition connectEstablished (cur id : nat) (us : list use) (s : t) : option t :=
  s' ← onConnection cur id TcpConnection.connectEstablished s; runUses cur id us s'.

(** [EventLoop::removeChannel]; that its assertion about the active channels
    holds is clear outside of event handling, and nothing else is allowed here. *)
Definition removeChannel (cur id : nat) (s : t) : option t :=
  L ← loops s !! cur;
  if EventLoop.eventHandling_ (base L) then None
  else
    p ← impl_step (poller L) (Remove id);
    Some (set_loop s cur (mkLoop (base L) p (active L) (running L))).

Definition connectDestroyed (cur id : nat) (s : t) : option t :=
  s' ← onConnection cur id TcpConnection.connectDestroyed s; removeChannel cur id s'.

(** [newConnection], in the thread of the base loop [cur], with the descriptor
    of [id]; [outcomes] are what its future writes will answer. *)
Definition newConnection (cur id : nat) (outcomes : list write_outcome) (us : list use) (s : t) : option t :=
  fd ← fds !! id;
  '(ioLoop, nm, sv) ← TcpServer.newConnection (server s) id;
  let c := TcpConnection.setWriteCompleteCallback (TcpConnection.create fd outcomes) writeCompleteCallback_ in
  let s := set_object (set_server s sv) id (mkObject nm ioLoop c) in
  if cur =? ioLoop then connectEstablished cur id us s
  else queueInLoop cur ioLoop (FEstablished id) s.

Definition runFunctor (cur : nat) (f : functor) (us : list use) (s : t) : option t :=
  match f with
  | FEstablished id => connectEstablished cur id us s
  | FRemove id => removeConnectionInLoop cur id s
  | FDestroyed id => connectDestroyed cur id s
  | FTask id (TcpConnection.TWriteComplete _) | FTask id (TcpConnection.THighWaterMark _) => runUses cur id us s
  | FTask id k => onConnection cur id (fun c => TcpConnection.runTask c k) s
  end.

(** One callback of a connection's channel; [r] is what [readv] delivers. *)
Definition runCallback (cur id : nat) (r : Z + bytes) (us : list use) (k : Channel.callback) (s : t) : option t :=
  match k with
  | Channel.CloseCallback => onConnection cur id TcpConnection.handleClose s
  | Channel.ErrorCallback => Some s
  | Channel.ReadCallback =>
      s' ← onConnection cur id (fun c => TcpConnection.handleRead c r) s;
      match r with inr (_ :: _) => runUses cur id us s' | _ => Some s' end
  | Channel.WriteCallback => onConnection cur id TcpConnection.handleWrite s
  end.

Fixpoint runCallbacks (cur id : nat) (r : Z + bytes) (us : list use) (ks : list Channel.callback) (s : t) : option t :=
  match ks with
  | [] => Some s
  | k :: ks' => s' ← runCallback cur id r us k s; runCallbacks cur id r us ks' s'
  end.

(** What the world answers while an event is handled: what [readv] delivers,
    what the callbacks do, and what [accept] gives. *)
Record answer := mkAnswer {
  an_read : Z + bytes;
  an_uses : list use;
  an_accepted : option (nat * list write_outcome)
}.

(** The handler of the active channel [id]. *)
Definition handleEvent (cur id : nat) (revents : Z) (a : answer) (s : t) : option t :=
  if id =? wake cur then
    L ← loops s !! cur;
    Some (set_loop s cur (mkLoop (EventLoop.handleRead (base L)) (poller L) (active L) (running L)))
  else if id =? timer cur then Some s             (* no timer is set here *)
  else if id =? acceptor then
    match an_accepted a with
    | Some (new, outcomes) => newConnection cur new outcomes (an_uses a) s
    | None => Some s
    end
  else
    o ← objects s !! id;
    runCallbacks cur id (an_read a) (an_uses a)
      (Channel.handleEvent (Channel.set_revents (TcpConnection.channel_ (o_tcp o)) revents)) s.

(** ** The steps of the threads *)

(** A turn of the loop [l]: a poll, the handlers of the active channels, and the
    functors; and the end of a connection to which nothing refers any more. *)
Inductive step :=
  | SPoll (l : nat) (ready : list (Z * Z))
  | SHandle (l : nat) (a : answer)
  | SCall (l : nat)                               (* doPendingFunctors takes the functors *)
  | SRun (l : nat) (us : list use)
  | SReturn (l : nat)                             (* doPendingFunctors has run them *)
  | SDelete (id : nat).

Definition exec (k : step) (s : t) : option t :=
  match k with
  | SPoll l ready =>
      L ← loops s !! l;
      '(act, p) ← p_poll (poller L) ready;
      Some (set_loop s l (mkLoop (EventLoop.set_handling (base L) true) p act (running L)))
  | SHandle l a =>
      L ← loops s !! l;
      match active L with
      | (id, revents) :: rest =>
          handleEvent l id revents a (set_loop s l (mkLoop (base L) (poller L) rest (running L)))
      | [] => Some s
      end
  | SCall l =>
      L ← loops s !! l;
      let b := EventLoop.set_handling (base L) false in
      Some (set_loop s l (mkLoop (EventLoop.set_pending (EventLoop.set_calling b true) [])
                                 (poller L) [] (EventLoop.pendingFunctors_ b)))
  | SRun l us =>
      L ← loops s !! l;
      match running L with
      | f :: rest => runFunctor l f us (set_loop s l (mkLoop (base L) (poller L) (active L) rest))
      | [] => Some s
      end
  | SReturn l =>
      L ← loops s !! l;
      Some (set_loop s l (mkLoop (EventLoop.set_calling (base L) false) (poller L) (active L) (running L)))
  | SDelete id =>
      o ← objects s !! id;
      if Channel.addedToLoop_ (TcpConnection.channel_ (o_tcp o)) then None
      else Some (mk (server s) (delete id (objects s)) (loops s) ({[id]} ∪ retired s))
  end.

(** ** When a step can happen *)

Inductive phase := Polling | Handling | Calling.

Definition in_phase (L : loop) (ph : phase) : Prop :=
  EventLoop.eventHandling_ (base L) = match ph with Handling => true | _ => false end /\
  EventLoop.callingPendingFunctors_ (base L) = match ph with Calling => true | _ => false end.

(** A connected socket that has hung up can be read to its end: the kernel does
    not report POLLHUP alone with urgent data. *)
Definition plausible (revents : Z) : Prop :=
  (0 < revents < 2 ^ 15)%Z /\
  (Channel.has revents POLLHUP && negb (Channel.has revents POLLIN) = true ->
   Channel.has revents (Z.lor POLLIN (Z.lor POLLPRI POLLRDHUP)) = false).

(** What a poll may report: plausible events of descriptors the kernel was asked
    about. *)
Definition kernel_reports (p : P) (ready : list (Z * Z)) : Prop :=
  NoDup (ready.*1) /\ Forall (fun x => plausible x.2 /\ (0 <= x.1)%Z /\ p_asked p x.1 <> 0%Z) ready.

(** The channels of the loop [l] that are no connections; [b] is the base loop. *)
Definition service (b l id : nat) : Prop := id = wake l \/ id = timer l \/ (l = b /\ id = acceptor).

(** The identity of a new connection is new, and nothing that is open has its
    descriptor. *)
Definition acceptable (s : t) (id : nat) : Prop :=
  (id ∉ retired s) /\ objects s !! id = None /\ (forall l, ~ service (baseLoop s) l id) /\
  exists fd, fds !! id = Some fd /\ (0 <= fd)%Z /\
    forall id', fds !! id' = Some fd -> objects s !! id' = None /\ (forall l, ~ service (baseLoop s) l id').

(** [readv] delivers at most what it was given room for. *)
Definition readable (s : t) (id : nat) (r : Z + bytes) : Prop :=
  forall o d, objects s !! id = Some o -> r = inr d ->
    length d <= Buffer.readv_room (TcpConnection.inputBuffer_ (o_tcp o)).

Definition mentions (id : nat) (f : functor) : Prop :=
  match f with FEstablished i | FRemove i | FDestroyed i | FTask i _ => i = id end.

(** The functors of a loop that have not been run. *)
Definition todo (L : loop) : list functor := running L ++ EventLoop.pendingFunctors_ (base L).

(** No [shared_ptr] to the connection is left. *)
Definition unreferenced (s : t) (id : nat) : Prop :=
  (forall nm, TcpServer.connections_ (server s) !! nm <> Some id) /\
  (forall l L, loops s !! l = Some L -> Forall (fun f => ~ mentions id f) (todo L)).

Definition enabled (k : step) (s : t) : Prop :=
  match k with
  | SPoll l ready => exists L, loops s !! l = Some L /\ in_phase L Polling /\ kernel_reports (poller L) ready
  | SHandle l a =>
      exists L id r rest, loops s !! l = Some L /\ in_phase L Handling /\ active L = (id, r) :: rest /\
        readable s id (an_read a) /\ (forall new outs, an_accepted a = Some (new, outs) -> acceptable s new)
  | SCall l => exists L, loops s !! l = Some L /\ in_phase L Handling /\ active L = []
  | SRun l _ => exists L, loops s !! l = Some L /\ in_phase L Calling /\ running L <> []
  | SReturn l => exists L, loops s !! l = Some L /\ in_phase L Calling /\ running L = []
  | SDelete id => is_Some (objects s !! id) /\ unreferenced s id
  end.

Inductive reach (s0 : t) : t -> Prop :=
  | reach_start : reach s0 s0
  | reach_step k s s' : reach s0 s -> enabled k s -> exec k s = Some s' -> reach s0 s'.

(** The steps of a stretch of time. *)
Inductive trace : t -> list step -> t -> Prop :=
  | trace_nil s : trace s [] s
  | trace_cons k ks s s1 s' : enabled k s -> exec k s = Some s1 -> trace s1 ks s' -> trace s (k :: ks) s'.

(** The steps of the loop [l]. *)
Definition step_of (l : nat) (k : step) : Prop :=
  match k with SPoll l' _ | SHandle l' _ | SCall l' | SRun l' _ | SReturn l' => l' = l | SDelete _ => False end.

(** How many functors the loop [l] runs. *)
Definition runs (l : nat) (ks : list step) : nat :=
  length (List.filter (fun k => match k with SRun l' _ => l' =? l | _ => false end) ks).

(** However the threads are interleaved, [Q] has held by the time the loop [l]
    has run as many functors as it has to run now. *)
Definition leads (l : nat) (s : t) (Q : t -> Prop) : Prop :=
  exists L, loops s !! l = Some L /\
    forall ks s', trace s ks s' -> length (todo L) <= runs l ks ->
    exists ks1 ks2 s1, ks = ks1 ++ ks2 /\ trace s ks1 s1 /\ Q s1.

(** ** The start *)

(** A new loop: the channel of its timers and its wake-up channel ask for
    reading.  [heap]: the channels as they are made. *)
Definition openLoop (heap : gmap nat Channel.t) (l : nat) : option loop :=
  p ← impl_run (p_create heap) [Change (timer l) Channel.kReadEvent; Change (wake l) Channel.kReadEvent];
  Some (mkLoop EventLoop.create p [] []).

Fixpoint openLoops (heap : gmap nat Channel.t) (ls : list nat) : option (gmap nat loop) :=
  match ls with
  | [] => Some ∅
  | l :: ls' => L ← openLoop heap l; m ← openLoops heap ls'; Some (<[l := L]> m)
  end.

(** The base loop is made, and the server with [n] threads is started in it: the
    loops of its pool, and the acceptor listens. *)
Definition start (heap : gmap nat Channel.t) (name ipPort : bytes) (b : nat) (fresh : nat -> nat) (n : nat) : option t :=
  B ← openLoop heap b;
  sv ← TcpServer.start (TcpServer.setThreadNum (TcpServer.create name ipPort b) n) fresh;
  m ← openLoops heap (EventLoopThreadPool.loops_ (TcpServer.threadPool_ sv));
  p ← impl_run (poller B) (if 0 <? TcpServer.listening sv then [Change acceptor Channel.kReadEvent] else []);
  Some (mk sv ∅ (<[b := mkLoop (base B) p [] []]> m) ∅).

(** ** What is said of connections *)

Definition closed (s : t) (id : nat) : Prop :=
  exists o, objects s !! id = Some o /\ TcpConnection.state_ (o_tcp o) = TcpConnection.kDisconnected.

(** The server does not list it. *)
Definition removed (s : t) (id : nat) : Prop := forall nm, TcpServer.connections_ (server s) !! nm <> Some id.

(** And its loop's poller does not watch it. *)
Definition destroyed (s : t) (id : nat) : Prop :=
  removed s id /\ exists o L, objects s !! id = Some o /\ loops s !! o_loop o = Some L /\
    Channel.addedToLoop_ (TcpConnection.channel_ (o_tcp o)) = false /\
    p_asked (poller L) (Channel.fd_ (TcpConnection.channel_ (o_tcp o))) = 0%Z.

(** The server has let go of it, and it is destroyed in time. *)
Definition on_its_way (s : t) (id : nat) : Prop :=
  removed s id /\ exists o, objects s !! id = Some o /\ leads (o_loop o) s (fun s' => destroyed s' id).

(** What the server, the connections and the pollers agree on. *)
Record accounted (s : t) : Prop := {
  ac_listed nm id : TcpServer.connections_ (server s) !! nm = Some id ->
    exists o, objects s !! id = Some o /\ o_name o = nm;
  ac_open id o : objects s !! id = Some o -> is_open (o_tcp o) ->
    TcpServer.connections_ (server s) !! o_name o = Some id /\
    exists L, loops s !! o_loop o = Some L /\
      let ch := TcpConnection.channel_ (o_tcp o) in
      p_asked (poller L) (Channel.fd_ ch) = Channel.events_ ch /\
      (Channel.events_ ch <> 0%Z -> p_owner (poller L) (Channel.fd_ ch) = Some id);
  ac_descriptors id id' o o' : objects s !! id = Some o -> objects s !! id' = Some o' ->
    Channel.fd_ (TcpConnection.channel_ (o_tcp o)) = Channel.fd_ (TcpConnection.channel_ (o_tcp o')) -> id = id';
  ac_closed id : closed s id ->
    (forall l L, loops s !! l = Some L -> Forall (fun f => ~ mentions id f) (todo L)) -> destroyed s id;
  ac_prompt l L : loops s !! l = Some L -> EventLoop.eventHandling_ (base L) = false ->
    EventLoop.pendingFunctors_ (base L) <> [] -> 0 < EventLoop.wakeups (base L)
}.

(** The loops' own channels: new ones, of different descriptors within a loop. *)
Record own_channels (heap : gmap nat Channel.t) (b : nat) (ls : list nat) : Prop := {
  oc_new : new_channels heap;
  oc_distinct : NoDup (b :: ls);
  oc_loop l : l ∈ b :: ls -> exists f g, Channel.fd_ <$> heap !! timer l = Some f /\
    Channel.fd_ <$> heap !! wake l = Some g /\ f <> g;
  oc_acceptor : exists f, Channel.fd_ <$> heap !! acceptor = Some f /\
    Channel.fd_ <$> heap !! timer b <> Some f /\ Channel.fd_ <$> heap !! wake b <> Some f
}.


End server.
Arguments t : clear implicits.
Arguments loop : clear implicits.
Arguments object : clear implicits.
Arguments functor : clear implicits.
End ServerLoops.
