(* ===== verification/ServerFacts.v ===== *)
(** * The server at work: its invariant

    Where a connection stands in its life is determined by the functor that will
    take it further; no step of any thread fails an assertion. *)

From S2P Require Import Prelude CxxString ByteBuffer Channel Poller TcpConnection Lifecycle EventLoop TcpServer.
From S2P Require Import ServerLoops.
Import ServerLoops.

Section facts.
Context {W P : Type} {HP : Poller P} {HS : PollerSpec P}.
Variable fds : gmap nat Z.
Variable wake timer : nat -> nat.
Variable acceptor : nat.
Variable wcc : option W.
Abbreviation functor := (ServerLoops.functor W).
Abbreviation object := (ServerLoops.object W).
Abbreviation loop := (ServerLoops.loop W P).
Abbreviation t := (ServerLoops.t W P).
Implicit Types (s : t) (o : object) (L : loop).
Abbreviation fd_of o := (Channel.fd_ (TcpConnection.channel_ (o_tcp o))).
Abbreviation events_of o := (Channel.events_ (TcpConnection.channel_ (o_tcp o))).
Abbreviation service := (ServerLoops.service wake timer acceptor).

(** ** The stages of a connection *)

(** Accepted and not established; open; closed, and the server does not know;
    out of the server's table and not destroyed; destroyed. *)
Inductive stage := Waiting | Up | Closed | Leaving | Gone.

Definition registered (st : stage) : bool := match st with Up | Closed | Leaving => true | _ => false end.
Definition listed (st : stage) : bool := match st with Waiting | Up | Closed => true | _ => false end.

(** The functor that takes a connection to its next stage, and its loop. *)
Definition duty (b : nat) o (id : nat) (st : stage) : option (nat * functor) :=
  match st with
  | Waiting => Some (o_loop o, FEstablished id)
  | Closed => Some (b, FRemove id)
  | Leaving => Some (o_loop o, FDestroyed id)
  | Up | Gone => None
  end.

Definition is_stage (c : TcpConnection.t W) (st : stage) : Prop :=
  match st with
  | Waiting => TcpConnection.state_ c = TcpConnection.kConnecting
  | Up => is_open c
  | Closed | Leaving | Gone => TcpConnection.state_ c = TcpConnection.kDisconnected
  end.

(** The functors of a list that change the stage of [id]. *)
Definition lifecycle (id : nat) (f : functor) : bool :=
  match f with
  | FEstablished i | FRemove i | FDestroyed i => i =? id
  | FTask _ _ => false
  end.

Definition due (id : nat) (fs : list functor) : list functor := List.filter (lifecycle id) fs.

Lemma due_app id fs fs' : due id (fs ++ fs') = due id fs ++ due id fs'.
Proof. apply List.filter_app. Qed.

Definition at_loop (l : nat) (x : option (nat * functor)) : list functor :=
  match x with Some (l', f) => if l =? l' then [f] else [] | None => [] end.

(** ** The invariant *)

Record object_ok o (st : stage) : Prop := {
  ob_sound : sound (o_tcp o);
  ob_queue : TcpConnection.queue (o_tcp o) = [];
  ob_stage : is_stage (o_tcp o) st;
  ob_added : registered st = false -> Channel.addedToLoop_ (TcpConnection.channel_ (o_tcp o)) = false;
  ob_tie : Channel.tie_ (TcpConnection.channel_ (o_tcp o)) <> Some false;
  ob_fd : (0 <= fd_of o)%Z
}.

(** What the poller of the loop [l] watches: the loop's own channels and its
    connections from their establishment to their destruction. *)
Record watch_ok b (objs : gmap nat object) (stg : gmap nat stage) (dead : gset nat) l (a : watchlist) : Prop := {
  wo_live id f e : live a !! id = Some (f, e) -> fds !! id = Some f /\
    (service b l id \/ exists o st, objs !! id = Some o /\ stg !! id = Some st /\ o_loop o = l /\ registered st = true);
  wo_registered id o st : objs !! id = Some o -> stg !! id = Some st -> o_loop o = l -> registered st = true ->
    live a !! id = Some (fd_of o, events_of o);
  wo_gone id : id ∈ gone a -> id ∈ dead \/ stg !! id = Some Gone
}.

(** What a loop has still to handle, and the state of its thread. *)
Record loop_ok b (objs : gmap nat object) (stg : gmap nat stage) l L : Prop := {
  lo_prompt : EventLoop.eventHandling_ (base L) = false -> EventLoop.pendingFunctors_ (base L) <> [] ->
    0 < EventLoop.wakeups (base L);
  lo_flags : EventLoop.eventHandling_ (base L) = true -> EventLoop.callingPendingFunctors_ (base L) = false;
  lo_once : NoDup ((active L).*1);
  lo_active : Forall (fun x => plausible x.2 /\ (service b l x.1 \/
    (stg !! x.1 = Some Up /\ exists o, objs !! x.1 = Some o /\ o_loop o = l))) (active L);
  lo_idle : EventLoop.eventHandling_ (base L) = false -> active L = [];
  lo_running : EventLoop.callingPendingFunctors_ (base L) = false -> running L = []
}.

(** A functor in a loop refers to a connection that exists; a task, to one of
    the loop, established before. *)
Definition functor_ok (objs : gmap nat object) l (f : functor) : Prop :=
  match f with
  | FEstablished id | FRemove id | FDestroyed id => is_Some (objs !! id)
  | FTask id _ => exists o, objs !! id = Some o /\ o_loop o = l /\ TcpConnection.state_ (o_tcp o) <> TcpConnection.kConnecting
  end.

(** The server's pool, whose loops exist. *)
Record pool_ok b (sv : TcpServer.t) (ls : gmap nat loop) : Prop := {
  po_base : EventLoopThreadPool.baseLoop_ (TcpServer.threadPool_ sv) = b;
  po_started : EventLoopThreadPool.started_ (TcpServer.threadPool_ sv) = true;
  po_next : EventLoopThreadPool.loops_ (TcpServer.threadPool_ sv) <> [] ->
    EventLoopThreadPool.next_ (TcpServer.threadPool_ sv) < length (EventLoopThreadPool.loops_ (TcpServer.threadPool_ sv));
  po_loops : Forall (fun l => is_Some (ls !! l)) (b :: EventLoopThreadPool.loops_ (TcpServer.threadPool_ sv))
}.

(** [owed] is a functor of a loop that is being run, or about to be queued. *)
Record inv b (owed : option (nat * functor)) (stg : gmap nat stage) s : Prop := {
  in_server : TcpServer.wf (server s) /\ (1 <= TcpServer.nextConnId_ (server s))%Z;
  in_pool : pool_ok b (server s) (loops s);
  in_dom id : is_Some (stg !! id) <-> is_Some (objects s !! id);
  in_object id o st : objects s !! id = Some o -> stg !! id = Some st -> object_ok o st /\ is_Some (loops s !! o_loop o);
  in_fds id o : objects s !! id = Some o -> fds !! id = Some (fd_of o) /\ (id ∉ retired s) /\
    (forall l, ~ service b l id) /\
    (forall id', fds !! id' = Some (fd_of o) -> (forall l, ~ service b l id') /\
       (is_Some (objects s !! id') -> id' = id));
  in_table nm id : TcpServer.connections_ (server s) !! nm = Some id <->
    exists o st, objects s !! id = Some o /\ stg !! id = Some st /\ o_name o = nm /\ listed st = true;
  in_duty l L id o st : loops s !! l = Some L -> objects s !! id = Some o -> stg !! id = Some st ->
    due id (todo L ++ at_loop l owed) = at_loop l (duty b o id st);
  in_known l L : loops s !! l = Some L -> Forall (functor_ok (objects s) l) (todo L ++ at_loop l owed);
  in_watch l L : loops s !! l = Some L ->
    exists a, sim fds (poller L) a /\ watch_ok b (objects s) stg (retired s) l a;
  in_loop l L : loops s !! l = Some L -> loop_ok b (objects s) stg l L
}.

(** ** Changes of a loop *)

Lemma at_loop_perm fs l x : fs ≡ₚ at_loop l x -> fs = at_loop l x.
Proof.
  destruct x as [[l' f]|]; cbn; [destruct (l =? l')|]; intros Hp.
  - by apply Permutation_singleton_r.
  - by apply Permutation_nil_r.
  - by apply Permutation_nil_r.
Qed.

(** The loop [l] changes, keeping what connections are owed. *)
Lemma inv_loop b owed owed' stg s l L L' a :
  inv b owed stg s -> loops s !! l = Some L ->
  sim fds (poller L') a -> watch_ok b (objects s) stg (retired s) l a ->
  (forall id, due id (todo L' ++ at_loop l owed') ≡ₚ due id (todo L ++ at_loop l owed)) ->
  (forall l0, l0 <> l -> at_loop l0 owed' = at_loop l0 owed) ->
  Forall (functor_ok (objects s) l) (todo L' ++ at_loop l owed') -> loop_ok b (objects s) stg l L' ->
  inv b owed' stg (set_loop s l L').
Proof.
  intros [Hsv Hpo Hdom Hob Hf Ht Hdu Hkn Hwa Hlo] Hl Hsim Hw Hdue Hoth Hok HL'.
  split; cbn [server objects loops retired set_loop]; try done.
  - destruct Hpo as [? ? ? Hall]. split; try done. eapply Forall_impl; [exact Hall|].
    intros l0 ?. apply lookup_insert_is_Some'. by right.
  - intros id o st Ho Hst. destruct (Hob id o st Ho Hst) as [? ?]. split; [done|]. apply lookup_insert_is_Some'. by right.
  - intros l0 L0 id o st [[<- <-]|[Hne H0]]%lookup_insert_Some Ho Hst.
    + apply at_loop_perm. rewrite Hdue. by rewrite (Hdu l L id o st).
    + rewrite Hoth by done. by apply (Hdu l0 L0).
  - intros l0 L0 [[<- <-]|[Hne H0]]%lookup_insert_Some; [done|]. rewrite Hoth by done. by apply Hkn.
  - intros l0 L0 [[<- <-]|[Hne H0]]%lookup_insert_Some; [by exists a|by apply Hwa].
  - intros l0 L0 [[<- <-]|[Hne H0]]%lookup_insert_Some; [done|by apply Hlo].
Qed.

(** The same when the poller does not change. *)
Lemma inv_same_poller b owed owed' stg s l L L' :
  inv b owed stg s -> loops s !! l = Some L -> poller L' = poller L ->
  (forall id, due id (todo L' ++ at_loop l owed') ≡ₚ due id (todo L ++ at_loop l owed)) ->
  (forall l0, l0 <> l -> at_loop l0 owed' = at_loop l0 owed) ->
  Forall (functor_ok (objects s) l) (todo L' ++ at_loop l owed') -> loop_ok b (objects s) stg l L' ->
  inv b owed' stg (set_loop s l L').
Proof.
  intros Hinv Hl Hp. destruct (in_watch _ _ _ _ Hinv l L Hl) as (a & Hsim & Hw). rewrite <- Hp in Hsim.
  intros. by eapply inv_loop.
Qed.

(** The thread of the loop is not waiting in a poll. *)
Definition busy s (cur : nat) : Prop :=
  exists L, loops s !! cur = Some L /\
    (EventLoop.eventHandling_ (base L) = true \/ EventLoop.callingPendingFunctors_ (base L) = true).

(** What a handler leaves alone: the lists of its own thread and the flags; the
    functors that were pending stay in front. *)
Definition thread_of L := (active L, running L, EventLoop.eventHandling_ (base L), EventLoop.callingPendingFunctors_ (base L)).
Definition extends L L' : Prop :=
  thread_of L' = thread_of L /\ EventLoop.pendingFunctors_ (base L) `prefix_of` EventLoop.pendingFunctors_ (base L').

Record frame s s' : Prop := {
  fr_loops l : option_Forall2 extends (loops s !! l) (loops s' !! l);
  fr_retired : retired s' = retired s
}.

#[export] Instance extends_preorder : PreOrder extends.
Proof.
  split; [by intros L|]. intros L1 L2 L3 [E1 P1] [E2 P2]. split; [congruence|by etransitivity].
Qed.

#[export] Instance frame_preorder : PreOrder frame.
Proof.
  split; [intros s; split; [|done]; intros l; reflexivity|].
  intros s1 s2 s3 [] []. split; [|congruence]. intros l. by transitivity (loops s2 !! l).
Qed.

Lemma frame_lookup s s' l L : frame s s' -> loops s !! l = Some L ->
  exists L', loops s' !! l = Some L' /\ extends L L'.
Proof. intros [Hl _] HL. specialize (Hl l). rewrite HL in Hl. inversion Hl as [? L' He E1 E2|]. by exists L'. Qed.

Lemma frame_back s s' l L' : frame s s' -> loops s' !! l = Some L' ->
  exists L, loops s !! l = Some L /\ extends L L'.
Proof. intros [Hl _] HL. specialize (Hl l). rewrite HL in Hl. inversion Hl as [L ? He E1 E2|]. by exists L. Qed.

Lemma frame_set s l L L' :
  loops s !! l = Some L -> extends L L' -> frame s (set_loop s l L').
Proof.
  intros HL E. split; [|done]. intros l0. cbn. destruct (decide (l0 = l)) as [->|].
  - rewrite lookup_insert_eq, HL. by constructor.
  - rewrite lookup_insert_ne by done. reflexivity.
Qed.

(** The same when the server and the connections stay as they are. *)
Record quiet s s' : Prop := {
  qu_server : server s' = server s;
  qu_objects : objects s' = objects s;
  qu_frame : frame s s'
}.

#[export] Instance quiet_preorder : PreOrder quiet.
Proof. split; [by intros s|]. intros s1 s2 s3 [] []. split; [congruence..|by transitivity s2]. Qed.

Lemma frame_busy s s' cur : frame s s' -> busy s cur -> busy s' cur.
Proof.
  intros Hf (L & HL & Hb). destruct (frame_lookup s s' cur L Hf HL) as (L' & HL' & [E _]).
  injection E as _ _ E1 E2. exists L'. by rewrite E1, E2.
Qed.

Lemma frame_active s s' cur id : frame s s' ->
  (forall L, loops s !! cur = Some L -> id ∉ (active L).*1) -> forall L, loops s' !! cur = Some L -> id ∉ (active L).*1.
Proof.
  intros Hf Ha L HL. destruct (frame_back s s' cur L Hf HL) as (L0 & HL0 & [E _]).
  injection E as E1 _ _ _. rewrite E1. by apply Ha.
Qed.

(** A functor is queued, from the thread of any loop that is busy. *)
Lemma queue_inv b owed owed' stg s cur l f :
  inv b owed stg s -> busy s cur -> is_Some (loops s !! l) -> functor_ok (objects s) l f ->
  (owed = Some (l, f) /\ owed' = None \/ owed' = owed /\ forall id, lifecycle id f = false) ->
  exists s', queueInLoop cur l f s = Some s' /\ inv b owed' stg s' /\ quiet s s'.
Proof.
  intros Hinv Hb [L HL] Hf Ho. unfold queueInLoop. rewrite HL. cbn [mbind option_bind].
  eexists. split; [reflexivity|].
  assert (forall b0, let q := EventLoop.queueInLoop b0 f (base L) in
    EventLoop.pendingFunctors_ q = EventLoop.pendingFunctors_ (base L) ++ [f] /\
    EventLoop.eventHandling_ q = EventLoop.eventHandling_ (base L) /\
    EventLoop.callingPendingFunctors_ q = EventLoop.callingPendingFunctors_ (base L) /\
    EventLoop.wakeups q = (if negb b0 || EventLoop.callingPendingFunctors_ (base L)
                           then S (EventLoop.wakeups (base L)) else EventLoop.wakeups (base L))) as Hq.
  { intros b0. unfold EventLoop.queueInLoop. cbn. by destruct (negb b0 || _). }
  destruct (Hq (cur =? l)) as (Ep & Eh & Ec & Ew). clear Hq. split.
  - apply (inv_same_poller b owed _ _ _ l L); try done.
    + intros id. apply reflexive_eq. unfold todo. cbn [running base]. rewrite Ep, !due_app, <- !app_assoc. do 2 f_equal.
      destruct Ho as [[-> ->]|[-> Hno]]; cbn [at_loop].
      * by rewrite Nat.eqb_refl, app_nil_r.
      * unfold due at 1. cbn [List.filter]. by rewrite Hno.
    + destruct Ho as [[-> ->]|[-> _]]; [|done]. intros l0 Hne. cbn. by destruct (Nat.eqb_spec l0 l).
    + pose proof (in_known _ _ _ _ Hinv l L HL) as Hk. unfold todo in *. cbn [running base]. rewrite Ep.
      rewrite !Forall_app in *. destruct Hk as [[? ?] ?]. split_and!; try done; [by constructor|].
      destruct Ho as [[-> ->]|[-> _]]; [by constructor|done].
    + destruct (in_loop _ _ _ _ Hinv l L HL). split; cbn [base active running]; rewrite ?Eh, ?Ec, ?Ew; try done.
      intros Hnh _. destruct (Nat.eqb_spec cur l) as [->|]; cbn; [|lia].
      destruct Hb as (L1 & HL1 & [E|E]); rewrite HL in HL1; injection HL1 as <-; [congruence|rewrite E; lia].
  - split; [done|done|]. apply (frame_set s l L); [done|]. split; [unfold thread_of; cbn; by rewrite Eh, Ec|].
    cbn. rewrite Ep. by apply prefix_app_r.
Qed.

(** A connection's tasks are queued. *)
Lemma queueAll_inv b owed stg cur ks : forall s id o,
  inv b owed stg s -> busy s cur -> objects s !! id = Some o -> o_loop o = cur ->
  TcpConnection.state_ (o_tcp o) <> TcpConnection.kConnecting ->
  exists s', queueAll cur cur (FTask id <$> ks) s = Some s' /\ inv b owed stg s' /\ quiet s s'.
Proof.
  induction ks as [|k ks IH]; intros s id o Hinv Hb Ho Hl Hst; cbn [fmap list_fmap queueAll].
  - by exists s.
  - destruct (in_object _ _ _ _ Hinv id o) with (st := default Up (stg !! id)) as [_ HL]; [done| |].
    { destruct (in_dom _ _ _ _ Hinv id) as [_ Hd]. destruct Hd as [st ->]; [by eexists|done]. }
    rewrite Hl in HL.
    destruct (queue_inv b owed owed stg s cur cur (FTask id k)) as (s1 & -> & H1 & Hq1); try done.
    { by exists o. } { by right. }
    cbn [mbind option_bind]. destruct (IH s1 id o) as (s' & -> & H2 & Hq2); try done.
    { by eapply frame_busy; [apply Hq1|]. } { by rewrite (qu_objects _ _ Hq1). }
    exists s'. split; [done|]. split; [done|]. by etransitivity.
Qed.

(** ** Changes of a connection *)

Lemma due_duty b o id st l : due id (at_loop l (duty b o id st)) = at_loop l (duty b o id st).
Proof.
  destruct st; cbn; try done; destruct (_ =? _); try done; unfold due; cbn; by rewrite Nat.eqb_refl.
Qed.

(** A connection that is owed its duty has no functor in the loops. *)
Lemma owed_none b stg s id o st l L :
  inv b (duty b o id st) stg s -> objects s !! id = Some o -> stg !! id = Some st ->
  loops s !! l = Some L -> due id (todo L) = [].
Proof.
  intros Hinv Ho Hst Hl. pose proof (in_duty _ _ _ _ Hinv l L id o st Hl Ho Hst) as Hd.
  rewrite due_app, due_duty in Hd. apply (f_equal length) in Hd. rewrite length_app in Hd.
  destruct (due id (todo L)); [done|cbn in Hd; lia].
Qed.

(** The poller of a loop, and the connection [id] of it, change. *)
Lemma inv_change b owed owed' stg s id o o' st st' sv L p a :
  inv b owed stg s -> objects s !! id = Some o -> stg !! id = Some st -> loops s !! o_loop o = Some L ->
  o_name o' = o_name o -> o_loop o' = o_loop o -> fd_of o' = fd_of o -> object_ok o' st' ->
  TcpConnection.state_ (o_tcp o') <> TcpConnection.kConnecting ->
  (TcpServer.wf sv /\ (1 <= TcpServer.nextConnId_ sv)%Z) -> pool_ok b sv (loops s) ->
  (forall nm id', TcpServer.connections_ sv !! nm = Some id' <->
     if decide (id' = id) then nm = o_name o /\ listed st' = true
     else TcpServer.connections_ (server s) !! nm = Some id') ->
  sim fds p a -> watch_ok b (<[id := o']> (objects s)) (<[id := st']> stg) (retired s) (o_loop o) a ->
  (st = Gone -> st' = Gone) ->
  (forall l L0, loops s !! l = Some L0 -> due id (todo L0 ++ at_loop l owed') = at_loop l (duty b o' id st')) ->
  (forall l id', id' <> id -> due id' (at_loop l owed') = due id' (at_loop l owed)) ->
  (forall l, Forall (functor_ok (<[id := o']> (objects s)) l) (at_loop l owed')) ->
  (st' = Up \/ id ∉ (active L).*1) ->
  inv b owed' (<[id := st']> stg)
    (mk sv (<[id := o']> (objects s)) (<[o_loop o := mkLoop (base L) p (active L) (running L)]> (loops s)) (retired s)).
Proof.
  intros [Hsv Hpo Hdom Hob Hf Ht Hdu Hkn Hwa Hlo] Ho Hst HL En El Ef Hok Hnc Hsv' Hpo' Ht' Hsim Hw Hgone Hduty Hoth Hkn' Hact.
  assert (forall l, is_Some (loops s !! l) ->
    is_Some (<[o_loop o:=mkLoop (base L) p (active L) (running L)]> (loops s) !! l)) as Hls.
  { intros l ?. apply lookup_insert_is_Some'. by right. }
  assert (forall l f, functor_ok (objects s) l f -> functor_ok (<[id := o']> (objects s)) l f) as Hfo.
  { intros l f. destruct f as [i|i|i|i k]; cbn; [intros; apply lookup_insert_is_Some'; by right..|].
    intros (o1 & H1 & H2 & H3). destruct (decide (i = id)) as [->|]; [|exists o1; by rewrite lookup_insert_ne].
    exists o'. rewrite lookup_insert_eq. simplify_eq. by rewrite El. }
  split; cbn [server objects loops retired]; try done.
  - destruct Hpo' as [? ? ? Hall]. split; try done. eapply Forall_impl; [exact Hall|]. exact Hls.
  - intros i. rewrite !lookup_insert_is_Some'. by rewrite Hdom.
  - intros i o1 st1. destruct (decide (i = id)) as [->|].
    + rewrite !lookup_insert_eq. intros [= <-] [= <-]. split; [done|]. rewrite El. apply Hls. by exists L.
    + rewrite !lookup_insert_ne by done. intros H1 H2. destruct (Hob i o1 st1 H1 H2). auto.
  - assert (forall i o1, <[id:=o']> (objects s) !! i = Some o1 ->
      exists o2, objects s !! i = Some o2 /\ fd_of o2 = fd_of o1) as Hback.
    { intros i o1. destruct (decide (i = id)) as [->|].
      - rewrite lookup_insert_eq. intros [= <-]. by exists o.
      - rewrite lookup_insert_ne by done. intros. by exists o1. }
    intros i o1 H1. destruct (Hback i o1 H1) as (o2 & H2 & <-). destruct (Hf i o2 H2) as (? & ? & ? & Hu).
    split_and!; try done. intros i' Hi'. destruct (Hu i' Hi') as [? Hs']. split; [done|].
    rewrite lookup_insert_is_Some'. intros [->|?]; [apply Hs'; by exists o|by apply Hs'].
  - intros nm i. rewrite Ht'. destruct (decide (i = id)) as [->|Hne].
    + rewrite lookup_insert_eq. split.
      * intros [-> Hl]. exists o', st'. by rewrite lookup_insert_eq.
      * intros (o1 & st1 & [= <-] & E & <- & ?). rewrite lookup_insert_eq in E. simplify_eq. by rewrite En.
    + rewrite Ht. rewrite (lookup_insert_ne (objects s)), (lookup_insert_ne stg) by done. done.
  - intros l L0 i o1 st1 Hl. assert (exists L1, loops s !! l = Some L1 /\ todo L0 = todo L1) as (L1 & H1 & ->).
    { apply lookup_insert_Some in Hl as [[<- <-]|[_ Hl]]; [by exists L|by exists L0]. }
    destruct (decide (i = id)) as [->|].
    + rewrite !lookup_insert_eq. intros [= <-] [= <-]. by apply Hduty.
    + rewrite !lookup_insert_ne by done. intros H2 H3. rewrite due_app, Hoth, <- due_app by done. by apply Hdu.
  - intros l L0 Hl. assert (exists L1, loops s !! l = Some L1 /\ todo L0 = todo L1) as (L1 & H1 & ->).
    { apply lookup_insert_Some in Hl as [[<- <-]|[_ Hl]]; [by exists L|by exists L0]. }
    apply Forall_app. split; [|apply Hkn']. specialize (Hkn l L1 H1). apply Forall_app in Hkn as [Hk _].
    eapply Forall_impl; [exact Hk|]. apply Hfo.
  - intros l L0 [[<- <-]|[Hne Hl]]%lookup_insert_Some; [by exists a|].
    destruct (Hwa l L0 Hl) as (a0 & Hs0 & [W1 W2 W3]). exists a0. split; [done|]. split.
    + intros i f e Hi. destruct (W1 i f e Hi) as [? [?|(o1 & st1 & ? & ? & ? & ?)]]; split; auto.
      right. exists o1, st1. assert (i <> id) by (intros ->; simplify_eq). by rewrite !lookup_insert_ne.
    + intros i o1 st1. destruct (decide (i = id)) as [->|].
      * rewrite lookup_insert_eq. intros [= <-] _ E. by rewrite El in E.
      * rewrite !lookup_insert_ne by done. apply W2.
    + intros i Hi. destruct (W3 i Hi) as [?|Hg]; [by left|right]. destruct (decide (i = id)) as [->|].
      * rewrite lookup_insert_eq. simplify_eq. by rewrite Hgone.
      * by rewrite lookup_insert_ne.
  - intros l L0 Hl. assert (exists L1, loops s !! l = Some L1 /\ loop_ok b (objects s) stg l L1 /\
      base L0 = base L1 /\ active L0 = active L1 /\ running L0 = running L1 /\ (l = o_loop o -> L1 = L))
      as (L1 & H1 & [Q1 Q2 Q3 Q4 Q5 Q6] & E1 & E2 & E3 & E4).
    { apply lookup_insert_Some in Hl as [[<- <-]|[_ Hl]]; [exists L|exists L0]; auto 6.
      split_and!; auto. intros ->. congruence. }
    split; rewrite ?E1, ?E2, ?E3; try done. apply Forall_forall. intros [i r] Hin.
    eapply Forall_forall in Q4 as [Hr Hk]; [|exact Hin]. cbn in *. split; [done|].
    destruct Hk as [?|[Hup (o1 & H2 & H3)]]; [by left|right]. destruct (decide (i = id)) as [->|].
    + simplify_eq. rewrite !lookup_insert_eq. destruct Hact as [->|Hno]; [split; [done|by exists o']|].
      destruct Hno. apply list_elem_of_fmap. by exists (id, r).
    + rewrite !lookup_insert_ne by done. split; [done|by exists o1].
Qed.

(** ** Operations of a connection *)

(** The updates of a registered channel: the last one counts. *)
Lemma changes_run (a : watchlist) id f e us :
  live a !! id = Some (f, e) -> fds !! id = Some f -> id ∉ gone a -> Forall (fun e => 0 <= e < 8)%Z us ->
  spec_run fds a (Change id <$> us) = Some (mkWatch (<[id := (f, default e (last us))]> (live a)) (gone a)).
Proof.
  intros Hl Hf Hg Hus. revert a e Hl Hg. induction Hus as [|e' us He _ IH]; intros a e Hl Hg; cbn [fmap list_fmap spec_run].
  - rewrite insert_id by done. by destruct a.
  - cbn [spec_step]. rewrite Hf. cbn [mbind option_bind].
    replace (bool_decide (id ∉ gone a) && (0 <=? e')%Z && (e' <? 2 ^ 15)%Z) with true
      by (rewrite bool_decide_true by done; symmetry; cbn [andb]; apply andb_true_iff; lia).
    rewrite Hl. cbn [mbind option_bind]. rewrite (IH _ e') by (cbn; rewrite ?lookup_insert_eq; done).
    cbn. rewrite insert_insert_eq. rewrite last_cons. by destruct (last us).
Qed.

Lemma watch_update b objs stg dead l a a' id o o' st st' :
  watch_ok b objs stg dead l a -> objs !! id = Some o -> stg !! id = Some st ->
  o_loop o' = l -> o_loop o = l -> fds !! id = Some (fd_of o') -> (forall l, ~ service b l id) ->
  live a' !! id = (if registered st' then Some (fd_of o', events_of o') else None) ->
  (forall i, i <> id -> live a' !! i = live a !! i) ->
  (forall i, i ∈ gone a' -> i ∈ gone a \/ i = id /\ st' = Gone) -> (st = Gone -> st' = Gone) ->
  watch_ok b (<[id := o']> objs) (<[id := st']> stg) dead l a'.
Proof.
  intros [W1 W2 W3] Ho Hst El El0 Hf Hns Hid Hoth Hg Hgone. split.
  - intros i f e. destruct (decide (i = id)) as [->|Hne].
    + rewrite Hid. destruct (registered st') eqn:Er; [|done]. intros [= <- <-]. split; [done|].
      right. exists o', st'. by rewrite !lookup_insert_eq.
    + rewrite Hoth by done. intros Hi. destruct (W1 i f e Hi) as [? [?|(o1 & st1 & ?)]]; (split; [done|]); [by left|].
      right. exists o1, st1. by rewrite !lookup_insert_ne.
  - intros i o1 st1. destruct (decide (i = id)) as [->|Hne].
    + rewrite !lookup_insert_eq. intros [= <-] [= <-] _ Hr. by rewrite Hid, Hr.
    + rewrite !lookup_insert_ne, Hoth by done. apply W2.
  - intros i Hi. destruct (decide (i = id)) as [->|Hne].
    + rewrite lookup_insert_eq. destruct (Hg id Hi) as [Hi'|[_ ->]]; [|by right].
      destruct (W3 id Hi') as [?|E]; [by left|]. rewrite E in Hst. injection Hst as <-. right. by rewrite Hgone.
    + rewrite lookup_insert_ne by done. apply W3. by destruct (Hg i Hi) as [?|[? _]].
Qed.

(** A connection that is not registered has no entry. *)
Lemma not_watched b objs stg dead l a id o st :
  watch_ok b objs stg dead l a -> objs !! id = Some o -> stg !! id = Some st ->
  (forall l, ~ service b l id) -> registered st = false -> live a !! id = None.
Proof.
  intros [W1 _ _] Ho Hst Hns Hr. destruct (live a !! id) as [[f e]|] eqn:E; [|done].
  destruct (W1 id f e E) as [_ [Hs|(o1 & st1 & ? & ? & _ & ?)]]; [by destruct (Hns l)|]. simplify_eq. congruence.
Qed.

Lemma set_loop_id s l L : loops s !! l = Some L ->
  <[l := mkLoop (base L) (poller L) (active L) (running L)]> (loops s) = loops s.
Proof. intros. apply insert_id. by destruct L. Qed.

(** Only connections that are up are to be handled. *)
Lemma not_active b owed stg s l L id o st :
  inv b owed stg s -> loops s !! l = Some L -> objects s !! id = Some o -> stg !! id = Some st -> st <> Up ->
  id ∉ (active L).*1.
Proof.
  intros Hinv HL Ho Hst Hne Hin. apply list_elem_of_fmap in Hin as ([i r] & -> & Hin). cbn in *.
  destruct (in_loop _ _ _ _ Hinv _ _ HL) as [_ _ _ Ha _ _]. eapply Forall_forall in Ha as [_ [Hs|[E _]]]; [| |exact Hin].
  - pose proof (in_fds _ _ _ _ Hinv i o Ho) as (_ & _ & Hns & _). by destruct (Hns l).
  - cbn in *. congruence.
Qed.

(** [removeConnectionInLoop], once it is owed. *)
Lemma removeConnectionInLoop_inv b stg s cur id o :
  inv b (Some (b, FRemove id)) stg s -> busy s cur -> objects s !! id = Some o -> stg !! id = Some Closed ->
  exists s', removeConnectionInLoop cur id s = Some s' /\ inv b None (<[id := Leaving]> stg) s' /\
    frame s s' /\ objects s' = objects s.
Proof.
  intros Hinv Hb Ho Hst. unfold removeConnectionInLoop. rewrite Ho. cbn [mbind option_bind].
  destruct (in_object _ _ _ _ Hinv id o Closed Ho Hst) as [Hok [L HL]].
  destruct (in_watch _ _ _ _ Hinv _ _ HL) as (a & Hsim & Hw). pose proof (in_fds _ _ _ _ Hinv id o Ho) as (Hf & _ & Hns & _).
  set (sv := TcpServer.removeConnectionInLoop (server s) (o_name o)). set (s1 := set_server s sv).
  assert (inv b (Some (o_loop o, FDestroyed id)) (<[id := Leaving]> stg) s1) as H1.
  { pose proof (inv_change b (Some (b, FRemove id)) (Some (o_loop o, FDestroyed id)) stg s id o o Closed Leaving sv L (poller L) a)
      as Hc. rewrite (insert_id (objects s) id o Ho), (set_loop_id s (o_loop o) L HL) in Hc. apply Hc; clear Hc; try done.
    - destruct Hok. by split.
    - pose proof (ob_stage _ _ Hok) as E. cbn in E. congruence.
    - split; [|apply (in_server _ _ _ _ Hinv)]. apply TcpServer.removeConnection_removes, (in_server _ _ _ _ Hinv).
    - destruct (in_pool _ _ _ _ Hinv). by split.
    - intros nm i. unfold sv. cbn. rewrite lookup_delete_Some.
      assert (TcpServer.connections_ (server s) !! o_name o = Some id) as Hid.
      { apply (in_table _ _ _ _ Hinv). by exists o, Closed. }
      destruct (decide (i = id)) as [->|Hne]; [|split; [by intros []|]; intros E; split; [|done]; intros <-; congruence].
      split; [|by intros []]. intros [Hnm E]. apply (in_table _ _ _ _ Hinv) in E as (o1 & st1 & ? & ? & ? & ?). by simplify_eq.
    - replace (objects s) with (<[id := o]> (objects s)) by by rewrite insert_id.
      apply (watch_update b (objects s) stg (retired s) (o_loop o) a a id o o Closed Leaving); try done; [|by left].
      by rewrite (wo_registered _ _ _ _ _ _ Hw id o Closed).
    - intros l L0 Hl. rewrite due_app. rewrite (owed_none b stg s id o Closed l L0) by done. apply (due_duty b o id Leaving).
    - intros l i Hne. cbn. destruct (_ =? _), (_ =? _); unfold due; cbn; try done;
        destruct (Nat.eqb_spec id i); congruence.
    - intros l. cbn. destruct (_ =? _); [|done]. constructor; [by exists o|done].
    - right. by eapply not_active. }
  destruct (queue_inv b (Some (o_loop o, FDestroyed id)) None (<[id := Leaving]> stg) s1 cur (o_loop o) (FDestroyed id))
    as (s' & -> & H2 & Hq); [done|done|by exists L|by exists o|by left|].
  exists s'. split; [done|]. split; [done|]. split; [|by rewrite (qu_objects _ _ Hq)].
  transitivity s1; [|apply Hq]. split; [intros l; reflexivity|done].
Qed.

Lemma removeConnection_inv b stg s cur id o :
  inv b (Some (b, FRemove id)) stg s -> busy s cur -> objects s !! id = Some o -> stg !! id = Some Closed ->
  exists s' st', removeConnection cur id s = Some s' /\ inv b None (<[id := st']> stg) s' /\ (st' = Closed \/ st' = Leaving) /\
    frame s s' /\ objects s' = objects s.
Proof.
  intros Hinv Hb Ho Hst. unfold removeConnection. assert (baseLoop s = b) as -> by apply (in_pool _ _ _ _ Hinv).
  destruct (cur =? b).
  - destruct (removeConnectionInLoop_inv b stg s cur id o) as (s' & -> & H1 & H2 & H3); try done. exists s', Leaving.
    split_and!; auto.
  - assert (is_Some (loops s !! b)) as Hlb.
    { pose proof (po_loops _ _ _ (in_pool _ _ _ _ Hinv)) as Hp. by apply Forall_cons in Hp as [? _]. }
    destruct (queue_inv b (Some (b, FRemove id)) None stg s cur b (FRemove id)) as (s' & -> & H1 & Hq); try done;
      [by exists o|by left|].
    exists s', Closed. rewrite insert_id by done. split_and!; auto; [apply Hq|by rewrite (qu_objects _ _ Hq)].
Qed.

(** The stage after an operation, before the server is told. *)
Definition next_stage (c c' : TcpConnection.t W) (st : stage) : stage :=
  if decide (is_open c /\ ~ is_open c') then Closed else st.

Lemma next_object o st c us es :
  object_ok o st -> st <> Waiting -> after (o_tcp o) c us es ->
  object_ok (mkObject (o_name o) (o_loop o) (TcpConnection.clearQueue c)) (next_stage (o_tcp o) c st) /\
  TcpConnection.state_ c <> TcpConnection.kConnecting.
Proof.
  intros [Hs Hq Hst Had Ht Hf] Hnw [Hs' Hf' [Hu He Hl Hadd Htie] _ Hcl Hdn Hup Hsil]. unfold next_stage.
  assert (is_open c \/ TcpConnection.state_ c = TcpConnection.kDisconnected) as Hnow.
  { destruct (decide (is_open c)) as [|Hn]; [by left|right]. destruct (decide (is_open (o_tcp o))) as [|Hno]; [by apply Hup|].
    rewrite Hdn by done. by destruct st. }
  split; [|by destruct Hnow as [[-> | ->]| ->]].
  destruct (decide (is_open (o_tcp o) /\ ~ is_open c)) as [[Ho Hn]|Hno].
  - split; cbn [o_tcp]; try done; [apply (after_clear c Hs')|by apply Hup|cbn; by rewrite Htie|cbn; by rewrite Hf'].
  - assert (registered st = false -> ~ is_open (o_tcp o)) as Hreg.
    { intros Hr [E|E]; destruct st; try done; cbn in Hst; congruence. }
    split; cbn [o_tcp]; try done; [apply (after_clear c Hs')| | |cbn; by rewrite Htie|cbn; by rewrite Hf'].
    + destruct st; cbn in *; try done.
      * destruct (decide (is_open c)) as [Hi|Hn]; [exact Hi|]. by destruct Hno.
      * rewrite <- Hst. apply Hdn. intros [E|E]; congruence.
      * rewrite <- Hst. apply Hdn. intros [E|E]; congruence.
      * rewrite <- Hst. apply Hdn. intros [E|E]; congruence.
    + intros Hr. cbn. rewrite Hadd; [by apply Had|]. by apply Hsil, Hreg.
Qed.

(** The poller follows the channel of a connection. *)
Lemma follow b stg s id o st L c us es :
  inv b None stg s -> objects s !! id = Some o -> stg !! id = Some st -> st <> Waiting -> loops s !! o_loop o = Some L ->
  after (o_tcp o) c us es ->
  let o' := mkObject (o_name o) (o_loop o) (TcpConnection.clearQueue c) in
  let st' := next_stage (o_tcp o) c st in
  exists p a, impl_run (poller L) (Change id <$> us) = Some p /\ sim fds p a /\
    watch_ok b (<[id := o']> (objects s)) (<[id := st']> stg) (retired s) (o_loop o) a.
Proof.
  intros Hinv Ho Hst Hnw HL Ha o' st'. destruct (in_object _ _ _ _ Hinv id o st Ho Hst) as [Hok _].
  destruct (in_watch _ _ _ _ Hinv _ _ HL) as (a & Hsim & Hw). pose proof (in_fds _ _ _ _ Hinv id o Ho) as (Hf & Hr & Hns & _).
  destruct (next_object o st c us es Hok Hnw Ha) as [Hok' _]. fold o' st' in Hok'.
  destruct (af_asks _ _ _ _ Ha) as [_ Hus Hlast _ _]. pose proof (af_fd _ _ _ _ Ha) as Hfd.
  destruct (registered st) eqn:Er.
  - pose proof (wo_registered _ _ _ _ _ _ Hw id o st Ho Hst eq_refl Er) as Hlive.
    assert (id ∉ gone a) as Hng.
    { intros Hi. destruct (wo_gone _ _ _ _ _ _ Hw id Hi) as [?|E]; [done|]. rewrite E in Hst. by injection Hst as <-. }
    pose proof (changes_run a id _ _ us Hlive Hf Hng Hus) as Hrun.
    destruct (run_sim fds _ _ _ _ Hsim Hrun) as (p & Ep & Hsim'). exists p. eexists. split; [done|]. split; [exact Hsim'|].
    apply (watch_update b (objects s) stg (retired s) (o_loop o) a _ id o o' st st'); try done.
    + cbn. by rewrite Hfd.
    + assert (registered st' = true) as ->. { unfold st', next_stage. by case_decide. }
      cbn. rewrite lookup_insert_eq, Hlast. by rewrite Hfd.
    + intros i Hne. cbn. by rewrite lookup_insert_ne.
    + by left.
    + intros ->. done.
  - assert (st = Gone) as -> by by destruct st.
    assert (~ is_open (o_tcp o)) as Hn. { intros [E|E]; pose proof (ob_stage _ _ Hok) as E'; cbn in E'; congruence. }
    rewrite (af_silent _ _ _ _ Ha Hn). exists (poller L), a. split; [done|]. split; [done|].
    assert (st' = Gone) as -> by (unfold st', next_stage; case_decide as Hd; [by destruct Hd|done]).
    apply (watch_update b (objects s) stg (retired s) (o_loop o) a a id o o' Gone Gone); try done; [cbn; by rewrite Hfd| |by left].
    by eapply (not_watched b (objects s) stg (retired s) (o_loop o) a id o Gone).
Qed.

Lemma added_app {A} (l k : list A) : added l (l ++ k) = k.
Proof. apply drop_app_length. Qed.

Lemma closes_spec (es : list TcpConnection.event) :
  existsb (fun e => match e with TcpConnection.EClose => true | _ => false end) es = bool_decide (TcpConnection.EClose ∈ es).
Proof.
  induction es as [|e es IH]; [done|]. cbn [existsb]. rewrite IH.
  destruct (bool_decide_reflect (TcpConnection.EClose ∈ es)) as [Hi|Hn].
  - rewrite orb_true_r, bool_decide_true; [done|]. by right.
  - rewrite orb_false_r. destruct e; [rewrite bool_decide_false; [done|]|rewrite bool_decide_false; [done|]|by rewrite bool_decide_true by left].
    + by intros [?|?]%elem_of_cons.
    + by intros [?|?]%elem_of_cons.
Qed.

Lemma onConnection_inv b stg s id o st cur f c us es :
  inv b None stg s -> busy s cur -> objects s !! id = Some o -> stg !! id = Some st -> st <> Waiting ->
  o_loop o = cur -> f (o_tcp o) = Some c -> after (o_tcp o) c us es ->
  (forall L, loops s !! cur = Some L -> id ∉ (active L).*1) ->
  exists s' st', onConnection cur id f s = Some s' /\ inv b None (<[id := st']> stg) s' /\ st' <> Waiting /\
    frame s s' /\ objects s' = <[id := mkObject (o_name o) (o_loop o) (TcpConnection.clearQueue c)]> (objects s).
Proof.
  intros Hinv Hb Ho Hst Hnw <- Hfc Ha Hact. set (o' := mkObject (o_name o) (o_loop o) (TcpConnection.clearQueue c)).
  destruct (in_object _ _ _ _ Hinv id o st Ho Hst) as [Hok [L HL]].
  destruct (follow b stg s id o st L c us es) as (p & a & Ep & Hsim & Hw); try done. fold o' in Hw.
  destruct (next_object o st c us es Hok Hnw Ha) as [Hok' Hnc]. fold o' in Hok'.
  set (st1 := next_stage (o_tcp o) c st) in *.
  unfold onConnection. rewrite Ho. cbn [mbind option_bind]. rewrite Nat.eqb_refl, Hfc. cbn [mbind option_bind].
  rewrite HL. cbn [mbind option_bind]. rewrite (ask_updates _ _ _ (af_asks _ _ _ _ Ha)), added_app, Ep. cbn [mbind option_bind].
  rewrite (af_events _ _ _ _ Ha), added_app, closes_spec. fold o'.
  set (closes := is_open (o_tcp o) /\ ~ is_open c).
  set (owed := if decide closes then Some (b, FRemove (W:=W) id) else None).
  assert (closes -> st = Up) as Hup.
  { intros [Hop _]. pose proof (ob_stage _ _ Hok) as E. destruct st; try done; cbn in E; destruct Hop; congruence. }
  set (s1 := set_loop (set_object s id o') (o_loop o) (mkLoop (base L) p (active L) (running L))).
  assert (inv b owed (<[id := st1]> stg) s1) as H1.
  { apply (inv_change b None owed stg s id o o' st st1 (server s) L p a); try done.
    - cbn. by rewrite (af_fd _ _ _ _ Ha).
    - apply (in_server _ _ _ _ Hinv).
    - apply (in_pool _ _ _ _ Hinv).
    - intros nm i. destruct (decide (i = id)) as [->|]; [|done]. rewrite (in_table _ _ _ _ Hinv). split.
      + intros (o1 & st2 & ? & ? & ? & ?). simplify_eq. split; [done|]. unfold st1, next_stage. case_decide; [reflexivity|assumption].
      + intros [-> Hl]. exists o, st. split_and!; try done. unfold st1, next_stage in Hl.
        case_decide as Hc; [by rewrite (Hup Hc)|done].
    - intros ->. unfold st1, next_stage. case_decide as Hc; [|done]. pose proof (Hup Hc). congruence.
    - intros l L0 Hl. unfold owed, st1, next_stage. fold closes. destruct (decide closes) as [Hc|Hc].
      + rewrite (Hup Hc) in *. rewrite due_app. rewrite (owed_none b stg s id o Up l L0) by done.
        apply (due_duty b o' id Closed).
      + rewrite (in_duty _ _ _ _ Hinv l L0 id o st) by done. by destruct st.
    - intros l i Hne. unfold owed. destruct (decide closes); [|done]. cbn. destruct (_ =? _); [|done].
      unfold due. cbn. destruct (Nat.eqb_spec id i); congruence.
    - intros l. unfold owed. destruct (decide closes); [|constructor]. cbn. destruct (_ =? _); constructor; [|constructor].
      cbn. by rewrite lookup_insert_eq.
    - right. by apply Hact. }
  assert (frame s s1) as Hfr.
  { transitivity (set_loop s (o_loop o) (mkLoop (base L) p (active L) (running L))); [by apply (frame_set s (o_loop o) L)|].
    split; [intros l; reflexivity|done]. }
  destruct (queueAll_inv b owed (<[id := st1]> stg) (o_loop o) (TcpConnection.queue c) s1 id o') as (s2 & -> & H2 & Hq); try done.
  { by eapply frame_busy. } { cbn. by rewrite lookup_insert_eq. }
  cbn [mbind option_bind]. pose proof (transitivity Hfr (qu_frame _ _ Hq)) as Hfr2.
  assert (objects s2 = <[id := o']> (objects s)) as Ho2 by by rewrite (qu_objects _ _ Hq).
  rewrite (bool_decide_ext _ closes (af_close _ _ _ _ Ha)).
  unfold owed, st1, next_stage in H2. fold closes in H2. destruct (decide closes) as [Hc|Hc].
  - rewrite bool_decide_true by done. destruct (removeConnection_inv b (<[id := Closed]> stg) s2 (o_loop o) id o') as (s3 & st' & -> & H3 & Hst' & Hf3 & Ho3).
    { exact H2. } { by eapply (frame_busy s). } { by rewrite Ho2, lookup_insert_eq. } { by rewrite lookup_insert_eq. }
    rewrite insert_insert_eq in H3. exists s3, st'. split_and!; try done.
    + destruct Hst' as [-> | ->]; discriminate.
    + by transitivity s2.
    + by rewrite Ho3.
  - rewrite bool_decide_false by done. exists s2, st. by split_and!.
Qed.

(** ** What callbacks do *)

(** A connection of the loop [cur] that has been established and is not waiting
    to be handled. *)
Record held (stg : gmap nat stage) s id cur : Prop := {
  he_object : exists o st, objects s !! id = Some o /\ stg !! id = Some st /\ st <> Waiting /\ o_loop o = cur;
  he_busy : busy s cur;
  he_active L : loops s !! cur = Some L -> id ∉ (active L).*1
}.

(** An operation that fails no assertion, on such a connection. *)
Lemma operation_inv b stg s id cur f :
  inv b None stg s -> held stg s id cur ->
  (forall o, objects s !! id = Some o -> sound (o_tcp o) -> TcpConnection.state_ (o_tcp o) <> TcpConnection.kConnecting ->
     does (o_tcp o) (f (o_tcp o))) ->
  exists s' stg', onConnection cur id f s = Some s' /\ inv b None stg' s' /\ held stg' s' id cur /\ frame s s' /\
    objects s' !! id = (fun o => mkObject (o_name o) (o_loop o) (TcpConnection.clearQueue (default (o_tcp o) (f (o_tcp o))))) <$> objects s !! id.
Proof.
  intros Hinv [(o & st & Ho & Hst & Hnw & Hl) Hb Hact] Hf.
  destruct (in_object _ _ _ _ Hinv id o st Ho Hst) as [Hok _].
  destruct (Hf o Ho (ob_sound _ _ Hok)) as (c & us & es & Efc & Ha).
  { pose proof (ob_stage _ _ Hok) as E. intros Hk. destruct st; cbn in E; try done; [|congruence..].
    destruct E; congruence. }
  destruct (onConnection_inv b stg s id o st cur f c us es) as (s' & st' & E & H1 & H2 & H3 & H4); try done.
  exists s', (<[id := st']> stg). split; [done|]. split; [done|].
  assert (objects s' !! id = Some (mkObject (o_name o) (o_loop o) (TcpConnection.clearQueue c))) as Ho'.
  { by rewrite H4, lookup_insert_eq. }
  split; [|split; [done|rewrite Ho', Ho; cbn; by rewrite Efc]]. split.
  - exists (mkObject (o_name o) (o_loop o) (TcpConnection.clearQueue c)), st'. by rewrite lookup_insert_eq.
  - by eapply frame_busy.
  - by eapply frame_active.
Qed.

Lemma runUse_does (u : use) (c : TcpConnection.t W) : sound c -> does c (runUse u c).
Proof.
  intros Hs. assert (forall c', after c c' [] [] -> does c (Some c')) as Hret.
  { intros c' Ha. eapply does_after; [exact Ha|]. apply does_ret. }
  destruct u as [data| | |n|cb|b n]; cbn [runUse]; auto using send_does, shutdown_does, forceClose_does.
  - pose proof (so_in _ Hs) as Hwf.
    destruct (Buffer.retrieve_spec (TcpConnection.inputBuffer_ c) (Nat.min n (Buffer.readableBytes (TcpConnection.inputBuffer_ c))) Hwf)
      as (b' & -> & Hb' & _); [lia|]. apply Hret. by apply after_input.
  - apply Hret. by apply after_same; try apply Hs.
  - apply Hret. by apply after_same; try apply Hs.
Qed.

(** What a handler leads to, in a connection's loop. *)
Definition handled b s id cur (m : option t) : Prop :=
  exists s' stg', m = Some s' /\ inv b None stg' s' /\ held stg' s' id cur /\ frame s s'.

Lemma handled_bind b stg s id cur m (k : t -> option t) :
  inv b None stg s -> handled b s id cur m ->
  (forall s' stg', inv b None stg' s' -> held stg' s' id cur -> frame s s' -> handled b s' id cur (k s')) ->
  handled b s id cur (m ≫= k).
Proof.
  intros _ (s1 & stg1 & -> & H1 & H2 & H3) Hk. destruct (Hk s1 stg1 H1 H2 H3) as (s2 & stg2 & E & H4 & H5 & H6).
  exists s2, stg2. split; [done|]. split; [done|]. split; [done|]. by transitivity s1.
Qed.

Lemma handled_ret b stg s id cur : inv b None stg s -> held stg s id cur -> handled b s id cur (Some s).
Proof. intros. by exists s, stg. Qed.

Lemma handled_operation b stg s id cur f :
  inv b None stg s -> held stg s id cur ->
  (forall o, objects s !! id = Some o -> sound (o_tcp o) -> TcpConnection.state_ (o_tcp o) <> TcpConnection.kConnecting ->
     does (o_tcp o) (f (o_tcp o))) ->
  handled b s id cur (onConnection cur id f s).
Proof.
  intros Hinv Hh Hf. destruct (operation_inv b stg s id cur f Hinv Hh Hf) as (s' & stg' & E & H1 & H2 & H3 & _).
  by exists s', stg'.
Qed.

Lemma runUses_inv b us : forall stg s id cur,
  inv b None stg s -> held stg s id cur -> handled b s id cur (runUses cur id us s).
Proof.
  induction us as [|u us IH]; intros stg s id cur Hinv Hh; cbn [runUses]; [by eapply handled_ret|].
  eapply handled_bind; [done| |]. { eapply handled_operation; try done. intros o _ Hs _. by apply runUse_does. }
  intros s' stg' H1 H2 _. by eapply IH.
Qed.

(** ** Establishing and destroying *)

(** Nothing has the descriptor of a connection that is not registered. *)
Lemma unregistered_free b owed stg s id o st l a :
  inv b owed stg s -> objects s !! id = Some o -> stg !! id = Some st -> registered st = false ->
  watch_ok b (objects s) stg (retired s) l a -> live a !! id = None /\ free a (fd_of o).
Proof.
  intros Hinv Ho Hst Hr Hw. pose proof (in_fds _ _ _ _ Hinv id o Ho) as (Hf & _ & Hns & Hu).
  pose proof (not_watched b (objects s) stg (retired s) l a id o st Hw Ho Hst Hns Hr) as Hl. split; [done|].
  intros i [f e] Hi Hfe. cbn in Hfe. subst f. destruct (wo_live _ _ _ _ _ _ Hw i _ e Hi) as [Hif Hwhat].
  destruct (Hu i Hif) as [Hnsi Huniq]. destruct Hwhat as [Hs|(o1 & st1 & H1 & _)]; [by destruct (Hnsi l)|].
  rewrite (Huniq ltac:(by exists o1)) in Hi. congruence.
Qed.

Lemma established_run b stg s id o L a :
  inv b (Some (o_loop o, FEstablished id)) stg s -> objects s !! id = Some o -> stg !! id = Some Waiting ->
  loops s !! o_loop o = Some L -> sim fds (poller L) a -> watch_ok b (objects s) stg (retired s) (o_loop o) a ->
  exists p, impl_run (poller L) [Change id Channel.kReadEvent] = Some p /\
    sim fds p (mkWatch (<[id := (fd_of o, Channel.kReadEvent)]> (live a)) (gone a)).
Proof.
  intros Hinv Ho Hst HL Hsim Hw. pose proof (in_fds _ _ _ _ Hinv id o Ho) as (Hf & Hr & _ & _).
  destruct (unregistered_free b _ stg s id o Waiting (o_loop o) a Hinv Ho Hst eq_refl Hw) as [Hl Hfree].
  assert (id ∉ gone a) as Hng.
  { intros Hi. destruct (wo_gone _ _ _ _ _ _ Hw id Hi) as [?|E]; [done|congruence]. }
  apply (run_sim fds [Change id Channel.kReadEvent] _ _ _ Hsim). cbn [spec_run spec_step]. rewrite Hf. cbn [mbind option_bind].
  rewrite bool_decide_true by done. cbn [andb]. rewrite Hl. rewrite bool_decide_true by done. reflexivity.
Qed.

(** [connectEstablished], once it is owed. *)
Lemma established_inv b stg s id o us :
  inv b (Some (o_loop o, FEstablished id)) stg s -> busy s (o_loop o) -> objects s !! id = Some o ->
  stg !! id = Some Waiting ->
  (forall L, loops s !! o_loop o = Some L -> id ∉ (active L).*1) ->
  handled b s id (o_loop o) (connectEstablished (o_loop o) id us s).
Proof.
  intros Hinv Hb Ho Hst Hact. destruct (in_object _ _ _ _ Hinv id o Waiting Ho Hst) as [Hok [L HL]].
  destruct (in_watch _ _ _ _ Hinv _ _ HL) as (a & Hsim & Hw). pose proof (in_fds _ _ _ _ Hinv id o Ho) as (Hf & Hr & Hns & Hu).
  destruct (established_run b stg s id o L a) as (p & Ep & Hsim'); try done.
  destruct Hok as [Hs Hq Hstate Hadd Htie Hfd]. cbn in Hstate.
  assert (events_of o = 0%Z) as Hev. { apply Hs. intros [E|E]; congruence. }
  unfold connectEstablished, onConnection. rewrite Ho. cbn [mbind option_bind]. rewrite Nat.eqb_refl.
  unfold TcpConnection.connectEstablished. rewrite bool_decide_true by done. cbn [mbind option_bind].
  rewrite HL. cbn [mbind option_bind]. set (c := TcpConnection.emit _ _).
  assert (added (Channel.updates (TcpConnection.channel_ (o_tcp o))) (Channel.updates (TcpConnection.channel_ c)) =
    [Channel.kReadEvent]) as ->.
  { cbn. rewrite Hev. apply added_app. }
  cbn [fmap list_fmap]. rewrite Ep. cbn [mbind option_bind].
  assert (TcpConnection.queue c = []) as -> by exact Hq. cbn [fmap list_fmap queueAll mbind option_bind].
  assert (added (TcpConnection.events (o_tcp o)) (TcpConnection.events c) = [TcpConnection.EConnection true]) as ->
    by apply added_app.
  cbn [existsb orb]. set (o' := mkObject (o_name o) (o_loop o) (TcpConnection.clearQueue c)).
  set (s1 := set_loop _ _ _).
  assert (inv b None (<[id := Up]> stg) s1) as H1.
  { apply (inv_change b (Some (o_loop o, FEstablished id)) None stg s id o o' Waiting Up (server s) L p
      (mkWatch (<[id := (fd_of o, Channel.kReadEvent)]> (live a)) (gone a))); try done.
    - split; try done; [|by left]. destruct Hs. split; try done; [|cbn; by rewrite Hev].
      intros Hn. destruct Hn. by left.
    - apply (in_server _ _ _ _ Hinv).
    - apply (in_pool _ _ _ _ Hinv).
    - intros nm i. destruct (decide (i = id)) as [->|]; [|done]. rewrite (in_table _ _ _ _ Hinv). split.
      + intros (o1 & st2 & ? & ? & ? & ?). by simplify_eq.
      + intros [-> _]. by exists o, Waiting.
    - apply (watch_update b (objects s) stg (retired s) (o_loop o) a _ id o o' Waiting Up); try done.
      + cbn. rewrite lookup_insert_eq. by rewrite Hev.
      + intros i Hne. cbn. by rewrite lookup_insert_ne.
      + by left.
    - intros l L0 Hl. rewrite due_app. rewrite (owed_none b stg s id o Waiting l L0) by done. done.
    - intros l i Hne. cbn. destruct (_ =? _); [|done]. unfold due. cbn. destruct (Nat.eqb_spec id i); congruence.
    - by left. }
  assert (frame s s1) as Hfr.
  { transitivity (set_loop s (o_loop o) (mkLoop (base L) p (active L) (running L))); [by apply (frame_set s (o_loop o) L)|].
    split; [intros l; reflexivity|done]. }
  destruct (runUses_inv b us (<[id := Up]> stg) s1 id (o_loop o)) as (s' & stg' & E & H2 & H3 & H4); try done.
  { split.
    - exists o', Up. cbn. by rewrite !lookup_insert_eq.
    - by eapply frame_busy.
    - by eapply frame_active. }
  exists s', stg'. split; [done|]. split; [done|]. split; [done|]. by transitivity s1.
Qed.

(** [connectDestroyed], once it is owed: the channel leaves the poller. *)
Lemma destroyed_inv b stg s id o :
  inv b (Some (o_loop o, FDestroyed id)) stg s -> objects s !! id = Some o -> stg !! id = Some Leaving ->
  (forall L, loops s !! o_loop o = Some L -> EventLoop.eventHandling_ (base L) = false) ->
  exists s', connectDestroyed (o_loop o) id s = Some s' /\ inv b None (<[id := Gone]> stg) s' /\ frame s s'.
Proof.
  intros Hinv Ho Hst Hev. destruct (in_object _ _ _ _ Hinv id o Leaving Ho Hst) as [Hok [L HL]].
  destruct (in_watch _ _ _ _ Hinv _ _ HL) as (a & Hsim & Hw). pose proof (in_fds _ _ _ _ Hinv id o Ho) as (Hf & Hr & Hns & Hu).
  destruct Hok as [Hs Hq Hstate Hadd Htie Hfd]. cbn in Hstate.
  assert (events_of o = 0%Z) as Hev0. { apply Hs. intros [E|E]; congruence. }
  pose proof (wo_registered _ _ _ _ _ _ Hw id o Leaving Ho Hst eq_refl eq_refl) as Hl. rewrite Hev0 in Hl.
  destruct (sim_step fds (poller L) a (Remove id) (mkWatch (delete id (live a)) ({[id]} ∪ gone a)) Hsim) as (p & Ep & Hsim').
  { cbn. by rewrite Hl. }
  unfold connectDestroyed, onConnection. rewrite Ho. cbn [mbind option_bind]. rewrite Nat.eqb_refl.
  unfold TcpConnection.connectDestroyed. rewrite bool_decide_false by congruence.
  unfold Channel.remove, Channel.isNoneEvent. rewrite Hev0. cbn [Z.eqb Channel.kNoneEvent mbind option_bind].
  rewrite HL. cbn [mbind option_bind]. set (c := TcpConnection.setChannel _ _).
  assert (added (Channel.updates (TcpConnection.channel_ (o_tcp o))) (Channel.updates (TcpConnection.channel_ c)) = []) as ->
    by (cbn; unfold added; by rewrite drop_all).
  cbn [fmap list_fmap impl_run mbind option_bind].
  assert (TcpConnection.queue c = []) as -> by exact Hq. cbn [fmap list_fmap queueAll mbind option_bind].
  assert (added (TcpConnection.events (o_tcp o)) (TcpConnection.events c) = []) as ->
    by (cbn; unfold added; by rewrite drop_all).
  cbn [existsb]. set (o' := mkObject (o_name o) (o_loop o) (TcpConnection.clearQueue c)).
  cbn [mbind option_bind]. unfold removeChannel. cbn [loops set_loop set_object]. rewrite lookup_insert_eq. cbn [mbind option_bind base poller].
  rewrite (Hev L HL), Ep. cbn [mbind option_bind active running]. unfold set_loop. cbn [server objects loops retired set_object].
  rewrite insert_insert_eq. eexists. split; [reflexivity|]. split.
  - apply (inv_change b (Some (o_loop o, FDestroyed id)) None stg s id o o' Leaving Gone (server s) L p
      (mkWatch (delete id (live a)) ({[id]} ∪ gone a))); try done.
    + destruct Hs. by split.
    + cbn. congruence.
    + apply (in_server _ _ _ _ Hinv).
    + apply (in_pool _ _ _ _ Hinv).
    + intros nm i. destruct (decide (i = id)) as [->|]; [|done]. rewrite (in_table _ _ _ _ Hinv). split.
      * intros (o1 & st2 & ? & ? & ? & ?). by simplify_eq.
      * by intros [_ ?].
    + apply (watch_update b (objects s) stg (retired s) (o_loop o) a _ id o o' Leaving Gone); try done.
      * cbn. by rewrite lookup_delete_eq.
      * intros i Hne. cbn. by rewrite lookup_delete_ne.
      * cbn. intros i [->%elem_of_singleton|?]%elem_of_union; auto.
    + intros l L0 Hl0. rewrite due_app. rewrite (owed_none b stg s id o Leaving l L0) by done. done.
    + intros l i Hne. cbn. destruct (_ =? _); [|done]. unfold due. cbn. destruct (Nat.eqb_spec id i); congruence.
    + right. by eapply not_active.
  - transitivity (set_loop s (o_loop o) (mkLoop (base L) p (active L) (running L))); [by apply (frame_set s (o_loop o) L)|].
    split; [intros l; reflexivity|done].
Qed.

(** ** New connections *)

(** The pool gives a loop that exists. *)
Lemma pool_next b sv (ls : gmap nat loop) : pool_ok b sv ls ->
  exists l p, EventLoopThreadPool.getNextLoop (TcpServer.threadPool_ sv) = Some (l, p) /\ is_Some (ls !! l) /\
    EventLoopThreadPool.baseLoop_ p = b /\ EventLoopThreadPool.started_ p = true /\
    EventLoopThreadPool.loops_ p = EventLoopThreadPool.loops_ (TcpServer.threadPool_ sv) /\
    (EventLoopThreadPool.loops_ p <> [] -> EventLoopThreadPool.next_ p < length (EventLoopThreadPool.loops_ p)).
Proof.
  intros [Hb Hs Hn Hl]. unfold EventLoopThreadPool.getNextLoop. rewrite Hs.
  destruct (EventLoopThreadPool.loops_ (TcpServer.threadPool_ sv)) as [|l0 ls0] eqn:E.
  - do 2 eexists. split; [reflexivity|]. apply Forall_cons in Hl as [Hl _]. rewrite Hb. by split_and!.
  - destruct (lookup_lt_is_Some_2 (l0 :: ls0) (EventLoopThreadPool.next_ (TcpServer.threadPool_ sv))) as [l El]; [by apply Hn|].
    rewrite <- E in *. rewrite El. cbn [mbind option_bind]. do 2 eexists. split; [reflexivity|]. cbn.
    split; [|split; [done|split; [done|split; [done|]]]].
    + eapply Forall_forall in Hl; [exact Hl|]. right. by eapply list_elem_of_lookup_2.
    + intros _. destruct (Nat.leb_spec (length (EventLoopThreadPool.loops_ (TcpServer.threadPool_ sv)))
        (S (EventLoopThreadPool.next_ (TcpServer.threadPool_ sv)))); [rewrite E; cbn; lia|done].
Qed.

(** A new connection enters, owed its establishment. *)
Lemma inv_new b stg s id o sv :
  inv b None stg s -> acceptable fds wake timer acceptor s id -> fds !! id = Some (fd_of o) ->
  object_ok o Waiting -> is_Some (loops s !! o_loop o) ->
  TcpServer.wf sv -> (1 <= TcpServer.nextConnId_ sv)%Z -> pool_ok b sv (loops s) ->
  TcpServer.connections_ (server s) !! o_name o = None ->
  TcpServer.connections_ sv = <[o_name o := id]> (TcpServer.connections_ (server s)) ->
  inv b (Some (o_loop o, FEstablished id)) (<[id := Waiting]> stg) (mk sv (<[id := o]> (objects s)) (loops s) (retired s)).
Proof.
  intros [Hsv Hpo Hdom Hob Hf Ht Hdu Hkn Hwa Hlo] (Hret & Hnone & Hns & fd & Efd & Hfd & Hopen) Hofd Hok Hl Hwf Hid Hpo' Hfree Hconn.
  assert (baseLoop s = b) as Eb by apply Hpo. rewrite Eb in Hns, Hopen.
  assert (fd = fd_of o) as -> by congruence.
  assert (stg !! id = None) as Hstg. { destruct (stg !! id) eqn:E; [|done]. destruct (Hdom id) as [[? ?] _]; [by eexists|]. congruence. }
  assert (forall l f, functor_ok (objects s) l f -> functor_ok (<[id := o]> (objects s)) l f) as Hfo.
  { intros l f. destruct f as [i|i|i|i k]; cbn; [intros; apply lookup_insert_is_Some'; by right..|].
    intros (o1 & H1 & H2 & H3). exists o1. rewrite lookup_insert_ne by congruence. done. }
  assert (forall l L, loops s !! l = Some L -> due id (todo L) = []) as Hno.
  { intros l L HL. pose proof (Hkn l L HL) as Hk. apply Forall_app in Hk as [Hk _]. unfold due.
    induction Hk as [|f fs Hf1 _ IH]; [done|]. cbn. rewrite IH.
    destruct f as [i|i|i|i k]; cbn in *; try done; destruct (Nat.eqb_spec i id) as [->|]; try done;
      rewrite Hnone in Hf1; by destruct Hf1. }
  split; cbn [server objects loops retired]; try done.
  - intros i. rewrite !lookup_insert_is_Some'. by rewrite Hdom.
  - intros i o1 st1. destruct (decide (i = id)) as [->|].
    + rewrite !lookup_insert_eq. by intros [= <-] [= <-].
    + rewrite !lookup_insert_ne by done. apply Hob.
  - intros i o1. destruct (decide (i = id)) as [->|Hne].
    + rewrite lookup_insert_eq. intros [= <-]. split_and!; try done. intros i' Hi'. destruct (Hopen i' Hi') as [Hn' Hs'].
      split; [done|]. rewrite lookup_insert_is_Some'. intros [->|[? ?]]; [done|congruence].
    + rewrite lookup_insert_ne by done. intros H1. destruct (Hf i o1 H1) as (E1 & ? & ? & Hu). split_and!; try done.
      intros i' Hi'. destruct (Hu i' Hi') as [? Hs']. split; [done|]. rewrite lookup_insert_is_Some'.
      intros [<-|?]; [|by apply Hs']. assert (fd_of o1 = fd_of o) as Ee by congruence.
      destruct (Hopen i) as [E0 _]; [by rewrite <- Ee|]. congruence.
  - intros nm i. rewrite Hconn, lookup_insert_Some, Ht. destruct (decide (i = id)) as [->|Hne].
    + rewrite !lookup_insert_eq. split.
      * intros [[<- _]|[_ (o1 & st1 & E & _)]]; [by exists o, Waiting|congruence].
      * intros (o1 & st1 & [= <-] & [= <-] & <- & _). by left.
    + rewrite (lookup_insert_ne (objects s)), (lookup_insert_ne stg) by done. split.
      * intros [[_ ?]|[_ ?]]; [congruence|done].
      * intros (o1 & st1 & H1 & H2 & <- & H4). right. split; [|by exists o1, st1]. intros E.
        assert (TcpConnection.channel_ (o_tcp o1) = TcpConnection.channel_ (o_tcp o1)) by done.
        assert (TcpServer.connections_ (server s) !! o_name o1 = Some i) as Hin by (apply Ht; by exists o1, st1).
        rewrite <- E, Hfree in Hin. done.
  - intros l L i o1 st1 HL. destruct (decide (i = id)) as [->|Hne].
    + rewrite !lookup_insert_eq. intros [= <-] [= <-]. rewrite due_app, (Hno l L HL). cbn. destruct (l =? _); [|done].
      unfold due. cbn. by rewrite Nat.eqb_refl.
    + rewrite !lookup_insert_ne by done. intros H1 H2. rewrite <- (Hdu l L i o1 st1 HL H1 H2), !due_app. f_equal.
      cbn. destruct (_ =? _); [|done]. unfold due. cbn. destruct (Nat.eqb_spec id i); congruence.
  - intros l L HL. pose proof (Hkn l L HL) as Hk. apply Forall_app in Hk as [Hk _]. apply Forall_app. split.
    + eapply Forall_impl; [exact Hk|]. apply Hfo.
    + cbn. destruct (_ =? _); constructor; [|constructor]. cbn. by rewrite lookup_insert_eq.
  - intros l L HL. destruct (Hwa l L HL) as (a & Hs & [W1 W2 W3]). exists a. split; [done|]. split.
    + intros i f e Hi. destruct (W1 i f e Hi) as [? [?|(o1 & st1 & ? & ? & ? & ?)]]; (split; [done|]); [by left|].
      right. exists o1, st1. by rewrite !lookup_insert_ne by congruence.
    + intros i o1 st1. destruct (decide (i = id)) as [->|]; [rewrite !lookup_insert_eq; by intros _ [= <-] _ ?|].
      rewrite !lookup_insert_ne by done. apply W2.
    + intros i Hi. destruct (W3 i Hi) as [?|Hg]; [by left|right]. by rewrite lookup_insert_ne by congruence.
  - intros l L HL. destruct (Hlo l L HL) as [Q1 Q2 Q3 Q4 Q5 Q6]. split; try done.
    eapply Forall_impl; [exact Q4|]. intros [i r] [? Hk]. split; [done|]. cbn in *.
    destruct Hk as [?|[E (o1 & H1 & H2)]]; [by left|right]. rewrite !lookup_insert_ne by congruence. split; [done|by exists o1].
Qed.

(** What a step leads to. *)
Definition steps b s (m : option t) : Prop := exists s' stg', m = Some s' /\ inv b None stg' s' /\ frame s s'.

Lemma handled_steps b s id cur m : handled b s id cur m -> steps b s m.
Proof. intros (s' & stg' & ? & ? & _ & ?). by exists s', stg'. Qed.

Lemma newConnection_inv b stg s id outs us :
  inv b None stg s -> busy s b -> acceptable fds wake timer acceptor s id ->
  steps b s (newConnection fds wcc b id outs us s).
Proof.
  intros Hinv Hb Hacc. pose proof Hacc as (Hret & Hnone & Hns & fd & Efd & Hfd & Hopen).
  pose proof (in_pool _ _ _ _ Hinv) as Hpo. destruct (in_server _ _ _ _ Hinv) as [Hwf Hid].
  destruct (pool_next b (server s) (loops s) Hpo) as (l & p & Enext & Hl & Eb & Es & El & En).
  unfold newConnection. rewrite Efd. cbn [mbind option_bind].
  set (nm := TcpServer.connName (server s) (TcpServer.nextConnId_ (server s))).
  assert (exists sv, TcpServer.newConnection (server s) id = Some (l, nm, sv) /\ TcpServer.threadPool_ sv = p) as (sv & Esv & Ep).
  { unfold TcpServer.newConnection. rewrite Enext. cbn [mbind option_bind]. by eexists. }
  destruct (TcpServer.newConnection_adds (server s) id l nm sv Hwf Hid Esv) as (Hwf' & Hfree & Hconn & Hnext).
  rewrite Esv. cbn [mbind option_bind].
  set (c := TcpConnection.setWriteCompleteCallback _ _). set (o := mkObject nm l c).
  change (set_object (set_server s sv) id o) with (mk sv (<[id := o]> (objects s)) (loops s) (retired s)).
  set (s1 := mk sv _ _ _).
  assert (inv b (Some (o_loop o, FEstablished id)) (<[id := Waiting]> stg) s1) as H1.
  { apply (inv_new b stg s id o sv); try done.
    - pose proof (sound_create (W:=W) fd outs) as Hs. split; try done. destruct Hs. by split.
    - lia.
    - destruct Hpo as [? ? ? Hall]. split; rewrite ?Ep; try done. by rewrite El. }
  assert (frame s s1) as Hfr by (split; [intros l0; reflexivity|done]).
  assert (objects s1 !! id = Some o) as Ho by (cbn; by rewrite lookup_insert_eq).
  assert (<[id := Waiting]> stg !! id = Some Waiting) as Hst by by rewrite lookup_insert_eq.
  destruct (Nat.eqb_spec b l) as [<-|Hne].
  - destruct (established_inv b (<[id := Waiting]> stg) s1 id o us) as (s' & stg' & E & H2 & _ & H3); try done.
    + intros L HL. by eapply (not_active b (Some (o_loop o, FEstablished id)) (<[id := Waiting]> stg) s1).
    + exists s', stg'. split; [done|]. split; [done|]. by transitivity s1.
  - destruct (queue_inv b (Some (o_loop o, FEstablished id)) None (<[id := Waiting]> stg) s1 b l (FEstablished id))
      as (s' & E & H2 & H3); try done; [by exists o|by left|].
    exists s', (<[id := Waiting]> stg). split; [done|]. split; [done|]. transitivity s1; [done|apply H3].
Qed.

(** ** Functors and events *)

Definition owed_of (l : nat) (f : functor) : option (nat * functor) :=
  match f with FTask _ _ => None | _ => Some (l, f) end.

(** A functor is taken out of the loop that runs it. *)
Lemma taken_inv b stg s l L f rest :
  inv b None stg s -> loops s !! l = Some L -> running L = f :: rest ->
  EventLoop.callingPendingFunctors_ (base L) = true ->
  inv b (owed_of l f) stg (set_loop s l (mkLoop (base L) (poller L) (active L) rest)).
Proof.
  intros Hinv HL Er Hc. pose proof (in_known _ _ _ _ Hinv l L HL) as Hk.
  apply (inv_same_poller b None _ stg s l L); try done.
  - intros i. unfold todo. cbn [running base at_loop]. rewrite Er, app_nil_r. unfold due.
    destruct f as [i0|i0|i0|i0 k]; cbn [owed_of at_loop]; rewrite ?Nat.eqb_refl, ?app_nil_r; cbn [app List.filter lifecycle];
      try done; rewrite List.filter_app; cbn [List.filter lifecycle]; destruct (i0 =? i); rewrite ?app_nil_r; try done;
      by rewrite <- Permutation_cons_append.
  - intros l0 Hne. destruct f; cbn; try done; by destruct (Nat.eqb_spec l0 l).
  - unfold todo in *. cbn [running base]. rewrite Er in Hk. cbn [at_loop] in Hk. rewrite app_nil_r in Hk.
    cbn [app] in Hk. apply Forall_cons in Hk as [Hf Hk]. apply Forall_app. split; [done|].
    destruct f; cbn; rewrite ?Nat.eqb_refl; by repeat constructor.
  - destruct (in_loop _ _ _ _ Hinv l L HL). split; try done. cbn. congruence.
Qed.

(** A functor that is owed is the duty of its connection. *)
Lemma owed_duty b stg s l L f id :
  inv b (Some (l, f)) stg s -> loops s !! l = Some L -> lifecycle id f = true -> is_Some (objects s !! id) ->
  exists o st, objects s !! id = Some o /\ stg !! id = Some st /\ duty b o id st = Some (l, f).
Proof.
  intros Hinv HL Hlc [o Ho]. destruct (in_dom _ _ _ _ Hinv id) as [_ Hd]. destruct Hd as [st Hst]; [by eexists|].
  exists o, st. split; [done|]. split; [done|]. pose proof (in_duty _ _ _ _ Hinv l L id o st HL Ho Hst) as Hdu.
  assert (f ∈ due id (todo L ++ at_loop l (Some (l, f)))) as Hin.
  { unfold due. apply list_elem_of_In, List.filter_In. split; [|done].
    apply list_elem_of_In, elem_of_app. right. cbn. rewrite Nat.eqb_refl. by left. }
  rewrite Hdu in Hin. destruct (duty b o id st) as [[l1 f1]|]; cbn in Hin; [|by apply not_elem_of_nil in Hin].
  destruct (Nat.eqb_spec l l1) as [->|]; [|by apply not_elem_of_nil in Hin]. by apply list_elem_of_singleton in Hin as ->.
Qed.

(** In [doPendingFunctors], every functor can be run. *)
Lemma runFunctor_inv b stg s l L f us :
  inv b (owed_of l f) stg s -> loops s !! l = Some L -> functor_ok (objects s) l f ->
  EventLoop.callingPendingFunctors_ (base L) = true -> EventLoop.eventHandling_ (base L) = false ->
  steps b s (runFunctor l f us s).
Proof.
  intros Hinv HL Hok Hc He. assert (busy s l) as Hb by (exists L; auto).
  assert (active L = []) as Hact by by apply (lo_idle _ _ _ _ _ (in_loop _ _ _ _ Hinv l L HL)).
  assert (forall i L0, loops s !! l = Some L0 -> i ∉ (active L0).*1) as Hna.
  { intros i L0 HL0. rewrite HL in HL0. injection HL0 as <-. rewrite Hact. apply not_elem_of_nil. }
  destruct f as [id|id|id|id k]; cbn [runFunctor owed_of functor_ok] in *.
  1-3: destruct (owed_duty b stg s l L _ id Hinv HL ltac:(cbn; apply Nat.eqb_refl) Hok) as (o & st & Ho & Hst & Hd);
    destruct st; cbn in Hd; try done; injection Hd as <-.
  - eapply handled_steps, established_inv; try done. apply Hna.
  - destruct (removeConnectionInLoop_inv b stg s b id o) as (s' & -> & H1 & H2 & _); try done.
    by exists s', (<[id := Leaving]> stg).
  - destruct (destroyed_inv b stg s id o) as (s' & -> & H1 & H2); try done.
    { intros L0 HL0. rewrite HL in HL0. by injection HL0 as <-. }
    by exists s', (<[id := Gone]> stg).
  - destruct Hok as (o & Ho & Hl & Hst0). destruct (in_dom _ _ _ _ Hinv id) as [_ Hd]. destruct Hd as [st Hst]; [by eexists|].
    destruct (in_object _ _ _ _ Hinv id o st Ho Hst) as [Hob _].
    assert (held stg s id l) as Hh.
    { split; [|done|apply Hna]. exists o, st. split_and!; try done. intros ->. by apply Hst0, (ob_stage _ _ Hob). }
    apply (handled_steps b s id l). destruct k; try by eapply runUses_inv.
    all: eapply handled_operation; try done; intros o2 _ Hs2 Hc2; by apply runTask_does.
Qed.

(** In the handling of events, every callback of a connection can be called. *)
Lemma runCallbacks_app cur id r us ks ks' : forall s : t,
  runCallbacks cur id r us (ks ++ ks') s = runCallbacks cur id r us ks s ≫= runCallbacks cur id r us ks'.
Proof.
  induction ks as [|k ks IH]; intros s; cbn [app runCallbacks]; [done|].
  destruct (runCallback cur id r us k s) as [s1|]; [|done]. cbn [mbind option_bind]. apply IH.
Qed.

Lemma runCallbacks_one cur id r us k (s : t) : runCallbacks cur id r us [k] s = runCallback cur id r us k s.
Proof. cbn [runCallbacks]. by destruct (runCallback cur id r us k s). Qed.

Section callbacks.
Variables (b id l : nat) (r : Z + bytes) (us : list (@use W)).
Abbreviation run ks s := (handled b s id l (runCallbacks l id r us ks s)).

Lemma run_optional (x : bool) k stg s :
  inv b None stg s -> held stg s id l -> (x = true -> handled b s id l (runCallback l id r us k s)) ->
  run (if x then [k] else []) s.
Proof. destruct x; intros; [rewrite runCallbacks_one; auto|by eapply handled_ret]. Qed.

Lemma run_callbacks_app ks ks' stg s :
  inv b None stg s -> run ks s -> (forall s' stg', inv b None stg' s' -> held stg' s' id l -> run ks' s') -> run (ks ++ ks') s.
Proof. intros. rewrite runCallbacks_app. eapply handled_bind; eauto. Qed.

Lemma run_write (x : bool) stg s :
  inv b None stg s -> held stg s id l -> run (if x then [Channel.WriteCallback] else []) s.
Proof.
  intros Hi Hh. eapply run_optional; try done. intros _. eapply handled_operation; try done.
  intros o _ Hs _. by apply handleWrite_does.
Qed.

Lemma run_error (x : bool) stg s :
  inv b None stg s -> held stg s id l -> run (if x then [Channel.ErrorCallback] else []) s.
Proof. intros Hi Hh. eapply run_optional; try done. intros _. by eapply handled_ret. Qed.

Lemma read_handled stg s o :
  inv b None stg s -> held stg s id l -> objects s !! id = Some o -> is_open (o_tcp o) -> readable s id r ->
  handled b s id l (runCallback l id r us Channel.ReadCallback s).
Proof.
  intros Hi Hh Ho Hop Hr. cbn [runCallback]. eapply handled_bind; [done| |].
  - eapply handled_operation; try done. intros o1 Ho1 Hs _. rewrite Ho in Ho1. injection Ho1 as <-.
    apply handleRead_does; [done|done|]. intros d. by apply (Hr o d).
  - intros s1 stg1 H1 H2 _. destruct r as [e|[|x d]]; [by eapply handled_ret..|]. by eapply runUses_inv.
Qed.

Lemma runCallbacks_inv stg s o revents :
  inv b None stg s -> held stg s id l -> objects s !! id = Some o -> stg !! id = Some Up ->
  plausible revents -> readable s id r ->
  run (Channel.handleEvent (Channel.set_revents (TcpConnection.channel_ (o_tcp o)) revents)) s.
Proof.
  intros Hi Hh Ho Hst [_ Hpl] Hr. destruct (in_object _ _ _ _ Hi id o Up Ho Hst) as [Hob _].
  pose proof (ob_stage _ _ Hob) as Hop. cbn in Hop.
  set (ch := Channel.set_revents _ _).
  assert (Channel.handleEvent ch = Channel.handleEventWithGuard ch) as ->.
  { unfold Channel.handleEvent. cbn [Channel.tie_ ch Channel.set_revents]. pose proof (ob_tie _ _ Hob).
    by destruct (Channel.tie_ _) as [[|]|]. }
  unfold Channel.handleEventWithGuard. cbn [ch Channel.revents_ Channel.set_revents].
  destruct (Channel.has revents POLLHUP && negb (Channel.has revents POLLIN)) eqn:Eh.
  - rewrite (Hpl eq_refl). cbn [app]. apply (run_callbacks_app [Channel.CloseCallback] _ stg); [done| |].
    + rewrite runCallbacks_one. cbn [runCallback]. eapply handled_operation; try done.
      intros o1 Ho1 Hs _. rewrite Ho in Ho1. injection Ho1 as <-. by apply handleClose_does.
    + intros s1 stg1 H1 H2. eapply run_callbacks_app; [done|by eapply run_error|]. intros. by eapply run_write.
  - cbn [app].
    assert (runCallbacks l id r us (if Channel.has revents (Z.lor POLLERR POLLNVAL) then [Channel.ErrorCallback] else []) s = Some s)
      as E by (by destruct (Channel.has revents (Z.lor POLLERR POLLNVAL))).
    rewrite runCallbacks_app, E. cbn [mbind option_bind]. eapply run_callbacks_app; [done| |intros; by eapply run_write].
    eapply run_optional; try done. intros _. by eapply read_handled.
Qed.

End callbacks.

End facts.

Arguments in_server {_ _ _ _ _ _ _ _ _ _ _ _}.
Arguments in_pool {_ _ _ _ _ _ _ _ _ _ _ _}.
Arguments in_dom {_ _ _ _ _ _ _ _ _ _ _ _}.
Arguments in_object {_ _ _ _ _ _ _ _ _ _ _ _}.
Arguments in_fds {_ _ _ _ _ _ _ _ _ _ _ _}.
Arguments in_table {_ _ _ _ _ _ _ _ _ _ _ _}.
Arguments in_duty {_ _ _ _ _ _ _ _ _ _ _ _}.
Arguments in_known {_ _ _ _ _ _ _ _ _ _ _ _}.
Arguments in_watch {_ _ _ _ _ _ _ _ _ _ _ _}.
Arguments in_loop {_ _ _ _ _ _ _ _ _ _ _ _}.
Arguments inv_loop {_ _ _ _ _ _ _ _}.
Arguments inv_same_poller {_ _ _ _ _ _ _ _}.
Arguments unregistered_free {_ _ _ _ _ _ _ _}.
Arguments taken_inv {_ _ _ _ _ _ _ _}.
Arguments owed_duty {_ _ _ _ _ _ _ _}.
Arguments removeConnectionInLoop_inv {_ _ _ _ _ _ _ _}.
Arguments destroyed_inv {_ _ _ _ _ _ _ _}.
