(* ===== verification/ServerSteps.v ===== *)
(** * The server at work: the steps of its threads

    Every step that can happen does, and keeps the invariant; the functors of a
    loop are run in the order they were queued. *)

From S2P Require Import Prelude CxxString ByteBuffer Channel Poller TcpConnection Lifecycle EventLoop TcpServer.
From S2P Require Import ServerLoops ServerFacts.
Import ServerLoops.

Section facts.
Context {W P : Type} {HP : Poller P} {HS : PollerSpec P}.
Variable fds : gmap nat Z.
Variable wake timer : nat -> nat.
Variable acceptor : nat.
Variable wcc : option W.
Abbreviation functor := (ServerLoops.functor W).
Abbreviation object := (ServerLoops.object W).
Abbreviation loop := (ServerLoops.loop W P).
Abbreviation t := (ServerLoops.t W P).
Implicit Types (s : t) (o : object) (L : loop).
Abbreviation fd_of o := (Channel.fd_ (TcpConnection.channel_ (o_tcp o))).
Abbreviation service := (ServerLoops.service wake timer acceptor).
Abbreviation own_channels := (ServerLoops.own_channels wake timer acceptor).
Abbreviation inv := (ServerFacts.inv fds wake timer acceptor).
Abbreviation watch_ok := (ServerFacts.watch_ok fds wake timer acceptor).

(** ** The steps of the threads *)

(** What the kernel may report is on the watchlist; the connections it concerns
    are up. *)
Lemma reports_live b stg s l L a ready :
  inv b None stg s -> loops s !! l = Some L -> sim fds (poller L) a ->
  kernel_reports (poller L) ready -> reportable a ready.
Proof.
  intros Hinv HL Hs [Hnd Hall]. split; [done|]. eapply Forall_impl; [exact Hall|].
  intros [f r] ([Hr _] & Hf & Hasked). cbn in *. split; [done|]. destruct (sim_shows fds _ _ Hs) as [Hshow Hfree].
  destruct (decide (free a f)) as [Hfr|Hfr]; [by rewrite Hfree in Hasked|].
  apply map_not_Forall in Hfr as (id & [f' e] & Hl & Hne); [|apply _]. cbn in Hne. apply dec_stable in Hne as ->.
  exists id, e. split; [done|]. destruct (Hshow id f e Hl) as [<- _]. done.
Qed.

Lemma reported_up b stg s l a ready active :
  inv b None stg s -> watch_ok b (objects s) stg (retired s) l a -> reportable a ready -> found a ready active ->
  forall id r, (id, r) ∈ active -> (exists f, (f, r) ∈ ready) /\
    (service b l id \/ stg !! id = Some Up /\ exists o, objects s !! id = Some o /\ o_loop o = l).
Proof.
  intros Hinv [W1 W2 W3] [_ Hall] [_ Hright _] id r Hin. destruct (Hright id r Hin) as (f & e & Hfr & Hl).
  split; [by exists f|]. destruct (W1 id f e Hl) as [Hif [?|(o & st & Ho & Hst & Hlo & Hreg)]]; [by left|right].
  eapply Forall_forall in Hall as (_ & id' & e' & Hl' & He'); [|exact Hfr]. cbn in Hl'.
  pose proof (in_fds Hinv id o Ho) as (Hf & _ & _ & Hu).
  assert (f = fd_of o) as -> by congruence.
  destruct (W1 id' _ _ Hl') as [Hif' Hwhat]. destruct (Hu id' Hif') as [Hns' Huniq].
  destruct Hwhat as [Hsv|(o' & st' & Ho' & _)]; [by destruct (Hns' l)|].
  rewrite (Huniq ltac:(by exists o')) in Hl'. rewrite (W2 id o st Ho Hst Hlo Hreg) in Hl'. injection Hl' as <-.
  destruct (in_object Hinv id o st Ho Hst) as [[Hs _ Hstage _ _ _] _]. split; [|by exists o].
  destruct st; try done; cbn in Hstage; destruct He'; apply Hs; intros [E|E]; congruence.
Qed.

Lemma poll_inv b stg s l L ready :
  inv b None stg s -> loops s !! l = Some L -> in_phase L Polling -> kernel_reports (poller L) ready ->
  exists act p, p_poll (poller L) ready = Some (act, p) /\
    inv b None stg (set_loop s l (mkLoop (EventLoop.set_handling (base L) true) p act (running L))).
Proof.
  intros Hinv HL [He Hc] Hk. destruct (in_watch Hinv l L HL) as (a & Hs & Hw).
  pose proof (reports_live b stg s l L a ready Hinv HL Hs Hk) as Hrep.
  destruct (sim_poll fds _ _ _ Hs Hrep) as (act & p & E & Hs' & Hf). exists act, p. split; [done|].
  pose proof (in_known Hinv l L HL) as Hkn.
  apply (inv_loop b None None stg s l L _ a); try done.
  destruct (in_loop Hinv l L HL) as [Q1 Q2 Q3 Q4 Q5 Q6]. split; cbn; try done.
  - apply Hf.
  - apply Forall_forall. intros [id r] Hin.
    destruct (reported_up b stg s l a ready act Hinv Hw Hrep Hf id r Hin) as [[f Hfr] Hup]. split; [|done].
    destruct Hk as [_ Hall]. eapply Forall_forall in Hall as [? _]; [|exact Hfr]. done.
Qed.

(** The first of the active channels is about to be handled. *)
Lemma popped_inv b stg s l L id r rest :
  inv b None stg s -> loops s !! l = Some L -> active L = (id, r) :: rest -> in_phase L Handling ->
  inv b None stg (set_loop s l (mkLoop (base L) (poller L) rest (running L))) /\ (id ∉ rest.*1) /\ plausible r /\
    (service b l id \/ stg !! id = Some Up /\ exists o, objects s !! id = Some o /\ o_loop o = l).
Proof.
  intros Hinv HL Hact [He Hc]. destruct (in_loop Hinv l L HL) as [Q1 Q2 Q3 Q4 Q5 Q6].
  rewrite Hact in Q3, Q4. cbn in Q3. apply NoDup_cons in Q3 as [Hni Hnd]. apply Forall_cons in Q4 as [[Hp Hw] Q4].
  split; [|by split_and!]. pose proof (in_known Hinv l L HL).
  apply (inv_same_poller b None None stg s l L); try done. split; try done. cbn. by rewrite He.
Qed.

Lemma handleEvent_inv b stg s l L id r a :
  inv b None stg s -> loops s !! l = Some L -> EventLoop.eventHandling_ (base L) = true -> id ∉ (active L).*1 ->
  plausible r -> readable s id (an_read a) ->
  (service b l id \/ stg !! id = Some Up /\ exists o, objects s !! id = Some o /\ o_loop o = l) ->
  (forall new outs, an_accepted a = Some (new, outs) -> acceptable fds wake timer acceptor s new) ->
  steps fds wake timer acceptor b s (handleEvent fds wake timer acceptor wcc l id r a s).
Proof.
  intros Hinv HL He Hni Hp Hr Hwhat Hacc. assert (busy s l) as Hb by (exists L; auto).
  assert (forall o, stg !! id = Some Up -> objects s !! id = Some o -> ~ service b l id) as Hns.
  { intros o _ Ho. pose proof (in_fds Hinv id o Ho) as (_ & _ & Hn & _). apply Hn. }
  unfold handleEvent. destruct (Nat.eqb_spec id (wake l)) as [->|Hnw]; [|destruct (Nat.eqb_spec id (timer l)) as [->|Hnt]; [|destruct (Nat.eqb_spec id acceptor) as [->|Hna]]].
  - rewrite HL. cbn [mbind option_bind]. eexists _, stg. split; [reflexivity|]. split.
    + pose proof (in_known Hinv l L HL). destruct (in_loop Hinv l L HL).
      apply (inv_same_poller b None None stg s l L); try done. split; try done. cbn. by rewrite He.
    + by eapply frame_set.
  - by exists s, stg.
  - assert (l = b) as ->.
    { destruct Hwhat as [[?|[?|[? _]]]|[E (o & Ho & Hlo)]]; [done..|].
      pose proof (in_fds Hinv acceptor o Ho) as (_ & _ & Hn & _). destruct (Hn b). by right; right. }
    destruct (an_accepted a) as [[new outs]|]; [|by exists s, stg].
    apply (newConnection_inv fds wake timer acceptor wcc b stg); [done|done|]. by apply (Hacc new outs).
  - destruct Hwhat as [[?|[?|[_ ?]]]|[Hst (o & Ho & Hlo)]]; [done..|]. rewrite Ho. cbn [mbind option_bind].
    apply (handled_steps fds wake timer acceptor b s id l). apply (runCallbacks_inv fds wake timer acceptor b id l (an_read a) (an_uses a) stg s o r); try done.
    split; [|done|].
    + by exists o, Up.
    + intros L0 HL0. rewrite HL in HL0. by injection HL0 as <-.
Qed.

(** Nothing refers to a connection: it was destroyed. *)
Lemma unreferenced_gone b stg s id o st :
  inv b None stg s -> objects s !! id = Some o -> stg !! id = Some st -> unreferenced s id -> st = Gone.
Proof.
  intros Hinv Ho Hst [Ht Hq]. destruct (in_object Hinv id o st Ho Hst) as [_ [L HL]].
  destruct (listed st) eqn:Es.
  { destruct (Ht (o_name o)). apply (in_table Hinv). by exists o, st. }
  destruct st; try done. pose proof (in_duty Hinv _ L id o Leaving HL Ho Hst) as Hd.
  cbn in Hd. rewrite Nat.eqb_refl, app_nil_r in Hd.
  assert (FDestroyed id ∈ todo L) as Hin.
  { assert (FDestroyed id ∈ due id (todo L)) as Hin by (rewrite Hd; by left). unfold due in Hin.
    apply list_elem_of_In, List.filter_In in Hin as [Hin _]. by apply list_elem_of_In. }
  specialize (Hq _ L HL). eapply Forall_forall in Hq; [|exact Hin]. by destruct Hq.
Qed.

Lemma delete_inv b stg s id o :
  inv b None stg s -> objects s !! id = Some o -> stg !! id = Some Gone -> unreferenced s id ->
  inv b None (delete id stg) (mk (server s) (delete id (objects s)) (loops s) ({[id]} ∪ retired s)).
Proof.
  intros [Hsv Hpo Hdom Hob Hf Ht Hdu Hkn Hwa Hlo] Ho Hst [Hut Huq].
  split; cbn [server objects loops retired]; try done.
  - intros i. destruct (decide (i = id)) as [->|]; [by rewrite !lookup_delete_eq|by rewrite !lookup_delete_ne].
  - intros i o1 st1 [Hne H1]%lookup_delete_Some [_ H2]%lookup_delete_Some. by apply (Hob i).
  - intros i o1 [Hne H1]%lookup_delete_Some. destruct (Hf i o1 H1) as (? & ? & ? & Hu). split_and!; try done; [set_solver|].
    intros i' Hi'. destruct (Hu i' Hi') as [? Hs']. split; [done|]. intros [o2 [_ Hx]%lookup_delete_Some]. apply Hs'. by eexists.
  - intros nm i. rewrite Ht. split; intros (o1 & st1 & H1 & H2 & H3 & H4).
    + assert (i <> id) by (intros ->; simplify_eq). exists o1, st1. by rewrite !lookup_delete_ne.
    + apply lookup_delete_Some in H1 as [_ H1]. apply lookup_delete_Some in H2 as [_ H2]. by exists o1, st1.
  - intros l L i o1 st1 HL [_ H1]%lookup_delete_Some [_ H2]%lookup_delete_Some. by apply (Hdu l L).
  - intros l L HL. cbn [at_loop]. rewrite app_nil_r. pose proof (Hkn l L HL) as Hk. cbn [at_loop] in Hk. rewrite app_nil_r in Hk.
    specialize (Huq l L HL). apply Forall_forall. intros f Hin. eapply Forall_forall in Hk; [|exact Hin].
    eapply Forall_forall in Huq; [|exact Hin]. destruct f as [i|i|i|i k]; cbn in *;
      by rewrite lookup_delete_ne by congruence.
  - intros l L HL. destruct (Hwa l L HL) as (a & Hs & [W1 W2 W3]). exists a. split; [done|]. split.
    + intros i f e Hi. destruct (W1 i f e Hi) as [? [?|(o1 & st1 & ? & ? & ? & ?)]]; (split; [done|]); [by left|].
      right. exists o1, st1. assert (i <> id) by (intros ->; simplify_eq). by rewrite !lookup_delete_ne.
    + intros i o1 st1 [_ H1]%lookup_delete_Some [_ H2]%lookup_delete_Some. by apply W2.
    + intros i Hi. destruct (decide (i = id)) as [->|]; [left; set_solver|].
      destruct (W3 i Hi) as [?|?]; [left; set_solver|right]. by rewrite lookup_delete_ne.
  - intros l L HL. destruct (Hlo l L HL) as [Q1 Q2 Q3 Q4 Q5 Q6]. split; try done.
    eapply Forall_impl; [exact Q4|]. intros [i r] [? Hk]. split; [done|]. cbn in *.
    destruct Hk as [?|[E (o1 & H1 & H2)]]; [by left|right]. assert (i <> id) by (intros ->; congruence).
    rewrite !lookup_delete_ne by done. split; [done|by exists o1].
Qed.

(** What is left of the functors of a loop, in the order they were queued. *)
Definition left_of (k : @step W) (l : nat) (fs : list functor) : list functor :=
  match k with SRun l' _ => if l' =? l then tail fs else fs | _ => fs end.

Definition advances (k : @step W) s s' : Prop := forall l L, loops s !! l = Some L ->
  exists L', loops s' !! l = Some L' /\ left_of k l (todo L) `prefix_of` todo L'.

Lemma extends_todo L L' : extends L L' -> todo L `prefix_of` todo L'.
Proof. intros [E Hp]. injection E as _ Er _ _. unfold todo. rewrite Er. by apply prefix_app. Qed.

Lemma advances_set k s s' l L L' :
  loops s !! l = Some L -> left_of k l (todo L) `prefix_of` todo L' ->
  (forall l0 fs, l0 <> l -> left_of k l0 fs = fs) -> frame (set_loop s l L') s' -> advances k s s'.
Proof.
  intros HL Hl Hoth Hf l0 L0 H0. destruct (decide (l0 = l)) as [->|Hne].
  - destruct (frame_lookup _ s' l L' Hf) as (L1 & H1 & E); [cbn; by rewrite lookup_insert_eq|].
    exists L1. split; [done|]. rewrite HL in H0. injection H0 as <-. etransitivity; [done|]. by apply extends_todo.
  - destruct (frame_lookup _ s' l0 L0 Hf) as (L1 & H1 & E); [cbn; by rewrite lookup_insert_ne|].
    exists L1. split; [done|]. rewrite Hoth by done. by apply extends_todo.
Qed.

(** A step that can happen does, and keeps the invariant. *)
Lemma exec_inv b stg s k :
  inv b None stg s -> enabled fds wake timer acceptor k s ->
  exists s' stg', exec fds wake timer acceptor wcc k s = Some s' /\ inv b None stg' s' /\ advances k s s'.
Proof.
  intros Hinv Hen. destruct k as [l ready|l a|l|l us|l|id]; cbn [exec enabled] in *.
  - destruct Hen as (L & HL & Hph & Hk). rewrite HL. cbn [mbind option_bind].
    destruct (poll_inv b stg s l L ready Hinv HL Hph Hk) as (act & p & -> & H1). eexists _, stg. split; [done|].
    split; [done|]. eapply (advances_set _ s _ l L); [done| |done|reflexivity]; done.
  - destruct Hen as (L & id & r & rest & HL & Hph & Hact & Hr & Hacc). rewrite HL. cbn [mbind option_bind]. rewrite Hact.
    destruct (popped_inv b stg s l L id r rest Hinv HL Hact Hph) as (H1 & Hni & Hp & Hw). destruct Hph as [He _].
    destruct (handleEvent_inv b stg _ l (mkLoop (base L) (poller L) rest (running L)) id r a H1) as (s' & stg' & -> & H2 & Hf);
      try done; [cbn; by rewrite lookup_insert_eq|]. exists s', stg'. split; [done|]. split; [done|].
    eapply (advances_set _ s _ l L); [done| |done|exact Hf]; done.
  - destruct Hen as (L & HL & [He Hc] & Hact). rewrite HL. cbn [mbind option_bind]. eexists _, stg. split; [reflexivity|].
    destruct (in_loop Hinv l L HL) as [Q1 Q2 Q3 Q4 Q5 Q6]. pose proof (in_known Hinv l L HL) as Hkn.
    unfold todo in Hkn. rewrite (Q6 Hc) in Hkn. split.
    + apply (inv_same_poller b None None stg s l L); try done.
      * intros i. unfold todo. rewrite (Q6 Hc). cbn. by rewrite !app_nil_r.
      * cbn in *. by rewrite !app_nil_r in *.
      * split; cbn; try done. constructor.
    + eapply (advances_set _ s _ l L); [done| |done|reflexivity]. unfold todo. rewrite (Q6 Hc). cbn. by rewrite app_nil_r.
  - destruct Hen as (L & HL & [He Hc] & Hne). rewrite HL. cbn [mbind option_bind].
    destruct (running L) as [|f rest] eqn:Er; [done|].
    pose proof (taken_inv b stg s l L f rest Hinv HL Er Hc) as H1.
    destruct (runFunctor_inv fds wake timer acceptor b stg _ l (mkLoop (base L) (poller L) (active L) rest) f us H1)
      as (s' & stg' & -> & H2 & Hf); try done.
    + cbn. by rewrite lookup_insert_eq.
    + pose proof (in_known Hinv l L HL) as Hk. unfold todo in Hk. rewrite Er in Hk. cbn in Hk.
      by apply Forall_cons in Hk as [? _].
    + exists s', stg'. split; [done|]. split; [done|]. eapply (advances_set _ s _ l L); [done| | |exact Hf].
      * cbn [left_of]. rewrite Nat.eqb_refl. unfold todo. by rewrite Er.
      * intros l0 fs Hl0. cbn [left_of]. by destruct (Nat.eqb_spec l l0) as [->|].
  - destruct Hen as (L & HL & [He Hc] & Hr). rewrite HL. cbn [mbind option_bind]. eexists _, stg. split; [reflexivity|].
    destruct (in_loop Hinv l L HL) as [Q1 Q2 Q3 Q4 Q5 Q6]. pose proof (in_known Hinv l L HL). split.
    + apply (inv_same_poller b None None stg s l L); done.
    + eapply (advances_set _ s _ l L); [done| |done|reflexivity]; done.
  - destruct Hen as [[o Ho] Hu]. rewrite Ho. cbn [mbind option_bind].
    destruct (stg !! id) as [st|] eqn:Hst; [|destruct (in_dom Hinv id) as [_ Hd]; destruct Hd; [by eexists|congruence]].
    pose proof (unreferenced_gone b stg s id o st Hinv Ho Hst Hu) as ->.
    destruct (in_object Hinv id o Gone Ho Hst) as [Hob _]. rewrite (ob_added _ _ Hob eq_refl).
    eexists _, (delete id stg). split; [reflexivity|]. split; [by eapply delete_inv|].
    intros l L HL. by exists L.
Qed.

(** ** Functors are run in order *)

Abbreviation exec := (ServerLoops.exec fds wake timer acceptor wcc).
Abbreviation enabled := (ServerLoops.enabled fds wake timer acceptor).
Abbreviation trace := (ServerLoops.trace fds wake timer acceptor wcc).
Abbreviation leads := (ServerLoops.leads fds wake timer acceptor wcc).
Abbreviation on_its_way := (ServerLoops.on_its_way fds wake timer acceptor wcc).

(** A functor that is the [n]-th of its loop has come to its turn when the loop
    has run more than [n]. *)
Lemma turn_comes l f (Q : t -> Prop) :
  (forall b stg s L us rest s', inv b None stg s -> loops s !! l = Some L -> in_phase L Calling -> running L = f :: rest ->
     exec (SRun l us) s = Some s' -> Q s') ->
  forall ks b stg s L n s', inv b None stg s -> loops s !! l = Some L -> todo L !! n = Some f ->
  trace s ks s' -> n < runs l ks ->
  exists ks1 ks2 s1, ks = ks1 ++ ks2 /\ trace s ks1 s1 /\ Q s1.
Proof.
  intros HQ. induction ks as [|k ks IH]; intros b stg s L n s' Hinv HL Hn Ht Hr; [unfold runs in Hr; cbn in Hr; lia|].
  inversion Ht as [|? ? ? s1 ? Hen He Ht']; subst.
  assert ((exists us, k = SRun l us /\ n = 0) \/ exists n', left_of k l (todo L) !! n' = Some f /\ n' < runs l ks) as Hcase.
  { unfold runs in Hr. cbn [List.filter] in Hr. destruct k as [? ?|? ?|?|l' us|?|?]; cbn [left_of]; try by (right; exists n).
    destruct (Nat.eqb_spec l' l) as [->|]; [|by right; exists n]. destruct n as [|n]; [by left; exists us|right].
    exists n. cbn [length] in Hr. split; [|unfold runs; lia]. by destruct (todo L). }
  destruct Hcase as [(us & -> & ->)|(n' & Hn' & Hr')].
  - exists [SRun l us], ks, s1. split; [done|]. split; [by eapply trace_cons, trace_nil|].
    destruct Hen as (L0 & HL0 & Hph & Hne). rewrite HL in HL0. injection HL0 as <-.
    destruct (running L) as [|f0 rest] eqn:Er; [done|]. unfold todo in Hn. rewrite Er in Hn. injection Hn as ->.
    by apply (HQ b stg s L us rest s1).
  - destruct (exec_inv b stg s k Hinv Hen) as (s2 & stg' & E & H2 & Hadv). rewrite He in E. injection E as <-.
    destruct (Hadv l L HL) as (L' & HL' & Hp).
    destruct (IH b stg' s1 L' n' s') as (ks1 & ks2 & s3 & -> & H3 & H4); try done.
    { eapply prefix_lookup_Some; done. }
    exists (k :: ks1), ks2, s3. split; [done|]. split; [by eapply trace_cons|done].
Qed.

Lemma duty_comes b stg s id o st l f (Q : t -> Prop) :
  inv b None stg s -> objects s !! id = Some o -> stg !! id = Some st -> duty b o id st = Some (l, f) -> is_Some (loops s !! l) ->
  (forall b stg s L us rest s', inv b None stg s -> loops s !! l = Some L -> in_phase L Calling -> running L = f :: rest ->
     exec (SRun l us) s = Some s' -> Q s') ->
  leads l s Q.
Proof.
  intros Hinv Ho Hst Hd [L HL] HQ. pose proof (in_duty Hinv l L id o st HL Ho Hst) as Hdu.
  rewrite Hd in Hdu. cbn in Hdu. rewrite Nat.eqb_refl, app_nil_r in Hdu.
  assert (f ∈ todo L) as [n Hn]%list_elem_of_lookup.
  { assert (f ∈ due id (todo L)) as Hin by (rewrite Hdu; by left). unfold due in Hin.
    apply list_elem_of_In, List.filter_In in Hin as [Hin _]. by apply list_elem_of_In. }
  exists L. split; [done|]. intros ks s' Ht Hr. pose proof (lookup_lt_Some _ _ _ Hn). eapply turn_comes; try done. lia.
Qed.

(** ** Closing *)

Lemma now_leads l s (Q : t -> Prop) : is_Some (loops s !! l) -> Q s -> leads l s Q.
Proof. intros [L HL] HQ. exists L. split; [done|]. intros ks s' _ _. exists [], ks, s. split; [done|]. split; [apply trace_nil|done]. Qed.

Lemma gone_destroyed b stg s id o :
  inv b None stg s -> objects s !! id = Some o -> stg !! id = Some Gone -> destroyed s id.
Proof.
  intros Hinv Ho Hst. destruct (in_object Hinv id o Gone Ho Hst) as [Hok [L HL]]. split.
  - intros nm E. apply (in_table Hinv) in E as (o1 & st1 & ? & ? & ? & ?). by simplify_eq.
  - exists o, L. split; [done|]. split; [done|]. split; [by apply (ob_added _ _ Hok)|].
    destruct (in_watch Hinv _ _ HL) as (a & Hs & Hw).
    destruct (unregistered_free b None stg s id o Gone (o_loop o) a Hinv Ho Hst eq_refl Hw) as [_ Hf].
    destruct (sim_shows fds _ _ Hs) as [_ Hshow]. apply Hshow; [apply Hok|done].
Qed.

Lemma destroyed_runs b stg s l L id us rest s' :
  inv b None stg s -> loops s !! l = Some L -> in_phase L Calling -> running L = FDestroyed id :: rest ->
  exec (SRun l us) s = Some s' -> destroyed s' id.
Proof.
  intros Hinv HL [He Hc] Er E. cbn [ServerLoops.exec] in E. rewrite HL in E. cbn [mbind option_bind] in E. rewrite Er in E.
  pose proof (taken_inv b stg s l L _ rest Hinv HL Er Hc) as H1. cbn [owed_of] in H1. set (s1 := set_loop _ _ _) in *.
  pose proof (in_known Hinv l L HL) as Hk. unfold todo in Hk. rewrite Er in Hk. apply Forall_cons in Hk as [Hf _].
  destruct (owed_duty b stg s1 l (mkLoop (base L) (poller L) (active L) rest) (FDestroyed id) id H1) as (o & st & Ho & Hst & Hd);
    [cbn; by rewrite lookup_insert_eq|cbn; by rewrite Nat.eqb_refl|done|].
  destruct st; try done. injection Hd as <-. cbn [runFunctor] in E.
  destruct (destroyed_inv b stg s1 id o H1 Ho Hst) as (s2 & E2 & H2 & _).
  { intros L0 HL0. cbn in HL0. rewrite lookup_insert_eq in HL0. by injection HL0 as <-. }
  rewrite E in E2. injection E2 as <-. destruct (in_dom H2 id) as [Hd _]. destruct Hd as [o2 Ho2]; [by rewrite lookup_insert_eq|].
  eapply gone_destroyed; [done|done|by rewrite lookup_insert_eq].
Qed.

(** Out of the table, a connection is destroyed in time. *)
Lemma removed_leads b stg s id o :
  inv b None stg s -> objects s !! id = Some o -> removed s id -> leads (o_loop o) s (fun s' => destroyed s' id).
Proof.
  intros Hinv Ho Hr. destruct (in_dom Hinv id) as [_ Hd]. destruct Hd as [st Hst]; [by eexists|].
  destruct (listed st) eqn:El. { destruct (Hr (o_name o)). apply (in_table Hinv). by exists o, st. }
  destruct (in_object Hinv id o st Ho Hst) as [_ HL]. destruct st; try done.
  - eapply duty_comes; try done. intros. by eapply destroyed_runs.
  - apply now_leads; [done|]. by eapply gone_destroyed.
Qed.

Lemma remove_runs b stg s l L id us rest s' :
  inv b None stg s -> loops s !! l = Some L -> in_phase L Calling -> running L = FRemove id :: rest ->
  exec (SRun l us) s = Some s' -> on_its_way s' id.
Proof.
  intros Hinv HL [He Hc] Er E. cbn [ServerLoops.exec] in E. rewrite HL in E. cbn [mbind option_bind] in E. rewrite Er in E.
  pose proof (taken_inv b stg s l L _ rest Hinv HL Er Hc) as H1. cbn [owed_of] in H1. set (s1 := set_loop _ _ _) in *.
  pose proof (in_known Hinv l L HL) as Hk. unfold todo in Hk. rewrite Er in Hk. apply Forall_cons in Hk as [Hf _].
  destruct (owed_duty b stg s1 l (mkLoop (base L) (poller L) (active L) rest) (FRemove id) id H1) as (o & st & Ho & Hst & Hd);
    [cbn; by rewrite lookup_insert_eq|cbn; by rewrite Nat.eqb_refl|done|].
  destruct st; try done. injection Hd as <-. cbn [runFunctor] in E.
  destruct (removeConnectionInLoop_inv b stg s1 b id o H1) as (s2 & E2 & H2 & _ & Eo); try done.
  { exists (mkLoop (base L) (poller L) (active L) rest). cbn. rewrite lookup_insert_eq. auto. }
  rewrite E in E2. injection E2 as <-. cut (removed s' id).
  { intros Hr. split; [done|]. exists o. rewrite Eo. split; [done|]. eapply removed_leads; try done. by rewrite Eo. }
  intros nm Hin. apply (in_table H2) in Hin as (o1 & st1 & _ & Hst1 & _ & Hl). rewrite lookup_insert_eq in Hst1. by injection Hst1 as <-.
Qed.

(** A closed connection leaves the server's table when the base loop has run the
    functors it has, and is destroyed when its own loop has. *)
Lemma closed_leads b stg s id : inv b None stg s -> closed s id -> leads b s (fun s1 => on_its_way s1 id).
Proof.
  intros Hinv (o & Ho & Hc). destruct (in_dom Hinv id) as [_ Hd]. destruct Hd as [st Hst]; [by eexists|].
  destruct (in_object Hinv id o st Ho Hst) as [Hok _].
  assert (st <> Waiting /\ st <> Up) as [Hnw Hnu].
  { pose proof (ob_stage _ _ Hok) as E. split; intros ->; cbn in E; [congruence|]. destruct E; congruence. }
  destruct (listed st) eqn:El.
  - destruct st; try done. pose proof (po_loops _ _ _ (in_pool Hinv)) as Hl. apply Forall_cons in Hl as [Hl _].
    eapply duty_comes; try done. intros. by eapply remove_runs.
  - assert (removed s id) as Hr.
    { intros nm E. apply (in_table Hinv) in E as (o1 & st1 & ? & ? & ? & ?). simplify_eq. congruence. }
    pose proof (po_loops _ _ _ (in_pool Hinv)) as Hl. apply Forall_cons in Hl as [Hl _].
    apply now_leads; [done|]. split; [done|]. exists o. split; [done|]. by eapply removed_leads.
Qed.

(** ** The start *)

Lemma spec_register (m : gmap nat Z) a id f :
  m !! id = Some f -> (id ∉ gone a) -> live a !! id = None -> free a f ->
  spec_step m a (Change id Channel.kReadEvent) = Some (list_channel a id f Channel.kReadEvent).
Proof.
  intros Hf Hg Hl Hfree. cbn [spec_step]. rewrite Hf. cbn [mbind option_bind].
  by rewrite (bool_decide_true (id ∉ gone a)), Hl, (bool_decide_true (free a f)).
Qed.

(** What the poller of a new loop watches. *)
Definition own_watch (f g : Z) (l : nat) : watchlist :=
  mkWatch (<[wake l := (g, Channel.kReadEvent)]> (<[timer l := (f, Channel.kReadEvent)]> ∅)) ∅.

Lemma own_watch_live f g l id h e :
  live (own_watch f g l) !! id = Some (h, e) -> id = wake l /\ h = g \/ id = timer l /\ h = f.
Proof.
  cbn. intros [[<- [= <- _]]|[_ [[<- [= <- _]]|[_ ?]]%lookup_insert_Some]]%lookup_insert_Some; [by left|by right|by rewrite lookup_empty in *].
Qed.

Lemma openLoop_sim heap b ls l :
  own_channels heap b ls -> l ∈ b :: ls ->
  exists p f g, openLoop (W:=W) wake timer heap l = Some (mkLoop EventLoop.create p [] []) /\
    sim (Channel.fd_ <$> heap) p (own_watch f g l) /\
    (Channel.fd_ <$> heap) !! timer l = Some f /\ (Channel.fd_ <$> heap) !! wake l = Some g.
Proof.
  intros [Hnew _ Hown _] Hin. destruct (Hown l Hin) as (f & g & Ef & Eg & Hne).
  rewrite <- lookup_fmap in Ef, Eg.
  destruct (run_sim (Channel.fd_ <$> heap) [Change (timer l) Channel.kReadEvent; Change (wake l) Channel.kReadEvent]
    (p_create heap) nothing (own_watch f g l) (sim_create heap Hnew)) as (p & Ep & Hs).
  - cbn [spec_run]. rewrite (spec_register _ nothing (timer l) f Ef); [|set_solver|done|by intros ? ? ?].
    cbn [mbind option_bind]. assert (timer l <> wake l) as Hid by (intros E; rewrite E in Ef; congruence).
    rewrite (spec_register _ _ (wake l) g Eg); [done|set_solver| |].
    + cbn [live list_channel nothing]. by rewrite lookup_insert_ne.
    + intros i x Hi. cbn in Hi. apply lookup_insert_Some in Hi as [[_ <-]|[_ ?]]; [done|by rewrite lookup_empty in *].
  - exists p, f, g. split; [|done]. unfold openLoop. rewrite Ep. done.
Qed.

(** A loop at rest, whose poller watches its own channels and nothing else. *)
Definition fresh_loop (heap : gmap nat Channel.t) b l L : Prop :=
  exists p a, L = mkLoop EventLoop.create p [] [] /\ sim (Channel.fd_ <$> heap) p a /\
    (forall id f e, live a !! id = Some (f, e) -> (Channel.fd_ <$> heap) !! id = Some f /\ service b l id) /\ gone a = ∅.

Lemma openLoops_spec heap b ls ls' :
  own_channels heap b ls -> ls' ⊆ b :: ls ->
  exists m, openLoops (W:=W) wake timer heap ls' = Some m /\
    (forall l L, m !! l = Some L -> fresh_loop heap b l L) /\ (forall l, l ∈ ls' -> is_Some (m !! l)).
Proof.
  intros Hown. induction ls' as [|l ls' IH]; intros Hin; cbn [openLoops].
  - exists ∅. split; [done|]. split; [|set_solver]. intros l L. by rewrite lookup_empty.
  - destruct (openLoop_sim heap b ls l Hown) as (p & f & g & -> & Hs & Ef & Eg); [set_solver|].
    cbn [mbind option_bind]. destruct IH as (m & -> & Hm & Hl); [set_solver|]. cbn [mbind option_bind].
    eexists. split; [reflexivity|]. split.
    + intros l0 L [[<- <-]|[_ H0]]%lookup_insert_Some; [|by apply Hm].
      exists p, (own_watch f g l). split; [done|]. split; [done|]. split; [|done].
      intros id f0 e [[-> ->]|[-> ->]]%own_watch_live; [split; [done|by left]|split; [done|by right; left]].
    + intros l0 [->|H0]%elem_of_cons; apply lookup_insert_is_Some'; [by left|right; by apply Hl].
Qed.

(** The acceptor listens in the base loop. *)
Lemma listening_sim heap b ls p f g :
  own_channels heap b ls -> sim (Channel.fd_ <$> heap) p (own_watch f g b) ->
  (Channel.fd_ <$> heap) !! timer b = Some f -> (Channel.fd_ <$> heap) !! wake b = Some g ->
  exists p', impl_run p [Change acceptor Channel.kReadEvent] = Some p' /\
    fresh_loop heap b b (mkLoop EventLoop.create p' [] []).
Proof.
  intros [_ _ _ (h & Eh & Hf & Hg)] Hs Ef Eg. rewrite <- lookup_fmap in *. rewrite Ef in Hf. rewrite Eg in Hg.
  assert (acceptor <> timer b /\ acceptor <> wake b) as [Ht Hw] by (split; intros E; rewrite E in Eh; congruence).
  set (a := mkWatch (<[acceptor := (h, Channel.kReadEvent)]> (live (own_watch f g b))) ∅).
  destruct (run_sim _ [Change acceptor Channel.kReadEvent] _ _ a Hs) as (p' & Ep & Hs').
  - cbn [spec_run]. rewrite (spec_register _ _ acceptor h Eh); [done|set_solver| |].
    + cbn [live own_watch]. by rewrite !lookup_insert_ne.
    + intros i [f0 e] [[_ ->]|[_ ->]]%own_watch_live; cbn; congruence.
  - exists p'. split; [done|]. exists p', a. split; [done|]. split; [done|]. split; [|done].
    intros id f0 e Hi. change (<[acceptor := (h, Channel.kReadEvent)]> (live (own_watch f g b)) !! id = Some (f0, e)) in Hi. apply lookup_insert_Some in Hi as [[<- [= <- <-]]|[_ [[-> ->]|[-> ->]]%own_watch_live]];
      [split; [done|by right; right]|split; [done|by left]|split; [done|by right; left]].
Qed.

(** Loops at rest, without connections. *)
Lemma quiet_inv heap b sv m :
  TcpServer.wf sv -> (1 <= TcpServer.nextConnId_ sv)%Z -> TcpServer.connections_ sv = ∅ -> pool_ok b sv m ->
  (forall l L, m !! l = Some L -> fresh_loop heap b l L) ->
  ServerFacts.inv (Channel.fd_ <$> heap) wake timer acceptor b None ∅ (mk sv ∅ m ∅ : t).
Proof.
  intros Hwf Hid Hc Hp Hm. split; cbn [server objects loops retired]; try done.
  - intros id. rewrite !lookup_empty. split; by intros [].
  - intros nm id. rewrite Hc, lookup_empty. split; [done|]. intros (o & st & Ho & _). by rewrite lookup_empty in Ho.
  - intros l L Hl. destruct (Hm l L Hl) as (p & a & -> & _). by constructor.
  - intros l L Hl. destruct (Hm l L Hl) as (p & a & -> & Hs & Hlive & Hg). exists a. split; [done|]. split.
    + intros id f e Hi. destruct (Hlive id f e Hi). split; [done|by left].
    + intros id o st. by rewrite lookup_empty.
    + rewrite Hg. set_solver.
  - intros l L Hl. destruct (Hm l L Hl) as (p & a & -> & _). split; cbn; try done. constructor.
Qed.

Lemma start_inv heap name ipPort b fresh n :
  own_channels heap b (map fresh (seq 0 n)) ->
  exists s0, start wake timer acceptor heap name ipPort b fresh n = Some s0 /\
    ServerFacts.inv (Channel.fd_ <$> heap) wake timer acceptor b None ∅ s0.
Proof.
  intros Hown. unfold start. destruct (openLoop_sim heap b _ b Hown) as (p & f & g & -> & Hs & Ef & Eg); [by left|].
  cbn [mbind option_bind TcpServer.start EventLoopThreadPool.start].
  unfold TcpServer.start, TcpServer.setThreadNum, TcpServer.create. cbn.
  destruct (openLoops_spec heap b (map fresh (seq 0 n)) (map fresh (seq 0 n)) Hown) as (m & -> & Hm & Hl); [set_solver|].
  cbn [mbind option_bind]. destruct (listening_sim heap b _ p f g Hown Hs Ef Eg) as (p' & Ep' & Hb).
  change (match p_heap p !! acceptor with Some x => p_update (p_set p acceptor (Channel.set_events x Channel.kReadEvent)) acceptor | None => None end)
    with (impl_step p (Change acceptor Channel.kReadEvent)).
  eexists. split.
  - cbn in Ep'. unfold mbind, option_bind in Ep' |- *. rewrite Ep'. reflexivity.
  - apply quiet_inv; try done; cbn.
    + split; cbn; [done..| |].
      { intros Hne. destruct n; [done|cbn; lia]. }
      apply Forall_forall. intros l Hin. apply lookup_insert_is_Some'. apply elem_of_cons in Hin as [->|Hin]; [by left|right; by apply Hl].
    + intros l L [[<- <-]|[_ H0]]%lookup_insert_Some; [done|by apply Hm].
Qed.

(** ** What holds in every state *)

Lemma reach_inv b s0 s stg0 :
  inv b None stg0 s0 -> reach fds wake timer acceptor wcc s0 s -> exists stg, inv b None stg s.
Proof.
  intros H0 Hr. induction Hr as [|k s s' _ [stg Hinv] Hen He]; [by exists stg0|].
  destruct (exec_inv b stg s k Hinv Hen) as (s1 & stg1 & E & H1 & _). rewrite He in E. injection E as <-. by exists stg1.
Qed.

(** A loop can always take a step. *)
Lemma loop_steps b stg s l L : inv b None stg s -> loops s !! l = Some L -> exists k, step_of l k /\ enabled k s.
Proof.
  intros Hinv HL. pose proof (lo_flags _ _ _ _ _ _ _ _ (in_loop Hinv l L HL)) as Hfl.
  destruct (EventLoop.eventHandling_ (base L)) eqn:Eh; [|destruct (EventLoop.callingPendingFunctors_ (base L)) eqn:Ec].
  - destruct (active L) as [|[id r] rest] eqn:Ea.
    + exists (SCall l). split; [done|]. exists L. split_and!; try done. split; [done|]. by apply Hfl.
    + exists (SHandle l (mkAnswer (inl 0%Z) [] None)). split; [done|]. exists L, id, r, rest. split_and!; try done.
      split; [done|]. by apply Hfl.
  - destruct (running L) as [|f rest] eqn:Er.
    + exists (SReturn l). split; [done|]. by exists L.
    + exists (SRun l []). split; [done|]. exists L. split_and!; try done. by rewrite Er.
  - exists (SPoll l []). split; [done|]. exists L. split_and!; try done. split; cbn; constructor.
Qed.

Lemma inv_accounted b stg s : inv b None stg s -> accounted s.
Proof.
  intros Hinv. split.
  - intros nm id E. apply (in_table Hinv) in E as (o & st & ? & ? & ? & ?). by exists o.
  - intros id o Ho Hop. destruct (in_dom Hinv id) as [_ Hd]. destruct Hd as [st Hst]; [by eexists|].
    destruct (in_object Hinv id o st Ho Hst) as [Hok [L HL]]. pose proof (ob_stage _ _ Hok) as E.
    assert (st = Up) as -> by (destruct st; cbn in E; try done; destruct Hop; congruence).
    split; [apply (in_table Hinv); by exists o, Up|]. exists L. split; [done|].
    destruct (in_watch Hinv _ _ HL) as (a & Hs & Hw). destruct (sim_shows fds _ _ Hs) as [Hshow _].
    by apply (Hshow id), (wo_registered _ _ _ _ _ _ _ _ _ _ Hw id o Up).
  - intros id id' o o' Ho Ho' E. destruct (in_fds Hinv id o Ho) as (Hf & _). destruct (in_fds Hinv id' o' Ho') as (_ & _ & _ & Hu).
    rewrite E in Hf. by apply (Hu id Hf).
  - intros id (o & Ho & Hc) Hno. destruct (in_dom Hinv id) as [_ Hd]. destruct Hd as [st Hst]; [by eexists|].
    destruct (in_object Hinv id o st Ho Hst) as [Hok HL]. pose proof (ob_stage _ _ Hok) as E.
    assert (forall l f, duty b o id st = Some (l, f) -> is_Some (loops s !! l) -> mentions id f -> False) as Hq.
    { intros l f Hdu [L0 HL0] Hm. pose proof (in_duty Hinv l L0 id o st HL0 Ho Hst) as Hd.
      rewrite Hdu in Hd. cbn in Hd. rewrite Nat.eqb_refl, app_nil_r in Hd.
      assert (f ∈ due id (todo L0)) as Hin by (rewrite Hd; by left). unfold due in Hin.
      apply list_elem_of_In, List.filter_In in Hin as [Hin _]. apply list_elem_of_In in Hin.
      specialize (Hno l L0 HL0). eapply Forall_forall in Hno; [|exact Hin]. by apply Hno. }
    destruct st; cbn in E; try congruence; [destruct E; congruence|exfalso..|by eapply gone_destroyed].
    + eapply Hq; [done| |done]. pose proof (po_loops _ _ _ (in_pool Hinv)) as Hl. by apply Forall_cons in Hl as [? _].
    + eapply Hq; done.
  - intros l L HL. apply (in_loop Hinv l L HL).
Qed.

End facts.
