(* ===== verification/FileUtil.v ===== *)
(** * Files (inc/utils/FileUtil.hpp, src/utils/thread/FileUtil.cpp)

    [ReadSmallFile] and [readFile], on what [open], [fstat], [read] and [pread]
    return, and [AppendFile], on what [fwrite_unlocked] and [ferror] return. *)

From S2P Require Import Prelude.

Local Open Scope Z_scope.

Definition EISDIR : Z := 21.

(** ** [ReadSmallFile] *)
Module ReadSmallFile.

Definition READ_BUFFER_LEN : nat := Z.to_nat (64 * 1024).

(** The descriptor and the error code. *)
Record t := mk { fd_ : Z; err_ : Z }.

(** [open] returned [fd] and left [errno]. *)
Definition create (fd errno : Z) : t := mk fd (if fd <? 0 then errno else 0).

(** What [fstat] reports of a file. *)
Inductive kind := Regular | Directory | Other.
Record stat := Stat { st_kind : kind; st_size : Z; st_mtime : Z; st_ctime : Z }.

(** What is stored through the three result pointers. *)
Record times := Times { fileSize : option Z; modifyTime : option Z; createTime : option Z }.

(** Which of the result pointers are not null. *)
Record pointers := Pointers { p_fileSize : bool; p_modifyTime : bool; p_createTime : bool }.

(** The part of [readToString] that inspects the file, when [fstat] succeeded:
    the error code and the stored results.  A store through a null pointer is
    [None]. *)
Definition inspect (f : t) (p : pointers) (info : stat) (errno : Z) : option (Z * times) :=
  '(err, size) ← match st_kind info with
                 | Regular => if p_fileSize p then Some (err_ f, Some (st_size info)) else None
                 | Directory => Some (EISDIR, None)
                 | Other => Some (err_ f, None)
                 end;
  Some (if p_createTime p then err else errno,
        Times size (if p_modifyTime p then Some (st_mtime info) else None)
                   (if p_createTime p then Some (st_ctime info) else None)).

(** The loop that reads, over the outcomes of [read]: the bytes it stored, or
    an [errno].  [None] when the outcomes run out before the loop ends. *)
Fixpoint read_loop (maxSize : nat) (content : bytes) (err : Z) (reads : list (Z + bytes)) : option (Z * bytes) :=
  if (length content <? maxSize)%nat then
    match reads with
    | [] => None
    | inl e :: _ => Some (e, content)
    | inr [] :: _ => Some (err, content)
    | inr d :: reads' =>
        let toRead := Nat.min (maxSize - length content) READ_BUFFER_LEN in
        read_loop maxSize (content ++ take toRead d) err reads'
    end
  else Some (err, content).

(** [readToString]: the result, the content and what was stored.  [info] is
    what [fstat] reported, when it succeeded. *)
Definition readToString (f : t) (maxSize : nat) (content : bytes) (p : pointers)
    (info : option stat) (errno : Z) (reads : list (Z + bytes)) : option (Z * bytes * times) :=
  if 0 <=? fd_ f then
    '(err, ts) ← match info with
                 | Some i => inspect f p i errno
                 | None => Some (err_ f, Times None None None)
                 end;
    '(err', content') ← read_loop maxSize content err reads;
    Some (err', content', ts)
  else Some (err_ f, content, Times None None None).

(** [readToBuffer] on the outcome of [pread]: the result and what the caller's
    buffer of [size] bytes starts with. *)
Definition readToBuffer (f : t) (size : nat) (outcome : Z + bytes) (errno : Z) : Z * bytes :=
  if 0 <=? fd_ f then
    match outcome with
    | inr d => (0, if (length d <? size)%nat then d ++ [ascii_of_nat 0] else d)
    | inl e => (e, [])
    end
  else (errno, []).

(** [readFile]: all three pointers are null, and the error code is returned as
    a [bool]. *)
Definition readFile (f : t) (sizeLimt : nat) (info : option stat) (errno : Z)
    (reads : list (Z + bytes)) : option (bool * bytes) :=
  '(err, content, _) ← readToString f sizeLimt [] (Pointers false false false) info errno reads;
  Some (negb (err =? 0), content).

(** Reading a regular file through [readFile] stores through a null pointer,
    whatever the file holds; a file that cannot be opened is reported as
    success. *)
Lemma readFile_regular f limit info errno reads :
  0 <= fd_ f -> st_kind info = Regular -> readFile f limit (Some info) errno reads = None.
Proof.
  intros Hf Hk. unfold readFile, readToString, inspect. rewrite Hk.
  by destruct (Z.leb_spec 0 (fd_ f)); [|lia].
Qed.

Lemma readFile_no_file limit info errno reads : errno <> 0 ->
  readFile (create (-1) errno) limit info errno reads = Some (true, []).
Proof. intros He. unfold readFile, readToString, create. cbn. by destruct (Z.eqb_spec errno 0). Qed.
End ReadSmallFile.

(** ** [AppendFile] *)
Module AppendFile.

(** The bytes accepted by [fwrite], how many of them a flush has handed to the
    system, and the counter of the class. *)
Record t := mk { data : bytes; synced : nat; writtenBytes_ : Z }.

Definition create : t := mk [] 0 0.

(** The loop of [append] over the results of [fwrite_unlocked]: the number of
    bytes it took, at most what it was given, and what [ferror] says
    afterwards. *)
Fixpoint append_loop (data logline : bytes) (written : Z) (writes : list (nat * Z)) : option (bytes * Z) :=
  match logline with
  | [] => Some (data, written)
  | _ :: _ =>
      match writes with
      | [] => None
      | (taken, err) :: writes' =>
          let n := Nat.min taken (length logline) in
          let data' := data ++ take n logline in
          if negb (n =? length logline)%nat && negb (err =? 0) then Some (data', written)
          else append_loop data' (drop n logline) (written + Z.of_nat n) writes'
      end
  end.

Definition append (f : t) (logline : bytes) (writes : list (nat * Z)) : option t :=
  '(d, written) ← append_loop (data f) logline 0 writes;
  Some (mk d (synced f) (writtenBytes_ f + written)).

Definition flush (f : t) : t := mk (data f) (length (data f)) (writtenBytes_ f).

(** Without errors [append] stores the line and counts it. *)
Lemma appendfile_append_loop_spec d logline written writes d' w' :
  Forall (fun w => w.2 = 0) writes ->
  append_loop d logline written writes = Some (d', w') ->
  d' = d ++ logline /\ w' = written + Z.of_nat (length logline).
Proof.
  intros H. revert d logline written. induction H as [|[n err] writes Hn _ IH]; intros d logline written.
  - destruct logline; intros [= <- <-]. rewrite app_nil_r. split; [done|simpl; lia].
  - destruct logline as [|c l]; [intros [= <- <-]; rewrite app_nil_r; split; [done|simpl; lia]|].
    cbn [append_loop]. cbn in Hn. subst err. rewrite andb_false_r.
    intros [-> ->]%IH. rewrite <- app_assoc, take_drop, length_drop. split; [done|lia].
Qed.

Lemma appendfile_append_spec f logline writes f' : Forall (fun w => w.2 = 0) writes ->
  append f logline writes = Some f' ->
  data f' = data f ++ logline /\ synced f' = synced f /\
  writtenBytes_ f' = writtenBytes_ f + Z.of_nat (length logline).
Proof.
  unfold append. intros Hw H. destruct (append_loop _ _ _ _) as [[d w]|] eqn:E; [|done].
  apply appendfile_append_loop_spec in E as [-> ->]; [|done]. injection H as <-. cbn. repeat split; lia.
Qed.

(** One write that takes everything is enough for [append] to return. *)
Lemma append_total f logline err writes :
  exists f', append f logline ((length logline, err) :: writes) = Some f'.
Proof.
  unfold append. destruct logline as [|c l] eqn:E; [by eexists|]. cbn [append_loop]. rewrite <- E.
  rewrite Nat.min_id, Nat.eqb_refl, drop_all. cbn [negb andb].
  destruct writes as [|[]]; by eexists.
Qed.
End AppendFile.
