(* ===== verification/LogFile.v ===== *)
(** * [LogFile] (inc/utils/log/LogFile.hpp, src/utils/log/LogFile.cpp)

    The rolling log file.  The readings of [time(NULL)] and the results of
    [fwrite] are arguments; the files opened so far are kept, the current one
    last, so that what a roll leaves behind stays visible. *)

From S2P Require Import Prelude CxxString Calendar FileUtil.

Module LogFile.
Local Open Scope Z_scope.

Definition kRollPerSeconds_ : Z := 60 * 60 * 24.

(** The constructor's arguments, and whether there is a mutex. *)
Record config := Config {
  basename_ : bytes; rollSize_ : Z; flushInterval_ : Z; checkEveryN_ : Z; threadSafe : bool
}.

Record t := mk {
  count_ : Z;
  startOfPeriod_ : Z;
  lastRoll_ : Z;
  lastFlush_ : Z;
  closed : list (bytes * AppendFile.t);
  file_ : option (bytes * AppendFile.t)
}.

Section logfile.
(** [localtime_r] depends on the time zone; the host name and the process id
    come from the system. *)
Context (localtime : Z -> tm) (hostName : bytes) (pid : Z).
Context (cfg : config).

(** [".%Y%m%d-%H%M%S."]. *)
Definition timebuf (now : Z) : bytes :=
  let tm := localtime now in
  $"." ++ to_string (c_year (tm_date tm)) ++ fmt_d true 2 (c_month (tm_date tm)) ++
  fmt_d true 2 (c_day (tm_date tm)) ++ $"-" ++ fmt_d true 2 (tm_hour tm) ++
  fmt_d true 2 (tm_min tm) ++ fmt_d true 2 (tm_sec tm) ++ $".".

Definition getLogFileName (basename : bytes) (now : Z) : bytes :=
  basename ++ snprintf 32 (timebuf now) ++ hostName ++ snprintf 32 ($"." ++ to_string pid) ++ $".log".

Definition period (now : Z) : Z := Z.quot now kRollPerSeconds_ * kRollPerSeconds_.

(** [rollFile] at time [now]. *)
Definition rollFile (f : t) (now : Z) : bool * t :=
  let filename := getLogFileName (basename_ cfg) now in
  let start := period now in
  if lastRoll_ f <? now then
    (true, mk (count_ f) start now now (closed f ++ option_list (file_ f))
              (Some (filename, AppendFile.create)))
  else (false, f).

(** The constructor; the [assert] refuses a path. *)
Definition create (now : Z) : option t :=
  if bool_decide ("/"%char ∈ basename_ cfg) then None
  else Some (snd (rollFile (mk 0 0 0 0 [] None) now)).

Definition set_file (f : t) (file : bytes * AppendFile.t) : t :=
  mk (count_ f) (startOfPeriod_ f) (lastRoll_ f) (lastFlush_ f) (closed f) (Some file).
Definition set_count (f : t) (n : Z) : t :=
  mk n (startOfPeriod_ f) (lastRoll_ f) (lastFlush_ f) (closed f) (file_ f).
Definition set_lastFlush (f : t) (now : Z) : t :=
  mk (count_ f) (startOfPeriod_ f) (lastRoll_ f) now (closed f) (file_ f).

(** [flush()]; without a file it dereferences a null pointer. *)
Definition flush (f : t) : option t :=
  '(name, file) ← file_ f; Some (set_file f (name, AppendFile.flush file)).

(** [append_unlocked]: [now] is the reading of the periodic check, [nowRoll]
    the one [rollFile] makes. *)
Definition append_unlocked (f : t) (logline : bytes) (writes : list (nat * Z)) (now nowRoll : Z) : option t :=
  '(name, file) ← file_ f;
  file' ← AppendFile.append file logline writes;
  let f1 := set_file f (name, file') in
  if rollSize_ cfg <? AppendFile.writtenBytes_ file' then Some (snd (rollFile f1 nowRoll))
  else
    let f2 := set_count f1 (swrap 32 (count_ f1 + 1)) in
    if checkEveryN_ cfg <=? count_ f2 then
      let f3 := set_count f2 0 in
      let thisPeriod_ := period now in
      if negb (thisPeriod_ =? startOfPeriod_ f3) then Some (snd (rollFile f3 nowRoll))
      else if flushInterval_ cfg <? now - lastFlush_ f3 then flush (set_lastFlush f3 now)
      else Some f3
    else Some f2.

(** [append]: with or without the mutex, the same work. *)
Definition append (f : t) (logline : bytes) (writes : list (nat * Z)) (now nowRoll : Z) : option t :=
  if threadSafe cfg then append_unlocked f logline writes now nowRoll
  else append_unlocked f logline writes now nowRoll.

(** A history of appends. *)
Record call := Call { c_line : bytes; c_writes : list (nat * Z); c_now : Z; c_nowRoll : Z }.

Fixpoint appends (f : t) (calls : list call) : option t :=
  match calls with
  | [] => Some f
  | c :: calls' =>
      f' ← append f (c_line c) (c_writes c) (c_now c) (c_nowRoll c); appends f' calls'
  end.

(** ** Nothing is lost by rolling *)

(** Every file, in the order they were opened, and what they hold. *)
Definition files (f : t) : list (bytes * AppendFile.t) := closed f ++ option_list (file_ f).
Definition logged (f : t) : bytes := mjoin (map (fun p => AppendFile.data p.2) (files f)).

Lemma logged_set_file f name file file' : file_ f = Some (name, file) ->
  logged (set_file f (name, file')) =
  mjoin (map (fun p => AppendFile.data p.2) (closed f)) ++ AppendFile.data file' /\
  logged f = mjoin (map (fun p => AppendFile.data p.2) (closed f)) ++ AppendFile.data file.
Proof.
  intros E. unfold logged, files, set_file. cbn. rewrite E. cbn.
  rewrite !map_app, !join_app. cbn. by rewrite !app_nil_r.
Qed.

Lemma logged_rollFile f now : logged (snd (rollFile f now)) = logged f.
Proof.
  unfold rollFile. destruct (lastRoll_ f <? now); [|done]. cbn. unfold logged, files. cbn.
  rewrite map_app, join_app. cbn. by rewrite !app_nil_r.
Qed.

Lemma rollFile_file f now : is_Some (file_ f) -> is_Some (file_ (snd (rollFile f now))).
Proof. unfold rollFile. destruct (lastRoll_ f <? now); [by eexists|done]. Qed.

Lemma flush_spec f : is_Some (file_ f) ->
  exists f', flush f = Some f' /\ is_Some (file_ f') /\ logged f' = logged f.
Proof.
  intros [[name file] E]. unfold flush. rewrite E. cbn. eexists. split; [done|].
  split; [by eexists|]. destruct (logged_set_file f name file (AppendFile.flush file) E) as [-> ->].
  done.
Qed.

Lemma logfile_append_spec f logline writes now nowRoll : is_Some (file_ f) ->
  Forall (fun w => w.2 = 0) writes ->
  match append f logline writes now nowRoll with
  | Some f' => is_Some (file_ f') /\ logged f' = logged f ++ logline
  | None => True
  end.
Proof.
  intros [[name file] E] Hw. unfold append.
  replace (if threadSafe cfg then _ else _) with (append_unlocked f logline writes now nowRoll)
    by (by destruct (threadSafe cfg)).
  unfold append_unlocked. rewrite E. cbn [mbind option_bind].
  destruct (AppendFile.append file logline writes) as [file'|] eqn:Ea; [|done]. cbn [mbind option_bind].
  apply AppendFile.appendfile_append_spec in Ea as (Hd & _ & _); [|done].
  assert (is_Some (file_ (set_file f (name, file')))) as Hs by (by eexists).
  assert (logged (set_file f (name, file')) = logged f ++ logline) as Hl.
  { destruct (logged_set_file f name file file' E) as [-> ->]. by rewrite Hd, app_assoc. }
  set (f1 := set_file f (name, file')) in *. cbv zeta.
  assert (forall g, is_Some (file_ g) -> logged g = logged f1 ->
    is_Some (file_ (rollFile g nowRoll).2) /\ logged (rollFile g nowRoll).2 = logged f ++ logline) as Hroll.
  { intros g ? Hg. split; [by apply rollFile_file|]. by rewrite logged_rollFile, Hg. }
  destruct (_ <? _); [by apply Hroll|].
  destruct (_ <=? _); [|done].
  destruct (negb _); [by apply Hroll|].
  destruct (_ <? _); [|done].
  destruct (flush_spec (set_lastFlush (set_count (set_count f1 (swrap 32 (count_ f1 + 1))) 0) now))
    as (f' & -> & ? & Hlf); [done|].
  split; [done|]. by rewrite Hlf.
Qed.

Lemma create_spec now f : 0 < now -> create now = Some f -> is_Some (file_ f) /\ logged f = [].
Proof.
  unfold create, rollFile. intros Hn. case_bool_decide; [done|]. cbn.
  destruct (Z.ltb_spec 0 now); [|lia]. intros [= <-]. by split; [eexists|].
Qed.

Lemma appends_spec f calls f' : is_Some (file_ f) ->
  Forall (fun c => Forall (fun w => w.2 = 0) (c_writes c)) calls ->
  appends f calls = Some f' -> is_Some (file_ f') /\ logged f' = logged f ++ mjoin (map c_line calls).
Proof.
  intros Hf Hc. revert f Hf. induction Hc as [|c calls Hw _ IH]; intros f Hf; cbn.
  - intros [= <-]. by rewrite app_nil_r.
  - pose proof (logfile_append_spec f (c_line c) (c_writes c) (c_now c) (c_nowRoll c) Hf Hw) as Ha.
    destruct (append f _ _ _ _) as [f1|]; [|done]. cbn. destruct Ha as [Hf1 Hl1].
    intros [? Hl]%IH; [|done]. split; [done|]. by rewrite Hl, Hl1, <- app_assoc.
Qed.

(** The bytes written to the current file. *)
Definition current_size (f : t) : Z := from_option (fun p => AppendFile.writtenBytes_ p.2) 0 (file_ f).

Lemma rollFile_size f now : lastRoll_ f < now -> current_size (snd (rollFile f now)) = 0.
Proof. intros. unfold rollFile. destruct (Z.ltb_spec (lastRoll_ f) now); [done|lia]. Qed.

(** After an append the current file is within [rollSize_], unless it was
    opened in the same second. *)
Lemma append_size f logline writes now nowRoll f' : 0 <= rollSize_ cfg -> lastRoll_ f < nowRoll ->
  append f logline writes now nowRoll = Some f' -> current_size f' <= rollSize_ cfg.
Proof.
  intros Hr Hroll. unfold append.
  replace (if threadSafe cfg then _ else _) with (append_unlocked f logline writes now nowRoll)
    by (by destruct (threadSafe cfg)).
  unfold append_unlocked. destruct (file_ f) as [[name file]|]; [|done]. cbn [mbind option_bind].
  destruct (AppendFile.append file logline writes) as [file'|]; [|done]. cbn [mbind option_bind].
  assert (forall g, lastRoll_ g = lastRoll_ f -> current_size (rollFile g nowRoll).2 <= rollSize_ cfg) as H0.
  { intros g Hg. rewrite rollFile_size; lia. }
  destruct (Z.ltb_spec (rollSize_ cfg) (AppendFile.writtenBytes_ file')) as [|Hsz];
    [intros [= <-]; by apply H0|].
  cbv zeta. destruct (_ <=? _); [|by intros [= <-]].
  destruct (negb _); [intros [= <-]; by apply H0|].
  destruct (_ <? _); [|by intros [= <-]].
  unfold flush. cbn. by intros [= <-].
Qed.

End logfile.
End LogFile.
