(* ===== verification/LogStream.v ===== *)
(** * Log lines (inc/utils/log/LogStream.hpp, src/utils/log/LogStream.cpp)

    [FixedBuffer<SIZE>], the array a log line is formatted into; [LogStream],
    its [<<] operators; the conversions of integers and pointers.  A write
    outside the array is [None]. *)

From S2P Require Import Prelude CxxString ByteBuffer.

(** ** [FixedBuffer] *)
Module FixedBuffer.
Section fixed.
Context (SIZE : nat).

(** The array and the index of [cur_] in it. *)
Record t := mk { data_ : bytes; cur_ : nat }.

Definition create : t := mk (replicate SIZE (chr 0)) 0.

Definition length_ (b : t) : nat := cur_ b.
Definition avail (b : t) : Z := Z.of_nat SIZE - Z.of_nat (cur_ b).

(** [memcpy] of [d] to the array from index [i]. *)
Definition store (b : t) (i : nat) (d : bytes) : option bytes :=
  if i + length d <=? SIZE then Some (Buffer.overwrite (data_ b) i d) else None.

(** The length is compared after a cast to a signed 32-bit integer. *)
Definition append (b : t) (d : bytes) : option t :=
  if (swrap 32 (Z.of_nat (length d)) <? avail b)%Z then
    data ← store b (cur_ b) d;
    Some (mk data (cur_ b + length d))
  else Some b.

Definition reset (b : t) : t := mk (data_ b) 0.
Definition bzero (b : t) : t := mk (replicate SIZE (chr 0)) (cur_ b).
Definition add (b : t) (len : nat) : t := mk (data_ b) (cur_ b + len).

(** [toString()], and what [data()] and [length()] delimit. *)
Definition content (b : t) : bytes := take (cur_ b) (data_ b).

(** The array has its size and the end pointer stays inside it. *)
Definition wf (b : t) : Prop := length (data_ b) = SIZE /\ cur_ b <= SIZE.

Lemma fixed_create_wf : wf create /\ content create = [].
Proof. split; [|done]. split; simpl; [by rewrite length_replicate|lia]. Qed.

Lemma fixed_content_length b : wf b -> length (content b) = cur_ b.
Proof. intros [? ?]. unfold content. rewrite length_take. lia. Qed.

(** A store at the end followed by a move of the end over part of it. *)
Lemma store_content b d n : wf b -> cur_ b + length d <= SIZE -> n <= length d ->
  exists data, store b (cur_ b) d = Some data /\
    wf (mk data (cur_ b + n)) /\ content (mk data (cur_ b + n)) = content b ++ take n d.
Proof.
  intros [Hl Hc] Hd Hn. unfold store, wf, content. nat_test.
  eexists. split; [done|]. unfold Buffer.overwrite; simpl. split.
  - rewrite !length_app, length_take, length_drop. lia.
  - rewrite take_app_add' by (rewrite length_take; lia). f_equal.
    by rewrite take_app_le by lia.
Qed.

(** [append] adds the text when it fits with room to spare, and drops it
    otherwise. *)
Lemma fixed_append_spec b d : wf b -> (Z.of_nat (length d) < 2 ^ 31)%Z ->
  exists b', append b d = Some b' /\ wf b' /\
    content b' = content b ++ (if cur_ b + length d <? SIZE then d else []).
Proof.
  intros Hwf Hd. unfold append, avail. rewrite swrap_small by lia.
  pose proof Hwf as [_ ?].
  destruct (Nat.ltb_spec (cur_ b + length d) SIZE), (Z.ltb_spec (Z.of_nat (length d)) (Z.of_nat SIZE - Z.of_nat (cur_ b)));
    try lia.
  - destruct (store_content b d (length d) Hwf ltac:(lia) ltac:(lia)) as (data & -> & Hw & Hcont).
    simpl. eexists. split; [done|]. split; [done|]. by rewrite Hcont, firstn_all.
  - exists b. by rewrite app_nil_r.
Qed.

(** A text whose length wraps to a negative number is copied without a test. *)
Lemma append_overflows b d : wf b -> (Z.of_nat SIZE < 2 ^ 31)%Z ->
  (2 ^ 31 <= Z.of_nat (length d) < 2 ^ 32)%Z -> append b d = None.
Proof.
  intros [_ ?] HS Hd. unfold append, avail, store.
  assert (swrap 32 (Z.of_nat (length d)) < 0)%Z as Hneg.
  { unfold swrap. rewrite wrap_small by lia. destruct (Z.ltb_spec (Z.of_nat (length d)) (2 ^ (32 - 1))); lia. }
  destruct (Z.ltb_spec (swrap 32 (Z.of_nat (length d))) (Z.of_nat SIZE - Z.of_nat (cur_ b))); [|lia].
  replace (cur_ b + length d <=? SIZE) with false by (symmetry; apply Nat.leb_gt; lia). done.
Qed.

End fixed.
End FixedBuffer.

(** ** Conversions *)
Local Open Scope Z_scope.

Definition digits : bytes := $"9876543210123456789".
(** [zero[lsd]], [zero] pointing at the tenth character. *)
Definition zero_at (lsd : Z) : ascii := nth (Z.to_nat (9 + lsd)) digits (chr 0).

Definition digitsHex : bytes := $"0123456789ABCDEF".

(** The [do ... while] of [convert]: the characters in the order they are
    written, least significant first.  A 64-bit value has at most 20 digits. *)
Fixpoint convert_loop (fuel : nat) (i : Z) : bytes :=
  match fuel with
  | O => []
  | S fuel' =>
      let lsd := Z.rem i 10 in
      let i' := Z.quot i 10 in
      zero_at lsd :: (if i' =? 0 then [] else convert_loop fuel' i')
  end.

(** The text [convert] leaves in the buffer before the terminating NUL. *)
Definition convert (value : Z) : bytes :=
  reverse (convert_loop 20 value ++ (if value <? 0 then $"-" else [])).

Fixpoint convertHex_loop (fuel : nat) (i : Z) : bytes :=
  match fuel with
  | O => []
  | S fuel' =>
      let lsd := i mod 16 in
      let i' := i / 16 in
      nth (Z.to_nat lsd) digitsHex (chr 0) :: (if i' =? 0 then [] else convertHex_loop fuel' i')
  end.

(** 16 digits hold a 64-bit address. *)
Definition convertHex (value : Z) : bytes := reverse (convertHex_loop 16 value).

(** *** Against the standard conversions *)

Lemma zero_at_digit i : zero_at (Z.rem i 10) = chr (48 + Z.abs i mod 10).
Proof.
  assert (Z.abs (Z.rem i 10) = Z.abs i mod 10) as E.
  { rewrite <- Z.rem_abs by lia. apply Z.rem_mod_nonneg; lia. }
  assert (-9 <= Z.rem i 10 <= 9) as Hb by (Z.to_euclidean_division_equations; lia).
  rewrite <- E. clear E. generalize dependent (Z.rem i 10). intros r Hb.
  assert (r = -9 \/ r = -8 \/ r = -7 \/ r = -6 \/ r = -5 \/ r = -4 \/ r = -3 \/ r = -2 \/ r = -1 \/
          r = 0 \/ r = 1 \/ r = 2 \/ r = 3 \/ r = 4 \/ r = 5 \/ r = 6 \/ r = 7 \/ r = 8 \/ r = 9)
    as K by (clear - Hb; lia).
  repeat destruct K as [->|K]; try reflexivity. subst r. reflexivity.
Qed.

Lemma quot_abs i : Z.abs (Z.quot i 10) = Z.abs i / 10.
Proof. rewrite <- Z.quot_abs by lia. apply Z.quot_div_nonneg; lia. Qed.

Lemma convert_loop_udigits fuel i : reverse (convert_loop fuel i) = udigits fuel (Z.abs i) [].
Proof.
  revert i. induction fuel as [|f IH]; intros i; [done|]. cbn [convert_loop udigits].
  rewrite zero_at_digit, reverse_cons.
  replace (Z.quot i 10 =? 0) with (Z.abs i <? 10).
  - destruct (Z.ltb_spec (Z.abs i) 10); [done|].
    rewrite IH, quot_abs. symmetry. apply udigits_app.
  - apply eq_true_iff_eq. Z.to_euclidean_division_equations. lia.
Qed.

Lemma udigits_S f n acc : udigits (S f) n acc =
  if n <? 10 then chr (48 + n mod 10) :: acc else udigits f (n / 10) (chr (48 + n mod 10) :: acc).
Proof. done. Qed.

(** Enough fuel is enough fuel. *)
Lemma udigits_fuel f g n : 0 <= n -> n < 10 ^ Z.of_nat (S f) -> n < 10 ^ Z.of_nat (S g) ->
  udigits (S f) n [] = udigits (S g) n [].
Proof.
  revert g n. induction f as [|f IH]; intros g n H0 Hf Hg; rewrite !(fun f => udigits_S f n []);
    destruct (Z.ltb_spec n 10); try done.
  - rewrite Z.pow_1_r in Hf. lia.
  - destruct g as [|g]; [rewrite Z.pow_1_r in Hg; lia|].
    rewrite (Nat2Z.inj_succ (S f)), Z.pow_succ_r in Hf by lia.
    rewrite (Nat2Z.inj_succ (S g)), Z.pow_succ_r in Hg by lia.
    rewrite (udigits_app (S f)), (udigits_app (S g)). f_equal.
    apply IH; [apply Z.div_pos; lia|apply Z.div_lt_upper_bound; lia|apply Z.div_lt_upper_bound; lia].
Qed.

Lemma convert_to_string v : - 10 ^ 20 < v < 10 ^ 20 -> convert v = to_string v.
Proof.
  intros Hv. unfold convert, to_string. rewrite reverse_app, convert_loop_udigits.
  rewrite (udigits_fuel 19 (Z.to_nat (Z.log2 (Z.abs v)))) by (try apply log2_fuel; lia).
  by destruct (v <? 0).
Qed.

Lemma convertHex_length v : (length (convertHex v) <= 16)%nat.
Proof.
  unfold convertHex. rewrite length_reverse. generalize 16%nat as n. intros n. revert v.
  induction n as [|n IH]; intros v; simpl; [lia|]. specialize (IH (v / 16)).
  destruct (v / 16 =? 0); simpl; lia.
Qed.

Lemma hex_val_digit d : 0 <= d < 16 -> hex_val (nth (Z.to_nat d) digitsHex (chr 0)) = Some d.
Proof.
  intros Hd.
  assert (d = 0 \/ d = 1 \/ d = 2 \/ d = 3 \/ d = 4 \/ d = 5 \/ d = 6 \/ d = 7 \/ d = 8 \/ d = 9 \/
          d = 10 \/ d = 11 \/ d = 12 \/ d = 13 \/ d = 14 \/ d = 15) as K by lia.
  repeat destruct K as [->|K]; try reflexivity. subst d. reflexivity.
Qed.

Lemma scan_hexdigits_app acc s c d : Forall (fun c => is_Some (hex_val c)) s -> hex_val c = Some d ->
  scan_hexdigits acc (s ++ [c]) = scan_hexdigits acc s * 16 + d.
Proof.
  intros Hs Hc. revert acc. induction Hs as [|x s [v Hv] _ IH]; intros acc; cbn.
  - by rewrite Hc.
  - rewrite Hv. apply IH.
Qed.

Lemma convertHex_loop_S n v : convertHex_loop (S n) v =
  nth (Z.to_nat (v mod 16)) digitsHex (chr 0) ::
    (if v / 16 =? 0 then [] else convertHex_loop n (v / 16)).
Proof. done. Qed.

(** The hexadecimal text reads back as the number. *)
Lemma scan_convertHex v : 0 <= v < 2 ^ 64 -> scan_hexdigits 0 (convertHex v) = v.
Proof.
  unfold convertHex. change (2 ^ 64) with (16 ^ Z.of_nat 16).
  enough (forall n v, 0 <= v < 16 ^ Z.of_nat (S n) ->
    Forall (fun c => is_Some (hex_val c)) (reverse (convertHex_loop (S n) v)) /\
    scan_hexdigits 0 (reverse (convertHex_loop (S n) v)) = v) as H by (intros; by apply H).
  intros n. induction n as [|n IH]; intros u Hu; rewrite convertHex_loop_S, reverse_cons;
    pose proof (hex_val_digit (u mod 16) ltac:(apply Z.mod_pos_bound; lia)) as Hd;
    (destruct (Z.eqb_spec (u / 16) 0) as [E|E];
     [rewrite reverse_nil; cbn [app scan_hexdigits]; rewrite Hd;
      split; [by repeat constructor|Z.div_mod_to_equations; lia]|]).
  - exfalso. change (16 ^ Z.of_nat 1) with 16 in Hu. apply E. apply Z.div_small. lia.
  - destruct (IH (u / 16)) as [Hf Hv].
    { rewrite (Nat2Z.inj_succ (S n)), Z.pow_succ_r in Hu by lia.
      split; [apply Z.div_pos; lia|apply Z.div_lt_upper_bound; lia]. }
    split; [apply Forall_app; split; [done|by repeat constructor]|].
    rewrite (scan_hexdigits_app _ _ _ (u mod 16)), Hv by done. Z.div_mod_to_equations. lia.
Qed.

(** ** [LogStream] *)
Definition smallBufferLen : nat := 4096.
Definition largeBufferLen : Z := 4096 * 1024.

Module LogStream.

Definition Buffer := FixedBuffer.t.
Definition kMaxNumericSize : Z := 48.

Definition create : Buffer := FixedBuffer.create smallBufferLen.

(** [append(data, len)]. *)
Definition append (b : Buffer) (d : bytes) : option Buffer := FixedBuffer.append smallBufferLen b d.

(** A conversion writes its text and a NUL at the end of the buffer, and moves
    the end by the length it returns. *)
Definition put_numeric (b : Buffer) (text : bytes) (len : nat) : option Buffer :=
  if kMaxNumericSize <=? FixedBuffer.avail smallBufferLen b then
    data ← FixedBuffer.store smallBufferLen b (FixedBuffer.cur_ b) (text ++ [chr 0]);
    Some (FixedBuffer.add (FixedBuffer.mk data (FixedBuffer.cur_ b)) len)
  else Some b.

Definition formatInteger (b : Buffer) (v : Z) : option Buffer :=
  put_numeric b (convert v) (length (convert v)).

(** The operand types of [<<].  The integer types are promoted to one of the
    instances of [formatInteger]; a value stands for itself.  [Double] carries
    what [snprintf("%.12g")] makes of the value. *)
Inductive operand :=
| Bool (v : bool)
| Short (v : Z) | UShort (v : Z) | Int (v : Z) | UInt (v : Z)
| Long (v : Z) | ULong (v : Z) | LongLong (v : Z) | ULongLong (v : Z)
| Pointer (v : Z)
| Double (text : bytes)
| Char (v : ascii)
| CString (str : option bytes)
| String (v : bytes)
| BufferOf (v : bytes).

(** The range of the type of an operand; a string is shorter than 2 GiB, or the
    cast in [append] overflows and the copy goes outside the array. *)
Definition operand_ok (o : operand) : Prop :=
  match o with
  | Short v => - 2 ^ 15 <= v < 2 ^ 15 | UShort v => 0 <= v < 2 ^ 16
  | Int v => - 2 ^ 31 <= v < 2 ^ 31 | UInt v => 0 <= v < 2 ^ 32
  | Long v | LongLong v => - 2 ^ 63 <= v < 2 ^ 63
  | ULong v | ULongLong v | Pointer v => 0 <= v < 2 ^ 64
  | Double text => (length text < 48)%nat
  | CString (Some s) | String s | BufferOf s => Z.of_nat (length s) < 2 ^ 31
  | _ => True
  end.

Definition put (b : Buffer) (o : operand) : option Buffer :=
  match o with
  | Bool v => append b (if v then $"1" else $"0")
  | Short v | UShort v | Int v | UInt v | Long v | ULong v | LongLong v | ULongLong v =>
      formatInteger b v
  | Pointer v => let hex := convertHex v in put_numeric b ($"0x" ++ hex) (length hex + 2)
  | Double text => put_numeric b (snprintf 48 text) (length text)
  | Char v => append b [v]
  | CString (Some str) => append b str
  | CString None => append b $"(null)"
  | String v | BufferOf v => append b v
  end.

(** [stream << o1 << o2 ...]. *)
Fixpoint puts (b : Buffer) (os : list operand) : option Buffer :=
  match os with
  | [] => Some b
  | o :: os' => b' ← put b o; puts b' os'
  end.

Definition resetBuffer (b : Buffer) : Buffer := FixedBuffer.reset b.

(** *** What a stream holds

    The text of an operand, and the bytes after it: a number is left out when
    fewer than 48 bytes are free, a string when it would not leave one free. *)
Definition text (o : operand) : bytes :=
  match o with
  | Bool v => if v then $"1" else $"0"
  | Short v | UShort v | Int v | UInt v | Long v | ULong v | LongLong v | ULongLong v => to_string v
  | Pointer v => $"0x" ++ convertHex v
  | Double text => text
  | Char v => [v]
  | CString (Some str) => str
  | CString None => $"(null)"
  | String v | BufferOf v => v
  end.

Definition numeric (o : operand) : bool :=
  match o with
  | Bool _ | Char _ | CString _ | String _ | BufferOf _ => false
  | _ => true
  end.

Definition fits (c : bytes) (o : operand) : bool :=
  if numeric o then (length c + 48 <=? smallBufferLen)%nat
  else (length c + length (text o) <? smallBufferLen)%nat.

Definition spec_put (c : bytes) (o : operand) : bytes := c ++ (if fits c o then text o else []).
Definition spec_puts (c : bytes) (os : list operand) : bytes := fold_left spec_put os c.

Definition wf : Buffer -> Prop := FixedBuffer.wf smallBufferLen.

Lemma put_numeric_spec b t : wf b -> (length t < 48)%nat ->
  exists b', put_numeric b t (length t) = Some b' /\ wf b' /\
    FixedBuffer.content b' = FixedBuffer.content b ++
      (if (FixedBuffer.cur_ b + 48 <=? smallBufferLen)%nat then t else []).
Proof.
  intros Hwf Ht. unfold put_numeric, kMaxNumericSize, FixedBuffer.avail. pose proof Hwf as [_ ?].
  destruct (Nat.leb_spec (FixedBuffer.cur_ b + 48) smallBufferLen),
    (Z.leb_spec 48 (Z.of_nat smallBufferLen - Z.of_nat (FixedBuffer.cur_ b))); try lia.
  - destruct (FixedBuffer.store_content smallBufferLen b (t ++ [chr 0]) (length t)) as (d & -> & Hw & Hc);
      [done|rewrite length_app; simpl; lia|rewrite length_app; lia|].
    simpl. eexists. split; [done|]. split; [exact Hw|]. unfold FixedBuffer.add. simpl.
    rewrite Hc. by rewrite take_app_length.
  - exists b. by rewrite app_nil_r.
Qed.

Lemma numeric_text o : operand_ok o -> numeric o = true -> (length (text o) < 48)%nat.
Proof.
  destruct o; cbn [operand_ok numeric text]; intros Hok Hn; try done;
    try (match goal with |- (length (to_string ?v) < _)%nat => pose proof (to_string_64 v ltac:(lia)); lia end).
  pose proof (convertHex_length v). rewrite length_app. simpl. lia.
Qed.

(** [<<] never writes outside the array, and does what the bytes say. *)
Lemma put_spec b o : wf b -> operand_ok o ->
  exists b', put b o = Some b' /\ wf b' /\
    FixedBuffer.content b' = spec_put (FixedBuffer.content b) o.
Proof.
  intros Hwf Hok. unfold spec_put, fits. rewrite (FixedBuffer.fixed_content_length smallBufferLen) by done.
  destruct (numeric o) eqn:Hn.
  - pose proof (put_numeric_spec b (text o) Hwf (numeric_text o Hok Hn)) as Hput.
    destruct o; try done; cbn [put text operand_ok] in *; unfold formatInteger;
      rewrite ?convert_to_string by lia; try exact Hput.
    + rewrite length_app in Hput. cbn in Hput |- *. by rewrite Nat.add_comm.
    + by rewrite snprintf_fits.
  - assert (put b o = append b (text o)) as -> by (destruct o as [| | | | | | | | | | | |[]| |]; done).
    apply FixedBuffer.fixed_append_spec; [done|].
    destruct o as [[]| | | | | | | | | | | |[]| |]; cbn in *; done || lia.
Qed.

Lemma puts_spec b os : wf b -> Forall operand_ok os ->
  exists b', puts b os = Some b' /\ wf b' /\
    FixedBuffer.content b' = spec_puts (FixedBuffer.content b) os.
Proof.
  intros Hwf Hos. revert b Hwf. induction Hos as [|o os Ho Hos IH]; intros b Hwf; [by exists b|].
  cbn [puts spec_puts fold_left]. destruct (put_spec b o Hwf Ho) as (b1 & -> & Hw1 & Hc1). cbn.
  rewrite <- Hc1. by apply IH.
Qed.

Lemma puts_app b os os' : puts b (os ++ os') = b' ← puts b os; puts b' os'.
Proof.
  revert b. induction os as [|o os IH]; intros b; [done|]. cbn. destruct (put b o); [apply IH|done].
Qed.

(** Operands with 48 bytes to spare after them are all taken. *)
Lemma spec_puts_fit c os :
  (length c + sum_list_with (fun o => length (text o)) os + 48 <= smallBufferLen)%nat ->
  spec_puts c os = c ++ mjoin (map text os).
Proof.
  revert c. induction os as [|o os IH]; intros c Hl; cbn in *; [by rewrite app_nil_r|].
  assert (fits c o = true) as E.
  { unfold fits. destruct (numeric o); [apply Nat.leb_le|apply Nat.ltb_lt]; lia. }
  unfold spec_put at 2. rewrite E. unfold spec_puts in IH.
  rewrite IH by (rewrite length_app; lia). by rewrite <- app_assoc.
Qed.
End LogStream.

(** [Fmt(fmt, val)] with the text that [snprintf] makes of them; the [assert]
    demands that it was not cut. *)
Definition Fmt (text : bytes) : option (bytes * nat) :=
  if (length text <? 32)%nat then Some (snprintf 32 text, length text) else None.

Definition put_Fmt (b : LogStream.Buffer) (fmt : bytes * nat) : option LogStream.Buffer :=
  LogStream.append b (take (snd fmt) (fst fmt)).
