(* ===== verification/AsyncLogging.v ===== *)
(** * [AsyncLogging] (inc/utils/log/AsyncLogging.hpp, src/utils/log/AsyncLogging.cpp)

    Front-end threads append lines to a buffer under the mutex; the back-end
    thread swaps the full buffers out under the same mutex and writes them
    without it.  An execution is a sequence of operations: the sections that
    hold the mutex are atomic, and so is the work of the back end between them,
    which touches only its own variables and the file. *)

From S2P Require Import Prelude CxxString TimeStamp LogStream.

Module AsyncLogging.
Section async.
(** The size of a buffer, [largeBufferLen] in the program. *)
Context (SIZE : nat).

Abbreviation Buffer := FixedBuffer.t.

(** Where the back-end thread is: not started, at the head of the loop, before
    the mutex, in [waitFor], after the swap, returned. *)
Inductive pc := PNone | PLoop | PLock | PWait | PWrite | PDone.

#[global] Instance pc_eq_dec : EqDecision pc.
Proof. solve_decision. Defined.

(** What happened to the buffers: written to the file, a notice written to the
    file, erased without being written. *)
Inductive event := EWrite (b : bytes) | ENotice (b : bytes) | EDrop (b : bytes).

Record t := mk {
  running_ : bool;
  currentBuffer_ : option Buffer;
  nextBuffer_ : option Buffer;
  buffers_ : list Buffer;
  thread_ : pc;
  newBuffer1 : option Buffer;
  newBuffer2 : option Buffer;
  buffersToWrite : list Buffer;
  events : list event
}.

Definition newBuffer : Buffer := FixedBuffer.create SIZE.

Definition create : t :=
  mk false (Some (FixedBuffer.bzero SIZE newBuffer)) (Some (FixedBuffer.bzero SIZE newBuffer)) []
     PNone None None [] [].

(** [append]; [None] is a null pointer or a write outside a buffer. *)
Definition append (s : t) (logline : bytes) : option t :=
  cur ← currentBuffer_ s;
  if (Z.of_nat (length logline) <? FixedBuffer.avail SIZE cur)%Z then
    cur' ← FixedBuffer.append SIZE cur logline;
    Some (mk (running_ s) (Some cur') (nextBuffer_ s) (buffers_ s) (thread_ s)
             (newBuffer1 s) (newBuffer2 s) (buffersToWrite s) (events s))
  else
    let buffers := buffers_ s ++ [cur] in
    let '(cur1, next) := match nextBuffer_ s with
                         | Some b => (b, None)
                         | None => (newBuffer, None)
                         end in
    cur' ← FixedBuffer.append SIZE cur1 logline;
    Some (mk (running_ s) (Some cur') next buffers (thread_ s)
             (newBuffer1 s) (newBuffer2 s) (buffersToWrite s) (events s)).

(** [start()] returns when the back end has passed its first [assert] and
    counted the latch down; its buffers are allocated next. *)
Definition start (s : t) : t :=
  mk true (currentBuffer_ s) (nextBuffer_ s) (buffers_ s) PLoop
     (Some (FixedBuffer.bzero SIZE newBuffer)) (Some (FixedBuffer.bzero SIZE newBuffer)) [] (events s).

(** [stop()] before it joins the thread. *)
Definition stop (s : t) : t :=
  mk false (currentBuffer_ s) (nextBuffer_ s) (buffers_ s) (thread_ s)
     (newBuffer1 s) (newBuffer2 s) (buffersToWrite s) (events s).

Definition set_pc (s : t) (p : pc) : t :=
  mk (running_ s) (currentBuffer_ s) (nextBuffer_ s) (buffers_ s) p
     (newBuffer1 s) (newBuffer2 s) (buffersToWrite s) (events s).

(** The pointer is not null and the buffer is empty. *)
Definition fresh (b : option Buffer) : bool :=
  match b with Some b => FixedBuffer.length_ b =? 0 | None => false end.

(** The head of the loop: the test of [running_] and the three [assert]s. *)
Definition loop_head (s : t) : option t :=
  if running_ s then
    if fresh (newBuffer1 s) && fresh (newBuffer2 s) && bool_decide (buffersToWrite s = [])
    then Some (set_pc s PLock) else None
  else Some (set_pc s PDone).

(** The end of the section with the mutex. *)
Definition swap_buffers (s : t) : option t :=
  cur ← currentBuffer_ s;
  let buffers := buffers_ s ++ [cur] in
  let current := newBuffer1 s in
  let toWrite := buffers in
  let '(next, new2) := match nextBuffer_ s with
                       | None => (newBuffer2 s, None)
                       | Some b => (Some b, newBuffer2 s)
                       end in
  Some (mk (running_ s) current next [] PWrite None new2 toWrite (events s)).

(** [waitFor] releases the mutex until a notification or the time-out. *)
Definition lock_section (s : t) : option t :=
  if bool_decide (buffers_ s = []) then Some (set_pc s PWait) else swap_buffers s.

Definition notice (tv : Z * Z) (n : nat) : bytes :=
  snprintf 256 ($"Dropped log messages at " ++
    TimeStamp.toFormattedString (TimeStamp.now (fst tv) (snd tv)) true ++ $", " ++
    to_string (Z.of_nat (n - 2)) ++ $" larger buffers" ++ [chr 10]).

(** [newBuffer = std::move(buffersToWrite.back())], with its [assert]. *)
Definition recycle (new : option Buffer) (l : list Buffer) : option (option Buffer * list Buffer) :=
  match new with
  | Some b => Some (Some b, l)
  | None => b ← last l; Some (Some (FixedBuffer.reset b), take (length l - 1) l)
  end.

(** The part without the mutex. *)
Definition write_section (s : t) (tv : Z * Z) : option t :=
  let w := buffersToWrite s in
  if bool_decide (w = []) then None
  else
    let '(noted, w1, dropped) :=
      if 25 <? length w then ([ENotice (notice tv (length w))], take 2 w, drop 2 w)
      else ([], w, []) in
    let ev := noted ++ map (fun b => EWrite (FixedBuffer.content b)) w1 ++
              map (fun b => EDrop (FixedBuffer.content b)) dropped in
    let w2 := if 2 <? length w1 then take 2 w1 else w1 in
    '(n1, w3) ← recycle (newBuffer1 s) w2;
    '(n2, _) ← recycle (newBuffer2 s) w3;
    Some (mk (running_ s) (currentBuffer_ s) (nextBuffer_ s) (buffers_ s) PLoop n1 n2 []
             (events s ++ ev)).

(** One step of the back end. *)
Definition backend (s : t) (tv : Z * Z) : option t :=
  match thread_ s with
  | PNone | PDone => Some s
  | PLoop => loop_head s
  | PLock => lock_section s
  | PWait => swap_buffers s
  | PWrite => write_section s tv
  end.

Inductive op := OAppend (logline : bytes) | OStop | OBackend (tv : Z * Z).

Definition step (s : t) (o : op) : option t :=
  match o with
  | OAppend logline => append s logline
  | OStop => Some (stop s)
  | OBackend tv => backend s tv
  end.

Fixpoint run (s : t) (ops : list op) : option t :=
  match ops with
  | [] => Some s
  | o :: ops' => s' ← step s o; run s' ops'
  end.

(** ** Invariant *)

Definition ready (b : option Buffer) : Prop :=
  exists b', b = Some b' /\ FixedBuffer.wf SIZE b' /\ FixedBuffer.cur_ b' = 0.

(** What the back end holds at each point. *)
Definition backend_inv (s : t) : Prop :=
  match thread_ s with
  | PNone => buffersToWrite s = []
  | PLoop | PLock | PWait => ready (newBuffer1 s) /\ ready (newBuffer2 s) /\ buffersToWrite s = []
  | PWrite => newBuffer1 s = None /\ Forall (FixedBuffer.wf SIZE) (buffersToWrite s) /\
      (newBuffer2 s = None /\ 2 <= length (buffersToWrite s) \/
       ready (newBuffer2 s) /\ 1 <= length (buffersToWrite s))
  | PDone => buffersToWrite s = []
  end.

Record inv (s : t) : Prop := {
  inv_current : exists c, currentBuffer_ s = Some c /\ FixedBuffer.wf SIZE c;
  inv_next : ready (nextBuffer_ s) \/ nextBuffer_ s = None /\ buffers_ s <> [];
  inv_buffers : Forall (FixedBuffer.wf SIZE) (buffers_ s);
  inv_backend : backend_inv s
}.

(** The bytes of the buffers the back end took, in order, and those that wait:
    being written, full, and current. *)
Definition taken (s : t) : bytes :=
  mjoin (map (fun e => match e with EWrite b | EDrop b => b | ENotice _ => [] end) (events s)).

(** What [output.append] is given, and whether any buffer was erased. *)
Definition outputs (ev : list event) : list bytes :=
  omap (fun e => match e with EWrite b | ENotice b => Some b | EDrop _ => None end) ev.
Definition overrun (s : t) : bool :=
  existsb (fun e => match e with EWrite _ => false | _ => true end) (events s).

Definition contents (l : list Buffer) : bytes := mjoin (map FixedBuffer.content l).
Definition pending (s : t) : bytes :=
  contents (buffersToWrite s) ++ contents (buffers_ s) ++
  from_option FixedBuffer.content [] (currentBuffer_ s).

(** A line fits unless it is as long as a buffer. *)
Definition accepted (logline : bytes) : bytes := if length logline <? SIZE then logline else [].

Lemma outputs_taken s : overrun s = false -> mjoin (outputs (events s)) = taken s.
Proof.
  unfold overrun, taken. induction (events s) as [|e ev IH]; [done|]. intros E.
  destruct e as [b| |]; try done. change (b ++ mjoin (outputs ev) = b ++ mjoin (map
    (fun e => match e with EWrite b | EDrop b => b | ENotice _ => [] end) ev)).
  f_equal. by apply IH.
Qed.

Lemma empty_content b : FixedBuffer.cur_ b = 0 -> FixedBuffer.content b = [].
Proof. intros E. unfold FixedBuffer.content. by rewrite E. Qed.

#[local] Arguments contents : simpl never.

Lemma async_contents_cons b l : contents (b :: l) = FixedBuffer.content b ++ contents l.
Proof. done. Qed.

Lemma async_contents_app l k : contents (l ++ k) = contents l ++ contents k.
Proof. unfold contents. by rewrite map_app, join_app. Qed.

Lemma ready_new : ready (Some (FixedBuffer.bzero SIZE newBuffer)).
Proof.
  eexists. split; [done|]. split; [|done]. unfold FixedBuffer.wf. cbn.
  rewrite length_replicate. lia.
Qed.

Lemma ready_reset b : FixedBuffer.wf SIZE b -> ready (Some (FixedBuffer.reset b)).
Proof. intros [Hl Hc]. eexists. split; [done|]. split; [|done]. split; [done|simpl; lia]. Qed.

Lemma async_create_inv : inv create.
Proof.
  destruct ready_new as (b & [= <-] & Hw & _).
  split; cbn; [by eexists|left; apply ready_new|constructor|done].
Qed.

(** A line that fits in a buffer with room for it, or in an empty one. *)
Lemma buffer_append c logline : FixedBuffer.wf SIZE c -> (Z.of_nat (length logline) < 2 ^ 31)%Z ->
  exists c', FixedBuffer.append SIZE c logline = Some c' /\ FixedBuffer.wf SIZE c' /\
    (FixedBuffer.cur_ c = 0 \/ (Z.of_nat (length logline) < FixedBuffer.avail SIZE c)%Z ->
     FixedBuffer.content c' = FixedBuffer.content c ++ accepted logline).
Proof.
  intros Hc Hl. destruct (FixedBuffer.fixed_append_spec SIZE c logline Hc Hl) as (c' & -> & Hw & Hcont).
  exists c'. split; [done|]. split; [done|]. intros Hor. rewrite Hcont. f_equal. unfold accepted.
  unfold FixedBuffer.avail in Hor. destruct (Nat.ltb_spec (length logline) SIZE),
    (Nat.ltb_spec (FixedBuffer.cur_ c + length logline) SIZE); try done; lia.
Qed.

Lemma append_inv s logline : inv s -> (Z.of_nat (length logline) < 2 ^ 31)%Z ->
  exists s', append s logline = Some s' /\ inv s' /\ thread_ s' = thread_ s /\
    taken s' = taken s /\ pending s' = pending s ++ accepted logline.
Proof.
  intros [(c & Ec & Hc) Hnext Hbufs Hback] Hl. unfold append. rewrite Ec. cbn [mbind option_bind].
  destruct (Z.ltb_spec (Z.of_nat (length logline)) (FixedBuffer.avail SIZE c)) as [Hfit|Hfull].
  - destruct (buffer_append c logline Hc Hl) as (c' & -> & Hw & Hcont). cbn [mbind option_bind].
    eexists. split; [done|]. split; [split; cbn; try done; by eexists|].
    split; [done|]. split; [done|]. unfold pending. cbn. rewrite Ec. cbn.
    rewrite Hcont by auto. by rewrite <- !app_assoc.
  - set (cur1 := match nextBuffer_ s with Some b => b | None => newBuffer end).
    replace (match nextBuffer_ s with Some b => (b, None) | None => (newBuffer, None) end)
      with (cur1, @None Buffer) by (by destruct (nextBuffer_ s)).
    assert (FixedBuffer.wf SIZE cur1 /\ FixedBuffer.cur_ cur1 = 0) as [Hw1 H1].
    { subst cur1. destruct Hnext as [(b & -> & ? & ?)|[-> _]]; [done|].
      split; [apply FixedBuffer.fixed_create_wf|done]. }
    destruct (buffer_append cur1 logline Hw1 Hl) as (c' & -> & Hw & Hcont). cbn [mbind option_bind].
    eexists. split; [done|]. split.
    + split; cbn; try done; [by eexists| |apply Forall_app; split; [done|by apply Forall_singleton]].
      right. split; [done|]. by destruct (buffers_ s).
    + split; [done|]. split; [done|]. unfold pending. cbn. rewrite Ec. cbn.
      rewrite Hcont by auto. rewrite async_contents_app, async_contents_cons, (empty_content cur1 H1).
      cbn. change (contents []) with (@nil ascii). rewrite app_nil_r. by rewrite <- !app_assoc.
Qed.

Lemma swap_inv s : inv s -> ready (newBuffer1 s) -> ready (newBuffer2 s) -> buffersToWrite s = [] ->
  exists s', swap_buffers s = Some s' /\ inv s' /\ thread_ s' = PWrite /\ running_ s' = running_ s /\
    events s' = events s /\ pending s' = pending s /\
    buffersToWrite s' = buffers_ s ++ option_list (currentBuffer_ s) /\
    contents (buffersToWrite s') = pending s'.
Proof.
  intros [(c & Ec & Hc) Hnext Hbufs _] (n1 & E1 & Hw1 & H1) Hr2 Hw. unfold swap_buffers.
  rewrite Ec. cbn [mbind option_bind].
  set (p := match nextBuffer_ s with None => (newBuffer2 s, None) | Some b => (Some b, newBuffer2 s) end).
  assert (ready p.1 /\ (p.2 = None /\ buffers_ s <> [] \/ ready p.2)) as [Hp1 Hp2].
  { subst p. destruct Hnext as [(b & -> & ? & ?)|[-> ?]]; cbn; [|by auto].
    split; [by eexists|by right]. }
  destruct p as [nx nw2]. cbn in Hp1, Hp2.
  assert (contents [] = []) as Hnil by done.
  eexists. split; [done|]. split; [split|]; cbn.
  - rewrite E1. by eexists.
  - by left.
  - constructor.
  - unfold backend_inv. cbn. split; [done|]. split.
    + apply Forall_app. split; [done|by apply Forall_singleton].
    + rewrite length_app. simpl. destruct Hp2 as [[-> Hne]|]; [left|right; split; [done|lia]].
      split; [done|]. destruct (buffers_ s); [done|simpl; lia].
  - repeat (split; [done|]). unfold pending. cbn. rewrite Ec, Hw, E1. cbn.
    rewrite (empty_content n1 H1), Hnil, !app_nil_r, async_contents_app, async_contents_cons, Hnil, app_nil_r.
    done.
Qed.

(** Taking the last buffer back empty. *)
Lemma recycle_spec new l : (new = None /\ l <> [] \/ ready new) -> Forall (FixedBuffer.wf SIZE) l ->
  exists n l', recycle new l = Some (n, l') /\ ready n /\ Forall (FixedBuffer.wf SIZE) l' /\
    length l <= length l' + match new with Some _ => 0 | None => 1 end.
Proof.
  intros Hn Hl. unfold recycle. destruct Hn as [[-> Hne]|(b & -> & Hb)].
  - destruct (last l) as [b|] eqn:E; [|by apply last_None in E]. cbn.
    do 2 eexists. split; [done|].
    apply last_Some in E as [l' ->]. apply Forall_app in Hl as [Hl' Hb].
    apply Forall_cons in Hb as [Hb _]. split; [by apply ready_reset|].
    rewrite length_app. simpl. rewrite Nat.add_sub, take_app_length. split; [done|lia].
  - do 2 eexists. split; [done|]. split; [by eexists|]. split; [done|lia].
Qed.

(** The bytes of the events of one pass over the buffers. *)
Lemma write_section_inv s tv : inv s -> thread_ s = PWrite ->
  exists s', write_section s tv = Some s' /\ inv s' /\ thread_ s' = PLoop /\ running_ s' = running_ s /\
    currentBuffer_ s' = currentBuffer_ s /\ buffers_ s' = buffers_ s /\ buffersToWrite s' = [] /\
    taken s' = taken s ++ contents (buffersToWrite s) /\
    (length (buffersToWrite s) <= 25 ->
     events s' = events s ++ map (fun b => EWrite (FixedBuffer.content b)) (buffersToWrite s)).
Proof.
  intros [Hc Hnext Hbufs Hback] Hpc. unfold backend_inv in Hback. rewrite Hpc in Hback.
  destruct Hback as (E1 & Hw & H2). unfold write_section.
  rewrite bool_decide_false by (destruct (buffersToWrite s); [destruct H2 as [[]|[]]; simpl in *; lia|done]).
  set (w := buffersToWrite s) in *.
  set (p := if 25 <? length w then ([ENotice (notice tv (length w))], take 2 w, drop 2 w) else ([], w, [])).
  assert (p.1.2 ++ p.2 = w /\ 1 <= length p.1.2 /\ (2 <= length w -> 2 <= length p.1.2) /\
          (length w <= 25 -> p = ([], w, [])) /\
          mjoin (map (fun e => match e with EWrite b | EDrop b => b | ENotice _ => [] end) p.1.1) = [])
    as (Hsplit & Hlen1 & Hlen2 & Hsmall & Hnote).
  { subst p. destruct (Nat.ltb_spec 25 (length w)); cbn.
    - rewrite take_drop, length_take. repeat split; lia.
    - rewrite app_nil_r. repeat split; lia. }
  destruct p as [[noted w1] dropped] eqn:Ep. cbn in Hsplit, Hlen1, Hlen2, Hsmall, Hnote. rewrite E1.
  assert (Forall (FixedBuffer.wf SIZE) w1) as Hw1 
    by (rewrite <- Hsplit in Hw; by apply Forall_app in Hw as [? _]).
  set (w2 := if 2 <? length w1 then take 2 w1 else w1).
  assert (Forall (FixedBuffer.wf SIZE) w2 /\ 1 <= length w2 /\ (2 <= length w1 -> 2 <= length w2))
    as (Hw2 & Hl2 & Hl2').
  { subst w2. destruct (Nat.ltb_spec 2 (length w1)); rewrite ?length_take;
      repeat split; try lia; try done. by apply Forall_take. }
  destruct (recycle_spec None w2) as (n1 & w3 & -> & Hn1 & Hw3 & Hl3); [left|done|].
  { split; [done|]. destruct w2; [simpl in *; lia|done]. }
  cbn [mbind option_bind]. simpl in Hl3.
  destruct (recycle_spec (newBuffer2 s) w3) as (n2 & w4 & -> & Hn2 & _); [|done|].
  { destruct H2 as [[-> ?]|[? _]]; [left|by right]. split; [done|]. destruct w3; [simpl in *; lia|done]. }
  cbn [mbind option_bind]. eexists. split; [done|]. split; [by split|]. repeat (split; [done|]). split.
  - unfold taken. cbn. rewrite !map_app, !join_app, Hnote, !map_map. cbn. f_equal.
    rewrite <- Hsplit, async_contents_app. done.
  - intros Hs. specialize (Hsmall Hs). cbn. injection Hsmall as -> -> ->. cbn. by rewrite app_nil_r.
Qed.

Lemma backend_inv_step s tv : inv s ->
  exists s', backend s tv = Some s' /\ inv s' /\ taken s' ++ pending s' = taken s ++ pending s.
Proof.
  intros Hs. pose proof Hs as [Hc Hnext Hbufs Hback]. unfold backend_inv in Hback. unfold backend.
  assert (forall s', thread_ s = PLoop \/ thread_ s = PLock \/ thread_ s = PWait ->
    swap_buffers s = Some s' -> inv s' /\ taken s' ++ pending s' = taken s ++ pending s) as Hswap.
  { intros s' Hpc E. assert (ready (newBuffer1 s) /\ ready (newBuffer2 s) /\ buffersToWrite s = [])
      as (? & ? & ?) by (destruct Hpc as [Hp|[Hp|Hp]]; rewrite Hp in Hback; exact Hback).
    destruct (swap_inv s Hs) as (s1 & E' & ? & _ & _ & Hev & Hp & _); [done..|].
    rewrite E in E'. injection E' as <-. split; [done|]. unfold taken. by rewrite Hev, Hp. }
  assert (exists s', swap_buffers s = Some s') as [s1 E1].
  { destruct Hc as (c & Ec & _). unfold swap_buffers. rewrite Ec. cbn.
    destruct (match nextBuffer_ s with None => _ | Some _ => _ end). by eexists. }
  destruct (thread_ s) eqn:Hpc.
  - by exists s.
  - unfold loop_head. pose proof Hback as ((b1 & E & _ & H1) & (b2 & E' & _ & H2) & Hw).
    destruct (running_ s).
    + unfold fresh, FixedBuffer.length_. rewrite E, E', H1, H2, bool_decide_true by done. cbn.
      eexists. split; [done|]. split; [|done]. by split.
    + eexists. split; [done|]. split; [|done]. by split.
  - unfold lock_section. case_bool_decide.
    + eexists. split; [done|]. split; [|done]. by split.
    + exists s1. split; [done|]. apply Hswap; auto.
  - exists s1. split; [done|]. apply Hswap; auto.
  - destruct (write_section_inv s tv Hs Hpc) as (s' & -> & ? & _ & _ & Hcur & Hb & Hw & Ht & _).
    exists s'. split; [done|]. split; [done|]. rewrite Ht. unfold pending.
    rewrite Hcur, Hb, Hw. by rewrite <- app_assoc.
  - by exists s.
Qed.

Lemma async_start_inv s : inv s -> inv (start s) /\ (buffersToWrite s = [] -> pending (start s) = pending s) /\
  taken (start s) = taken s.
Proof.
  intros [Hc Hn Hb Hback]. split; [split; try done|].
  - unfold backend_inv. cbn. auto using ready_new.
  - split; [|done]. intros E. unfold pending. cbn. by rewrite E.
Qed.

(** Lines are [int] long. *)
Definition op_ok (o : op) : Prop :=
  match o with OAppend l => (Z.of_nat (length l) < 2 ^ 31)%Z | _ => True end.

Definition appended (ops : list op) : bytes :=
  mjoin (map (fun o => match o with OAppend l => accepted l | _ => [] end) ops).

Lemma async_step_inv s o : inv s -> op_ok o ->
  exists s', step s o = Some s' /\ inv s' /\
    taken s' ++ pending s' = taken s ++ pending s ++ match o with OAppend l => accepted l | _ => [] end.
Proof.
  intros Hs Ho. destruct o as [l| |tv]; cbn.
  - destruct (append_inv s l Hs Ho) as (s' & E & ? & _ & Ht & Hp). exists s'. split; [done|].
    split; [done|]. by rewrite Ht, Hp.
  - eexists. split; [done|]. rewrite app_nil_r. split; [|done]. by destruct Hs; split.
  - rewrite app_nil_r. by apply backend_inv_step.
Qed.

(** No run fails, and no accepted line is lost or reordered before the back
    end takes it. *)
Lemma async_run_inv s ops : inv s -> Forall op_ok ops ->
  exists s', run s ops = Some s' /\ inv s' /\ taken s' ++ pending s' = taken s ++ pending s ++ appended ops.
Proof.
  intros Hs Hok. revert s Hs. induction Hok as [|o ops Ho Hok IH]; intros s Hs; cbn.
  - exists s. unfold appended. cbn. by rewrite app_nil_r.
  - destruct (async_step_inv s o Hs Ho) as (s1 & -> & Hs1 & H1). cbn.
    destruct (IH s1 Hs1) as (s2 & E2 & Hs2 & H2). exists s2. split; [done|]. split; [done|].
    rewrite H2, app_assoc, H1. unfold appended. cbn. by rewrite <- !app_assoc.
Qed.

Lemma run_app s ops ops' : run s (ops ++ ops') = (s' ← run s ops; run s' ops').
Proof.
  revert s. induction ops as [|o ops IH]; intros s; cbn; [done|]. destruct (step s o); [apply IH|done].
Qed.

(** Left alone, the back end writes all that waits in at most four steps. *)
Lemma backend_flushes s tv : inv s -> thread_ s = PLoop -> running_ s = true ->
  length (buffers_ s) < 25 ->
  exists n s' l, n <= 4 /\ run s (replicate n (OBackend tv)) = Some s' /\ thread_ s' = PLoop /\
    pending s' = [] /\ events s' = events s ++ map EWrite l /\ mjoin l = pending s.
Proof.
  intros Hs Hpc Hrun Hlen. pose proof Hs as [_ _ _ Hb]. unfold backend_inv in Hb. rewrite Hpc in Hb.
  set (s1 := set_pc s PLock).
  assert (loop_head s = Some s1) as E1.
  { unfold loop_head. rewrite Hrun. destruct Hb as ((b1 & E & _ & H1) & (b2 & E' & _ & H2) & Hw).
    unfold fresh, FixedBuffer.length_. by rewrite E, E', H1, H2, bool_decide_true. }
  assert (forall p, p = PLock \/ p = PWait -> inv (set_pc s p)) as Hinv.
  { intros p Hp. destruct Hs as [? ? ? _]. split; try done. unfold backend_inv. cbn.
    by destruct Hp as [-> | ->]. }
  assert (forall p, p = PLock \/ p = PWait -> exists s2, swap_buffers (set_pc s p) = Some s2 /\
    exists s3 l, write_section s2 tv = Some s3 /\ thread_ s2 = PWrite /\ thread_ s3 = PLoop /\
      pending s3 = [] /\ events s3 = events s ++ map EWrite l /\ mjoin l = pending s) as Hrest.
  { intros p Hp. destruct Hb as (Hr1 & Hr2 & Hw).
    destruct (swap_inv (set_pc s p) (Hinv p Hp) Hr1 Hr2 Hw) as (s2 & E2 & Hs2 & Hp2 & _ & Hev2 & Hpend2 & Hw2 & Hcont2).
    exists s2. split; [done|].
    destruct (write_section_inv s2 tv Hs2 Hp2) as (s3 & E3 & _ & Hp3 & _ & Hc3 & Hb3 & Hw3 & _ & Hev3).
    exists s3, (map FixedBuffer.content (buffersToWrite s2)). repeat (split; [done|]).
    destruct Hs as [(c & Ec & _) _ _ _].
    assert (pending s3 = []) as Hpend3.
    { unfold pending. rewrite Hw3, Hc3, Hb3. change (contents []) with (@nil ascii). cbn [app].
      apply (app_inv_head (contents (buffersToWrite s2))). rewrite app_nil_r. symmetry. exact Hcont2. }
    split; [done|]. split.
    - rewrite Hev3, Hev2, map_map; [done|]. rewrite Hw2, length_app. cbn. rewrite Ec. simpl. lia.
    - change (mjoin _) with (contents (buffersToWrite s2)). by rewrite Hcont2, Hpend2. }
  destruct (decide (buffers_ s = [])) as [Hnil|Hne].
  - destruct (Hrest PWait (or_intror eq_refl)) as (s2 & E2 & s3 & l & E3 & Hp2 & H3).
    exists 4, s3, l. split; [lia|]. split; [|done]. cbn. unfold backend. rewrite Hpc, E1. cbn.
    unfold lock_section. rewrite bool_decide_true by done. cbn [mbind option_bind set_pc thread_].
    change (set_pc s1 PWait) with (set_pc s PWait). rewrite E2. cbn. rewrite Hp2, E3. done.
  - destruct (Hrest PLock (or_introl eq_refl)) as (s2 & E2 & s3 & l & E3 & Hp2 & H3).
    exists 3, s3, l. split; [lia|]. split; [|done]. cbn. unfold backend. rewrite Hpc, E1. cbn.
    unfold lock_section. rewrite bool_decide_false by done. fold s1 in E2. rewrite E2. cbn.
    rewrite Hp2, E3. done.
Qed.

(** Once the loop has seen that it must stop nothing is written any more. *)
Lemma stopped_writes_nothing s ops s' : thread_ s = PDone -> run s ops = Some s' ->
  events s' = events s /\ thread_ s' = PDone.
Proof.
  revert s. induction ops as [|o ops IH]; intros s Hpc; cbn; [by intros [= <-]|].
  destruct (step s o) as [s1|] eqn:E; [|done]. cbn. intros Hr.
  enough (events s1 = events s /\ thread_ s1 = PDone) as [He Hp] by (rewrite <- He; by apply IH).
  destruct o as [l| |tv]; cbn in E.
  - unfold append in E. destruct (currentBuffer_ s) as [c|]; [|done]. cbn in E.
    destruct (_ <? _)%Z; [|destruct (match nextBuffer_ s with Some _ => _ | None => _ end)];
      destruct (FixedBuffer.append _ _ _); simplify_eq/=; done.
  - by injection E as <-.
  - unfold backend in E. rewrite Hpc in E. by injection E as <-.
Qed.

End async.
End AsyncLogging.
