(* ===== verification/Logging.v ===== *)
(** * [Logger] (inc/utils/log/Logging.hpp, src/utils/log/Logging.cpp)

    A log statement constructs a [Logger], streams its operands into it and
    destroys it; the destructor hands the finished line to the output
    function.  The line is formatted in the stream of [LogStream]; the time of
    the last line is cached per thread. *)

From S2P Require Import Prelude CxxString Calendar TimeStamp LogStream.

Module Logger.

Inductive LogLevel := TRACE | DEBUG | INFO | WARN | ERROR | FATAL.

#[global] Instance LogLevel_eq_dec : EqDecision LogLevel.
Proof. solve_decision. Defined.

Definition level_num (l : LogLevel) : nat :=
  match l with TRACE => 0 | DEBUG => 1 | INFO => 2 | WARN => 3 | ERROR => 4 | FATAL => 5 end.

Definition LogLevelName (l : LogLevel) : bytes :=
  match l with
  | TRACE => $"TRACE " | DEBUG => $"DEBUG " | INFO => $"INFO "
  | WARN => $"WARN " | ERROR => $"ERROR " | FATAL => $"FATAL "
  end.

(** [initialLogLevel()]: no one calls it. *)
Definition initialLogLevel : LogLevel := INFO.

(** [SourceFile]: the name after the last slash, and its length. *)
Record SourceFile := { data_ : bytes; size_ : Z }.

Definition basename (path : bytes) : bytes :=
  match find_last_of "/" path with
  | Some slash => drop (slash + 1) path
  | None => path
  end.

(** From a literal: the length is computed from that of the literal. *)
Definition SourceFile_literal (arr : bytes) : SourceFile :=
  {| data_ := basename arr;
     size_ := match find_last_of "/" arr with
              | Some slash => Z.of_nat (length arr) - Z.of_nat (slash + 1)
              | None => Z.of_nat (length arr)
              end |}.

Definition SourceFile_path (filename : bytes) : SourceFile :=
  {| data_ := basename filename; size_ := Z.of_nat (length (basename filename)) |}.

(** The thread's cached time, [t_time] and [t_lastSecond]. *)
Record thread := mkThread { t_time : bytes; t_lastSecond : Z }.
Definition thread_init : thread := mkThread [] 0.

(** The level, and what the output functions saw: the lines, the flushes, and
    whether the process was aborted. *)
Record process := mkProcess {
  g_logLevel : LogLevel;
  lines : list bytes;
  flushes : nat;
  aborted : bool
}.
(** [g_logLevel] has no initialiser, so it starts as the first level. *)
Definition process_init : process := mkProcess TRACE [] 0 false.

Definition setLogLevel (p : process) (l : LogLevel) : process :=
  mkProcess l (lines p) (flushes p) (aborted p).

Record Impl := mkImpl {
  time_ : TimeStamp.t;
  stream_ : LogStream.Buffer;
  level_ : LogLevel;
  line_ : Z;
  basename_ : SourceFile
}.

Definition with_stream (i : Impl) (s : LogStream.Buffer) : Impl :=
  mkImpl (time_ i) s (level_ i) (line_ i) (basename_ i).

Definition stream_put (i : Impl) (os : list LogStream.operand) : option Impl :=
  s ← LogStream.puts (stream_ i) os; Some (with_stream i s).

Definition formatTime (th : thread) (i : Impl) : option (Impl * thread) :=
  let microSecsSinceEpoch := TimeStamp.microSecondsSinceEpoch (time_ i) in
  let seconds := Z.quot microSecsSinceEpoch TimeStamp.kMicroSecondsPerSec in
  let microseconds := swrap 32 (Z.rem microSecsSinceEpoch TimeStamp.kMicroSecondsPerSec) in
  th' ← (if (seconds =? t_lastSecond th)%Z then Some th
         else
           let text := TimeStamp.fmt_tm true (gmtime seconds) in
           if length text =? 17 then Some (mkThread (snprintf 64 text) seconds) else None);
  let buf := snprintf 32 ($"." ++ fmt_d true 6 microseconds ++ $" ") in
  i' ← stream_put i [LogStream.CString (Some (t_time th')); LogStream.CString (Some buf)];
  Some (i', th').

Section messages.
(** [strerror_r], from the C library. *)
Context (strerror_tl : Z -> bytes).

(** [Impl::Impl]; [now] is what [TimeStamp::now()] returned. *)
Definition construct (th : thread) (now : TimeStamp.t) (level : LogLevel) (savedErrno : Z)
    (file : SourceFile) (line : Z) : option (Impl * thread) :=
  '(i, th') ← formatTime th (mkImpl now LogStream.create level line file);
  i1 ← stream_put i [LogStream.CString (Some (LogLevelName level))];
  if (savedErrno =? 0)%Z then Some (i1, th')
  else
    i2 ← stream_put i1 [LogStream.CString (Some (strerror_tl savedErrno));
                        LogStream.CString (Some $"(errno = "); LogStream.Int savedErrno;
                        LogStream.CString (Some $") ")];
    Some (i2, th').

Definition finish (i : Impl) : option Impl :=
  stream_put i [LogStream.CString (Some $" - "); LogStream.CString (Some (data_ (basename_ i)));
                LogStream.Char ":"; LogStream.Int (line_ i); LogStream.Char (chr 10)].

(** [~Logger()]. *)
Definition destroy (p : process) (i : Impl) : option process :=
  i' ← finish i;
  let p1 := mkProcess (g_logLevel p) (lines p ++ [FixedBuffer.content (stream_ i')])
                      (flushes p) (aborted p) in
  if decide (level_ i' = FATAL) then
    Some (mkProcess (g_logLevel p1) (lines p1) (flushes p1 + 1) true)
  else Some p1.

(** The log macros, the constructor each calls and the test before it. *)
Inductive macro :=
| LOG_TRACE (func : bytes) | LOG_DEBUG (func : bytes) | LOG_INFO | LOG_WARN | LOG_ERROR | LOG_FATAL
| LOG_SYSERR | LOG_SYSFATAL.

Definition macro_enabled (g : LogLevel) (m : macro) : bool :=
  match m with
  | LOG_TRACE _ => level_num g <=? level_num TRACE
  | LOG_DEBUG _ => level_num g <=? level_num DEBUG
  | LOG_INFO => level_num g <=? level_num INFO
  | _ => true
  end.

Definition macro_level (m : macro) : LogLevel :=
  match m with
  | LOG_TRACE _ => TRACE | LOG_DEBUG _ => DEBUG | LOG_INFO => INFO | LOG_WARN => WARN
  | LOG_ERROR => ERROR | LOG_FATAL => FATAL
  | LOG_SYSERR => ERROR | LOG_SYSFATAL => FATAL
  end.

Definition macro_errno (errno : Z) (m : macro) : Z :=
  match m with LOG_SYSERR | LOG_SYSFATAL => errno | _ => 0 end.

Definition macro_func (m : macro) : list LogStream.operand :=
  match m with
  | LOG_TRACE func | LOG_DEBUG func => [LogStream.CString (Some func); LogStream.Char " "]
  | _ => []
  end.

(** [LOG_X << os;] in the file [path] at [line]; [tv] is the time of day. *)
Definition log (tv : Z * Z) (errno : Z) (path : bytes) (line : Z) (m : macro)
    (os : list LogStream.operand) (p : process) (th : thread) : option (process * thread) :=
  if macro_enabled (g_logLevel p) m then
    '(i, th') ← construct th (TimeStamp.now (fst tv) (snd tv)) (macro_level m) (macro_errno errno m)
                          (SourceFile_literal path) line;
    i1 ← stream_put i (macro_func m);
    i2 ← stream_put i1 os;
    p' ← destroy p i2;
    Some (p', th')
  else Some (p, th).

(** ** The lines *)

(** What the constructor streams, after the time. *)
Definition header (tm : bytes) (level : LogLevel) (savedErrno : Z) : list LogStream.operand :=
  [LogStream.CString (Some tm); LogStream.CString (Some $".000000 ")] ++
  [LogStream.CString (Some (LogLevelName level))] ++
  (if (savedErrno =? 0)%Z then []
   else [LogStream.CString (Some (strerror_tl savedErrno));
         LogStream.CString (Some $"(errno = "); LogStream.Int savedErrno;
         LogStream.CString (Some $") ")]).

Definition trailer (file : bytes) (line : Z) : list LogStream.operand :=
  [LogStream.CString (Some $" - "); LogStream.CString (Some file);
   LogStream.Char ":"; LogStream.Int line; LogStream.Char (chr 10)].

(** Everything a statement streams, in order. *)
Definition operands (tm : bytes) (errno : Z) (path : bytes) (line : Z) (m : macro)
    (os : list LogStream.operand) : list LogStream.operand :=
  header tm (macro_level m) (macro_errno errno m) ++ macro_func m ++ os ++
  trailer (basename path) line.

(** The time stamps are always zero, so the cached time is only ever compared
    with second 0. *)
Lemma formatTime_spec tv th i : t_lastSecond th = 0%Z ->
  time_ i = TimeStamp.now (fst tv) (snd tv) ->
  formatTime th i =
    (i' ← stream_put i [LogStream.CString (Some (t_time th)); LogStream.CString (Some $".000000 ")];
     Some (i', th)).
Proof.
  intros Hth Hi. unfold formatTime. rewrite Hi. unfold TimeStamp.now, TimeStamp.of_micro.
  cbn [TimeStamp.microSecondsSinceEpoch]. rewrite Hth. done.
Qed.

Lemma stream_put_app i os os' :
  stream_put i (os ++ os') = (i' ← stream_put i os; stream_put i' os').
Proof.
  unfold stream_put. rewrite LogStream.puts_app. destruct (LogStream.puts (stream_ i) os) as [s|]; [|done].
  cbn. done.
Qed.

Lemma stream_put_nil i : stream_put i [] = Some i.
Proof. by destruct i. Qed.

(** Streaming operands one after the other is streaming them at once, up to
    the line that the destructor hands on. *)
Definition emit (p : process) (level : LogLevel) (c : bytes) : process :=
  let fatal := bool_decide (level = FATAL) in
  mkProcess (g_logLevel p) (lines p ++ [c]) (if fatal then flushes p + 1 else flushes p)
            (if fatal then true else aborted p).

Lemma destroy_spec p i i' : finish i = Some i' ->
  destroy p i = Some (emit p (level_ i') (FixedBuffer.content (stream_ i'))).
Proof.
  intros H. unfold destroy, emit. rewrite H. cbn. case_decide as E; [by rewrite bool_decide_true|].
  by rewrite bool_decide_false.
Qed.

Lemma stream_put_spec i os : LogStream.wf (stream_ i) -> Forall LogStream.operand_ok os ->
  exists s, stream_put i os = Some (with_stream i s) /\ LogStream.wf s /\
    FixedBuffer.content s = LogStream.spec_puts (FixedBuffer.content (stream_ i)) os.
Proof.
  intros Hw Ho. unfold stream_put. destruct (LogStream.puts_spec _ os Hw Ho) as (s & -> & ? & ?).
  by exists s.
Qed.

Lemma construct_spec tv th level savedErrno file line : t_lastSecond th = 0%Z ->
  let i0 := mkImpl (TimeStamp.now (fst tv) (snd tv)) LogStream.create level line file in
  construct th (TimeStamp.now (fst tv) (snd tv)) level savedErrno file line =
    (i ← stream_put i0 (header (t_time th) level savedErrno); Some (i, th)).
Proof.
  intros Hth i0. unfold construct, header. rewrite (formatTime_spec tv) by done. fold i0.
  rewrite !stream_put_app. destruct (stream_put i0 _) as [i1|]; [|done]. cbn [mbind option_bind].
  rewrite stream_put_app. destruct (stream_put i1 _) as [i2|]; [|done]. cbn [mbind option_bind].
  destruct (savedErrno =? 0)%Z; [|done]. by rewrite stream_put_nil.
Qed.

Lemma stream_put_fields i os i' : stream_put i os = Some i' -> i' = with_stream i (stream_ i').
Proof. unfold stream_put. destruct (LogStream.puts _ _); intros [= <-]. done. Qed.

(** A statement hands on one line, the one its operands make. *)
Lemma log_spec tv errno path line m os p th :
  t_lastSecond th = 0%Z -> macro_enabled (g_logLevel p) m = true ->
  Forall LogStream.operand_ok (operands (t_time th) errno path line m os) ->
  log tv errno path line m os p th =
    Some (emit p (macro_level m)
            (LogStream.spec_puts [] (operands (t_time th) errno path line m os)), th).
Proof.
  intros Hth Hen Hok. unfold log. rewrite Hen.
  set (i0 := mkImpl (TimeStamp.now tv.1 tv.2) LogStream.create (macro_level m) line (SourceFile_literal path)).
  destruct (stream_put_spec i0 _ (proj1 (FixedBuffer.fixed_create_wf _)) Hok) as (s & Hput & _ & Hc).
  unfold operands in Hput. rewrite construct_spec by done. fold i0.
  rewrite stream_put_app in Hput.
  destruct (stream_put i0 _) as [i1|] eqn:E1; [|done]. cbn [mbind option_bind] in Hput |- *.
  rewrite stream_put_app in Hput.
  destruct (stream_put i1 _) as [i2|] eqn:E2; [|done]. cbn [mbind option_bind] in Hput |- *.
  rewrite stream_put_app in Hput.
  destruct (stream_put i2 _) as [i3|] eqn:E3; [|done]. cbn [mbind option_bind] in Hput |- *.
  apply stream_put_fields in E1, E2, E3.
  rewrite (destroy_spec p i3 (with_stream i0 s)); cycle 1.
  { unfold finish. rewrite <- Hput, E3, E2, E1. done. }
  cbn. rewrite Hc. done.
Qed.

End messages.
End Logger.
