(* ===== verification/Sync.v ===== *)
(** * Mutexes, condition variables and latches (utils/thread)

    [PMutex] with the holder it records, [PCondition]'s notifications and
    time-outs, and [CountDownLatch].  The sections that hold a mutex are
    atomic steps; an execution interleaves the steps of the threads. *)

From S2P Require Import Prelude.

Local Open Scope Z_scope.

(** ** [PMutex] *)
Module PMutex.

(** Where a thread is in [lock]/[unlock]: outside, with the pthread mutex but
    before [assignHolder], between the two calls, after [pthread_mutex_unlock]
    but before [unassignHolder]. *)
Inductive pc := Out | Acquired | Held | Released.

#[global] Instance pc_eq_dec : EqDecision pc.
Proof. solve_decision. Defined.

(** The owner of the pthread mutex, the member [holder_], and the threads that
    are not outside. *)
Record t := mk { owner : option Z; holder_ : Z; pcs : gmap Z pc }.

Definition create : t := mk None 0 ∅.

Definition pc_of (m : t) (tid : Z) : pc := default Out (pcs m !! tid).

Definition isLockedByCurrentThread (m : t) (tid : Z) : bool := holder_ m =? tid.

(** [assertLocked] and the [assert] of the destructor. *)
Definition assertLocked (m : t) (tid : Z) : option unit :=
  if isLockedByCurrentThread m tid then Some tt else None.
Definition destroy (m : t) : option unit := if holder_ m =? 0 then Some tt else None.

Definition assignHolder (m : t) (tid : Z) : t := mk (owner m) tid (pcs m).
Definition unassignHolder (m : t) : t := mk (owner m) 0 (pcs m).
Definition set_pc (m : t) (tid : Z) (p : pc) : t := mk (owner m) (holder_ m) (<[tid := p]> (pcs m)).

(** One step of thread [tid] through [lock()] and [unlock()].  [None]: the
    thread is blocked. *)
Definition step (m : t) (tid : Z) : option t :=
  match pc_of m tid with
  | Out =>
      match owner m with
      | None => Some (set_pc (mk (Some tid) (holder_ m) (pcs m)) tid Acquired)
      | Some _ => None
      end
  | Acquired => Some (set_pc (assignHolder m tid) tid Held)
  | Held => Some (set_pc (mk None (holder_ m) (pcs m)) tid Released)
  | Released =>
      let m' := unassignHolder m in
      Some (mk (owner m') (holder_ m') (delete tid (pcs m')))
  end.

Fixpoint run (m : t) (tids : list Z) : option t :=
  match tids with
  | [] => Some m
  | tid :: tids' => m' ← step m tid; run m' tids'
  end.

(** The owner is the one thread inside, and a holder is recorded only while
    some thread is on its way. *)
Record inv (m : t) : Prop := {
  inv_owner tid : owner m = Some tid <-> pc_of m tid = Acquired \/ pc_of m tid = Held;
  inv_holder : holder_ m <> 0 -> exists tid, pc_of m tid = Held \/ pc_of m tid = Released
}.

Lemma mutex_create_inv : inv create.
Proof.
  split; [|done]. intros tid. unfold pc_of. cbn. rewrite lookup_empty. cbn.
  split; [done|]. by intros [?|?].
Qed.

Lemma pc_of_insert m o h tid p tid' :
  pc_of (mk o h (<[tid := p]> (pcs m))) tid' = if decide (tid = tid') then p else pc_of m tid'.
Proof. unfold pc_of. cbn. case_decide; subst; by rewrite ?lookup_insert_eq, ?lookup_insert_ne. Qed.

Lemma pc_of_delete m o h tid tid' :
  pc_of (mk o h (delete tid (pcs m))) tid' = if decide (tid = tid') then Out else pc_of m tid'.
Proof. unfold pc_of. cbn. case_decide; subst; by rewrite ?lookup_delete_eq, ?lookup_delete_ne. Qed.

Lemma mutex_step_inv m tid m' : inv m -> step m tid = Some m' -> inv m'.
Proof.
  intros [Ho Hh]. unfold step. destruct (pc_of m tid) eqn:E.
  - destruct (owner m) eqn:Eo; [done|]. intros [= <-]. unfold set_pc. cbn. split.
    + intros tid'. rewrite pc_of_insert. cbn. case_decide; [subst; split; [by left|done]|].
      rewrite <- Ho. split; congruence.
    + intros Hn. destruct (Hh Hn) as [tid' Ht]. exists tid'. rewrite pc_of_insert.
      case_decide; [subst; rewrite E in Ht; by destruct Ht|done].
  - intros [= <-]. unfold set_pc, assignHolder. cbn. split.
    + intros tid'. rewrite pc_of_insert. cbn. case_decide; [subst|by apply Ho].
      split; [by right|]. intros _. apply Ho. by left.
    + intros _. exists tid. rewrite pc_of_insert. rewrite decide_True by done. by left.
  - intros [= <-]. unfold set_pc. cbn. split.
    + intros tid'. rewrite pc_of_insert. cbn. case_decide; [split; [done|by intros [?|?]]|].
      split; [done|]. intros Hp. apply Ho in Hp. assert (owner m = Some tid) by (apply Ho; by right).
      congruence.
    + intros Hn. exists tid. rewrite pc_of_insert. rewrite decide_True by done. by right.
  - intros [= <-]. unfold unassignHolder. cbn. split; [|done].
    intros tid'. rewrite pc_of_delete. cbn. case_decide; [|by apply Ho]. subst.
    rewrite Ho, E. split; [by intros [?|?]|by intros [?|?]].
Qed.

Lemma mutex_run_inv tids m m' : inv m -> run m tids = Some m' -> inv m'.
Proof.
  revert m. induction tids as [|tid tids IH]; intros m Hm; cbn; [by intros [= <-]|].
  destruct (step m tid) as [m1|] eqn:E; [|done]. apply IH. by eapply mutex_step_inv.
Qed.

End PMutex.

(** ** [PCondition] *)
Module PCondition.

(** The threads in [pthread_cond_wait] and those that left it but do not hold
    the mutex again. *)
Record t := mk { sleeping : nat; woken : nat }.

Definition create : t := mk 0 0.

(** [wait()] releases the mutex. *)
Definition wait (c : t) : t := mk (S (sleeping c)) (woken c).

Definition notifyOne (c : t) : t :=
  match sleeping c with O => c | S n => mk n (S (woken c)) end.

Definition notifyAll (c : t) : t := mk 0 (woken c + sleeping c).

(** A thread leaves [wait] without a notification. *)
Definition spurious (c : t) : option t :=
  match sleeping c with O => None | S n => Some (mk n (S (woken c))) end.

(** A thread that was woken has the mutex again. *)
Definition reacquire (c : t) : option t :=
  match woken c with O => None | S n => Some (mk (sleeping c) n) end.

(** The absolute time [waitFor] gives to [pthread_cond_timedwait]: seconds and
    nanoseconds. *)
Definition nano : Z := 1000000000.
Definition deadline (tv_sec tv_nsec sec : Z) : Z * Z :=
  let nanoseconds := swrap 64 (sec * nano) in
  (tv_sec + Z.quot (tv_nsec + nanoseconds) nano, Z.rem (tv_nsec + nanoseconds) nano).

Lemma deadline_spec tv_sec tv_nsec sec : 0 <= tv_nsec < nano -> 0 <= sec < 2 ^ 33 ->
  deadline tv_sec tv_nsec sec = (tv_sec + sec, tv_nsec).
Proof.
  unfold deadline, nano. intros Hn Hs. rewrite swrap_small by lia.
  f_equal; [|rewrite Z.rem_mod_nonneg, Z.mod_add, Z.mod_small by lia; done].
  rewrite Z.quot_div_nonneg, Z.div_add, Z.div_small by lia. done.
Qed.

(** *** Lost wake-ups

    A thread may sleep only when the threads that were woken and have not run
    yet suffice for the [n] resources that are available. *)
Definition served (c : t) (n : nat) : Prop := sleeping c = 0%nat \/ (n <= woken c)%nat.

Lemma served_notifyOne c n : served c n -> served (notifyOne c) (S n).
Proof. unfold served, notifyOne. destruct (sleeping c) eqn:E; cbn; lia. Qed.

Lemma served_less c n m : served c n -> (m <= n)%nat -> served c m.
Proof. unfold served. lia. Qed.

Lemma served_wait c : served (wait c) 0.
Proof. unfold served. lia. Qed.

Lemma served_spurious c c' n : spurious c = Some c' -> served c n -> served c' n.
Proof. unfold served, spurious. destruct (sleeping c) eqn:E; intros [= <-]; cbn; lia. Qed.

(** The woken thread uses a resource, or finds none and sleeps again. *)
Lemma served_reacquire c c' n : reacquire c = Some c' -> served c (S n) -> served c' n.
Proof. unfold served, reacquire. destruct (woken c) eqn:E; intros [= <-]; cbn; lia. Qed.

Lemma served_notifyAll c n : served (notifyAll c) n.
Proof. by left. Qed.

End PCondition.

(** ** [CountDownLatch] *)
Module CountDownLatch.

Record t := mk { count_ : Z; condition_ : PCondition.t; passed : nat }.

Definition create (count : Z) : t := mk count PCondition.create 0.

(** The loop of [wait]: at its start, and after a wake-up. *)
Definition wait_loop (l : t) : t :=
  if 0 <? count_ l then mk (count_ l) (PCondition.wait (condition_ l)) (passed l)
  else mk (count_ l) (condition_ l) (S (passed l)).

Definition countDown (l : t) : t :=
  let n := swrap 32 (count_ l - 1) in
  mk n (if n =? 0 then PCondition.notifyAll (condition_ l) else condition_ l) (passed l).

Definition getCount (l : t) : Z := count_ l.

Inductive op := OWait | OWake | OSpurious | OCountDown.

Definition step (l : t) (o : op) : option t :=
  match o with
  | OWait => Some (wait_loop l)
  | OWake => c ← PCondition.reacquire (condition_ l); Some (wait_loop (mk (count_ l) c (passed l)))
  | OSpurious => c ← PCondition.spurious (condition_ l); Some (mk (count_ l) c (passed l))
  | OCountDown => Some (countDown l)
  end.

Fixpoint run (l : t) (ops : list op) : option t :=
  match ops with
  | [] => Some l
  | o :: ops' => l' ← step l o; run l' ops'
  end.

(** Threads sleep only while the count is positive. *)
Definition inv (l : t) : Prop :=
  (PCondition.sleeping (condition_ l) = 0%nat \/ 0 < count_ l) /\ - 2 ^ 31 <= count_ l < 2 ^ 31.

Lemma latch_step_inv l o l' : inv l -> (o = OCountDown -> - 2 ^ 31 < count_ l) -> step l o = Some l' -> inv l'.
Proof.
  unfold inv. intros [Hs Hb] Hc. destruct o; cbn.
  - intros [= <-]. unfold wait_loop. destruct (Z.ltb_spec 0 (count_ l)); cbn; lia.
  - unfold PCondition.reacquire. destruct (PCondition.woken _); [done|]. intros [= <-].
    unfold wait_loop. cbn. destruct (Z.ltb_spec 0 (count_ l)); cbn; lia.
  - unfold PCondition.spurious. destruct (PCondition.sleeping _); [done|]. intros [= <-]. cbn. lia.
  - intros [= <-]. unfold countDown. specialize (Hc eq_refl). rewrite swrap_small by lia. cbn.
    destruct (Z.eqb_spec (count_ l - 1) 0); cbn; lia.
Qed.
End CountDownLatch.
