(* ===== verification/Queues.v ===== *)
(** * Blocking queues (inc/utils/datastructures)

    [BlockingQueue] and [BoundedBlockingQueue] as monitors: an operation is the
    section that holds the mutex, from its beginning or from the return of a
    [wait] to its end or to the next [wait].  The elements that consumers
    received are kept in the order they were popped. *)

From S2P Require Import Prelude Sync.

Module BlockingQueue.
Section queue.
Context {T : Type}.

Record t := mk { notEmpty_ : PCondition.t; queue_ : list T; received : list T }.

Definition create : t := mk PCondition.create [] [].

Definition put (q : t) (x : T) : t :=
  mk (PCondition.notifyOne (notEmpty_ q)) (queue_ q ++ [x]) (received q).

(** [take()] from its loop on. *)
Definition take_loop (q : t) : t :=
  match queue_ q with
  | [] => mk (PCondition.wait (notEmpty_ q)) [] (received q)
  | front :: rest => mk (notEmpty_ q) rest (received q ++ [front])
  end.

Definition drain (q : t) : list T * t := (queue_ q, mk (notEmpty_ q) [] (received q ++ queue_ q)).

Definition size (q : t) : nat := length (queue_ q).

(** What threads do: put, enter [take], come back from [wait], drain. *)
Inductive op := OPut (x : T) | OTake | OWake | OSpurious | ODrain.

Definition step (q : t) (o : op) : option t :=
  match o with
  | OPut x => Some (put q x)
  | OTake => Some (take_loop q)
  | OWake => c ← PCondition.reacquire (notEmpty_ q); Some (take_loop (mk c (queue_ q) (received q)))
  | OSpurious => c ← PCondition.spurious (notEmpty_ q); Some (mk c (queue_ q) (received q))
  | ODrain => Some (snd (drain q))
  end.

Fixpoint run (q : t) (ops : list op) : option t :=
  match ops with
  | [] => Some q
  | o :: ops' => q' ← step q o; run q' ops'
  end.

Definition put_of (o : op) : list T := match o with OPut x => [x] | _ => [] end.

(** First in, first out, and no consumer sleeps while an element waits for it. *)
Definition inv (puts : list T) (q : t) : Prop :=
  received q ++ queue_ q = puts /\ PCondition.served (notEmpty_ q) (length (queue_ q)).

Lemma queue_take_loop_inv puts c xs rs :
  rs ++ xs = puts -> PCondition.served c (length xs - 1) -> inv puts (take_loop (mk c xs rs)).
Proof.
  intros Hp Hs. unfold take_loop, inv. destruct xs as [|x xs]; cbn.
  - split; [done|]. apply PCondition.served_wait.
  - rewrite <- app_assoc. split; [done|]. cbn in Hs. by rewrite Nat.sub_0_r in Hs.
Qed.

Lemma queue_step_inv puts q o q' : inv puts q -> step q o = Some q' -> inv (puts ++ put_of o) q'.
Proof.
  intros [Hp Hs]. destruct o; cbn [step put_of]; rewrite ?app_nil_r.
  - intros [= <-]. split; cbn; [by rewrite app_assoc, Hp|].
    rewrite length_app, Nat.add_comm. by apply PCondition.served_notifyOne.
  - intros [= <-]. destruct q. apply queue_take_loop_inv; [done|]. eapply PCondition.served_less; [done|].
    cbn. lia.
  - destruct (PCondition.reacquire _) as [c|] eqn:E; [|done]. intros [= <-]. apply queue_take_loop_inv; [done|].
    destruct (length (queue_ q)) as [|n] eqn:El.
    + cbn. destruct (PCondition.sleeping c) eqn:Es; [by left|]. right. lia.
    + simpl. rewrite Nat.sub_0_r. by eapply PCondition.served_reacquire.
  - destruct (PCondition.spurious _) as [c|] eqn:E; [|done]. intros [= <-]. split; [done|].
    by eapply PCondition.served_spurious.
  - intros [= <-]. split; cbn; [by rewrite app_nil_r|]. eapply PCondition.served_less; [done|]. lia.
Qed.

Lemma queue_run_inv ops : forall puts q q', inv puts q -> run q ops = Some q' ->
  inv (puts ++ mjoin (map put_of ops)) q'.
Proof.
  induction ops as [|o ops IH]; intros puts q q' Hq; cbn; [intros [= <-]; by rewrite app_nil_r|].
  destruct (step q o) as [q1|] eqn:E; [|done]. cbn. rewrite app_assoc. apply IH. by eapply queue_step_inv.
Qed.
End queue.
Arguments t : clear implicits.
Arguments op : clear implicits.
End BlockingQueue.

Module BoundedBlockingQueue.
Section queue.
Context {T : Type}.
(** [maxSize], the capacity of the circular buffer. *)
Context (capacity : nat).

(** [blocked]: the arguments of the calls of [put] that are in [wait] or on
    their way back from it. *)
Record t := mk {
  notEmpty_ : PCondition.t; notFull_ : PCondition.t; queue_ : list T;
  blocked : list T; received : list T
}.

Definition create : t := mk PCondition.create PCondition.create [] [] [].

Definition full (q : t) : bool := length (queue_ q) =? capacity.
Definition empty (q : t) : bool := length (queue_ q) =? 0.
Definition size (q : t) : nat := length (queue_ q).

(** [put(x)] from its loop on. *)
Definition put_loop (q : t) (x : T) : t :=
  if full q then
    mk (notEmpty_ q) (PCondition.wait (notFull_ q)) (queue_ q) (blocked q ++ [x]) (received q)
  else
    mk (PCondition.notifyOne (notEmpty_ q)) (notFull_ q) (queue_ q ++ [x]) (blocked q) (received q).

(** [take()] from its loop on. *)
Definition take_loop (q : t) : t :=
  match queue_ q with
  | [] => mk (PCondition.wait (notEmpty_ q)) (notFull_ q) [] (blocked q) (received q)
  | front :: rest =>
      mk (notEmpty_ q) (PCondition.notifyOne (notFull_ q)) rest (blocked q) (received q ++ [front])
  end.

(** [OPutWake i]: the call whose argument is the [i]-th of [blocked] holds the
    mutex again. *)
Inductive op := OPut (x : T) | OPutWake (i : nat) | OPutSpurious | OTake | OTakeWake | OTakeSpurious.

Definition step (q : t) (o : op) : option t :=
  match o with
  | OPut x => Some (put_loop q x)
  | OPutWake i =>
      c ← PCondition.reacquire (notFull_ q);
      x ← blocked q !! i;
      Some (put_loop (mk (notEmpty_ q) c (queue_ q) (delete i (blocked q)) (received q)) x)
  | OPutSpurious =>
      c ← PCondition.spurious (notFull_ q);
      Some (mk (notEmpty_ q) c (queue_ q) (blocked q) (received q))
  | OTake => Some (take_loop q)
  | OTakeWake =>
      c ← PCondition.reacquire (notEmpty_ q);
      Some (take_loop (mk c (notFull_ q) (queue_ q) (blocked q) (received q)))
  | OTakeSpurious =>
      c ← PCondition.spurious (notEmpty_ q);
      Some (mk c (notFull_ q) (queue_ q) (blocked q) (received q))
  end.

Fixpoint run (q : t) (ops : list op) : option t :=
  match ops with
  | [] => Some q
  | o :: ops' => q' ← step q o; run q' ops'
  end.

(** Capacity, waiting calls, and no lost wake-up on either condition: no
    consumer sleeps on an element and no producer on a free place that nobody
    was woken for. *)
Record inv (q : t) : Prop := {
  inv_size : length (queue_ q) <= capacity;
  inv_blocked : length (blocked q) = PCondition.sleeping (notFull_ q) + PCondition.woken (notFull_ q);
  inv_consumers : PCondition.served (notEmpty_ q) (length (queue_ q));
  inv_producers : PCondition.served (notFull_ q) (capacity - length (queue_ q))
}.

Lemma put_loop_inv ne nf xs bl rs x :
  length xs <= capacity ->
  length bl = PCondition.sleeping nf + PCondition.woken nf ->
  PCondition.served ne (length xs) ->
  PCondition.served nf (capacity - length xs - 1) ->
  inv (put_loop (mk ne nf xs bl rs) x).
Proof.
  intros Hsz Hbl Hc Hp. unfold put_loop, full. cbn. destruct (Nat.eqb_spec (length xs) capacity).
  - split; cbn; try done; [rewrite length_app; simpl; lia|].
    eapply PCondition.served_less; [apply PCondition.served_wait|lia].
  - split; cbn; rewrite ?length_app, ?Nat.add_1_r; [lia|done| |].
    + by apply PCondition.served_notifyOne.
    + eapply PCondition.served_less; [done|lia].
Qed.

Lemma bounded_take_loop_inv ne nf xs bl rs :
  length xs <= capacity ->
  length bl = PCondition.sleeping nf + PCondition.woken nf ->
  PCondition.served ne (length xs - 1) ->
  PCondition.served nf (capacity - length xs) ->
  inv (take_loop (mk ne nf xs bl rs)).
Proof.
  intros Hsz Hbl Hc Hp. unfold take_loop. cbn. destruct xs as [|x xs].
  - split; cbn; try done. apply PCondition.served_wait.
  - cbn in *. split; cbn; [lia| | |].
    + unfold PCondition.notifyOne. destruct (PCondition.sleeping nf) eqn:E; cbn; lia.
    + eapply PCondition.served_less; [done|lia].
    + eapply PCondition.served_less; [by apply PCondition.served_notifyOne|lia].
Qed.

Lemma reacquire_served c c' n : PCondition.reacquire c = Some c' -> PCondition.served c n ->
  PCondition.served c' (n - 1) /\
  PCondition.sleeping c + PCondition.woken c = S (PCondition.sleeping c' + PCondition.woken c').
Proof.
  unfold PCondition.reacquire, PCondition.served. destruct (PCondition.woken c); intros [= <-]; cbn. lia.
Qed.

Lemma bounded_step_inv q o q' : inv q -> step q o = Some q' -> inv q'.
Proof.
  intros [Hsz Hbl Hc Hp]. destruct o as [x|i| | | |]; cbn [step].
  - intros [= <-]. destruct q. apply put_loop_inv; try done. eapply PCondition.served_less; [done|cbn; lia].
  - destruct (PCondition.reacquire _) as [c|] eqn:E; [|done].
    destruct (blocked q !! i) as [x|] eqn:Ex; [|done]. intros [= <-].
    destruct (reacquire_served _ _ _ E Hp) as [Hp' Hn].
    apply put_loop_inv; try done. rewrite length_delete by (by eexists). lia.
  - unfold PCondition.spurious. destruct (PCondition.sleeping (notFull_ q)) eqn:Es; [done|].
    intros [= <-]. split; cbn; try done; [lia|]. unfold PCondition.served in *. cbn. lia.
  - intros [= <-]. destruct q. apply bounded_take_loop_inv; try done. eapply PCondition.served_less; [done|cbn; lia].
  - destruct (PCondition.reacquire _) as [c|] eqn:E; [|done]. intros [= <-].
    destruct (reacquire_served _ _ _ E Hc) as [Hc' _]. by apply bounded_take_loop_inv.
  - destruct (PCondition.spurious _) as [c|] eqn:E; [|done]. intros [= <-]. split; cbn; try done.
    by eapply PCondition.served_spurious.
Qed.

Lemma bounded_create_inv : inv create.
Proof. split; cbn; try lia; by left. Qed.

(** The refinement: what the operations do to a plain queue.  A [put] that
    waits takes effect when it pushes. *)
Definition pushed (q : t) (o : op) : list T :=
  match o with
  | OPut x => if full q then [] else [x]
  | OPutWake i => if full q then [] else option_list (blocked q !! i)
  | _ => []
  end.

Lemma bounded_step_fifo q o q' : step q o = Some q' ->
  received q' ++ queue_ q' = received q ++ queue_ q ++ pushed q o.
Proof.
  destruct o as [x|i| | | |]; cbn [step pushed]; rewrite ?app_nil_r.
  - intros [= <-]. unfold put_loop. destruct (full q); cbn; by rewrite ?app_nil_r.
  - destruct (PCondition.reacquire _) as [c|]; [|done].
    destruct (blocked q !! i) as [x|]; [|done]. intros [= <-]. unfold put_loop, full. cbn.
    destruct (_ =? _); cbn; by rewrite ?app_nil_r.
  - destruct (PCondition.spurious _); [|done]. by intros [= <-].
  - intros [= <-]. unfold take_loop. destruct (queue_ q); cbn; [by rewrite app_nil_r|by rewrite <- app_assoc].
  - destruct (PCondition.reacquire _) as [c|]; [|done]. intros [= <-]. unfold take_loop. cbn.
    destruct (queue_ q); cbn; [by rewrite app_nil_r|by rewrite <- app_assoc].
  - destruct (PCondition.spurious _); [|done]. by intros [= <-].
Qed.

(** The elements pushed by a run, in order. *)
Fixpoint all_pushed (q : t) (ops : list op) : list T :=
  match ops with
  | [] => []
  | o :: ops' => pushed q o ++ from_option (fun q' => all_pushed q' ops') [] (step q o)
  end.

Lemma bounded_run_inv ops : forall q q', inv q -> run q ops = Some q' ->
  inv q' /\ received q' ++ queue_ q' = received q ++ queue_ q ++ all_pushed q ops.
Proof.
  induction ops as [|o ops IH]; intros q q' Hq; cbn [run all_pushed].
  - intros [= <-]. by rewrite app_nil_r.
  - destruct (step q o) as [q1|] eqn:E; [|done]. cbn. intros Hr.
    destruct (IH q1 q' (bounded_step_inv _ _ _ Hq E) Hr) as [? Hf]. split; [done|].
    rewrite Hf, app_assoc, (bounded_step_fifo q o q1 E). by rewrite <- !app_assoc.
Qed.

(** The consumers that were woken take what the queue holds. *)
Lemma woken_consumers_take n : forall ne nf xs bl rs,
  length xs = n -> n <= PCondition.woken ne ->
  exists q, run (mk ne nf xs bl rs) (replicate n OTakeWake) = Some q /\ queue_ q = [] /\ received q = rs ++ xs.
Proof.
  induction n as [|n IH]; intros ne nf xs bl rs Hn Hw.
  - destruct xs; [|done]. eexists. split; [done|]. by rewrite app_nil_r.
  - destruct xs as [|x xs]; [done|]. injection Hn as Hn. cbn [replicate run step]. unfold PCondition.reacquire.
    cbn [notEmpty_]. destruct (PCondition.woken ne) as [|m]; [lia|]. cbn.
    destruct (IH (PCondition.mk (PCondition.sleeping ne) m) (PCondition.notifyOne nf) xs bl (rs ++ [x]) Hn
      ltac:(cbn; lia)) as (q & E & Eq & Er).
    exists q. split; [exact E|]. split; [done|]. by rewrite Er, <- app_assoc.
Qed.

(** The producers that were woken fill the free places, in turn. *)
Lemma woken_producers_put n : forall ne nf xs bl rs,
  length xs + n = capacity -> n <= PCondition.woken nf -> n <= length bl ->
  exists q, run (mk ne nf xs bl rs) (replicate n (OPutWake 0)) = Some q /\ queue_ q = xs ++ take n bl /\
    full q = true.
Proof.
  induction n as [|n IH]; intros ne nf xs bl rs Hn Hw Hb.
  - eexists. split; [done|]. rewrite take_0, app_nil_r. split; [done|]. apply Nat.eqb_eq. cbn. lia.
  - destruct bl as [|x bl]; [cbn in Hb; lia|]. cbn [replicate run step]. unfold PCondition.reacquire.
    cbn [notFull_ blocked]. destruct (PCondition.woken nf) as [|m]; [lia|].
    cbn. unfold put_loop, full. cbn [queue_].
    destruct (Nat.eqb_spec (length xs) capacity); [lia|]. cbn.
    destruct (IH (PCondition.notifyOne ne) (PCondition.mk (PCondition.sleeping nf) m) (xs ++ [x]) bl rs)
      as (q & E & Eq & Ef); [rewrite length_app; simpl; lia|cbn; lia|cbn in Hb; lia|].
    exists q. split; [exact E|]. split; [|done]. by rewrite Eq, <- app_assoc.
Qed.

(** A consumer sleeps only while the queue holds no more elements than there
    are consumers that were woken and are on their way to take them. *)
Lemma sleeping_consumers q : inv q -> 0 < PCondition.sleeping (notEmpty_ q) ->
  length (queue_ q) <= PCondition.woken (notEmpty_ q) /\
  exists q', run q (replicate (length (queue_ q)) OTakeWake) = Some q' /\
    queue_ q' = [] /\ received q' = received q ++ queue_ q.
Proof.
  intros [_ _ [?|Hw] _] Hs; [lia|]. split; [done|]. destruct q. by apply woken_consumers_take.
Qed.

(** The same for the producers and the free places. *)
Lemma sleeping_producers q : inv q -> 0 < PCondition.sleeping (notFull_ q) ->
  capacity - length (queue_ q) <= PCondition.woken (notFull_ q) /\
  exists q', run q (replicate (capacity - length (queue_ q)) (OPutWake 0)) = Some q' /\
    queue_ q' = queue_ q ++ take (capacity - length (queue_ q)) (blocked q) /\ full q' = true.
Proof.
  intros [Hsz Hb _ [?|Hw]] Hs; [lia|]. split; [done|]. destruct q. cbn in *.
  apply woken_producers_put; lia.
Qed.
End queue.
Arguments t : clear implicits.
Arguments op : clear implicits.
End BoundedBlockingQueue.
