(* ===== verification/ThreadPool.v ===== *)
(** * [ThreadPool] (inc/utils/thread/ThreadPool.hpp, src/utils/thread/ThreadPool.cpp)

    Worker threads take tasks from a queue that [run] fills, both under one
    mutex with two condition variables.  A step is a section that holds the
    mutex, or a worker's step outside it: the test of [running_] at the head of
    its loop, or the end of its task.  Workers at the same place are not told
    apart, so their places are counters. *)

From S2P Require Import Prelude CxxString Sync.

Module ThreadPool.
Section pool.
Context {Task : Type}.

Record t := mk {
  running_ : bool;
  maxQueueSize_ : nat;
  threadSize_ : nat;
  threads_ : list bytes;         (* the names of the threads *)
  queue_ : list Task;
  notEmpty_ : PCondition.t;      (* the workers that wait *)
  notFull_ : PCondition.t;
  blocked : list Task;           (* the tasks of the calls of [run] that wait *)
  idle : nat;                    (* workers at the head of the loop *)
  entering : nat;                (* workers between the test and the mutex *)
  busy : list Task;              (* the tasks being run *)
  exited : nat;
  started : list Task;           (* the tasks the workers were given, in order *)
  inlined : list Task;           (* the tasks run by the caller *)
  refused : list Task            (* the tasks of calls that returned without queueing *)
}.

Definition create : t :=
  mk false 0 0 [] [] PCondition.create PCondition.create [] 0 0 [] 0 [] [] [].

Definition setMaxQueueSize (p : t) (maxSize : nat) : t :=
  mk (running_ p) maxSize (threadSize_ p) (threads_ p) (queue_ p) (notEmpty_ p) (notFull_ p) (blocked p)
     (idle p) (entering p) (busy p) (exited p) (started p) (inlined p) (refused p).
Definition setThreadSize (p : t) (numThread : nat) : t :=
  mk (running_ p) (maxQueueSize_ p) numThread (threads_ p) (queue_ p) (notEmpty_ p) (notFull_ p) (blocked p)
     (idle p) (entering p) (busy p) (exited p) (started p) (inlined p) (refused p).

(** [start]: every thread begins at the head of [runInThread].  The branch for
    a pool of no threads looks for a first thread that is not there. *)
Definition start (name : bytes) (p : t) (numThreads : nat) : option t :=
  if running_ p then None
  else
    Some (mk true (maxQueueSize_ p) numThreads
             (threads_ p ++ map (fun i => name ++ snprintf 32 (to_string (Z.of_nat (S i)))) (seq 0 numThreads))
             (queue_ p) (notEmpty_ p) (notFull_ p) (blocked p)
             (idle p + numThreads) (entering p) (busy p) (exited p) (started p) (inlined p) (refused p)).

(** The section of [stop] before it joins the threads. *)
Definition stop (p : t) : t :=
  mk false (maxQueueSize_ p) (threadSize_ p) (threads_ p) (queue_ p)
     (PCondition.notifyAll (notEmpty_ p)) (PCondition.notifyAll (notFull_ p)) (blocked p)
     (idle p) (entering p) (busy p) (exited p) (started p) (inlined p) (refused p).

(** [~ThreadPool()]. *)
Definition destroy (p : t) : t := if running_ p then stop p else p.

Definition queeuSize (p : t) : nat := length (queue_ p).

Definition isFull (p : t) : bool := (0 <? maxQueueSize_ p) && (maxQueueSize_ p <=? length (queue_ p)).

(** [run] from its loop on. *)
Definition run_loop (p : t) (task : Task) : t :=
  if isFull p && running_ p then
    mk (running_ p) (maxQueueSize_ p) (threadSize_ p) (threads_ p) (queue_ p)
       (notEmpty_ p) (PCondition.wait (notFull_ p)) (blocked p ++ [task])
       (idle p) (entering p) (busy p) (exited p) (started p) (inlined p) (refused p)
  else if negb (running_ p) then
    mk (running_ p) (maxQueueSize_ p) (threadSize_ p) (threads_ p) (queue_ p)
       (notEmpty_ p) (notFull_ p) (blocked p)
       (idle p) (entering p) (busy p) (exited p) (started p) (inlined p) (refused p ++ [task])
  else
    mk (running_ p) (maxQueueSize_ p) (threadSize_ p) (threads_ p) (queue_ p ++ [task])
       (PCondition.notifyOne (notEmpty_ p)) (notFull_ p) (blocked p)
       (idle p) (entering p) (busy p) (exited p) (started p) (inlined p) (refused p).

Definition run_task (p : t) (task : Task) : t :=
  if bool_decide (threads_ p = []) then
    mk (running_ p) (maxQueueSize_ p) (threadSize_ p) (threads_ p) (queue_ p)
       (notEmpty_ p) (notFull_ p) (blocked p)
       (idle p) (entering p) (busy p) (exited p) (started p) (inlined p ++ [task]) (refused p)
  else run_loop p task.

(** [take()] from its loop on, by a worker that is not counted any more; and
    what [runInThread] does with the result: an empty task takes it back to the
    head of the loop. *)
Definition take_loop (p : t) : t :=
  match queue_ p with
  | [] =>
      if running_ p then
        mk (running_ p) (maxQueueSize_ p) (threadSize_ p) (threads_ p) []
           (PCondition.wait (notEmpty_ p)) (notFull_ p) (blocked p)
           (idle p) (entering p) (busy p) (exited p) (started p) (inlined p) (refused p)
      else
        mk (running_ p) (maxQueueSize_ p) (threadSize_ p) (threads_ p) []
           (notEmpty_ p) (notFull_ p) (blocked p)
           (S (idle p)) (entering p) (busy p) (exited p) (started p) (inlined p) (refused p)
  | task :: rest =>
      mk (running_ p) (maxQueueSize_ p) (threadSize_ p) (threads_ p) rest
         (notEmpty_ p) (if 0 <? maxQueueSize_ p then PCondition.notifyOne (notFull_ p) else notFull_ p)
         (blocked p)
         (idle p) (entering p) (busy p ++ [task]) (exited p) (started p ++ [task]) (inlined p) (refused p)
  end.

(** The head of the loop of [runInThread]. *)
Definition loop_head (p : t) : option t :=
  match idle p with
  | O => None
  | S n =>
      Some (if running_ p then
              mk (running_ p) (maxQueueSize_ p) (threadSize_ p) (threads_ p) (queue_ p)
                 (notEmpty_ p) (notFull_ p) (blocked p)
                 n (S (entering p)) (busy p) (exited p) (started p) (inlined p) (refused p)
            else
              mk (running_ p) (maxQueueSize_ p) (threadSize_ p) (threads_ p) (queue_ p)
                 (notEmpty_ p) (notFull_ p) (blocked p)
                 n (entering p) (busy p) (S (exited p)) (started p) (inlined p) (refused p))
  end.

Definition with_notEmpty (p : t) (c : PCondition.t) : t :=
  mk (running_ p) (maxQueueSize_ p) (threadSize_ p) (threads_ p) (queue_ p) c (notFull_ p) (blocked p)
     (idle p) (entering p) (busy p) (exited p) (started p) (inlined p) (refused p).
Definition with_notFull (p : t) (c : PCondition.t) (bl : list Task) : t :=
  mk (running_ p) (maxQueueSize_ p) (threadSize_ p) (threads_ p) (queue_ p) (notEmpty_ p) c bl
     (idle p) (entering p) (busy p) (exited p) (started p) (inlined p) (refused p).
Definition with_workers (p : t) (i e : nat) (b : list Task) : t :=
  mk (running_ p) (maxQueueSize_ p) (threadSize_ p) (threads_ p) (queue_ p) (notEmpty_ p) (notFull_ p)
     (blocked p) i e b (exited p) (started p) (inlined p) (refused p).

(** The steps of workers: head of the loop, entering [take], coming back from
    [wait], finishing a task. *)
Inductive wop := WHead | WEnter | WWake | WDone (i : nat).

Definition wstep (p : t) (o : wop) : option t :=
  match o with
  | WHead => loop_head p
  | WEnter =>
      match entering p with
      | O => None
      | S n => Some (take_loop (with_workers p (idle p) n (busy p)))
      end
  | WWake => c ← PCondition.reacquire (notEmpty_ p); Some (take_loop (with_notEmpty p c))
  | WDone i =>
      _ ← busy p !! i;
      Some (with_workers p (S (idle p)) (entering p) (delete i (busy p)))
  end.

(** All steps: callers, workers, wake-ups without a cause, [stop]. *)
Inductive op :=
| ORun (task : Task) | ORunWake (i : nat) | ORunSpurious | OTakeSpurious | OStop | OWorker (w : wop).

Definition step (p : t) (o : op) : option t :=
  match o with
  | ORun task => Some (run_task p task)
  | ORunWake i =>
      c ← PCondition.reacquire (notFull_ p);
      task ← blocked p !! i;
      Some (run_loop (with_notFull p c (delete i (blocked p))) task)
  | ORunSpurious => c ← PCondition.spurious (notFull_ p); Some (with_notFull p c (blocked p))
  | OTakeSpurious => c ← PCondition.spurious (notEmpty_ p); Some (with_notEmpty p c)
  | OStop => Some (stop p)
  | OWorker w => wstep p w
  end.

Fixpoint run (p : t) (ops : list op) : option t :=
  match ops with
  | [] => Some p
  | o :: ops' => p' ← step p o; run p' ops'
  end.

(** [stop] can return when every thread has left its function. *)
Definition joined (p : t) : bool := exited p =? threadSize_ p.

(** ** Invariant

    Every worker is somewhere; the queue keeps its bound; nobody sleeps while
    there is something for him that nobody was woken for; after [stop] nobody
    sleeps. *)
Record inv (p : t) : Prop := {
  inv_workers : idle p + entering p + PCondition.sleeping (notEmpty_ p) + PCondition.woken (notEmpty_ p)
                + length (busy p) + exited p = threadSize_ p;
  inv_size : 0 < maxQueueSize_ p -> length (queue_ p) <= maxQueueSize_ p;
  inv_blocked : length (blocked p) = PCondition.sleeping (notFull_ p) + PCondition.woken (notFull_ p);
  inv_takers : PCondition.served (notEmpty_ p) (length (queue_ p));
  inv_callers : 0 < maxQueueSize_ p -> PCondition.served (notFull_ p) (maxQueueSize_ p - length (queue_ p));
  inv_unbounded : maxQueueSize_ p = 0 -> PCondition.sleeping (notFull_ p) = 0;
  inv_stopped : running_ p = false ->
    PCondition.sleeping (notEmpty_ p) = 0 /\ PCondition.sleeping (notFull_ p) = 0
}.

Lemma create_started_inv name max n p :
  start name (setMaxQueueSize create max) n = Some p -> inv p /\ started p ++ queue_ p = [].
Proof.
  intros [= <-]. split; [|done]. split; cbn; try done; try lia; by left.
Qed.

(** Unfold a state and leave arithmetic about its counters. *)
Ltac pool_arith :=
  unfold PCondition.served, PCondition.notifyOne, PCondition.wait in *; cbn in *;
  rewrite ?length_app; cbn; intros; repeat case_match; cbn in *; rewrite ?length_app; cbn; lia.

(** [p] with one more caller, or one more worker, on the way back from [wait]. *)
Definition more_callers (p : t) (task : Task) : t :=
  with_notFull p (PCondition.mk (PCondition.sleeping (notFull_ p)) (S (PCondition.woken (notFull_ p))))
               (task :: blocked p).
Definition more_workers (p : t) : t :=
  with_notEmpty p (PCondition.mk (PCondition.sleeping (notEmpty_ p)) (S (PCondition.woken (notEmpty_ p)))).

Lemma run_loop_inv p task : inv (more_callers p task) -> inv (run_loop p task).
Proof.
  intros [Hw Hsz Hbl Hc Hp Hu Hst]. unfold run_loop, isFull. cbn in *.
  destruct (Nat.ltb_spec 0 (maxQueueSize_ p)), (Nat.leb_spec (maxQueueSize_ p) (length (queue_ p))),
    (running_ p) eqn:Er; cbn; split; cbn; rewrite ?Er; try done; try (specialize (Hst eq_refl)); pool_arith.
Qed.

Lemma more_callers_inv p task : inv p -> inv (more_callers p task).
Proof.
  intros [Hw Hsz Hbl Hc Hp Hu Hst]. split; cbn; try done; [lia|].
  intros Hm. specialize (Hp Hm). pool_arith.
Qed.

Lemma run_task_inv p task : inv p -> inv (run_task p task).
Proof.
  intros Hp. unfold run_task. case_bool_decide; [by destruct Hp; split|].
  apply run_loop_inv. by apply more_callers_inv.
Qed.

Lemma pool_take_loop_inv p : inv (more_workers p) -> inv (take_loop p).
Proof.
  intros [Hw Hsz Hbl Hc Hp Hu Hst]. unfold take_loop. cbn in *.
  destruct (queue_ p) as [|task rest] eqn:Eq; [destruct (running_ p) eqn:Er|]; cbn in *;
    split; cbn; rewrite ?Er; try done; try pool_arith.
  all: destruct (Nat.ltb_spec 0 (maxQueueSize_ p)); try pool_arith.
  all: intros Hr; specialize (Hst Hr); pool_arith.
Qed.

Lemma wstep_inv p o p' : inv p -> wstep p o = Some p' -> inv p'.
Proof.
  intros Hp. pose proof Hp as [Hw Hsz Hbl Hc Hpr Hu Hst]. destruct o as [| | |i]; cbn [wstep].
  - unfold loop_head. destruct (idle p) as [|n] eqn:Ei; [done|]. intros [= <-].
    destruct (running_ p) eqn:Er; split; cbn; rewrite ?Er; try done; lia.
  - destruct (entering p) as [|n] eqn:Ee; [done|]. intros [= <-]. apply pool_take_loop_inv.
    split; cbn; try done; [lia|]. unfold PCondition.served in *. cbn. lia.
  - unfold PCondition.reacquire. destruct (PCondition.woken (notEmpty_ p)) as [|n] eqn:Ek; [done|].
    intros [= <-]. apply pool_take_loop_inv. unfold more_workers. cbn. rewrite <- Ek.
    by destruct p as [? ? ? ? ? [] ? ? ? ? ? ? ? ? ?].
  - destruct (busy p !! i) as [x|] eqn:Ei; [|done]. intros [= <-]. split; cbn; try done.
    assert (length (busy p) = S (length (delete i (busy p)))) as E.
    { rewrite length_delete by (by eexists). apply lookup_lt_Some in Ei. lia. }
    lia.
Qed.

Lemma pool_step_inv p o p' : inv p -> step p o = Some p' -> inv p'.
Proof.
  intros Hp. pose proof Hp as [Hw Hsz Hbl Hc Hpr Hu Hst]. destruct o as [task|i| | | |w]; cbn [step].
  - intros [= <-]. by apply run_task_inv.
  - unfold PCondition.reacquire. destruct (PCondition.woken (notFull_ p)) as [|n] eqn:Ek; [done|]. cbn.
    destruct (blocked p !! i) as [task|] eqn:Ei; [|done]. intros [= <-].
    apply run_loop_inv.
    assert (length (blocked p) = S (length (delete i (blocked p)))) as E.
    { rewrite length_delete by (by eexists). apply lookup_lt_Some in Ei. lia. }
    split; cbn; try done; [lia|]. intros Hm. specialize (Hpr Hm). pool_arith.
  - unfold PCondition.spurious. destruct (PCondition.sleeping (notFull_ p)) as [|n] eqn:Es; [done|].
    intros [= <-]. split; cbn; try done; try lia; try (intros Hr; destruct (Hst Hr); lia).
    intros Hm. specialize (Hpr Hm). pool_arith.
  - unfold PCondition.spurious. destruct (PCondition.sleeping (notEmpty_ p)) as [|n] eqn:Es; [done|].
    intros [= <-]. split; cbn; try done; try lia; try (intros Hr; destruct (Hst Hr); lia).
    pool_arith.
  - intros [= <-]. split; cbn; try done; try lia; by left.
  - by apply wstep_inv.
Qed.

(** ** Order *)

(** The task that a step puts in the queue. *)
Definition pushed_by (p : t) (task : list Task) : list Task :=
  if isFull p && running_ p then [] else if negb (running_ p) then [] else task.
Definition pushed (p : t) (o : op) : list Task :=
  match o with
  | ORun task => if bool_decide (threads_ p = []) then [] else pushed_by p [task]
  | ORunWake i => pushed_by p (option_list (blocked p !! i))
  | _ => []
  end.

Lemma run_loop_fifo p task :
  started (run_loop p task) ++ queue_ (run_loop p task) = started p ++ queue_ p ++ pushed_by p [task].
Proof.
  unfold run_loop, pushed_by. destruct (isFull p && running_ p); cbn; [by rewrite app_nil_r|].
  destruct (running_ p); cbn; by rewrite ?app_nil_r.
Qed.

Lemma take_loop_fifo p : started (take_loop p) ++ queue_ (take_loop p) = started p ++ queue_ p.
Proof.
  unfold take_loop. destruct (queue_ p); [destruct (running_ p)|]; cbn; try done. by rewrite <- app_assoc.
Qed.

Lemma wstep_fifo p o p' : wstep p o = Some p' -> started p' ++ queue_ p' = started p ++ queue_ p.
Proof.
  destruct o as [| | |i]; cbn [wstep].
  - unfold loop_head. destruct (idle p); [done|]. intros [= <-]. by destruct (running_ p).
  - destruct (entering p); [done|]. intros [= <-]. by rewrite take_loop_fifo.
  - destruct (PCondition.reacquire _); [|done]. intros [= <-]. by rewrite take_loop_fifo.
  - destruct (busy p !! i); [|done]. by intros [= <-].
Qed.

Lemma pool_step_fifo p o p' : step p o = Some p' ->
  started p' ++ queue_ p' = started p ++ queue_ p ++ pushed p o.
Proof.
  destruct o as [task|i| | | |w]; cbn [step pushed]; rewrite ?app_nil_r.
  - intros [= <-]. unfold run_task. case_bool_decide; [cbn; by rewrite app_nil_r|apply run_loop_fifo].
  - destruct (PCondition.reacquire _); [|done]. destruct (blocked p !! i) as [task|]; [|done].
    intros [= <-]. exact (run_loop_fifo (with_notFull p _ _) task).
  - destruct (PCondition.spurious _); [|done]. by intros [= <-].
  - destruct (PCondition.spurious _); [|done]. by intros [= <-].
  - by intros [= <-].
  - apply wstep_fifo.
Qed.

Fixpoint all_pushed (p : t) (ops : list op) : list Task :=
  match ops with
  | [] => []
  | o :: ops' => pushed p o ++ from_option (fun p' => all_pushed p' ops') [] (step p o)
  end.

Lemma pool_run_inv ops : forall p p', inv p -> run p ops = Some p' ->
  inv p' /\ started p' ++ queue_ p' = started p ++ queue_ p ++ all_pushed p ops.
Proof.
  induction ops as [|o ops IH]; intros p p' Hp; cbn [run all_pushed].
  - intros [= <-]. by rewrite app_nil_r.
  - destruct (step p o) as [p1|] eqn:E; [|done]. cbn. intros Hr.
    destruct (IH p1 p' (pool_step_inv _ _ _ Hp E) Hr) as [? Hf]. split; [done|].
    rewrite Hf, app_assoc, (pool_step_fifo p o p1 E). by rewrite <- !app_assoc.
Qed.

(** While the pool runs and has threads, a queued task has a worker on its way
    to it, or about to come back for it. *)
Lemma worker_available p : inv p -> 0 < length (queue_ p) -> exited p < threadSize_ p ->
  0 < idle p + entering p + PCondition.woken (notEmpty_ p) + length (busy p).
Proof. intros [Hw _ _ Hc _ _ _] Hq Hx. unfold PCondition.served in Hc. lia. Qed.

(** ** Stopping *)

(** How many steps the workers have left at most once the pool is stopped. *)
Definition steps_left (p : t) : nat :=
  idle p + 2 * length (busy p) + 3 * entering p + 3 * PCondition.woken (notEmpty_ p).

Lemma take_loop_stopped p : running_ p = false ->
  running_ (take_loop p) = false /\ threadSize_ (take_loop p) = threadSize_ p /\
  steps_left (take_loop p) <= steps_left p + 2.
Proof.
  intros Hr. unfold take_loop, steps_left. destruct (queue_ p); [rewrite Hr|]; cbn;
    rewrite ?length_app; cbn; repeat split; try done; lia.
Qed.

Lemma wstep_stopped p o p' : running_ p = false -> wstep p o = Some p' ->
  running_ p' = false /\ threadSize_ p' = threadSize_ p /\ steps_left p' < steps_left p.
Proof.
  intros Hr. destruct o as [| | |i]; cbn [wstep].
  - unfold loop_head. destruct (idle p) eqn:E; [done|]. rewrite Hr. intros [= <-].
    unfold steps_left. cbn. rewrite E. repeat split; try done; lia.
  - destruct (entering p) as [|n] eqn:E; [done|]. intros [= <-].
    destruct (take_loop_stopped (with_workers p (idle p) n (busy p)) Hr) as (? & ? & ?).
    split; [done|]. split; [done|]. unfold steps_left in *. cbn in *. lia.
  - unfold PCondition.reacquire. destruct (PCondition.woken (notEmpty_ p)) as [|n] eqn:E; [done|].
    intros [= <-].
    destruct (take_loop_stopped (with_notEmpty p (PCondition.mk (PCondition.sleeping (notEmpty_ p)) n)) Hr)
      as (? & ? & ?). split; [done|]. split; [done|]. unfold steps_left in *. cbn in *. lia.
  - destruct (busy p !! i) as [x|] eqn:E; [|done]. intros [= <-]. cbn. split; [done|]. split; [done|].
    unfold steps_left. cbn. rewrite length_delete by (by eexists). apply lookup_lt_Some in E. lia.
Qed.

(** A stopped pool whose threads have not all returned has one that can move. *)
Lemma stopped_progress p : inv p -> running_ p = false -> joined p = false ->
  exists o p', wstep p o = Some p'.
Proof.
  intros [Hw _ _ _ _ _ Hst] Hr Hj. destruct (Hst Hr) as [Hs _]. apply Nat.eqb_neq in Hj.
  destruct (idle p) as [|n] eqn:Ei.
  - destruct (entering p) as [|n] eqn:Ee.
    + destruct (PCondition.woken (notEmpty_ p)) as [|n] eqn:Ek.
      * destruct (busy p) as [|x b] eqn:Eb; [simpl in *; lia|].
        exists (WDone 0). eexists. cbn. rewrite Eb. done.
      * exists WWake. eexists. cbn. unfold PCondition.reacquire. rewrite Ek. done.
    + exists WEnter. eexists. cbn. rewrite Ee. done.
  - exists WHead. eexists. cbn. unfold loop_head. rewrite Ei. done.
Qed.

(** After [stop] the workers come to an end: some schedule of at most
    [steps_left] steps makes them all return, and no schedule is longer. *)
Lemma stopped_terminates p : inv p -> running_ p = false ->
  (exists ws p', run p (map OWorker ws) = Some p' /\ joined p' = true) /\
  (forall ws p', run p (map OWorker ws) = Some p' -> length ws <= steps_left p).
Proof.
  remember (steps_left p) as n eqn:En. revert p En.
  induction (lt_wf n) as [n _ IH]. intros p -> Hp Hr. split.
  - destruct (joined p) eqn:Hj; [by exists [], p|].
    destruct (stopped_progress p Hp Hr Hj) as (o & p1 & E).
    destruct (wstep_stopped p o p1 Hr E) as (Hr1 & _ & Hlt).
    destruct (IH _ Hlt p1 eq_refl (wstep_inv _ _ _ Hp E) Hr1) as [(ws & p' & Hrun & Hj') _].
    exists (o :: ws), p'. cbn. rewrite E. done.
  - intros [|o ws] p'; cbn; [lia|]. destruct (wstep p o) as [p1|] eqn:E; [|done]. cbn. intros Hrun.
    destruct (wstep_stopped p o p1 Hr E) as (Hr1 & _ & Hlt).
    destruct (IH _ Hlt p1 eq_refl (wstep_inv _ _ _ Hp E) Hr1) as [_ Hmax].
    specialize (Hmax ws p' Hrun). lia.
Qed.

(** Only the workers that are past the test of [running_] still take a task. *)
Definition takers (p : t) : nat := entering p + PCondition.woken (notEmpty_ p).

Lemma take_loop_takers p : running_ p = false ->
  length (queue_ p) <= length (queue_ (take_loop p)) + 1 /\ takers (take_loop p) = takers p.
Proof.
  intros Hr. unfold take_loop, takers. destruct (queue_ p) eqn:E; [rewrite Hr|]; cbn; lia.
Qed.

Lemma wstep_takers p o p' : running_ p = false -> wstep p o = Some p' ->
  length (queue_ p) + takers p' <= length (queue_ p') + takers p.
Proof.
  intros Hr. destruct o as [| | |i]; cbn [wstep].
  - unfold loop_head. destruct (idle p); [done|]. rewrite Hr. intros [= <-]. unfold takers. cbn. lia.
  - destruct (entering p) as [|n] eqn:E; [done|]. intros [= <-].
    destruct (take_loop_takers (with_workers p (idle p) n (busy p)) Hr). unfold takers in *. cbn in *. lia.
  - unfold PCondition.reacquire. destruct (PCondition.woken (notEmpty_ p)) as [|n] eqn:E; [done|].
    intros [= <-].
    destruct (take_loop_takers (with_notEmpty p (PCondition.mk (PCondition.sleeping (notEmpty_ p)) n)) Hr).
    unfold takers in *. cbn in *. lia.
  - destruct (busy p !! i); [|done]. intros [= <-]. unfold takers. cbn. lia.
Qed.

(** The rest of the queue is dropped. *)
Lemma stopped_drops ws : forall p p', running_ p = false -> run p (map OWorker ws) = Some p' ->
  length (queue_ p) <= length (queue_ p') + takers p.
Proof.
  induction ws as [|o ws IH]; intros p p' Hr; cbn; [intros [= <-]; lia|].
  destruct (wstep p o) as [p1|] eqn:E; [|done]. cbn. intros Hrun.
  destruct (wstep_stopped p o p1 Hr E) as (Hr1 & _ & _).
  pose proof (wstep_takers p o p1 Hr E). specialize (IH p1 p' Hr1 Hrun). lia.
Qed.

End pool.
Arguments t : clear implicits.
Arguments op : clear implicits.
End ThreadPool.
