(* ===== verification/Threads.v ===== *)
(** * Threads (utils/thread: CurrentThread, Thread, ThreadLocal)

    The thread-local data of [CurrentThread], the start and join of a [Thread]
    as steps of the parent and of the child, and [ThreadLocal]. *)

From S2P Require Import Prelude CxxString Sync.

Local Open Scope Z_scope.

(** ** [CurrentThread] *)
Module CurrentThread.

Record t := mk {
  t_cachedTid : Z;
  t_tidString : bytes;
  t_tidStringLength : Z;
  t_threadName : bytes
}.

Definition init : t := mk 0 [] 6 ($"unknown").

(** [cacheTid], [gettid] being what the kernel returns. *)
Definition cacheTid (gettid : Z) (c : t) : t :=
  if t_cachedTid c =? 0 then
    let s := fmt_d false 5 gettid in
    mk gettid (snprintf 32 s) (Z.of_nat (length s)) (t_threadName c)
  else c.

Definition tid (gettid : Z) (c : t) : Z * t :=
  let c' := if t_cachedTid c =? 0 then cacheTid gettid c else c in (t_cachedTid c', c').

Definition setName (name : bytes) (c : t) : t :=
  mk (t_cachedTid c) (t_tidString c) (t_tidStringLength c) name.

Definition isMainThread (gettid getpid : Z) (c : t) : bool := fst (tid gettid c) =? getpid.

(** The [timeval] that [sleepUsec] gives to [select]. *)
Definition sleepUsec (usec : Z) : Z * Z := (Z.quot usec 1000000, Z.rem usec 1000000).

(** The cached id is the thread's, once and for all. *)
Lemma tid_cached gettid c : gettid <> 0 -> t_cachedTid c = 0 \/ t_cachedTid c = gettid ->
  fst (tid gettid c) = gettid /\ t_cachedTid (snd (tid gettid c)) = gettid /\
  tid gettid (snd (tid gettid c)) = tid gettid c.
Proof.
  intros Hg Hc. unfold tid, cacheTid.
  destruct (Z.eqb_spec (t_cachedTid c) 0) as [E|E]; cbn.
  - destruct (Z.eqb_spec gettid 0); [done|]. done.
  - destruct (Z.eqb_spec (t_cachedTid c) 0); [done|]. destruct Hc; done.
Qed.
End CurrentThread.

(** ** [Thread] *)
Module Thread.

(** What the thread's function does: returns, throws an exception that is
    reported before [abort], or throws something else. *)
Inductive outcome := Returns | Throws | ThrowsOther.

(** The child: not created, at the start of [runInThread], after it stored its
    id, in its function, at its end. *)
Inductive child := NoThread | Started | HasTid | InFunc | Finished | Crashed.
(** The parent: not in [start], past [pthread_create], waiting at the latch,
    past [start], past [join]. *)
Inductive parent := Before | Created | Waiting | After | Joined.

Record t := mk {
  started_ : bool;
  joined_ : bool;
  tid_ : Z;
  name_ : bytes;
  latch_ : CountDownLatch.t;
  child_ : child;
  childData : CurrentThread.t;
  parent_ : parent;
  aborted : bool
}.

(** [setDefaultName]: [num] is the number of threads created so far. *)
Definition setDefaultName (num : Z) (name : bytes) : bytes :=
  if bool_decide (name = []) then snprintf 32 ($"Thread" ++ to_string num) else name.

(** The constructor: the new value of the counter, which is 64 bits wide, and
    the object. *)
Definition create (numCreated : Z) (name : bytes) : Z * t :=
  let n := swrap 64 (numCreated + 1) in
  (n, mk false false 0 (setDefaultName (swrap 32 n) name) (CountDownLatch.create 1) NoThread
         CurrentThread.init Before false).

Definition set_parent (th : t) (p : parent) : t :=
  mk (started_ th) (joined_ th) (tid_ th) (name_ th) (latch_ th) (child_ th) (childData th) p (aborted th).
Definition set_child (th : t) (c : child) (d : CurrentThread.t) : t :=
  mk (started_ th) (joined_ th) (tid_ th) (name_ th) (latch_ th) c d (parent_ th) (aborted th).
Definition set_latch (th : t) (l : CountDownLatch.t) : t :=
  mk (started_ th) (joined_ th) (tid_ th) (name_ th) l (child_ th) (childData th) (parent_ th) (aborted th).
Definition set_aborted (th : t) : t :=
  mk (started_ th) (joined_ th) (tid_ th) (name_ th) (latch_ th) (child_ th) (childData th) (parent_ th) true.

(** [~Thread()]: whether the thread is detached. *)
Definition destroy_detaches (th : t) : bool := started_ th && negb (joined_ th).

(** [start] up to the latch; [rc] is the result of [pthread_create], whose
    failure is logged as fatal.  [None] is a failed [assert]. *)
Definition start (rc : Z) (th : t) : option t :=
  if started_ th then None
  else if rc =? 0 then
    Some (mk true (joined_ th) (tid_ th) (name_ th) (latch_ th) Started
             CurrentThread.init Created (aborted th))
  else Some (set_aborted th).

(** [start] after the latch: the [assert] on the id. *)
Definition start_returns (th : t) : option t := if 0 <? tid_ th then Some (set_parent th After) else None.

(** [join]: it returns when the child has ended; until then the step is not
    enabled, which [Some None] says. *)
Definition join (th : t) : option (option t) :=
  if started_ th && negb (joined_ th) then
    Some (match child_ th with
          | Finished => Some (mk (started_ th) true (tid_ th) (name_ th) (latch_ th) (child_ th) (childData th)
                                 Joined (aborted th))
          | _ => None
          end)
  else None.

(** One step of the child through [ThreadData::runInThread]. *)
Definition child_step (gettid : Z) (o : outcome) (th : t) : option t :=
  match child_ th with
  | Started =>
      let '(id, d) := CurrentThread.tid gettid (childData th) in
      Some (mk (started_ th) (joined_ th) id (name_ th) (latch_ th) HasTid d (parent_ th) (aborted th))
  | HasTid => Some (set_child (set_latch th (CountDownLatch.countDown (latch_ th))) InFunc
      (CurrentThread.setName (if bool_decide (name_ th = []) then $"flkeeperThread" else name_ th) (childData th)))
  | InFunc =>
      match o with
      | Returns => Some (set_child th Finished (CurrentThread.setName ($"finished") (childData th)))
      | Throws | ThrowsOther =>
          Some (set_aborted (set_child th Crashed (CurrentThread.setName ($"crashed") (childData th))))
      end
  | NoThread | Finished | Crashed => None
  end.

(** The parent ran the loop of the latch: it is through, or it sleeps. *)
Definition after_latch (th : t) (l : CountDownLatch.t) : option t :=
  if bool_decide (CountDownLatch.passed l = 1%nat) then start_returns (set_latch th l)
  else Some (set_parent (set_latch th l) Waiting).

(** Steps: the child's, and the parent's at the latch: entering it, waking up
    with a cause or without one. *)
Inductive op := OChild (o : outcome) | OEnter | OWake | OSpurious.

Definition step (gettid : Z) (th : t) (o : op) : option t :=
  match o with
  | OChild o => child_step gettid o th
  | OEnter =>
      match parent_ th with
      | Created => l ← CountDownLatch.step (latch_ th) CountDownLatch.OWait; after_latch th l
      | _ => None
      end
  | OWake =>
      l ← CountDownLatch.step (latch_ th) CountDownLatch.OWake; after_latch th l
  | OSpurious =>
      l ← CountDownLatch.step (latch_ th) CountDownLatch.OSpurious; Some (set_latch th l)
  end.

Fixpoint run (gettid : Z) (th : t) (ops : list op) : option t :=
  match ops with
  | [] => Some th
  | o :: ops' => th' ← step gettid th o; run gettid th' ops'
  end.

(** The threads at the latch. *)
Definition at_latch (th : t) : nat :=
  PCondition.sleeping (CountDownLatch.condition_ (latch_ th)) +
  PCondition.woken (CountDownLatch.condition_ (latch_ th)).

(** How far the child is: the latch opens only after the id was stored. *)
Definition child_inv (gettid : Z) (th : t) : Prop :=
  match child_ th with
  | Started => CountDownLatch.count_ (latch_ th) = 1
  | HasTid => CountDownLatch.count_ (latch_ th) = 1 /\ tid_ th = gettid
  | InFunc | Finished | Crashed => CountDownLatch.count_ (latch_ th) = 0 /\ tid_ th = gettid
  | NoThread => False
  end.

(** Where the parent is, and who is at the latch. *)
Definition parent_inv (th : t) : Prop :=
  match parent_ th with
  | Created => CountDownLatch.passed (latch_ th) = 0%nat /\ at_latch th = 0%nat
  | Waiting => CountDownLatch.passed (latch_ th) = 0%nat /\ at_latch th = 1%nat /\
      (CountDownLatch.count_ (latch_ th) = 0 ->
       PCondition.woken (CountDownLatch.condition_ (latch_ th)) = 1%nat)
  | After => at_latch th = 0%nat /\ CountDownLatch.count_ (latch_ th) = 0
  | _ => False
  end.

Definition inv (gettid : Z) (th : t) : Prop :=
  child_inv gettid th /\ parent_inv th /\
  (CurrentThread.t_cachedTid (childData th) = 0 \/ CurrentThread.t_cachedTid (childData th) = gettid).

Lemma thread_start_inv gettid num name th : start 0 (snd (create num name)) = Some th -> inv gettid th.
Proof. intros [= <-]. split; [done|]. split; [done|by left]. Qed.

Lemma child_count gettid th : child_inv gettid th ->
  CountDownLatch.count_ (latch_ th) = 1 \/ CountDownLatch.count_ (latch_ th) = 0 /\ tid_ th = gettid.
Proof. unfold child_inv. destruct (child_ th); naive_solver. Qed.

Lemma child_step_inv gettid o th th' : gettid <> 0 -> inv gettid th ->
  child_step gettid o th = Some th' -> inv gettid th'.
Proof.
  intros Hg (Hc & Hp & Ht). unfold child_step, child_inv in *. destruct (child_ th) eqn:Ec; try done.
  - destruct (CurrentThread.tid_cached gettid (childData th)) as (E1 & E2 & _); [done..|].
    destruct (CurrentThread.tid gettid (childData th)) as [id d]. cbn in E1, E2. intros [= <-]. subst.
    split; [done|]. split; [done|by right].
  - destruct Hc as [Hc Htid]. intros [= <-]. unfold inv, child_inv, CountDownLatch.countDown. cbn -[swrap].
    rewrite Hc. change (swrap 32 (1 - 1)) with 0. cbn. split; [done|]. split; [|done].
    unfold parent_inv, at_latch in *. cbn. destruct (parent_ th); try done; lia.
  - destruct o; intros [= <-]; (split; [done|]; split; [done|done]).
Qed.

(** Running the latch's loop, by a parent that is not counted at the latch. *)
Lemma after_latch_inv gettid th c th' : 0 < gettid ->
  child_inv gettid th -> CountDownLatch.passed (latch_ th) = 0%nat ->
  (PCondition.sleeping c + PCondition.woken c = 0)%nat ->
  (CurrentThread.t_cachedTid (childData th) = 0 \/ CurrentThread.t_cachedTid (childData th) = gettid) ->
  after_latch th (CountDownLatch.wait_loop
    (CountDownLatch.mk (CountDownLatch.count_ (latch_ th)) c (CountDownLatch.passed (latch_ th)))) = Some th' ->
  inv gettid th' /\ (CountDownLatch.count_ (latch_ th) = 0 -> parent_ th' = After).
Proof.
  intros Hg Hc Hp0 Hn Ht. unfold after_latch, CountDownLatch.wait_loop. cbn. rewrite Hp0.
  destruct (Z.ltb_spec 0 (CountDownLatch.count_ (latch_ th))) as [Hpos|Hz]; cbn.
  - rewrite bool_decide_false by done. intros [= <-]. split; [|intros; lia].
    split; [done|]. split; [|done]. unfold parent_inv, at_latch. cbn. repeat split; lia.
  - rewrite bool_decide_true by done. unfold start_returns. cbn.
    destruct (child_count _ _ Hc) as [?|[Hcz Htid]]; [lia|]. rewrite Htid.
    destruct (Z.ltb_spec 0 gettid); [|lia]. intros [= <-]. split; [|done].
    split; [done|]. split; [|done]. unfold parent_inv, at_latch. cbn. done.
Qed.

Lemma after_latch_some gettid th c : 0 < gettid ->
  child_inv gettid th -> CountDownLatch.passed (latch_ th) = 0%nat ->
  exists th', after_latch th (CountDownLatch.wait_loop
    (CountDownLatch.mk (CountDownLatch.count_ (latch_ th)) c (CountDownLatch.passed (latch_ th)))) = Some th'.
Proof.
  intros Hg Hc Hp0. unfold after_latch, CountDownLatch.wait_loop. cbn. rewrite Hp0.
  destruct (Z.ltb_spec 0 (CountDownLatch.count_ (latch_ th))) as [Hpos|Hz]; cbn.
  - rewrite bool_decide_false by done. by eexists.
  - rewrite bool_decide_true by done. unfold start_returns. cbn.
    destruct (child_count _ _ Hc) as [?|[Hcz Htid]]; [lia|]. rewrite Htid.
    destruct (Z.ltb_spec 0 gettid); [by eexists|lia].
Qed.

Lemma thread_step_inv gettid th o th' : 0 < gettid -> inv gettid th -> step gettid th o = Some th' -> inv gettid th'.
Proof.
  intros Hg Hi. pose proof Hi as (Hc & Hp & Ht). destruct o as [o| | |]; cbn [step].
  - apply child_step_inv; [lia|done].
  - unfold parent_inv in Hp. destruct (parent_ th); try done. destruct Hp as [Hp0 Hn]. cbn.
    intros E. eapply (after_latch_inv gettid th (CountDownLatch.condition_ (latch_ th))); try done;
      by destruct (latch_ th).
  - cbn. unfold PCondition.reacquire.
    destruct (PCondition.woken (CountDownLatch.condition_ (latch_ th))) as [|n] eqn:Ek; [done|]. cbn.
    intros E. unfold parent_inv, at_latch in Hp. rewrite Ek in Hp.
    destruct (parent_ th); try done; try lia. destruct Hp as (Hp0 & Hn & _).
    eapply after_latch_inv; [done..| |done|exact E]. cbn. lia.
  - cbn. unfold PCondition.spurious.
    destruct (PCondition.sleeping (CountDownLatch.condition_ (latch_ th))) as [|n] eqn:Es; [done|]. cbn.
    intros [= <-]. split; [done|]. split; [|done].
    unfold parent_inv, at_latch in *. cbn. destruct (parent_ th); try done; lia.
Qed.

Lemma thread_run_inv gettid ops : forall th th', 0 < gettid -> inv gettid th -> run gettid th ops = Some th' ->
  inv gettid th'.
Proof.
  induction ops as [|o ops IH]; intros th th' Hg Hi; cbn; [by intros [= <-]|].
  destruct (step gettid th o) as [th1|] eqn:E; [|done]. apply IH; [done|]. by eapply thread_step_inv.
Qed.

(** Once the child has counted down, the parent's next step takes it out of
    [start]. *)
Lemma parent_leaves gettid th : 0 < gettid -> inv gettid th ->
  parent_ th = Created \/ parent_ th = Waiting -> CountDownLatch.count_ (latch_ th) = 0 ->
  exists o th', step gettid th o = Some th' /\ parent_ th' = After.
Proof.
  intros Hg (Hc & Hp & Ht) Hpar Hz. unfold parent_inv in Hp. destruct Hpar as [E|E]; rewrite E in Hp.
  - destruct Hp as [Hp0 Hn].
    destruct (after_latch_some gettid th (CountDownLatch.condition_ (latch_ th)) Hg Hc Hp0) as [th' Ha].
    exists OEnter, th'. cbn. rewrite E. split; [by destruct (latch_ th)|].
    by apply (after_latch_inv gettid th (CountDownLatch.condition_ (latch_ th)) th').
  - destruct Hp as (Hp0 & Hn & Hk). specialize (Hk Hz). unfold at_latch in Hn.
    set (c := PCondition.mk (PCondition.sleeping (CountDownLatch.condition_ (latch_ th))) 0).
    destruct (after_latch_some gettid th c Hg Hc Hp0) as [th' Ha].
    exists OWake, th'. cbn. unfold PCondition.reacquire. rewrite Hk. cbn. split; [exact Ha|].
    apply (after_latch_inv gettid th c th'); try done. cbn. lia.
Qed.
End Thread.

(** ** [ThreadLocal] *)
Module ThreadLocal.
Section local.
Context {T : Type} (new : T).

(** The values of the threads that have one. *)
Definition create : gmap Z T := ∅.

(** [value()] in thread [tid]. *)
Definition value (m : gmap Z T) (tid : Z) : T * gmap Z T :=
  match m !! tid with
  | Some v => (v, m)
  | None => (new, <[tid := new]> m)
  end.

(** An assignment through the returned reference. *)
Definition set_value (m : gmap Z T) (tid : Z) (v : T) : gmap Z T := <[tid := v]> (snd (value m tid)).

(** A thread reads what it last wrote, whatever the others do. *)
Lemma value_set m tid v : fst (value (set_value m tid v) tid) = v.
Proof. unfold value, set_value. by rewrite lookup_insert_eq. Qed.

Lemma value_other m tid tid' v : tid <> tid' -> fst (value (set_value m tid v) tid') = fst (value m tid').
Proof.
  intros Hn. unfold set_value, value. rewrite lookup_insert_ne by done.
  destruct (m !! tid); cbn; [by destruct (m !! tid')|].
  rewrite lookup_insert_ne by done. by destruct (m !! tid').
Qed.
End local.
End ThreadLocal.

(** * [EventLoopThread] (network/EventLoopThread.hpp, .cpp)

    A thread that creates an event loop on its stack, publishes a pointer to it
    and runs it.  The owner waits for the pointer, and its destructor tells the
    loop to quit.  The steps of the owner, of the thread, and of anyone else
    who tells the loop to quit are interleaved. *)

Module EventLoopThread.

(** The thread: not started, before the pointer is published, in [loop.loop()],
    back from it, returned (the loop is destroyed). *)
Inductive thread := TNone | TCreating | TLooping | TReturned | TDone.
(** The owner: before and in [startLoop], after it, in the destructor after the
    test of the pointer, in [join], at the end. *)
Inductive owner := OBefore | OWaiting | OHasLoop | OTested | OJoining | OEnd.

(** [loop_]: whether the pointer is set.  [quit]: the flag of the loop. *)
Record t := mk {
  loop_ : bool;
  exiting_ : bool;
  quit : bool;
  hasCallback : bool;
  callbacks : nat;           (* how often the callback ran *)
  thread_ : thread;
  owner_ : owner
}.

Definition create (callback : bool) : t := mk false false false callback 0 TNone OBefore.

(** The loop object lives on the thread's stack. *)
Definition alive (s : t) : bool :=
  match thread_ s with TLooping | TReturned => true | _ => false end.

Inductive op := OwnerStep | ThreadStep | OtherQuit.

(** [startLoop]: the start of the thread, the wait for the pointer, and the
    destructor from its test of the pointer to [join].  [Some None]: the step
    has to wait.  [None]: a call through a null pointer or on a dead loop. *)
Definition owner_step (s : t) : option (option t) :=
  match owner_ s with
  | OBefore => Some (Some (mk (loop_ s) (exiting_ s) (quit s) (hasCallback s) (callbacks s) TCreating OWaiting))
  | OWaiting =>
      Some (if loop_ s
            then Some (mk (loop_ s) (exiting_ s) (quit s) (hasCallback s) (callbacks s) (thread_ s) OHasLoop)
            else None)
  | OHasLoop =>
      Some (Some (mk (loop_ s) true (quit s) (hasCallback s) (callbacks s) (thread_ s)
                     (if loop_ s then OTested else OEnd)))
  | OTested =>
      if loop_ s && alive s
      then Some (Some (mk (loop_ s) (exiting_ s) true (hasCallback s) (callbacks s) (thread_ s) OJoining))
      else None
  | OJoining =>
      Some (match thread_ s with
            | TDone => Some (mk (loop_ s) (exiting_ s) (quit s) (hasCallback s) (callbacks s) (thread_ s) OEnd)
            | _ => None
            end)
  | OEnd => Some None
  end.

(** [threadFunc]: the callback and the publication; the loop, which returns
    once it is told to quit; the clearing of the pointer and the end. *)
Definition thread_step (s : t) : option t :=
  match thread_ s with
  | TNone | TDone => None
  | TCreating =>
      Some (mk true (exiting_ s) (quit s) (hasCallback s)
               (if hasCallback s then S (callbacks s) else callbacks s) TLooping (owner_ s))
  | TLooping =>
      if quit s then Some (mk (loop_ s) (exiting_ s) (quit s) (hasCallback s) (callbacks s) TReturned (owner_ s))
      else None
  | TReturned => Some (mk false (exiting_ s) (quit s) (hasCallback s) (callbacks s) TDone (owner_ s))
  end.

(** Somebody who got the pointer from [startLoop] calls [quit()]. *)
Definition other_quit (s : t) : option (option t) :=
  match owner_ s with
  | OBefore | OWaiting => Some None
  | _ => if alive s
         then Some (Some (mk (loop_ s) (exiting_ s) true (hasCallback s) (callbacks s) (thread_ s) (owner_ s)))
         else None
  end.

Definition step (s : t) (o : op) : option (option t) :=
  match o with
  | OwnerStep => owner_step s
  | ThreadStep => Some (thread_step s)
  | OtherQuit => other_quit s
  end.

(** A schedule; a step that has to wait leaves the state as it is. *)
Fixpoint run (s : t) (ops : list op) : option t :=
  match ops with
  | [] => Some s
  | o :: ops' => r ← step s o; run (default s r) ops'
  end.

(** Without outside interference the loop is there from [startLoop] until the
    destructor quits it. *)
Definition inv (s : t) : Prop :=
  match owner_ s with
  | OBefore => thread_ s = TNone /\ loop_ s = false /\ quit s = false
  | OWaiting => (thread_ s = TCreating /\ loop_ s = false \/ thread_ s = TLooping /\ loop_ s = true) /\
      quit s = false
  | OHasLoop | OTested => thread_ s = TLooping /\ loop_ s = true /\ quit s = false
  | OJoining => quit s = true /\ (thread_ s = TLooping \/ thread_ s = TReturned \/ thread_ s = TDone)
  | OEnd => thread_ s = TDone
  end.

Lemma loopthread_step_inv s o : inv s -> o <> OtherQuit -> exists r, step s o = Some r /\ inv (default s r).
Proof.
  destruct s as [l e q h n th ow]. intros Hi Ho. destruct o; [| |done];
    destruct l, q, th, ow; cbn in *; try (exfalso; naive_solver);
    (eexists; split; [reflexivity|cbn; naive_solver]).
Qed.

Lemma loopthread_run_inv s ops : inv s -> OtherQuit ∉ ops -> exists s', run s ops = Some s' /\ inv s'.
Proof.
  revert s. induction ops as [|o ops IH]; intros s Hi Hn; cbn; [by exists s|].
  apply not_elem_of_cons in Hn as [Ho Hn].
  destruct (loopthread_step_inv s o Hi) as (r & -> & Hi'); [done|]. cbn. by apply IH.
Qed.

(** From anywhere the owner gets to the end, the thread joined. *)
Lemma owner_finishes cb :
  exists s', run (create cb) [OwnerStep; ThreadStep; OwnerStep; OwnerStep; OwnerStep; ThreadStep; ThreadStep; OwnerStep]
             = Some s' /\ owner_ s' = OEnd /\ thread_ s' = TDone.
Proof. eexists. split; [reflexivity|]. done. Qed.

(** When somebody else quits the loop, the thread can end between the
    destructor's test of the pointer and its use. *)
Lemma quit_race cb :
  run (create cb) [OwnerStep; ThreadStep; OwnerStep; OtherQuit; OwnerStep; ThreadStep; ThreadStep; OwnerStep] = None.
Proof. done. Qed.
End EventLoopThread.
