(* ===== verification/LinkedBuffer.v ===== *)
(** * [LinkedBuffer] (inc/network/LinkedBuffer.hpp)

    The buffer as a list of blocks.  A pointer into it is the index of its
    block and an offset in the block's memory.  Fresh memory is not
    initialised; here it is zero, and the readable part of a block never
    contains such bytes while the invariant holds.  A failed [assert] and
    undefined behaviour are [None]. *)

From S2P Require Import Prelude CxxString ByteBuffer.

Module LinkedBuffer.

Definition LINKED_BLOCK_SIZE : nat := 4096.
Definition LINKED_PREPEND_SIZE : nat := 8.

Module Block.
Record t := mk {
  data : bytes;
  prependable : nat;
  readable : nat;
  writable : nat;
  capacity : nat
}.

(** [Block(cap)]. *)
Definition create (cap : nat) : t :=
  mk (replicate cap (chr 0)) LINKED_PREPEND_SIZE 0 (cap - LINKED_PREPEND_SIZE) cap.

(** The offsets of [peek()] and [beginWrite()]. *)
Definition peek (b : t) : nat := prependable b.
Definition beginWrite (b : t) : nat := prependable b + readable b.

(** The readable bytes. *)
Definition content (b : t) : bytes := take (readable b) (drop (peek b) (data b)).

(** [memcpy] of the readable bytes to new memory of [cap] bytes. *)
Definition reallocate (b : t) (cap : nat) : bytes :=
  Buffer.overwrite (replicate cap (chr 0)) (prependable b) (content b).

Definition shrink (b : t) : t :=
  if prependable b + readable b + writable b =? capacity b then
    let new_cap := prependable b + readable b + 1 in
    mk (reallocate b new_cap) (prependable b) (readable b) (new_cap - prependable b - readable b) new_cap
  else b.

(** [memcpy(beginWrite(), d, len)] and the counters. *)
Definition write (b : t) (d : bytes) : t :=
  mk (Buffer.overwrite (data b) (beginWrite b) d) (prependable b) (readable b + length d)
     (writable b - length d) (capacity b).

(** The read position moves over [n] bytes. *)
Definition consume (b : t) (n : nat) : t :=
  mk (data b) (prependable b + n) (readable b - n) (writable b) (capacity b).

Definition wf (b : t) : Prop :=
  length (data b) = capacity b /\ prependable b + readable b + writable b = capacity b.

Lemma block_create_wf cap : LINKED_PREPEND_SIZE <= cap -> wf (create cap) /\ content (create cap) = [].
Proof.
  unfold LINKED_PREPEND_SIZE. intros. split; [|done]. unfold wf, create, LINKED_PREPEND_SIZE. cbn.
  rewrite length_replicate. lia.
Qed.

Lemma block_content_length b : wf b -> length (content b) = readable b.
Proof. intros [? ?]. unfold content, peek. rewrite length_take, length_drop. lia. Qed.

Lemma write_spec b d : wf b -> length d <= writable b ->
  wf (write b d) /\ content (write b d) = content b ++ d.
Proof.
  intros [Hl Hs] Hd. split.
  - unfold wf, write, beginWrite. cbn. rewrite Buffer.length_overwrite by lia. lia.
  - unfold content, write, peek, beginWrite. cbn.
    replace (readable b + length d) with (prependable b + readable b + length d - prependable b) by lia.
    rewrite Buffer.window_overwrite by lia. f_equal. f_equal. lia.
Qed.

Lemma consume_spec b n : wf b -> n <= readable b ->
  wf (consume b n) /\ content (consume b n) = drop n (content b).
Proof.
  intros [Hl Hs] Hn. split; [unfold wf, consume; cbn; lia|].
  unfold content, consume, peek. cbn. rewrite skipn_firstn_comm, drop_drop. done.
Qed.

Lemma reallocate_spec b cap : wf b -> prependable b + readable b <= cap ->
  length (reallocate b cap) = cap /\
  take (readable b) (drop (prependable b) (reallocate b cap)) = content b.
Proof.
  intros Hb Hc. pose proof (block_content_length b Hb) as Hl. unfold reallocate.
  rewrite Buffer.length_overwrite by (rewrite length_replicate; lia). rewrite length_replicate.
  split; [done|].
  replace (readable b) with (prependable b + length (content b) - prependable b) at 1 by lia.
  rewrite Buffer.window_overwrite by (rewrite ?length_replicate; lia). by rewrite Nat.sub_diag.
Qed.

Lemma block_shrink_spec b : wf b ->
  wf (shrink b) /\ content (shrink b) = content b /\ readable (shrink b) = readable b.
Proof.
  intros Hb. pose proof Hb as [Hl Hs]. unfold shrink. destruct (Nat.eqb_spec (prependable b + readable b + writable b) (capacity b)); [|done].
  destruct (reallocate_spec b (prependable b + readable b + 1) Hb ltac:(lia)) as [Hr Hc].
  split; [|split; [|done]].
  - unfold wf. cbn. rewrite Hr. lia.
  - unfold content at 1. cbn. exact Hc.
Qed.
End Block.

(** ** The buffer *)

Record t := mk { blocks_ : list Block.t; total_readable_ : nat }.

Definition create : t := mk [] 0.

Definition readableBytes (b : t) : nat := total_readable_ b.
Definition writableBytes_of (bs : list Block.t) : nat := sum_list_with Block.writable bs.
Definition writableBytes (b : t) : nat := writableBytes_of (blocks_ b).
Definition prependableBytes (b : t) : nat := sum_list_with Block.prependable (blocks_ b).

Definition kCRLF : bytes := [chr 13; chr 10].

(** [findCRLF()]: every block is searched on its own. *)
Fixpoint findCRLF_loop (i remaining : nat) (bs : list Block.t) : option (nat * nat) :=
  match bs with
  | [] => None
  | b :: bs' =>
      if Block.readable b =? 0 then findCRLF_loop (S i) remaining bs'
      else
        match search kCRLF (Block.content b) with
        | Some k => Some (i, Block.peek b + k)
        | None =>
            let remaining := remaining - Block.readable b in
            if remaining <? 2 then None else findCRLF_loop (S i) remaining bs'
        end
  end.
Definition findCRLF (b : t) : option (nat * nat) := findCRLF_loop 0 (total_readable_ b) (blocks_ b).

(** The rest of the readable part of a block from an offset in it. *)
Definition rest_of_block (b : Block.t) (off : nat) : option bytes :=
  if (Block.peek b <=? off) && (off <? Block.beginWrite b)
  then Some (take (Block.beginWrite b - off) (drop off (Block.data b))) else None.

(** [findCRLF(start)], in the block of [start] only. *)
Definition findCRLF_from (b : t) (start : nat * nat) : option (nat * nat) :=
  block ← blocks_ b !! fst start;
  rest ← rest_of_block block (snd start);
  k ← search kCRLF rest;
  Some (fst start, snd start + k).

Fixpoint findEOL_loop (i : nat) (bs : list Block.t) : option (nat * nat) :=
  match bs with
  | [] => None
  | b :: bs' =>
      if Block.readable b =? 0 then findEOL_loop (S i) bs'
      else
        match search [chr 10] (Block.content b) with
        | Some k => Some (i, Block.peek b + k)
        | None => findEOL_loop (S i) bs'
        end
  end.
Definition findEOL (b : t) : option (nat * nat) := findEOL_loop 0 (blocks_ b).

Definition findEOL_from (b : t) (start : nat * nat) : option (nat * nat) :=
  block ← blocks_ b !! fst start;
  rest ← rest_of_block block (snd start);
  k ← search [chr 10] rest;
  Some (fst start, snd start + k).

(** The loop of [retrieve]: the blocks and the counter that are left. *)
Fixpoint retrieve_loop (remaining : nat) (bs : list Block.t) (total : nat) : t :=
  match bs with
  | [] => mk [] total
  | front :: bs' =>
      if 0 <? remaining then
        if Block.readable front <=? remaining then
          retrieve_loop (remaining - Block.readable front) bs' (total - Block.readable front)
        else mk (Block.consume front remaining :: bs') (total - remaining)
      else mk bs total
  end.

Definition retrieve (b : t) (len : nat) : option t :=
  if len <=? total_readable_ b then Some (retrieve_loop len (blocks_ b) (total_readable_ b)) else None.

Definition retrieveAll (b : t) : t := mk [] 0.

(** [retrieveUntil(end)]: blocks that do not contain [end] are compared with it
    by address; [above i] says that [end] lies above block [i].  A block below
    [end] is erased through the iterator that the loop then advances, which is
    undefined. *)
Fixpoint retrieveUntil_loop (i : nat) (bs : list Block.t) (end_ : nat * nat) (above : nat -> bool)
    (b : t) : option t :=
  match bs with
  | [] => Some b
  | block :: bs' =>
      if (i =? fst end_) && (Block.peek block <=? snd end_) && (snd end_ <=? Block.beginWrite block)
      then retrieve b (snd end_ - Block.peek block)
      else if above i then None
      else retrieveUntil_loop (S i) bs' end_ above b
  end.
Definition retrieveUntil (b : t) (end_ : nat * nat) (above : nat -> bool) : option t :=
  retrieveUntil_loop 0 (blocks_ b) end_ above b.

(** The loop of [retrieveAsString]. *)
Fixpoint retrieveAsString_loop (remaining : nat) (bs : list Block.t) (total : nat) (result : bytes) : bytes * t :=
  match bs with
  | [] => (result, mk [] total)
  | front :: bs' =>
      if 0 <? remaining then
        let copy_len := Nat.min remaining (Block.readable front) in
        let result := result ++ take copy_len (drop (Block.peek front) (Block.data front)) in
        let front' := Block.consume front copy_len in
        let remaining := remaining - copy_len in
        let total := total - copy_len in
        if Block.readable front' =? 0 then retrieveAsString_loop remaining bs' total result
        else (result, mk (front' :: bs') total)
      else (result, mk bs total)
  end.

Definition retrieveAsString (b : t) (len : nat) : option (bytes * t) :=
  if len <=? total_readable_ b
  then Some (retrieveAsString_loop len (blocks_ b) (total_readable_ b) []) else None.

Definition retrieveAllAsString (b : t) : option (bytes * t) := retrieveAsString b (total_readable_ b).

(** One turn of the loop of [append]: the last block, a new one if there is
    none or it is full, takes what it can. *)
Definition append_turn (b : t) (d : bytes) : t * bytes :=
  let fresh := Block.create (Nat.max LINKED_BLOCK_SIZE (length d)) in
  let '(front, back) :=
    match last (blocks_ b) with
    | Some back => if Block.writable back =? 0 then (blocks_ b, fresh)
                   else (take (length (blocks_ b) - 1) (blocks_ b), back)
    | None => (blocks_ b, fresh)
    end in
  let write_len := Nat.min (length d) (Block.writable back) in
  (mk (front ++ [Block.write back (take write_len d)]) (total_readable_ b + write_len), drop write_len d).

(** Every turn takes at least one byte. *)
Fixpoint append_loop (fuel : nat) (b : t) (d : bytes) : option t :=
  match d with
  | [] => Some b
  | _ =>
      match fuel with
      | O => None
      | S fuel' => let '(b', d') := append_turn b d in append_loop fuel' b' d'
      end
  end.
Definition append (b : t) (d : bytes) : option t := append_loop (length d) b d.

(** [prepend]: the first block's read position moves back. *)
Definition prepend (b : t) (d : bytes) : option t :=
  if length d =? 0 then Some b
  else
    match blocks_ b with
    | front :: bs =>
        if length d <=? Block.prependable front then
          let p := Block.prependable front - length d in
          Some (mk (Block.mk (Buffer.overwrite (Block.data front) p d) p (Block.readable front)
                             (Block.writable front) (Block.capacity front) :: bs) (total_readable_ b))
        else None
    | [] => None
    end.

(** [shrink(reserve)]: empty blocks go, the others shrink, and the last one
    grows when that leaves less than [reserve] writable bytes. *)
Definition shrink (b : t) (reserve : nat) : t :=
  let bs := map Block.shrink (filter (fun k => Block.readable k <> 0) (blocks_ b)) in
  let bs :=
    match last bs with
    | Some back =>
        if writableBytes_of bs <? reserve then
          let need := reserve - writableBytes_of bs in
          let cap := Block.capacity back + need in
          take (length bs - 1) bs ++
            [Block.mk (Block.reallocate back cap) (Block.prependable back) (Block.readable back)
                      (Block.writable back + need) cap]
        else bs
    | None => bs
    end in
  mk bs (total_readable_ b).

(** [writeFd] on the outcome of [writev]: the return value, [*savedErrno] when
    it is set, and the buffer; and the bytes [writev] is given. *)
Definition gathered (b : t) : bytes := mjoin (map Block.content (blocks_ b)).
Definition writeFd (b : t) (outcome : Z + nat) : option (Z * option Z * t) :=
  if total_readable_ b =? 0 then Some (0%Z, None, b)
  else
    match outcome with
    | inl errno => Some ((-1)%Z, Some errno, b)
    | inr n =>
        b' ← (if 0 <? n then retrieve b n else Some b);
        Some (Z.of_nat n, None, b')
    end.
(** [readv] fills the writable parts of the blocks in order; the counters do
    not change. *)
Fixpoint scatter (bs : list Block.t) (d : bytes) : list Block.t :=
  match bs with
  | [] => []
  | b :: bs' =>
      let k := Nat.min (length d) (Block.writable b) in
      Block.mk (Buffer.overwrite (Block.data b) (Block.beginWrite b) (take k d))
               (Block.prependable b) (Block.readable b) (Block.writable b) (Block.capacity b)
        :: scatter bs' (drop k d)
  end.

(** The loop that moves the counters: [i] counts the regions given to [readv],
    [it] is the position of the iterator, which is advanced by [i] each time.
    Going past the end of the list, or reading there, is undefined. *)
Fixpoint count_loop (regions i it bytes_read : nat) (bs : list Block.t) : option (list Block.t) :=
  match regions with
  | O => Some bs
  | S regions' =>
      if 0 <? bytes_read then
        let it := it + i in
        if it <=? length bs then
          let idx := if i <? length bs - 1 then it else length bs - 1 in
          block ← bs !! idx;
          let write_len := Nat.min bytes_read (Block.writable block) in
          let block' := Block.mk (Block.data block) (Block.prependable block) (Block.readable block + write_len)
                          (Block.writable block - write_len) (Block.capacity block) in
          count_loop regions' (S i) it (bytes_read - write_len) (<[idx := block']> bs)
        else None
      else Some bs
  end.

Definition regions_of (bs : list Block.t) : nat := length (filter (fun k => Block.writable k <> 0) bs).

(** [readFd] on the outcome of [readv]: an [errno] or the bytes it stored. *)
Definition readFd (b : t) (outcome : Z + bytes) : option (Z * option Z * t) :=
  match outcome with
  | inl errno => Some ((-1)%Z, Some errno, b)
  | inr [] => Some (0%Z, None, b)
  | inr d =>
      let bs := blocks_ b ++ [Block.create LINKED_BLOCK_SIZE] in
      bs' ← count_loop (regions_of bs) 0 0 (length d) (scatter bs d);
      let bs'' :=
        match last bs' with
        | Some new_block =>
            if Block.writable new_block =? LINKED_BLOCK_SIZE - LINKED_PREPEND_SIZE
            then take (length bs' - 1) bs' else bs'
        | None => bs'
        end in
      Some (Z.of_nat (length d), None, mk bs'' (total_readable_ b + length d))
  end.

(** What [readv] has room for. *)
Definition readv_room (b : t) : nat := writableBytes b + (LINKED_BLOCK_SIZE - LINKED_PREPEND_SIZE).

(** ** Invariant *)

(** The counter is the number of readable bytes. *)
Definition wf (b : t) : Prop :=
  Forall Block.wf (blocks_ b) /\ total_readable_ b = sum_list_with Block.readable (blocks_ b).

(** [b] holds exactly the bytes [c]. *)
Definition holds (b : t) (c : bytes) : Prop := wf b /\ gathered b = c.

Definition contents (bs : list Block.t) : bytes := mjoin (map Block.content bs).

Lemma linked_contents_cons b bs : contents (b :: bs) = Block.content b ++ contents bs.
Proof. done. Qed.

Lemma linked_contents_app bs bs' : contents (bs ++ bs') = contents bs ++ contents bs'.
Proof. unfold contents. by rewrite map_app, join_app. Qed.

Lemma sum_app bs bs' : sum_list_with Block.readable (bs ++ bs') =
  sum_list_with Block.readable bs + sum_list_with Block.readable bs'.
Proof. induction bs; simpl; lia. Qed.

Lemma contents_length bs : Forall Block.wf bs -> length (contents bs) = sum_list_with Block.readable bs.
Proof.
  induction 1 as [|b bs Hb _ IH]; [done|]. rewrite linked_contents_cons, length_app, IH, Block.block_content_length by done.
  done.
Qed.

Lemma holds_length b c : holds b c -> length c = total_readable_ b.
Proof. intros [[Hw ->] <-]. by apply contents_length. Qed.

#[local] Arguments contents : simpl never.

Lemma create_holds : holds create [].
Proof. split; [split; [constructor|done]|done]. Qed.

(** ** Reading *)

Lemma retrieve_loop_spec bs : forall remaining, Forall Block.wf bs ->
  remaining <= sum_list_with Block.readable bs ->
  holds (retrieve_loop remaining bs (sum_list_with Block.readable bs)) (drop remaining (contents bs)).
Proof.
  induction bs as [|b bs IH]; intros remaining Hw Hr; cbn [retrieve_loop].
  - simpl in *. replace remaining with 0 by lia. apply create_holds.
  - apply Forall_cons in Hw as [Hb Hw]. pose proof (Block.block_content_length b Hb) as Hl.
    rewrite linked_contents_cons. simpl in *. destruct (Nat.ltb_spec 0 remaining) as [Hpos|Hz].
    + destruct (Nat.leb_spec (Block.readable b) remaining) as [Hle|Hgt].
      * replace (Block.readable b + sum_list_with Block.readable bs - Block.readable b)
          with (sum_list_with Block.readable bs) by lia.
        rewrite drop_app_ge, Hl by lia. apply IH; [done|lia].
      * destruct (Block.consume_spec b remaining Hb ltac:(lia)) as [Hb' Hc'].
        split; [split; [by constructor|cbn; lia]|].
        change (contents (Block.consume b remaining :: bs) = drop remaining (Block.content b ++ contents bs)).
        rewrite linked_contents_cons, Hc', drop_app_le by lia. done.
    + replace remaining with 0 by lia. split; [split; [by constructor|done]|done].
Qed.

Lemma linked_retrieve_spec b c len : holds b c ->
  if len <=? length c then exists b', retrieve b len = Some b' /\ holds b' (drop len c)
  else retrieve b len = None.
Proof.
  intros Hb. pose proof (holds_length b c Hb) as ->. destruct Hb as [[Hw Ht] <-].
  unfold retrieve. destruct (Nat.leb_spec len (total_readable_ b)) as [Hle|]; [|done].
  eexists. split; [done|]. rewrite Ht in *. by apply retrieve_loop_spec.
Qed.

Lemma retrieveAsString_loop_spec bs : forall remaining result, Forall Block.wf bs ->
  remaining <= sum_list_with Block.readable bs ->
  exists b', retrieveAsString_loop remaining bs (sum_list_with Block.readable bs) result =
    (result ++ take remaining (contents bs), b') /\ holds b' (drop remaining (contents bs)).
Proof.
  induction bs as [|b bs IH]; intros remaining result Hw Hr; cbn [retrieveAsString_loop].
  - simpl in *. replace remaining with 0 by lia. exists create. rewrite app_nil_r.
    split; [done|apply create_holds].
  - pose proof Hw as [Hb Hw']%Forall_cons. pose proof (Block.block_content_length b Hb) as Hl.
    rewrite linked_contents_cons. destruct (Nat.ltb_spec 0 remaining) as [Hpos|Hz]; cycle 1.
    { replace remaining with 0 by lia. eexists. rewrite app_nil_r. split; [done|].
      split; [by split|done]. }
    set (k := Nat.min remaining (Block.readable b)).
    assert (take k (drop (Block.peek b) (Block.data b)) = take remaining (Block.content b)) as ->.
    { unfold Block.content. by rewrite take_take. }
    cbn [sum_list_with] in Hr |- *.
    destruct (Block.consume_spec b k Hb ltac:(lia)) as [Hb' Hc'].
    destruct (Nat.eqb_spec (Block.readable (Block.consume b k)) 0) as [E|E]; cbn [Block.consume Block.readable] in E.
    + replace (Block.readable b + sum_list_with Block.readable bs - k)
        with (sum_list_with Block.readable bs) by lia.
      destruct (IH (remaining - k) (result ++ take remaining (Block.content b)) Hw' ltac:(lia)) as (b' & -> & Hb2).
      exists b'. rewrite take_app, <- app_assoc, drop_app_ge, Hl by lia.
      replace (remaining - Block.readable b) with (remaining - k) by lia. done.
    + eexists. split; [rewrite take_app_le by lia; reflexivity|].
      split; [split; [by constructor|cbn; lia]|].
      change (contents (Block.consume b k :: bs) = drop remaining (Block.content b ++ contents bs)).
      rewrite linked_contents_cons, Hc', drop_app_le by lia. f_equal. f_equal. lia.
Qed.

Lemma linked_retrieveAsString_spec b c len : holds b c ->
  if len <=? length c then exists b', retrieveAsString b len = Some (take len c, b') /\ holds b' (drop len c)
  else retrieveAsString b len = None.
Proof.
  intros Hb. pose proof (holds_length b c Hb) as ->. destruct Hb as [[Hw Ht] <-].
  unfold retrieveAsString. destruct (Nat.leb_spec len (total_readable_ b)) as [Hle|]; [|done].
  rewrite Ht in *. destruct (retrieveAsString_loop_spec (blocks_ b) len [] Hw Hle) as (b' & -> & ?).
  by exists b'.
Qed.

(** ** Writing *)

Lemma append_turn_spec b c d : holds b c -> d <> [] ->
  exists b' k, append_turn b d = (b', drop k d) /\ holds b' (c ++ take k d) /\ 0 < k <= length d.
Proof.
  intros [[Hw Ht] <-] Hd. unfold append_turn.
  set (fresh := Block.create (Nat.max LINKED_BLOCK_SIZE (length d))).
  assert (0 < length d) as Hpos by (destruct d; [done|simpl; lia]).
  assert (Block.wf fresh /\ Block.content fresh = [] /\ 0 < Block.writable fresh) as (Hf1 & Hf2 & Hf3).
  { destruct (Block.block_create_wf (Nat.max LINKED_BLOCK_SIZE (length d))).
    - unfold LINKED_PREPEND_SIZE, LINKED_BLOCK_SIZE. lia.
    - split; [done|]. split; [done|]. unfold fresh, Block.create, LINKED_PREPEND_SIZE, LINKED_BLOCK_SIZE.
      cbn [Block.writable]. lia. }
  assert (exists front back,
    (match last (blocks_ b) with
     | Some back => if Block.writable back =? 0 then (blocks_ b, fresh)
                    else (take (length (blocks_ b) - 1) (blocks_ b), back)
     | None => (blocks_ b, fresh)
     end) = (front, back) /\ Forall Block.wf front /\ Block.wf back /\ 0 < Block.writable back /\
    contents front ++ Block.content back = contents (blocks_ b)) as (front & back & -> & Hwf & Hwb & Hpb & Hc).
  { destruct (last (blocks_ b)) as [back|] eqn:El.
    - destruct (Nat.eqb_spec (Block.writable back) 0).
      + exists (blocks_ b), fresh. rewrite Hf2, app_nil_r. done.
      + apply last_Some in El as [front Eb]. exists front, back. rewrite Eb, length_app in *. simpl.
        apply Forall_app in Hw as [? [? _]%Forall_cons]. rewrite Nat.add_sub, take_app_length.
        split; [done|]. split; [done|]. split; [done|]. split; [lia|].
        rewrite linked_contents_app, linked_contents_cons. by rewrite app_nil_r.
    - exists (blocks_ b), fresh. rewrite Hf2, app_nil_r. done. }
  set (k := Nat.min (length d) (Block.writable back)).
  assert (length (take k d) = k) as Hk by (rewrite length_take; lia).
  destruct (Block.write_spec back (take k d) Hwb ltac:(lia)) as [Hw' Hc'].
  eexists _, k. split; [reflexivity|]. split; [|lia].
  assert (Forall Block.wf (front ++ [Block.write back (take k d)])) as Hall
    by (apply Forall_app; split; [done|by apply Forall_singleton]).
  assert (contents (front ++ [Block.write back (take k d)]) = contents (blocks_ b) ++ take k d) as Hcont.
  { rewrite linked_contents_app, linked_contents_cons, Hc', <- Hc. change (contents []) with (@nil ascii).
    by rewrite app_nil_r, app_assoc. }
  split; [split; [exact Hall|]|exact Hcont]. cbn [blocks_ total_readable_].
  rewrite <- contents_length, Hcont, length_app, contents_length, Ht, Hk by done. done.
Qed.

Lemma linked_append_loop_spec fuel : forall b c d, holds b c -> length d <= fuel ->
  exists b', append_loop fuel b d = Some b' /\ holds b' (c ++ d).
Proof.
  induction fuel as [|fuel IH]; intros b c d Hb Hl.
  - destruct d; [|simpl in *; lia]. exists b. by rewrite app_nil_r.
  - destruct (decide (d = [])) as [->|Hd]; [exists b; by rewrite app_nil_r|].
    destruct (append_turn_spec b c d Hb Hd) as (b1 & k & E & Hb1 & Hk).
    destruct (IH b1 _ (drop k d) Hb1 ltac:(rewrite length_drop; lia)) as (b' & Ha & Hb').
    exists b'. rewrite <- app_assoc, take_drop in Hb'. split; [|done].
    destruct d as [|x d]; [done|]. cbn [append_loop]. by rewrite E.
Qed.

Lemma linked_append_spec b c d : holds b c -> exists b', append b d = Some b' /\ holds b' (c ++ d).
Proof. intros. by apply linked_append_loop_spec. Qed.

(** ** Shrinking *)

Lemma shrink_blocks bs : Forall Block.wf bs ->
  let bs' := map Block.shrink (filter (fun k => Block.readable k <> 0) bs) in
  Forall Block.wf bs' /\ contents bs' = contents bs /\
  sum_list_with Block.readable bs' = sum_list_with Block.readable bs.
Proof.
  induction 1 as [|b bs Hb Hw IH]; [done|]. cbv zeta in *. rewrite filter_cons.
  destruct IH as (H1 & H2 & H3). case_decide as E.
  - destruct (Block.block_shrink_spec b Hb) as (Hs1 & Hs2 & Hs3). cbn [map].
    rewrite !linked_contents_cons, Hs2, H2. split; [by constructor|]. split; [done|]. simpl. lia.
  - rewrite linked_contents_cons. split; [done|].
    unfold Block.content. rewrite E. simpl. split; [done|lia].
Qed.

Lemma linked_shrink_spec b c reserve : holds b c -> holds (shrink b reserve) c.
Proof.
  intros [[Hw Ht] <-]. unfold shrink. destruct (shrink_blocks (blocks_ b) Hw) as (H1 & H2 & H3).
  set (bs := map Block.shrink _) in *.
  assert (holds (mk bs (total_readable_ b)) (contents (blocks_ b))) as Hbs.
  { split; [split; [done|]|exact H2]. cbn. by rewrite H3. }
  destruct (last bs) as [back|] eqn:El; [|done].
  destruct (_ <? reserve); [|done].
  apply last_Some in El as [front Eb]. rewrite Eb in *. rewrite length_app. simpl.
  rewrite Nat.add_sub, take_app_length. apply Forall_app in H1 as [Hf [Hback _]%Forall_cons].
  set (cap := Block.capacity back + _).
  destruct (Block.reallocate_spec back cap Hback) as [Hr Hc]; [destruct Hback; lia|].
  set (back' := Block.mk _ _ _ _ _).
  assert (Block.wf back' /\ Block.content back' = Block.content back) as [Hwb Hcb].
  { split; [|exact Hc]. unfold Block.wf, back'. cbn. rewrite Hr. destruct Hback. unfold cap. lia. }
  destruct Hbs as [[_ Ht'] Hg]. split; [split|].
  - apply Forall_app. split; [done|]. by apply Forall_singleton.
  - cbn in Ht' |- *. rewrite Ht', !sum_app. done.
  - transitivity (contents (front ++ [back])); [|exact Hg].
    change (contents (front ++ [back']) = contents (front ++ [back])).
    by rewrite !linked_contents_app, !linked_contents_cons, Hcb.
Qed.

(** ** Writing to a descriptor *)

Lemma writeFd_spec b c n : holds b c -> n <= length c ->
  exists b', writeFd b (inr n) = Some (Z.of_nat n, None, b') /\ holds b' (drop n c).
Proof.
  intros Hb Hn. pose proof (holds_length b c Hb) as Hl. unfold writeFd.
  destruct (Nat.eqb_spec (total_readable_ b) 0).
  - replace n with 0 by lia. by exists b.
  - destruct (Nat.ltb_spec 0 n).
    + pose proof (linked_retrieve_spec b c n Hb) as Hr. destruct (Nat.leb_spec n (length c)); [|lia].
      destruct Hr as (b' & -> & Hb'). by exists b'.
    + replace n with 0 by lia. by exists b.
Qed.

(** ** The same operations as [Buffer] *)

(** The operations both buffers have. *)
Definition shared (o : Buffer.op) : bool :=
  match o with Buffer.OUnWrite _ | Buffer.OEnsure _ => false | _ => true end.

Definition step (b : t) (o : Buffer.op) : option (bytes * t) :=
  match o with
  | Buffer.OAppend d => b' ← append b d; Some ([], b')
  | Buffer.ORetrieve n => b' ← retrieve b n; Some ([], b')
  | Buffer.ORetrieveAll => Some ([], retrieveAll b)
  | Buffer.ORetrieveAsString n => retrieveAsString b n
  | Buffer.OShrink n => Some ([], shrink b n)
  | _ => None
  end.

Lemma step_queue b c o : holds b c -> shared o = true ->
  match Buffer.queue_step c o with
  | None => step b o = None
  | Some (out, c') => exists b', step b o = Some (out, b') /\ holds b' c'
  end.
Proof.
  intros Hb Ho. destruct o as [d|n| |n|n|n|n]; try done; cbn [Buffer.queue_step step].
  - destruct (linked_append_spec b c d Hb) as (b' & -> & ?). by exists b'.
  - pose proof (linked_retrieve_spec b c n Hb) as Hr. destruct (n <=? length c); cbn.
    + destruct Hr as (b' & -> & ?). by exists b'.
    + by rewrite Hr.
  - exists create. split; [done|apply create_holds].
  - pose proof (linked_retrieveAsString_spec b c n Hb) as Hr. destruct (n <=? length c); cbn; [|done].
    destruct Hr as (b' & -> & ?). by exists b'.
  - exists (shrink b n). split; [done|]. by apply linked_shrink_spec.
Qed.

Lemma run_queue os : forall b c, holds b c -> forallb shared os = true ->
  match Buffer.run Buffer.queue_step c os with
  | None => Buffer.run step b os = None
  | Some (out, c') => exists b', Buffer.run step b os = Some (out, b') /\ holds b' c'
  end.
Proof.
  induction os as [|o os IH]; intros b c Hb Ho; cbn [Buffer.run]; [by exists b|].
  cbn [forallb] in Ho. apply andb_true_iff in Ho as [Ho Hos].
  pose proof (step_queue b c o Hb Ho) as Hs.
  destruct (Buffer.queue_step c o) as [[out c1]|]; cbn; [|by rewrite Hs].
  destruct Hs as (b1 & -> & Hb1). cbn. specialize (IH b1 c1 Hb1 Hos).
  destruct (Buffer.run Buffer.queue_step c1 os) as [[outs c2]|]; cbn; [|by rewrite IH].
  destruct IH as (b2 & -> & ?). cbn. by exists b2.
Qed.

(** ** Where it differs *)

(** [prepend] moves the read position but counts nothing: as many bytes fall
    off the end of the first block as were put in front of it. *)
Lemma linked_prepend_spec b c front bs d : holds b c -> blocks_ b = front :: bs -> d <> [] ->
  length d <= Block.prependable front ->
  exists b', prepend b d = Some b' /\ total_readable_ b' = length c /\
    gathered b' = take (Block.readable front) (d ++ Block.content front) ++ contents bs.
Proof.
  intros Hb Eb Hd Hl. pose proof (holds_length b c Hb) as Hlen. destruct Hb as [[Hw _] _].
  rewrite Eb in Hw. apply Forall_cons in Hw as [[Hf1 Hf2] _].
  unfold prepend. rewrite Eb. destruct (Nat.eqb_spec (length d) 0) as [E|_]; [by destruct d|].
  destruct (Nat.leb_spec (length d) (Block.prependable front)); [|lia].
  eexists. split; [done|]. split; [cbn; lia|]. unfold gathered. cbn.
  change (mjoin (map Block.content bs)) with (contents bs). f_equal.
  unfold Block.content at 1, Block.peek. cbn.
  set (r := Block.prependable front - length d).
  unfold Buffer.overwrite. rewrite drop_app_length' by (rewrite length_take; lia).
  unfold Block.content, Block.peek.
  replace (r + length d) with (Block.prependable front) by lia.
  rewrite !take_app. f_equal. rewrite take_take. f_equal. lia.
Qed.

(** [readFd] into a buffer whose only block is full: the counter grows, but no
    block does, and the bytes are gone. *)
Lemma readFd_full b c block d : holds b c -> blocks_ b = [block] -> Block.writable block = 0 ->
  d <> [] -> length d <= LINKED_BLOCK_SIZE - LINKED_PREPEND_SIZE ->
  exists b', readFd b (inr d) = Some (Z.of_nat (length d), None, b') /\
    total_readable_ b' = length c + length d /\ gathered b' = c.
Proof.
  intros Hb Eb Hw0 Hd Hl. pose proof (holds_length b c Hb) as Hlen. destruct Hb as [[Hw _] Hg].
  unfold gathered in Hg. rewrite Eb in Hw, Hg. apply Forall_cons in Hw as [[Hf1 Hf2] _].
  destruct d as [|x d]; [done|]. unfold readFd. rewrite Eb. cbn [app].
  set (y := x :: d) in *. set (new := Block.create LINKED_BLOCK_SIZE).
  assert (regions_of [block; new] = 1) as ->.
  { unfold regions_of. rewrite !filter_cons, Hw0. done. }
  cbn [scatter]. rewrite Hw0, Nat.min_0_r, take_0, drop_0.
  set (block' := Block.mk (Buffer.overwrite _ _ []) _ _ _ _).
  set (new' := Block.mk (Buffer.overwrite (Block.data new) _ _) _ _ _ _).
  assert (Block.data block' = Block.data block) as Ed.
  { unfold block', Buffer.overwrite. cbn. by rewrite Nat.add_0_r, take_drop. }
  cbn [count_loop]. destruct (Nat.ltb_spec 0 (length y)) as [_|Hz]; [|unfold y in Hz; simpl in Hz; lia].
  change (0 + 0) with 0. cbn [length Nat.leb Nat.ltb Nat.sub lookup list_lookup mbind option_bind].
  change (Block.writable block') with 0. rewrite Nat.min_0_r.
  cbn [insert list_insert last]. change (Block.writable new') with (LINKED_BLOCK_SIZE - LINKED_PREPEND_SIZE).
  rewrite Nat.eqb_refl. cbn [length Nat.sub take].
  eexists. split; [reflexivity|]. cbn. split; [lia|]. rewrite <- Hg. unfold gathered. cbn. f_equal.
  unfold Block.content, Block.peek. cbn. rewrite Nat.add_0_r.
  change (Buffer.overwrite _ _ []) with (Block.data block'). by rewrite Ed.
Qed.
End LinkedBuffer.
