(* ===== verification/Support.v ===== *)
(** * Strings, counters and process information (utils)

    [FKString], a view of a character array it does not own; [AtomicIntegerT];
    [FKException]; and the functions of [ProcessInfo] that compute something
    from what the system returns. *)

From Stdlib Require Import SpecFloat Sorted.
From stdpp Require Import sorting.
From S2P Require Import Prelude CxxString FileUtil TimeStamp.

Local Open Scope Z_scope.

(** ** [FKString] *)
Module FKString.

(** The pointer, as the bytes it points to up to the end of their array, if it
    is not null; and the length. *)
Record t := mk { sptr_ : option bytes; length_ : Z }.

Definition default : t := mk None 0.

(** [strlen]: the bytes before the first NUL; there is one. *)
Definition strlen (s : bytes) : Z := Z.of_nat (find_char (chr 0) s).

Definition of_cstr (str : bytes) : t := mk (Some str) (strlen str).
Definition of_string (str : bytes) : t := mk (Some str) (Z.of_nat (length str)).
Definition of_range (offset : bytes) (len : Z) : t := mk (Some offset) len.

(** [size()] returns an [int]. *)
Definition size (s : t) : Z := swrap 32 (length_ s).
Definition empty (s : t) : bool := length_ s =? 0.
Definition clear (s : t) : t := mk None 0.
Definition set (str : bytes) (len : Z) : t := mk (Some str) len.
Definition set_cstr (str : bytes) : t := mk (Some str) (strlen str).

Definition at_ (s : t) (index : nat) : option ascii := p ← sptr_ s; p !! index.

Definition remove_prefix (s : t) (n : nat) : t := mk (drop n <$> sptr_ s) (length_ s - Z.of_nat n).
Definition remove_suffix (s : t) (n : nat) : t := mk (sptr_ s) (length_ s - Z.of_nat n).

(** [strncmp(a, b, n) == 0]: up to a NUL or [n] bytes. *)
Fixpoint strncmp_eq (n : nat) (a b : bytes) : bool :=
  match n with
  | O => true
  | S n' =>
      match a, b with
      | c :: a', d :: b' =>
          bool_decide (c = d) && (bool_decide (c = chr 0) || strncmp_eq n' a' b')
      | _, _ => false
      end
  end.

(** A comparison through a null pointer is [None]. *)
Definition compare (a b : t) : option bool :=
  p ← sptr_ a; q ← sptr_ b; Some (strncmp_eq (Z.to_nat (length_ a)) p q).

Definition eqb (a b : t) : option bool :=
  if length_ a =? size b then compare a b else Some false.

Definition neqb (a b : t) : option bool :=
  if negb (length_ a =? size b) then Some true else compare a b.

Definition as_string (s : t) : option bytes :=
  p ← sptr_ s; Some (take (Z.to_nat (size s)) p).

Definition CopyToString (s : t) : option bytes := p ← sptr_ s; Some (take (Z.to_nat (length_ s)) p).

Definition StartWith (s k : t) : option bool :=
  if length_ k <=? length_ s then
    p ← sptr_ s; q ← sptr_ k;
    Some (bool_decide (take (Z.to_nat (length_ k)) p = take (Z.to_nat (length_ k)) q))
  else Some false.

(** The text of a view of a string without NULs. *)
Definition shows (s : t) (text : bytes) : Prop :=
  (exists p, sptr_ s = Some (text ++ p)) /\ length_ s = Z.of_nat (length text) /\
  (chr 0 ∉ text) /\ Z.of_nat (length text) < 2 ^ 31.

Lemma strncmp_eq_spec a b p q : length a = length b -> (chr 0 ∉ a) ->
  strncmp_eq (length a) (a ++ p) (b ++ q) = bool_decide (a = b).
Proof.
  revert b. induction a as [|c a IH]; intros [|d b] Hl Hn; try done. cbn.
  apply not_elem_of_cons in Hn as [Hc Hn].
  rewrite (bool_decide_false (c = chr 0)) by done. cbn [orb]. rewrite IH by (done || (simpl in Hl; lia)).
  destruct (decide (c = d)) as [->|Hne].
  - rewrite bool_decide_true by done. cbn. apply bool_decide_ext. split; [by intros ->|by intros [= ->]].
  - rewrite bool_decide_false by done. cbn. symmetry. apply bool_decide_false. by intros [= ? ?].
Qed.

(** [==] compares the texts; [!=] does too, but answers [true] exactly when they
    are of different length or equal. *)
Lemma comparisons_spec s k a b : shows s a -> shows k b ->
  eqb s k = Some (bool_decide (a = b)) /\
  neqb s k = Some (negb (Z.of_nat (length a) =? Z.of_nat (length b)) || bool_decide (a = b)).
Proof.
  intros ((p & Ep) & El & Hn & Hb) ((q & Eq) & Ek & _ & Hb'). unfold eqb, neqb, size, compare.
  rewrite El, Ek, Ep, Eq. rewrite swrap_small by lia. cbn.
  destruct (Z.eqb_spec (Z.of_nat (length a)) (Z.of_nat (length b))) as [E|E]; cbn.
  - rewrite Nat2Z.id, strncmp_eq_spec by (done || lia). done.
  - rewrite bool_decide_false by (intros ->; done). done.
Qed.
End FKString.

(** ** [AtomicIntegerT]

    Both instances, [AtomicInt32] and [AtomicInt64], are 64 bits wide.  Each
    operation is one atomic step: the returned value and the new one. *)
Module Atomic.

Definition get (v : Z) : Z * Z := (v, v).
Definition getAndSet (v newValue : Z) : Z * Z := (v, newValue).
Definition getAndAdd (v x : Z) : Z * Z := (v, swrap 64 (v + x)).
Definition addAndGet (v x : Z) : Z * Z := let '(old, v') := getAndAdd v x in (swrap 64 (old + x), v').
Definition incrementAndGet (v : Z) : Z * Z := addAndGet v 1.
Definition decrementAndGet (v : Z) : Z * Z := addAndGet v (-1).
Definition add (v x : Z) : Z := snd (getAndAdd v x).
Definition increment (v : Z) : Z := snd (incrementAndGet v).
Definition decrement (v : Z) : Z := snd (decrementAndGet v).

(** [addAndGet] returns the value that it stored. *)
Lemma addAndGet_stored v x : fst (addAndGet v x) = snd (addAndGet v x).
Proof. done. Qed.
End Atomic.

(** ** [FKException]: the message, and one line for each symbol of the stack. *)
Module FKException.

Record t := mk { message_ : bytes; stack_ : bytes }.

(** [strings]: the result of [backtrace_symbols], if it succeeded. *)
Definition trace (strings : option (list bytes)) : bytes :=
  match strings with
  | Some l => mjoin (map (fun s => s ++ [chr 10]) l)
  | None => []
  end.

Definition create (what : bytes) (strings : option (list bytes)) : t := mk what (trace strings).
End FKException.

(** ** [ProcessInfo] *)
Module ProcessInfo.

(** The entries of a directory whose names start with a digit. *)
Definition digit_name (d_name : bytes) : bool :=
  match d_name with c :: _ => isdigit c | [] => false end.
Definition fdDirFilter (t_numOpenedFiles : Z) (d_name : bytes) : Z :=
  if digit_name d_name then t_numOpenedFiles + 1 else t_numOpenedFiles.
Definition taskDirFilter (t_pids : list Z) (d_name : bytes) : list Z :=
  if digit_name d_name then t_pids ++ [atoi d_name] else t_pids.

(** [openedFiles()] and [threads()] on the names in the directory, in the order
    of [alphasort]; [threads] sorts the numbers afterwards. *)
Definition openedFiles (names : list bytes) : Z := fold_left fdDirFilter names 0.
Definition threads (names : list bytes) : list Z := merge_sort Z.le (fold_left taskDirFilter names []).

Lemma task_pids names : forall pids, fold_left taskDirFilter names pids = pids ++ (atoi <$> List.filter digit_name names).
Proof.
  induction names as [|d names IH]; intros pids; [by rewrite app_nil_r|]. cbn [fold_left List.filter]. rewrite IH.
  unfold taskDirFilter. destruct (digit_name d); [by rewrite <- app_assoc|done].
Qed.

(** The threads are the numbers among the names, in ascending order. *)
Lemma threads_spec names : Sorted Z.le (threads names) /\ threads names ≡ₚ (atoi <$> List.filter digit_name names).
Proof.
  unfold threads. rewrite task_pids. split; [apply Sorted_merge_sort; apply _|apply merge_sort_Permutation].
Qed.

Definition pidString (pid : Z) : bytes := snprintf 32 (to_string pid).
Definition username (entry : option bytes) : bytes := default ($"unknownuser") entry.
(** [gethostname] into 256 bytes. *)
Definition hostName (answer : option bytes) : bytes :=
  match answer with Some h => take 255 h | None => $"unknownhost" end.

(** The text between the first parentheses. *)
Definition procName (stat : bytes) : FKString.t :=
  match find ($"(") stat 0, find ($")") stat 0 with
  | Some lp, Some rp =>
      if (lp <? rp)%nat then FKString.set (drop (lp + 1) stat) (Z.of_nat (rp - lp - 1))
      else FKString.default
  | _, _ => FKString.default
  end.

Definition numThreads (status : bytes) : Z :=
  match find ($"Threads:") status 0 with
  | Some pos => atoi (drop (pos + 8) status)
  | None => 0
  end.

(** [maxOpenFiles]: the limit, or the number of open files. *)
Definition maxOpenFiles (rlim_cur : option Z) (names : list bytes) : Z :=
  match rlim_cur with Some r => swrap 32 r | None => openedFiles names end.

(** [procStatus], [procStat] and [threadStat] read a file of [/proc] with
    [readFile]. *)
Definition proc_file (f : ReadSmallFile.t) (info : option ReadSmallFile.stat) (errno : Z)
    (reads : list (Z + bytes)) : option bytes :=
  snd <$> ReadSmallFile.readFile f (Z.to_nat (1024 * 1024)) info errno reads.

(** The file of the thread [tid], and the target of the link of the program in
    [/proc], cut at the size of the array. *)
Definition threadStat_path (tid : Z) : bytes :=
  snprintf 64 ($"/proc/self/task/" ++ to_string tid ++ $"/stat").
Definition exePath (link : option bytes) : bytes := match link with Some p => take 1024 p | None => [] end.

(** [times] in clock ticks, and what [cpuTime] makes of it. *)
Record CpuTime := mkCpuTime { userSeconds : TimeStamp.double; systemSeconds : TimeStamp.double }.
Definition seconds_of (ticks clockTicksPerSec : Z) : TimeStamp.double :=
  SFdiv 53 1024 (TimeStamp.double_of_Z ticks) (TimeStamp.double_of_Z clockTicksPerSec).
Definition cpuTime (tms : option (Z * Z)) (clockTicksPerSec : Z) : CpuTime :=
  match tms with
  | Some (utime, stime) => mkCpuTime (seconds_of utime clockTicksPerSec) (seconds_of stime clockTicksPerSec)
  | None => mkCpuTime (S754_zero false) (S754_zero false)
  end.
Definition total (t : CpuTime) : TimeStamp.double := SFadd 53 1024 (userSeconds t) (systemSeconds t).
Definition isDebugBuild (ndebug : bool) : bool := negb ndebug.

(** They do not survive the file being there. *)
Lemma proc_file_crashes f info errno reads :
  0 <= ReadSmallFile.fd_ f -> ReadSmallFile.st_kind info = ReadSmallFile.Regular ->
  proc_file f (Some info) errno reads = None.
Proof. intros. unfold proc_file. by rewrite ReadSmallFile.readFile_regular. Qed.
End ProcessInfo.
