(* ===== verification/Sockets.v ===== *)
(** * Sockets and addresses (network/Endian, InetAddress, SocketsOps, Socket)

    Byte order, the address a socket is bound or connected to, and what the
    wrappers make of the results of the system calls.  The host is
    little-endian.  The text form of an address comes from the C library. *)

From S2P Require Import Prelude CxxString.

Local Open Scope Z_scope.

(** ** Byte order *)
Module Endian.

(** The [n] bytes of a number, least significant first, and back. *)
Fixpoint to_bytes (n : nat) (x : Z) : list Z :=
  match n with
  | O => []
  | S n' => x mod 256 :: to_bytes n' (x / 256)
  end.
Fixpoint of_bytes (l : list Z) : Z :=
  match l with
  | [] => 0
  | b :: l' => b + 256 * of_bytes l'
  end.

(** [htobe16], ...: the bytes in the other order. *)
Definition swap (n : nat) (x : Z) : Z := of_bytes (reverse (to_bytes n x)).

Definition hostToNetwork64 (x : Z) : Z := swap 8 x.
Definition hostToNetwork32 (x : Z) : Z := swap 4 x.
Definition hostToNetwork16 (x : Z) : Z := swap 2 x.
Definition networkToHost64 (x : Z) : Z := swap 8 x.
Definition networkToHost32 (x : Z) : Z := swap 4 x.
Definition networkToHost16 (x : Z) : Z := swap 2 x.

Lemma to_bytes_length n x : length (to_bytes n x) = n.
Proof. revert x. induction n as [|n IH]; intros x; cbn; [done|by rewrite IH]. Qed.

Lemma to_bytes_range n x : Forall (fun b => 0 <= b < 256) (to_bytes n x).
Proof.
  revert x. induction n as [|n IH]; intros x; cbn; constructor; [|done]. apply Z.mod_pos_bound. lia.
Qed.

Lemma of_to_bytes n x : 0 <= x < 256 ^ Z.of_nat n -> of_bytes (to_bytes n x) = x.
Proof.
  revert x. induction n as [|n IH]; intros x Hx; cbn [to_bytes of_bytes].
  - change (256 ^ Z.of_nat 0) with 1 in Hx. lia.
  - rewrite Nat2Z.inj_succ, Z.pow_succ_r in Hx by lia. rewrite IH.
    + pose proof (Z.div_mod x 256). lia.
    + split; [apply Z.div_pos; lia|apply Z.div_lt_upper_bound; lia].
Qed.

Lemma to_of_bytes l : Forall (fun b => 0 <= b < 256) l -> to_bytes (length l) (of_bytes l) = l.
Proof.
  induction 1 as [|b l Hb _ IH]; [done|]. cbn [of_bytes length to_bytes].
  rewrite Z.mul_comm. f_equal.
  - rewrite Z.mod_add by lia. by apply Z.mod_small.
  - rewrite Z.div_add, Z.div_small by lia. exact IH.
Qed.

Lemma of_bytes_range l : Forall (fun b => 0 <= b < 256) l -> 0 <= of_bytes l < 256 ^ Z.of_nat (length l).
Proof.
  induction 1 as [|b l Hb _ IH]; [done|]. cbn [of_bytes length].
  rewrite Nat2Z.inj_succ, Z.pow_succ_r by lia. lia.
Qed.

(** Swapping keeps the width, and swapping back restores the number. *)
Lemma swap_range n x : 0 <= swap n x < 256 ^ Z.of_nat n.
Proof.
  unfold swap. rewrite <- (to_bytes_length n x) at 3. rewrite <- length_reverse.
  apply of_bytes_range. apply Forall_reverse. apply to_bytes_range.
Qed.

Lemma swap_swap n x : 0 <= x < 256 ^ Z.of_nat n -> swap n (swap n x) = x.
Proof.
  intros Hx. unfold swap.
  assert (to_bytes n (of_bytes (reverse (to_bytes n x))) = reverse (to_bytes n x)) as ->.
  { rewrite <- (to_bytes_length n x) at 1. rewrite <- length_reverse.
    apply to_of_bytes. apply Forall_reverse. apply to_bytes_range. }
  rewrite reverse_involutive. by apply of_to_bytes.
Qed.
End Endian.

(** ** [InetAddress] *)
Module InetAddress.

Definition AF_INET : Z := 2.
Definition AF_INET6 : Z := 10.
Definition INADDR_ANY : Z := 0.
Definition INADDR_LOOPBACK : Z := 0x7f000001.

(** The members of the union that the code reads: the family, the port as it
    is stored, and the two forms of the address, as stored. *)
Record t := mk { family : Z; portNetEndian : Z; s_addr : Z; s6_addr : bytes }.

Section libc.
(** [inet_pton] and [inet_ntop], and the lookup of [gethostbyname_r]: its
    result, and the address it found. *)
Context (inet_pton4 : bytes -> option Z) (inet_pton6 : bytes -> option bytes).
Context (inet_ntop4 : Z -> bytes) (inet_ntop6 : bytes -> bytes).
Context (gethostbyname : bytes -> Z * option Z).

Definition zero6 : bytes := replicate 16 (chr 0).

(** [InetAddress(port, loopbackOnly)]. *)
Definition of_port (port : Z) (loopbackOnly : bool) : t :=
  let ip := if loopbackOnly then INADDR_LOOPBACK else INADDR_ANY in
  mk AF_INET (Endian.hostToNetwork16 port) (Endian.hostToNetwork32 ip) zero6.

Definition isIpV6Address (ip : bytes) : bool := bool_decide (":"%char ∈ ip).

(** [InetAddress(ip, port, ipv6)]: an address that is not understood is left
    zero, and logged. *)
Definition of_ip_as (ip : bytes) (port : Z) (ipv6 : bool) : t :=
  if ipv6 then mk AF_INET6 (Endian.hostToNetwork16 port) 0 (default zero6 (inet_pton6 ip))
  else mk AF_INET (Endian.hostToNetwork16 port) (default 0 (inet_pton4 ip)) zero6.

Definition of_ip (ip : bytes) (port : Z) : t := of_ip_as ip port (isIpV6Address ip).

Definition toIp (a : t) : bytes :=
  if family a =? AF_INET then inet_ntop4 (s_addr a)
  else if family a =? AF_INET6 then inet_ntop6 (s6_addr a)
  else [].

Definition toIpPort (a : t) : bytes :=
  if family a =? AF_INET then
    snprintf 64 (inet_ntop4 (s_addr a) ++ $":" ++ to_string (Endian.networkToHost16 (portNetEndian a)))
  else if family a =? AF_INET6 then
    snprintf 64 ($"[" ++ inet_ntop6 (s6_addr a) ++ $"]:" ++ to_string (Endian.networkToHost16 (portNetEndian a)))
  else [].

Definition port (a : t) : Z := Endian.networkToHost16 (portNetEndian a).

(** The [assert] wants an IPv4 address. *)
Definition ipv4NetEndian (a : t) : option Z := if family a =? AF_INET then Some (s_addr a) else None.

(** [resolve]: only the address of the result is changed. *)
Definition resolve (hostname : bytes) (result : t) : bool * t :=
  match gethostbyname hostname with
  | (0, Some addr) => (true, mk (family result) (portNetEndian result) addr (s6_addr result))
  | _ => (false, result)
  end.

(** The port that goes in comes out. *)
Lemma port_roundtrip ip p ipv6 : 0 <= p < 2 ^ 16 -> port (of_ip_as ip p ipv6) = p.
Proof.
  intros Hp. unfold port, of_ip_as, Endian.networkToHost16, Endian.hostToNetwork16.
  destruct ipv6; cbn [portNetEndian]; by apply Endian.swap_swap.
Qed.

Lemma port_of_port p lo : 0 <= p < 2 ^ 16 -> port (of_port p lo) = p.
Proof. intros Hp. by apply Endian.swap_swap. Qed.

(** And so does the address, when the library's conversions invert each other. *)
Lemma ip_roundtrip ip a p : inet_pton4 ip = Some a -> inet_ntop4 a = ip -> ":"%char ∉ ip ->
  toIp (of_ip ip p) = ip.
Proof.
  intros Hp Hn Hc. unfold of_ip, isIpV6Address. rewrite bool_decide_false by done.
  unfold toIp, of_ip_as. cbn. by rewrite Hp.
Qed.
End libc.
End InetAddress.

(** ** [SocketsOps] *)
Module SocketsOps.

Definition EPERM : Z := 1.
Definition EINTR : Z := 4.
Definition EBADF : Z := 9.
Definition EAGAIN : Z := 11.
Definition ENOMEM : Z := 12.
Definition EFAULT : Z := 14.
Definition EINVAL : Z := 22.
Definition ENFILE : Z := 23.
Definition EMFILE : Z := 24.
Definition EPROTO : Z := 71.
Definition ENOTSOCK : Z := 88.
Definition EOPNOTSUPP : Z := 95.
Definition ECONNABORTED : Z := 103.
Definition ENOBUFS : Z := 105.

(** The result of a wrapper: a value, with the [errno] it leaves, or the end of
    the process after a fatal log line. *)
Inductive result (A : Type) := Value (v : A) | Fatal.
#[global] Arguments Value {A} v.
#[global] Arguments Fatal {A}.

(** [createNonblockingOrDie], [bindOrDie], [listenOrDie] on the result of the
    call. *)
Definition createNonblockingOrDie (sockfd : Z) : result Z := if sockfd <? 0 then Fatal else Value sockfd.
Definition bindOrDie (ret : Z) : result unit := if ret <? 0 then Fatal else Value tt.
Definition listenOrDie (ret : Z) : result unit := if ret <? 0 then Fatal else Value tt.

(** [accept]: errors that a server must survive keep their [errno]. *)
Definition accept_may_fail (e : Z) : bool :=
  (e =? EAGAIN) || (e =? ECONNABORTED) || (e =? EINTR) || (e =? EPROTO) || (e =? EPERM) || (e =? EMFILE).
Definition accept (connfd errno : Z) : result (Z * Z) :=
  if connfd <? 0 then if accept_may_fail errno then Value (connfd, errno) else Fatal
  else Value (connfd, errno).

(** [close] and [shutdownWrite] log a failure: whether they do. *)
Definition close_logs (ret : Z) : bool := ret <? 0.
Definition shutdownWrite_logs (ret : Z) : bool := ret <? 0.

(** [getSocketError]. *)
Definition getSocketError (ret optval errno : Z) : Z := if ret <? 0 then errno else optval.

(** [getLocalAddr], [getPeerAddr]: zero when the call fails. *)
Definition addr_or_zero (a : option InetAddress.t) : InetAddress.t :=
  default (InetAddress.mk 0 0 0 InetAddress.zero6) a.
Definition getLocalAddr := addr_or_zero.
Definition getPeerAddr := addr_or_zero.

Definition isSelfConnect (local peer : option InetAddress.t) : bool :=
  let localaddr := getLocalAddr local in
  let peeraddr := getPeerAddr peer in
  if InetAddress.family localaddr =? InetAddress.AF_INET then
    (InetAddress.portNetEndian localaddr =? InetAddress.portNetEndian peeraddr) &&
    (InetAddress.s_addr localaddr =? InetAddress.s_addr peeraddr)
  else if InetAddress.family localaddr =? InetAddress.AF_INET6 then
    (InetAddress.portNetEndian localaddr =? InetAddress.portNetEndian peeraddr) &&
    bool_decide (InetAddress.s6_addr localaddr = InetAddress.s6_addr peeraddr)
  else false.

Section libc.
Context (inet_pton4 : bytes -> option Z) (inet_pton6 : bytes -> option bytes).
Context (inet_ntop4 : Z -> bytes) (inet_ntop6 : bytes -> bytes).

(** [toIp] and [toIpPort] into a buffer of [size] bytes, with their [assert]s;
    [INET_ADDRSTRLEN] is 16 and [INET6_ADDRSTRLEN] 46. *)
Definition toIp (size : nat) (a : InetAddress.t) : option bytes :=
  if InetAddress.family a =? InetAddress.AF_INET then
    if (16 <=? size)%nat then Some (inet_ntop4 (InetAddress.s_addr a)) else None
  else if InetAddress.family a =? InetAddress.AF_INET6 then
    if (46 <=? size)%nat then Some (inet_ntop6 (InetAddress.s6_addr a)) else None
  else Some [].

Definition toIpPort (size : nat) (a : InetAddress.t) : option bytes :=
  ip ← toIp size a;
  Some (ip ++ snprintf (size - length ip) ($":" ++ to_string (Endian.networkToHost16 (InetAddress.portNetEndian a)))).

(** [fromIpPort], the two overloads, into an address that keeps its other
    members. *)
Definition fromIpPort (ip : bytes) (port : Z) (a : InetAddress.t) : InetAddress.t :=
  InetAddress.mk InetAddress.AF_INET (Endian.hostToNetwork16 port)
    (default (InetAddress.s_addr a) (inet_pton4 ip)) (InetAddress.s6_addr a).
Definition fromIpPort6 (ip : bytes) (port : Z) (a : InetAddress.t) : InetAddress.t :=
  InetAddress.mk InetAddress.AF_INET6 (Endian.hostToNetwork16 port)
    (InetAddress.s_addr a) (default (InetAddress.s6_addr a) (inet_pton6 ip)).
End libc.

(** An IPv4 connection is taken for a connection to itself exactly when both
    ends have the same address and port. *)
Lemma isSelfConnect_spec l p : InetAddress.family l = InetAddress.AF_INET ->
  isSelfConnect (Some l) (Some p) = true <->
  InetAddress.portNetEndian l = InetAddress.portNetEndian p /\ InetAddress.s_addr l = InetAddress.s_addr p.
Proof.
  intros Hf. unfold isSelfConnect, getLocalAddr, getPeerAddr, addr_or_zero. cbn. rewrite Hf. cbn.
  rewrite andb_true_iff, !Z.eqb_eq. done.
Qed.
End SocketsOps.

(** ** [Socket] *)
Module Socket.

Definition O_NONBLOCK : Z := 0x800.

(** The flags the constructor sets, [flags] being what [F_GETFL] returned. *)
Definition nonblocking (flags : Z) : Z := Z.lor flags O_NONBLOCK.

(** The value given to [setsockopt], and whether a failure is logged. *)
Definition optval (on : bool) : Z := if on then 1 else 0.
Definition setsockopt_logs (on : bool) (ret : Z) : bool := (ret <? 0) && on.

(** [accept]: the descriptor and the peer's address, which is stored only on
    success. *)
Definition accept (connfd errno : Z) (addr old : InetAddress.t) : SocketsOps.result (Z * Z * InetAddress.t) :=
  match SocketsOps.accept connfd errno with
  | SocketsOps.Value (fd, e) => SocketsOps.Value (fd, e, if 0 <=? fd then addr else old)
  | SocketsOps.Fatal => SocketsOps.Fatal
  end.

(** A socket as the system sees it.  [ret] is what the call answers; a call that
    fails changes nothing, and ends the program or is logged. *)
Record t := mk {
  sockfd_ : Z;
  flags : Z;
  bound : bool;
  listening : bool;
  writeShut : bool;
  open : bool
}.

(** [ret] is the answer of [F_SETFL]. *)
Definition create (sockfd flags ret : Z) : t :=
  mk sockfd (if ret <? 0 then flags else nonblocking flags) false false false true.

Definition bindAddress (s : t) (ret : Z) : SocketsOps.result t :=
  match SocketsOps.bindOrDie ret with
  | SocketsOps.Value _ => SocketsOps.Value (mk (sockfd_ s) (flags s) true (listening s) (writeShut s) (open s))
  | SocketsOps.Fatal => SocketsOps.Fatal
  end.
Definition listen (s : t) (ret : Z) : SocketsOps.result t :=
  match SocketsOps.listenOrDie ret with
  | SocketsOps.Value _ => SocketsOps.Value (mk (sockfd_ s) (flags s) (bound s) true (writeShut s) (open s))
  | SocketsOps.Fatal => SocketsOps.Fatal
  end.
Definition shutdownWrite (s : t) (ret : Z) : t :=
  mk (sockfd_ s) (flags s) (bound s) (listening s) (writeShut s || negb (SocketsOps.shutdownWrite_logs ret)) (open s).
Definition destroy (s : t) (ret : Z) : t :=
  mk (sockfd_ s) (flags s) (bound s) (listening s) (writeShut s) (open s && SocketsOps.close_logs ret).

Lemma nonblocking_set flags : Z.land (nonblocking flags) O_NONBLOCK = O_NONBLOCK.
Proof.
  unfold nonblocking. apply Z.bits_inj'. intros n _. rewrite Z.land_spec, Z.lor_spec.
  by destruct (Z.testbit flags n), (Z.testbit O_NONBLOCK n).
Qed.
End Socket.
