(* ===== verification/Acceptor.v ===== *)
(** * [Acceptor] (network/Acceptor.hpp, src/network/Acceptor.cpp)

    The accepting socket, its channel, and the spare descriptor that is given
    up when the process runs out of descriptors.  The descriptors that the
    system handed out, those that were closed and those that were handed on are
    kept. *)

From S2P Require Import Prelude Sockets Channel.

Module Acceptor.
Local Open Scope Z_scope.

Record t := mk {
  acceptSocket_ : Z;
  reading : bool;              (* whether the channel watches for connections *)
  listening_ : bool;
  idleFd_ : Z;
  callback : bool;             (* whether newConnectionCallback_ is set *)
  delivered : list Z;          (* descriptors given to the callback *)
  closed : list Z              (* descriptors closed *)
}.

(** The constructor: the accepting socket, and the descriptor of [/dev/null];
    [bindret] is the result of [bind].  A fatal error or a failed [assert] is
    [None]. *)
Definition create (sockfd idle bindret : Z) : option t :=
  match SocketsOps.createNonblockingOrDie sockfd with
  | SocketsOps.Fatal => None
  | SocketsOps.Value fd =>
      if 0 <=? idle then
        match SocketsOps.bindOrDie bindret with
        | SocketsOps.Fatal => None
        | SocketsOps.Value _ => Some (mk fd false false idle false [] [])
        end
      else None
  end.

Definition setNewConnectionCallback (a : t) : t :=
  mk (acceptSocket_ a) (reading a) (listening_ a) (idleFd_ a) true (delivered a) (closed a).

Definition listen (a : t) (ret : Z) : option t :=
  match SocketsOps.listenOrDie ret with
  | SocketsOps.Fatal => None
  | SocketsOps.Value _ =>
      Some (mk (acceptSocket_ a) true true (idleFd_ a) (callback a) (delivered a) (closed a))
  end.

(** [::close]: of a descriptor; closing a negative one does nothing. *)
Definition close (a : t) (fd : Z) : t :=
  mk (acceptSocket_ a) (reading a) (listening_ a) (idleFd_ a) (callback a) (delivered a)
     (if 0 <=? fd then closed a ++ [fd] else closed a).
Definition set_idle (a : t) (fd : Z) : t :=
  mk (acceptSocket_ a) (reading a) (listening_ a) fd (callback a) (delivered a) (closed a).
Definition deliver (a : t) (fd : Z) : t :=
  mk (acceptSocket_ a) (reading a) (listening_ a) (idleFd_ a) (callback a) (delivered a ++ [fd]) (closed a).

(** What the system answers to [handleRead]: [accept4] and its [errno]; the
    [errno] after the log line; the second [accept]; the [open] of
    [/dev/null]. *)
Record answers := Answers { connfd : Z; accept_errno : Z; logged_errno : Z; connfd2 : Z; idle : Z }.

Definition handleRead (a : t) (w : answers) : option t :=
  match SocketsOps.accept (connfd w) (accept_errno w) with
  | SocketsOps.Fatal => None
  | SocketsOps.Value (fd, _) =>
      if 0 <=? fd then Some (if callback a then deliver a fd else close a fd)
      else if logged_errno w =? SocketsOps.EMFILE then
        let a := close a (idleFd_ a) in
        let a := set_idle a (connfd2 w) in
        let a := close a (idleFd_ a) in
        Some (set_idle a (idle w))
      else Some a
  end.

(** The destructor: the spare descriptor, then the socket with its own
    destructor. *)
Definition destroy (a : t) : t :=
  let a := mk (acceptSocket_ a) false (listening_ a) (idleFd_ a) (callback a) (delivered a) (closed a) in
  close (close a (idleFd_ a)) (acceptSocket_ a).

Fixpoint run (a : t) (ws : list answers) : option t :=
  match ws with
  | [] => Some a
  | w :: ws' => a' ← handleRead a w; run a' ws'
  end.

(** ** Every descriptor is accounted for *)

Definition valid (fd : Z) : list Z := if 0 <=? fd then [fd] else [].

(** What the system handed out while [handleRead] ran on [w]. *)
Definition handed_out (w : answers) : list Z :=
  if 0 <=? connfd w then [connfd w]
  else if logged_errno w =? SocketsOps.EMFILE then valid (connfd2 w) ++ valid (idle w) else [].

(** The descriptors in the acceptor's hands. *)
Definition held (a : t) : list Z := acceptSocket_ a :: valid (idleFd_ a).

Definition accounted (opened : list Z) (a : t) : Prop := opened ≡ₚ delivered a ++ closed a ++ held a.

Lemma closed_close a fd : closed (close a fd) = closed a ++ valid fd.
Proof. unfold close, valid. cbn. by destruct (0 <=? fd); rewrite ?app_nil_r. Qed.

Lemma handleRead_accounted opened a w a' : accounted opened a -> handleRead a w = Some a' ->
  accounted (opened ++ handed_out w) a' /\ acceptSocket_ a' = acceptSocket_ a /\ callback a' = callback a.
Proof.
  unfold accounted, handleRead, handed_out, SocketsOps.accept. intros Ho.
  destruct (Z.ltb_spec (connfd w) 0) as [Hn|Hp].
  - destruct (Z.leb_spec 0 (connfd w)); [lia|].
    destruct (SocketsOps.accept_may_fail _); [|done].
    destruct (Z.leb_spec 0 (connfd w)); [lia|].
    destruct (logged_errno w =? SocketsOps.EMFILE); intros [= <-]; [|by rewrite app_nil_r].
    split; [|done]. cbn [set_idle delivered close held acceptSocket_ idleFd_].
    change (closed (set_idle ?x _)) with (closed x). rewrite closed_close. cbn [set_idle closed].
    rewrite closed_close. rewrite Ho. unfold held. cbn. solve_Permutation.
  - destruct (Z.leb_spec 0 (connfd w)); [|lia]. intros [= <-].
    destruct (callback a) eqn:Ec; (split; [|done]).
    + cbn. rewrite Ho. unfold held. cbn. solve_Permutation.
    + rewrite closed_close. unfold valid at 1. destruct (Z.leb_spec 0 (connfd w)); [|lia].
      cbn. rewrite Ho. unfold held. cbn. solve_Permutation.
Qed.

Lemma create_accounted sockfd idle bindret a : create sockfd idle bindret = Some a ->
  accounted (sockfd :: valid idle) a.
Proof.
  unfold create, SocketsOps.createNonblockingOrDie. destruct (sockfd <? 0); [done|].
  destruct (0 <=? idle); [|done]. destruct (SocketsOps.bindOrDie bindret); [|done]. intros [= <-].
  unfold accounted, held. cbn. reflexivity.
Qed.

Lemma run_accounted ws : forall opened a a', accounted opened a -> run a ws = Some a' ->
  accounted (opened ++ mjoin (map handed_out ws)) a'.
Proof.
  induction ws as [|w ws IH]; intros opened a a' Ho; cbn.
  - intros [= <-]. by rewrite app_nil_r.
  - destruct (handleRead a w) as [a1|] eqn:E; [|done]. cbn. rewrite app_assoc. apply IH.
    by apply (handleRead_accounted opened a w a1).
Qed.

(** The accepting socket is always the one [socket] returned. *)
Lemma create_socket sockfd idle bindret a : create sockfd idle bindret = Some a -> 0 <= acceptSocket_ a.
Proof.
  unfold create, SocketsOps.createNonblockingOrDie. destruct (Z.ltb_spec sockfd 0); [done|].
  destruct (0 <=? idle); [|done]. destruct (SocketsOps.bindOrDie bindret); [|done]. by intros [= <-].
Qed.

Lemma listen_socket a ret a' : listen (setNewConnectionCallback a) ret = Some a' ->
  acceptSocket_ a' = acceptSocket_ a.
Proof. unfold listen. destruct (SocketsOps.listenOrDie ret); [|done]. by intros [= <-]. Qed.

Lemma run_socket ws : forall a a', run a ws = Some a' -> acceptSocket_ a' = acceptSocket_ a.
Proof.
  induction ws as [|w ws IH]; intros a a'; cbn; [by intros [= <-]|].
  destruct (handleRead a w) as [a1|] eqn:E; [|done]. cbn. intros ->%IH.
  by destruct (handleRead_accounted (delivered a ++ closed a ++ held a) a w a1 (Permutation_refl _) E) as (_ & ? & _).
Qed.

(** After the destructor the acceptor holds nothing. *)
Lemma destroy_closes opened a : 0 <= acceptSocket_ a -> accounted opened a ->
  opened ≡ₚ delivered (destroy a) ++ closed (destroy a).
Proof.
  unfold accounted, destroy. intros Hs ->. rewrite !closed_close. cbn. unfold held, valid.
  destruct (Z.leb_spec 0 (acceptSocket_ a)); [|lia]. solve_Permutation.
Qed.
End Acceptor.
