(* ===== verification/Startup.v ===== *)
(** * Starting and stopping the program (app/main.cpp, app/HttpUploader.hpp:
    the constructor and destructor of HttpUploadHandler)

    What the MySQL client answers is an argument; the handle is a flag.  The
    pool's tasks have no type of their own: the program submits none. *)

From S2P Require Import Prelude CxxString OrdMap TimeStamp HttpRequest HttpContext HttpResponse World.
From S2P Require Import Session Upload Files Share Routes Handlers ThreadPool TcpServer Logging.

Module Startup.

(** Whether [mysql_init], [mysql_real_connect] and [mysql_set_character_set]
    succeed. *)
Record mysql_answers := MysqlAnswers { init_ok : bool; connect_ok : bool; charset_ok : bool }.

(** [initDatabase()]: its result, and whether [mysql] is not null after it. *)
Definition initDatabase (a : mysql_answers) : bool * bool :=
  if negb (init_ok a) then (false, false)
  else if negb (connect_ok a) then (false, false)
  else if negb (charset_ok a) then (false, true)
  else (true, true).

(** [closeDatabase()]: whether [mysql_close] is called; [mysql] is null after it. *)
Definition closeDatabase (mysql : bool) : bool * bool := (mysql, false).

Section startup.
Context `{Platform}.

(** The upload directory, the pool, the route table, and the state of the
    handlers. *)
Record Handler := mkHandler {
  h_uploadDir : bool;
  h_pool : ThreadPool.t unit;
  h_routes : list RoutePattern;
  h_world : World
}.

(** The members before the body of the constructor runs: no connection, no
    statement, no draw. *)
Definition initial_world (mysql : bool) (db : Db) (fs : gmap bytes bytes) (random : nat -> Z) (clock : Z) : World :=
  mkWorld HttpRequest.create (HttpResponse.create false) None None ∅ 0 mysql db [] None fs [] random 0 clock.

(** The constructor; [dir_exists] says whether the upload directory is there,
    which is created otherwise.  [None] is the pool's [assert]. *)
Definition construct (numThreads : nat) (dir_exists : bool) (a : mysql_answers) (db : Db)
    (fs : gmap bytes bytes) (random : nat -> Z) (clock : Z) : option Handler :=
  pool ← ThreadPool.start ($"UploadHandler") ThreadPool.create numThreads;
  let uploadDir := if dir_exists then dir_exists else true in
  let '(_, mysql) := initDatabase a in
  let '(_, w) := loadFilenameMappingInternal (initial_world mysql db fs random clock) in
  Some (mkHandler uploadDir pool initRoutes w).

(** The destructor: the stopped pool, the files after the mapping was saved, and
    whether the database connection was closed. *)
Definition destruct (h : Handler) : ThreadPool.t unit * gmap bytes bytes * bool :=
  let pool := ThreadPool.stop (h_pool h) in
  let '(_, w) := saveFilenameMappingInternal (h_world h) in
  (pool, w_fs w, (closeDatabase (w_mysql w)).1).

(** [main()] before [loop.loop()]: the log level, the handler with four threads,
    and the server on the main loop, loop 0, without threads. *)
Definition main_server (ipPort : bytes) : option TcpServer.t :=
  let s := TcpServer.create ($"http-upload-test") ipPort 0 in
  let s := TcpServer.setThreadNum s 0 in
  TcpServer.start s S.

Definition main (p : Logger.process) (ipPort : bytes) (dir_exists : bool) (a : mysql_answers) (db : Db)
    (fs : gmap bytes bytes) (random : nat -> Z) (clock : Z) : option (Logger.process * Handler * TcpServer.t) :=
  let p := Logger.setLogLevel p Logger.INFO in
  h ← construct 4 dir_exists a db fs random clock;
  s ← main_server ipPort;
  Some (p, h, s).

(** The constructor leaves the stored files alone, and fails in no case. *)
Lemma construct_ok n d a db fs random clock : exists h, construct n d a db fs random clock = Some h /\
  w_mysql (h_world h) = init_ok a && connect_ok a /\ w_ctx (h_world h) = None /\ w_wcc (h_world h) = None /\
  w_down (h_world h) = ∅.
Proof.
  unfold construct. cbn [ThreadPool.start ThreadPool.create ThreadPool.running_ mbind option_bind].
  assert ((initDatabase a).2 = init_ok a && connect_ok a) as E
    by (unfold initDatabase; by destruct (init_ok a), (connect_ok a), (charset_ok a)).
  destruct (initDatabase a) as [ok my]. cbn in E. subst my. set (my := init_ok a && connect_ok a).
  set (w0 := initial_world my db fs random clock).
  set (P := fun w => w_mysql w = my /\ w_ctx w = None /\ w_wcc w = None /\ w_down w = ∅).
  assert (keeps P loadFilenameMappingInternal) as Hk
    by (unfold loadFilenameMappingInternal; keeps; by apply keeps_modify).
  pose proof (Hk w0) as Hw. unfold P in Hw. specialize (Hw ltac:(done)).
  destruct (loadFilenameMappingInternal w0) as [r w]. eexists. split; [reflexivity|]. exact Hw.
Qed.

End startup.

(** The loops of the connections that arrive one after the other. *)
Fixpoint serve (s : TcpServer.t) (conns : list nat) : option (list nat * TcpServer.t) :=
  match conns with
  | [] => Some ([], s)
  | conn :: conns' =>
      '(l, _, s1) ← TcpServer.newConnection s conn;
      '(ls, s2) ← serve s1 conns';
      Some (l :: ls, s2)
  end.

(** The server that [main] starts serves every connection in the main loop: the
    handlers never run in two threads at once. *)
Lemma main_server_single ipPort : exists s, main_server ipPort = Some s /\
  forall conns, exists s', serve s conns = Some (replicate (length conns) 0, s').
Proof.
  eexists. split; [reflexivity|]. set (s := TcpServer.mk _ _ _ _ _ _ _).
  assert (TcpServer.threadPool_ s = EventLoopThreadPool.mk 0 true 0 0 []) as Hp by done.
  intros conns. revert Hp. generalize s. induction conns as [|conn conns IH]; intros s1 Hp; [by exists s1|].
  cbn [serve]. unfold TcpServer.newConnection. rewrite Hp. cbn [EventLoopThreadPool.getNextLoop
    EventLoopThreadPool.started_ EventLoopThreadPool.loops_ EventLoopThreadPool.baseLoop_ mbind option_bind].
  match goal with |- context [serve ?s2 conns] => destruct (IH s2 eq_refl) as [s' ->] end.
  by exists s'.
Qed.

End Startup.
