(* ===== verification/WellTyped.v ===== *)
(** * Well-formed handler states

    What the types of the program promise about the state of the handlers: the
    name mapping is a [std::map], the shared pointers a connection and its
    callbacks hold point to live objects, and an open download sees its file.
    Every request preserves it, and the callback a request installs can run. *)

From S2P Require Import Prelude CxxString OrdMap Regex HttpRequest HttpContext HttpResponse World.
From S2P Require Import Session Accounts Upload Download Files Share Routes Handlers.
From S2P Require Import Serving FileMapping Requests Startup.

Section well_typed.
Context `{Platform}.

(** A stream on a file that still has its name sees what is stored under it, and
    the size of a file that nobody wrote is the one measured. *)
Definition down_ok (fs : gmap bytes bytes) (d : DownContext) : Prop :=
  (d_linked d = true -> fs !! d_filepath d = Some (d_content d)) /\
  (d_written d = false -> d_fileSize d = Z.of_nat (length (d_content d))).

Record well_typed (w : World) : Prop := {
  wt_mapping : OrdMap.sorted (w_mapping w);
  wt_fresh id : is_Some (w_down w !! id) -> id < w_next w;
  wt_custom c id : w_ctx w = Some c -> HttpContext.customContext_ c = Some (CDown id) ->
    is_Some (w_down w !! id);
  wt_callback id : w_wcc w = Some (CbDownload id) -> is_Some (w_down w !! id);
  wt_down : map_Forall (fun _ d => down_ok (w_fs w) d) (w_down w)
}.

#[export] Instance well_typed_stable : stable well_typed.
Proof. split; intros; match goal with Hw : well_typed _ |- _ => destruct Hw; by split end. Qed.

#[export] Instance alive_stable id : stable (fun w => is_Some (w_down w !! id)).
Proof. by split. Qed.

(** From [P], a computation ends in a well-typed state, and in [Q] when it
    returns. *)
Abbreviation yields := (Requests.yields well_typed).

(** ** Downloads *)

Definition with_down (id : nat) (w : World) : Prop := well_typed w /\ is_Some (w_down w !! id).

#[export] Instance with_down_stable id : stable (with_down id).
Proof. apply stable_and; apply _. Qed.

Lemma with_down_typed id w : with_down id w -> well_typed w.
Proof. by intros []. Qed.

Lemma yields_getDown : yields well_typed getDown
  (fun r w => well_typed w /\ forall id, r = Some id -> is_Some (w_down w !! id)).
Proof.
  intros w Hw. unfold getDown. rewrite get_bind. destruct (w_ctx w) as [c|] eqn:Ec; [|done].
  destruct (HttpContext.customContext_ c) as [[u|id]|] eqn:Eu; [done| |done].
  split; [done|]. intros ? [= <-]. by apply (wt_custom w Hw c).
Qed.

Lemma yields_makeDown f o : yields well_typed (makeDown f o) with_down.
Proof.
  intros w [Hm Hf Hc Hb Hd]. unfold makeDown. rewrite get_bind.
  destruct (w_fs w !! f) as [c|] eqn:Ef; [|by split]. destruct (open_in_ok f); [|by split].
  assert (forall id, is_Some (w_down w !! id) ->
    is_Some (<[w_next w := FileDownContext.create f o c]> (w_down w) !! id)) as Hmore.
  { intros id Hi. apply lookup_insert_is_Some'. by right. }
  cbn. split; [split|]; cbn.
  - done.
  - intros id [<-|Hi]%lookup_insert_is_Some'; [lia|]. apply Hf in Hi. lia.
  - intros c0 id E1 E2. apply Hmore. by apply (Hc c0).
  - intros id E. apply Hmore. by apply Hb.
  - apply map_Forall_insert_2; [|done]. by split.
  - apply lookup_insert_is_Some'. by left.
Qed.

Lemma keeps_setCustom_down id : keeps (with_down id) (setCustom (Some (CDown id))).
Proof.
  apply keeps_modify. intros w [[Hm Hf Hc Hb Hd] Hi]. split; [split; cbn; try done|done].
  intros c id' Ec. destruct (w_ctx w); [|done]. injection Ec as <-. cbn. by intros [= <-].
Qed.

Lemma keeps_seek id p : keeps (with_down id)
  (modify (fun w => set_down (alter (fun d => FileDownContext.seekTo d p) id (w_down w)) (w_next w) w)).
Proof.
  apply keeps_modify. intros w [[Hm Hf Hc Hb Hd] Hi].
  assert (forall i, is_Some (alter (fun d => FileDownContext.seekTo d p) id (w_down w) !! i) <->
    is_Some (w_down w !! i)) as Hs.
  { intros i. destruct (decide (i = id)) as [->|]; [rewrite lookup_alter_eq, fmap_is_Some; done|].
    by rewrite lookup_alter_ne by done. }
  split; [split|]; cbn.
  - done.
  - intros i Hi'. by apply Hf, Hs.
  - intros c i E1 E2. apply Hs. by apply (Hc c).
  - intros i E. apply Hs. by apply Hb.
  - intros i d. destruct (decide (i = id)) as [->|].
    + rewrite lookup_alter_eq. intros (d0 & E & ->)%fmap_Some. by apply Hd in E.
    + rewrite lookup_alter_ne by done. apply Hd.
  - by apply Hs.
Qed.

Lemma yields_setWcc id : yields (with_down id) (setWriteCompleteCallback (CbDownload id)) (fun _ => well_typed).
Proof. intros w [[Hm Hf Hc Hb Hd] Hi]. cbn. split; cbn; try done. by intros ? [= <-]. Qed.

Ltac next_keeps := next; [apply yields_keeps; [by apply with_down_typed|]|].

Lemma keeps_startDownload_typed f o n part : keeps well_typed (startDownload f o n part).
Proof.
  apply keeps_yields. unfold startDownload.
  next; [apply yields_keeps; [done|keeps]|]. cbv beta. rename a into w0.
  destruct (w_ctx w0); [|apply yields_keeps; [done|keeps]].
  next; [apply yields_getDown|]. rename a into cur.
  eapply (yields_bind _ _ _ with_down).
  - destruct cur as [id|].
    + intros w1 [Hw1 Hs]. cbn. split; [done|]. by apply Hs.
    + intros w1 [Hw1 _]. revert w1 Hw1.
      next; [apply yields_makeDown|]. rename a into id.
      next_keeps; [apply keeps_setCustom_down|].
      next_keeps; [destruct part as [[s e]|]; keeps|].
      do 4 (next_keeps; [keeps|]). cbv zeta.
      next_keeps; [apply keeps_seek|].
      by intros w2 Hw2.
  - intros id. next; [apply yields_setWcc|]. by intros w2 Hw2.
Qed.

(** ** Every request *)

Lemma keeps_setCustom_typed x : (forall id, x <> Some (CDown id)) -> keeps well_typed (setCustom x).
Proof.
  intros Hx. apply keeps_modify. intros w [Hm Hf Hc Hb Hd]. split; cbn; try done.
  intros c id Ec. destruct (w_ctx w); [|done]. injection Ec as <-. cbn. intros E. by destruct (Hx id).
Qed.

Lemma keeps_set_mapping_typed g : (forall w, OrdMap.sorted (w_mapping w) -> OrdMap.sorted (g w)) ->
  keeps well_typed (modify (fun w => set_mapping (g w) w)).
Proof. intros Hg. apply keeps_modify. intros w []. split; cbn; try done. by apply Hg. Qed.

(** A change that the open downloads see. *)
Lemma typed_map g fs w : (forall d, down_ok (w_fs w) d -> down_ok fs (g d)) ->
  well_typed w -> well_typed (set_fs fs (set_down (g <$> w_down w) (w_next w) w)).
Proof.
  intros Hg [Hm Hf Hc Hb Hd].
  assert (forall i, is_Some ((g <$> w_down w) !! i) <-> is_Some (w_down w !! i)) as Hs
    by (intros; by rewrite lookup_fmap, fmap_is_Some).
  split; cbn.
  - done.
  - intros i Hi. by apply Hf, Hs.
  - intros c i E1 E2. apply Hs. by apply (Hc c).
  - intros i E. apply Hs. by apply Hb.
  - apply map_Forall_fmap. eapply map_Forall_impl; [exact Hd|]. intros i d. apply Hg.
Qed.

Lemma put_file_typed p s w : well_typed w -> well_typed (put_file p s w).
Proof.
  apply typed_map. intros d [Hl Hw]. unfold written. destruct (d_linked d) eqn:El; cbn.
  - case_bool_decide as Hp; cbn; (split; cbn; [|done]); intros _.
    + by rewrite Hp, lookup_insert_eq.
    + rewrite lookup_insert_ne by done. by apply Hl.
  - split; [by rewrite El|done].
Qed.

Lemma remove_file_typed p w : well_typed w -> well_typed (remove_file p w).
Proof.
  apply typed_map. intros d [Hl Hw]. unfold unlinked. case_bool_decide as Hp; (split; cbn; [|done]); [done|].
  intros E. rewrite lookup_delete_ne by done. by apply Hl.
Qed.

Lemma onRequest_typed w : well_typed w -> well_typed (onRequest w).2.
Proof.
  apply keeps_onRequest; [apply _|by intros ? ? []|apply put_file_typed|apply remove_file_typed
    |apply keeps_set_mapping_typed|apply keeps_setCustom_typed|intros f o n part _; apply keeps_startDownload_typed].
Qed.

(** The download of a callback is alive. *)
Definition alive (w : World) (cb : callback) : Prop := forall id, cb = CbDownload id -> is_Some (w_down w !! id).

(** A callback finds its object. *)
Lemma alive_runs w cb : well_typed w -> alive w cb ->
  exists a w', run_callback cb w = (Ok a, w') /\ well_typed w' /\
    forall i, is_Some (w_down w !! i) -> is_Some (w_down w' !! i).
Proof.
  intros [Hm Hf Hc Hb Hd] Halive. destruct cb as [|id]; [by exists WcShutdown, w|].
  destruct (Halive id eq_refl) as [d Ed]. unfold run_callback. rewrite get_bind, Ed.
  rewrite (bind_ok (of_option (Some d)) _ w d w) by done.
  destruct (FileDownContext.readNextChunk d) as [chunk d'] eqn:En.
  do 2 eexists. split; [reflexivity|].
  assert (forall i, is_Some (<[id := d']> (w_down w) !! i) <-> is_Some (w_down w !! i)) as Hs.
  { intros i. rewrite lookup_insert_is_Some'. split; [|by right]. intros [<-|?]; [by eexists|done]. }
  split; [split; cbn|intros i; cbn; apply Hs].
  - done.
  - intros i Hi. by apply Hf, Hs.
  - intros c i E1 E2. apply Hs. by apply (Hc c).
  - intros i E. apply Hs. by apply Hb.
  - apply map_Forall_insert_2; [|done]. destruct (Hd id d Ed) as [Hz Hp].
    unfold FileDownContext.readNextChunk in En. destruct (d_isComplete d); [by simplify_eq|].
    destruct (Z.min _ _ =? 0)%Z; [by simplify_eq|].
    destruct (FileDownContext.stream_read d _). by simplify_eq.
Qed.

Lemma callback_runs w cb : well_typed w -> w_wcc w = Some cb ->
  exists a w', run_callback cb w = (Ok a, w') /\ well_typed w'.
Proof.
  intros Hw E. destruct (alive_runs w cb Hw) as (a & w' & Er & Hw' & _); [|by exists a, w'].
  intros id ->. by apply (wt_callback w Hw).
Qed.

(** ** Every state the program reaches

    The life of a connection, as far as the handlers see it: it comes up or goes
    down, the parser replaces the request in its context, a request is
    dispatched on a new response, and the callback it left runs. *)
Inductive step : World -> World -> Prop :=
| step_connection connected w : step w (Routes.onConnection connected w).2
| step_parsed c c0 w : w_ctx w = Some c0 ->
    HttpContext.customContext_ c = HttpContext.customContext_ c0 -> step w (set_ctx (Some c) w)
| step_request close r w : step w (onRequest (set_resp (HttpResponse.create close) (set_req r w))).2
| step_callback cb w : w_wcc w = Some cb -> step w (run_callback cb w).2.

Lemma onConnection_typed connected w : well_typed w -> well_typed (Routes.onConnection connected w).2.
Proof.
  assert (forall c w, HttpContext.customContext_ c = None -> well_typed w ->
    well_typed (set_ctx (Some c) w) /\ well_typed (set_ctx None w)) as Hset.
  { intros c w1 Hn [Hm Hf Hc Hb Hd]. split; split; cbn; try done. intros ? id [= <-]. by rewrite Hn. }
  intros Hw. destruct connected; [by apply (Hset HttpContext.create w)|]. unfold onConnection. rewrite get_bind.
  destruct (w_ctx w) as [c|] eqn:Ec; [|by apply (Hset HttpContext.create w)].
  unfold getUpload, mbind, M_bind, get. rewrite Ec.
  destruct (HttpContext.customContext_ c) as [[u|id]|]; cbn; try done; by apply (Hset HttpContext.create w).
Qed.

Lemma step_typed w w' : step w w' -> well_typed w -> well_typed w'.
Proof.
  intros [connected w1|c c0 w1 Ec Eq|close r w1|cb w1 Ecb] Hw.
  - by apply onConnection_typed.
  - pose proof Hw as [Hm Hf Hc Hb Hd]. split; cbn; try done. intros c1 id [= <-] E.
    apply (Hc c0); [done|]. by rewrite <- Eq.
  - apply onRequest_typed. destruct Hw. by split.
  - destruct (callback_runs w1 cb Hw Ecb) as (x & w2 & -> & ?). done.
Qed.

Lemma steps_typed w w' : rtc step w w' -> well_typed w -> well_typed w'.
Proof. induction 1; eauto using step_typed. Qed.

Lemma construct_typed n dir a db fs random clock h :
  Startup.construct n dir a db fs random clock = Some h -> well_typed (Startup.h_world h).
Proof.
  unfold Startup.construct. cbn [ThreadPool.ThreadPool.start ThreadPool.ThreadPool.create
    ThreadPool.ThreadPool.running_ mbind option_bind].
  destruct (Startup.initDatabase a) as [ok my].
  pose proof (keeps_loadMapping well_typed keeps_set_mapping_typed (Startup.initial_world my db fs random clock)) as Hk.
  destruct (loadFilenameMappingInternal _) as [r w]. intros [= <-]. apply Hk.
  split; cbn; try done; [constructor|]. intros id Hid. rewrite lookup_empty in Hid. by destruct Hid.
Qed.

End well_typed.
