(* ===== verification/ProgramTyped.v ===== *)
(** * The whole program is well typed

    However many connections the loop serves, what their contexts and their
    callbacks refer to stays alive, and so does what the queued functors need,
    although everything that nobody holds is freed: nothing that was freed is
    used. *)

From S2P Require Import Prelude CxxString TimeStamp OrdMap HttpRequest HttpContext HttpResponse World.
From S2P Require Import Session Accounts Upload Download Files Share Routes Handlers Requests.
From S2P Require Import Channel TcpConnection TcpStream HttpServer Delivery Program ProgramFacts WellTyped.
Import HttpServer.

(** ** What stays alive *)

Section alive.
Context `{Platform}.

(** The callbacks that nobody may hold. *)
Definition dead (w : World) (cb : callback) : Prop := exists i, cb = CbDownload i /\ w_down w !! i = None.

Lemma not_dead w cb : ~ dead w cb -> alive w cb.
Proof. intros Hd i ->. destruct (w_down w !! i) eqn:E; [done|]. destruct Hd. by exists i. Qed.

Lemma alive_not_dead w cb : alive w cb -> ~ dead w cb.
Proof. intros Ha (i & -> & E). destruct (Ha i eq_refl) as [d Hd]. congruence. Qed.

Lemma dead_shrinks w w' : (forall i, is_Some (w_down w !! i) -> is_Some (w_down w' !! i)) ->
  forall cb, dead w' cb -> dead w cb.
Proof.
  intros Hi cb (i & -> & E). exists i. split; [done|]. destruct (w_down w !! i) eqn:E1; [|done].
  destruct (Hi i) as [d' Hd]; [by rewrite E1|congruence].
Qed.

Abbreviation has i := (fun w => is_Some (w_down w !! i)).

Lemma keeps_makeDown_has i f o : keeps (has i) (makeDown f o).
Proof.
  intros w Hw. unfold makeDown. rewrite get_bind. destruct (w_fs w !! f); [|done].
  destruct (open_in_ok f); [|done]. cbn.
  apply lookup_insert_is_Some'. by right.
Qed.
Hint Resolve keeps_makeDown_has : keeps.

Lemma keeps_startDownload_has i f o n part : keeps (has i) (startDownload f o n part).
Proof.
  unfold startDownload, getDown, setCustom. keeps. apply keeps_modify. intros w [d Hd]. cbn.
  destruct (decide (i = a0)) as [->|]; [rewrite lookup_alter_eq, Hd|rewrite lookup_alter_ne by done]; by eexists.
Qed.

(** Every request keeps every download. *)
Lemma keeps_onRequest_has i : keeps (has i) Routes.onRequest.
Proof.
  apply keeps_onRequest; [apply _|done| | | | |intros f o n part _; apply keeps_startDownload_has].
  1,2: intros; cbn; by rewrite lookup_fmap, fmap_is_Some.
  all: intros; unfold setCustom; keeps; by apply keeps_modify.
Qed.

Lemma keeps_onConnection_has i b : keeps (has i) (Routes.onConnection b).
Proof. unfold Routes.onConnection, getUpload. destruct b; keeps; by apply keeps_modify. Qed.

Lemma well_typed_ctx w c c0 : w_ctx w = Some c0 ->
  HttpContext.customContext_ c = HttpContext.customContext_ c0 \/ HttpContext.customContext_ c = None ->
  well_typed w -> well_typed (set_ctx (Some c) w).
Proof.
  intros Ec Ecc [Hm Hf Hc Hb Hd]. split; cbn; try done. intros c1 i [= <-] E.
  destruct Ecc as [Ecc|Ecc]; [|congruence]. apply (Hc c0); [done|congruence].
Qed.

#[export] Instance typed_separated : separated well_typed dead.
Proof.
  split.
  - by intros r w [].
  - by intros r w [].
  - intros c c0 w. apply well_typed_ctx.
  - intros w cb Hw (i & -> & E) Ecb. destruct (wt_callback w Hw i Ecb). congruence.
  - intros w w' cb E (i & -> & Ei). exists i. by rewrite <- E.
  - intros w Hw. split; [by apply onRequest_typed|]. apply dead_shrinks. intros i. apply keeps_onRequest_has.
  - intros w k Hw Hk. destruct (alive_runs w k Hw (not_dead w k Hk)) as (a & w' & -> & Hw' & Hi).
    split; [done|]. by apply dead_shrinks.
  - intros b w Hw. split; [by apply onConnection_typed|]. apply dead_shrinks. intros i. apply keeps_onConnection_has.
Qed.

End alive.

(** ** The invariant *)

Section typed.
Context `{Platform}.
Import Program.
Abbreviation task := (TcpConnection.task callback).

(** [ks] are the functors that the loop has taken and not run yet. *)
Record snug (w : World) (lk : link) : Prop := {
  sn_queue : TcpConnection.queue (l_tcp lk) = [];
  sn_apart : apart well_typed dead (focus lk w)
}.

Definition task_ok (p : t) (k : nat * task) : Prop :=
  is_Some (links p !! k.1) /\ forall cb, k.2 = TcpConnection.TWriteComplete cb -> alive (shared p) cb.

Record typed (ks : list (nat * task)) (p : t) : Prop := {
  ty_world : well_typed (shared p);
  ty_links : map_Forall (fun _ lk => snug (shared p) lk) (links p);
  ty_tasks : Forall (task_ok p) (ks ++ pending p)
}.

Lemma well_typed_focus lk w w' :
  well_typed (world (focus lk w)) -> well_typed w' -> (forall cb, dead w' cb -> dead w cb) ->
  well_typed (world (focus lk w')).
Proof.
  intros [_ _ Hc Hb _] [Hm Hf _ _ Hd] Hs. cbn in *.
  assert (forall i, is_Some (w_down w !! i) -> is_Some (w_down w' !! i)) as Hi.
  { intros i [d Ed]. destruct (w_down w' !! i) eqn:E; [done|].
    destruct (Hs (CbDownload i)) as (? & [= <-] & ?); [by exists i|congruence]. }
  split; cbn; try done; eauto.
Qed.

Lemma snug_later lk w w' : well_typed w' -> (forall cb, dead w' cb -> dead w cb) -> snug w lk -> snug w' lk.
Proof.
  intros Hw Hs [Hq [Hu Hm]]. split; [done|]. split; [by eapply well_typed_focus|].
  intros cb Hd. by apply Hm, Hs.
Qed.

(** The connection after it has acted. *)
Lemma snug_acted s : apart well_typed dead s ->
  snug (world s) (mkLink (TcpConnection.clearQueue (tcp s)) (w_ctx (world s))).
Proof.
  intros [Hu Hm]. split; [done|]. split; cbn.
  - destruct Hu as [H1 H2 H3 H4 H5]. split; cbn; try done. intros i E.
    destruct (w_down (world s) !! i) eqn:Ei; [done|].
    destruct (Hm (CbDownload i)) as [Hwcc _]; [by exists i|]. by destruct Hwcc.
  - intros cb Hd. destruct (Hm cb Hd) as [Hwcc _]. split; [done|]. cbn. apply not_elem_of_nil.
Qed.

Lemma act_typed id f ks p p' :
  (forall s, w_down (world s) = w_down (shared p) -> apart well_typed dead s -> stays well_typed dead (world s) (f s)) ->
  typed ks p -> act id f p = inr p' -> typed ks p'.
Proof.
  intros Hf [Hw Hl Ht]. unfold act. destruct (links p !! id) as [lk|] eqn:El; [|done].
  destruct (Hl id lk El) as [_ Ha]. specialize (Hf (focus lk (shared p)) eq_refl Ha).
  destruct (f (focus lk (shared p))) as [e|s] eqn:Ef; [done|]. intros [= <-].
  destruct (Hf s eq_refl) as [Ha' Hs0].
  assert (forall cb, dead (world s) cb -> dead (shared p) cb) as Hs by exact Hs0.
  pose proof (ap_world _ _ _ Ha') as Hw'.
  assert (forall k, task_ok p k -> task_ok (mk (<[id := mkLink (TcpConnection.clearQueue (tcp s)) (w_ctx (world s))]> (links p))
     (pending p ++ (pair id <$> TcpConnection.queue (tcp s))) (world s)) k) as Hok.
  { intros [i k] [Hi Hk]. split; [apply lookup_insert_is_Some'; by right|]. intros cb E. apply not_dead.
    intros Hd%Hs. by destruct (alive_not_dead _ _ (Hk cb E)). }
  split; cbn [shared links pending].
  - done.
  - apply map_Forall_insert_2; [by apply snug_acted|]. eapply map_Forall_impl; [exact Hl|]. intros i lk'. by apply snug_later.
  - rewrite app_assoc. apply Forall_app. split; [by eapply Forall_impl|].
    apply Forall_forall. intros k (k0 & -> & Hk0)%list_elem_of_fmap. split; cbn [links fst snd].
    + apply lookup_insert_is_Some'. by left.
    + intros cb ->. apply not_dead. intros Hd. by destruct (ap_tcp _ _ _ Ha' cb Hd).
Qed.

Lemma typed_done k ks p : typed (k :: ks) p -> typed ks p.
Proof. intros [Hw Hl Ht]. split; [done..|]. by apply Forall_cons in Ht as [_ ?]. Qed.

Lemma typed_connecting ks id fd outcomes p : typed ks p -> links p !! id = None ->
  typed ks (mk (<[id := mkLink (TcpConnection.create fd outcomes) None]> (links p)) (pending p) (shared p)).
Proof.
  intros [Hw Hl Ht] Ei. split; cbn [links pending shared]; [done| |].
  - apply map_Forall_insert_2; [|done]. split; [done|]. split; cbn.
    + destruct Hw. by split.
    + intros cb _. split; [done|]. apply not_elem_of_nil.
  - eapply Forall_impl; [exact Ht|]. intros k [Hi Hk]. split; [|done]. apply lookup_insert_is_Some'. by right.
Qed.

(** *** Releasing *)

Lemma held_link ks p c lk i : links p !! c = Some lk -> i ∈ link_holds lk -> i ∈ held ks p.
Proof.
  intros El Hi. apply elem_of_app. left. apply list_elem_of_In, in_concat. exists (link_holds lk).
  split; [|by apply list_elem_of_In]. apply list_elem_of_In, list_elem_of_fmap. exists lk. split; [done|].
  apply list_elem_of_fmap. exists (c, lk). split; [done|]. by apply elem_of_map_to_list.
Qed.

Lemma held_functor ks p k i : k ∈ ks ++ pending p -> i ∈ functor_holds k -> i ∈ held ks p.
Proof.
  intros Hk Hi. apply elem_of_app. right. apply list_elem_of_In, in_concat. exists (functor_holds k).
  split; [|by apply list_elem_of_In]. apply list_elem_of_In, list_elem_of_fmap. by exists k.
Qed.

(** Who holds an object. *)
Lemma held_inv ks p i : i ∈ held ks p ->
  (exists c lk, links p !! c = Some lk /\ i ∈ link_holds lk) \/
  exists k, k ∈ ks ++ pending p /\ i ∈ functor_holds k.
Proof.
  intros [Hi|Hi]%elem_of_app; apply list_elem_of_In, in_concat in Hi as (l & Hl & Hi);
    apply list_elem_of_In in Hi; apply list_elem_of_In, list_elem_of_fmap in Hl as (x & -> & Hx).
  - left. apply list_elem_of_fmap in Hx as ([c lk] & -> & Hx%elem_of_map_to_list). by exists c, lk.
  - right. by exists x.
Qed.

Lemma release_lookup ks p i d :
  w_down (shared (release ks p)) !! i = Some d <-> w_down (shared p) !! i = Some d /\ i ∈ held ks p.
Proof. cbn. by rewrite map_lookup_filter_Some. Qed.

Lemma release_alive ks p i : i ∈ held ks p -> is_Some (w_down (shared p) !! i) ->
  is_Some (w_down (shared (release ks p)) !! i).
Proof. intros Hi [d Hd]. exists d. by apply release_lookup. Qed.

Lemma link_holds_context lk c i : l_context lk = Some c -> HttpContext.customContext_ c = Some (CDown i) -> i ∈ link_holds lk.
Proof. intros E1 E2. apply elem_of_app. left. unfold context_holds. rewrite E1. cbn. rewrite E2. by constructor. Qed.

Lemma link_holds_callback lk i : TcpConnection.writeCompleteCallback_ (l_tcp lk) = Some (CbDownload i) -> i ∈ link_holds lk.
Proof. intros E. apply elem_of_app. right. rewrite E. by constructor. Qed.

Lemma release_well_typed ks p : well_typed (shared p) -> well_typed (shared (release ks p)).
Proof.
  intros [Hm Hf _ _ Hd]. split; cbn; try done.
  - intros i [d Hi]. apply Hf. apply map_lookup_filter_Some in Hi as [Hi _]. by eexists.
  - intros i d Hi. apply map_lookup_filter_Some in Hi as [Hi _]. by apply (Hd i).
Qed.

Lemma release_snug ks p c lk : well_typed (shared p) -> links p !! c = Some lk -> snug (shared p) lk ->
  snug (shared (release ks p)) lk.
Proof.
  intros Hw El [Hq [[_ _ Hc Hb _] _]]. split; [done|].
  assert (forall i, TcpConnection.writeCompleteCallback_ (l_tcp lk) = Some (CbDownload i) ->
    is_Some (w_down (shared (release ks p)) !! i)) as Hcb.
  { intros i E. apply release_alive; [|by apply Hb]. eapply held_link; [exact El|by apply link_holds_callback]. }
  split.
  - destruct (release_well_typed ks p Hw) as [Hm' Hf' _ _ Hd']. split; cbn [focus world] in *; try done.
    intros c0 i E1 E2. apply release_alive; [|by apply (Hc c0)].
    eapply held_link; [exact El|by eapply link_holds_context].
  - intros cb (i & -> & E). split; [|cbn; rewrite Hq; apply not_elem_of_nil].
    intros Ecb. destruct (Hcb i Ecb) as [d Hd].
    by rewrite (E : w_down (shared (release ks p)) !! i = None) in Hd.
Qed.

Lemma release_task ks p k : k ∈ ks ++ pending p -> task_ok p k -> task_ok (release ks p) k.
Proof.
  intros Hin [Hi Ha]. split; [done|]. intros cb E i ->. apply release_alive; [|by apply (Ha (CbDownload i))].
  eapply held_functor; [exact Hin|]. unfold functor_holds. rewrite E. by constructor.
Qed.

Lemma release_typed all ks p : ks ⊆ all -> typed ks p -> typed ks (release all p).
Proof.
  intros Hks [Hw Hl Ht]. split.
  - by apply release_well_typed.
  - intros c lk El. eapply release_snug; [done|exact El|by apply (Hl c)].
  - apply Forall_forall. intros k Hk. apply release_task; [|by apply (proj1 (Forall_forall _ _) Ht)].
    apply elem_of_app in Hk as [Hk|Hk]; apply elem_of_app; [left; by apply Hks|by right].
Qed.

Lemma destroy_typed ids p : typed [] p -> typed [] (destroy ids p).
Proof.
  intros [Hw Hl Ht]. split; cbn [destroy shared links pending] in *; [done| |].
  - intros c lk [El _]%map_lookup_filter_Some. by apply (Hl c).
  - apply Forall_forall. intros [c k] Hk. destruct (proj1 (Forall_forall _ _) Ht _ Hk) as [[lk El] Ha].
    split; [|done]. exists lk. cbn. apply map_lookup_filter_Some. split; [done|]. intros _.
    apply list_elem_of_fmap. by exists (c, k).
Qed.

(** *** Nothing that is gone is used *)

Lemma safe_onConnection b s : connectionCallback Routes.onConnection b s <> inl CFreed.
Proof. unfold connectionCallback. by destruct (Routes.onConnection b (world s)) as [[a|e|] w]. Qed.

Lemma safe_tcp f s : on_tcp Routes.onConnection f s <> inl CFreed.
Proof. unfold on_tcp. destruct (f (tcp s)); [|done]. destruct (_ && _); [apply safe_onConnection|done]. Qed.

Lemma safe_establish s : establish s <> inl CFreed.
Proof.
  unfold establish. pose proof (safe_tcp TcpConnection.connectEstablished s) as Hs.
  destruct (on_tcp _ _ s); [intros [= ->]; by apply Hs|apply safe_onConnection].
Qed.

Lemma safe_onRequest s req : onRequest Routes.onRequest Routes.onConnection s req <> inl CFreed.
Proof.
  unfold onRequest. destruct (call _ _ s) as [[[|]|e|] s1]; try done.
  destruct (HttpResponse.appendToBuffer _ _); [|done]. unfold send.
  match goal with |- context [on_tcp ?a ?f ?x] => pose proof (safe_tcp f x) as Hs; destruct (on_tcp a f x) end; [intros [= ->]; by apply Hs|done].
Qed.

Lemma safe_onMessage fuel now s : onMessage Routes.onRequest Routes.onConnection fuel now s <> inl CFreed.
Proof.
  unfold onMessage. destruct (w_ctx (world s)); [|done].
  destruct (HttpContext.parseRequest _ _ _ _) as [[[c b] r]| | |]; [|done..]. set (s1 := after_parse s c b). destruct r.
  - unfold send. match goal with |- context [on_tcp ?a ?f ?x] => pose proof (safe_tcp f x) as Hs; destruct (on_tcp a f x) end; [intros [= ->]; by apply Hs|done].
  - done.
  - destruct (_ && _)%bool; [|done]. by destruct (call _ _ s1) as [[a|e|] s2].
  - match goal with |- context [onRequest ?a ?b ?x ?q] => pose proof (safe_onRequest x q) as Hs; destruct (onRequest a b x q) as [|[[|] ?]] end;
      [intros [= ->]; by apply Hs|done..].
Qed.

Lemma safe_read fuel now r s : read fuel now r s <> inl CFreed.
Proof.
  unfold read. match goal with |- context [on_tcp ?a ?f ?x] => pose proof (safe_tcp f x) as Hs; destruct (on_tcp a f x) end;
    [intros [= ->]; by apply Hs|]. destruct r as [e|[|b d]]; [done..|apply safe_onMessage].
Qed.

(** A callback whose object is alive. *)
Lemma safe_runTask k s : (forall cb, k = TcpConnection.TWriteComplete cb -> alive (world s) cb) ->
  runTask k s <> inl CFreed.
Proof.
  intros Hk. destruct k as [|cb| | | |]; cbn [runTask]; try apply safe_tcp.
  unfold writeComplete. assert (freed cb (world s) = false) as ->.
  { destruct cb as [|i]; [done|]. cbn. by destruct (Hk _ eq_refl i eq_refl) as [d ->]. }
  destruct (run_callback cb (world s)) as [[[chunk|]|e|] w]; try done. apply safe_tcp.
Qed.

(** *** The steps *)

(** An invariant is kept, and nothing that is gone is used. *)
Definition sound (Q : t -> Prop) (r : crash + t) : Prop :=
  r <> inl CFreed /\ forall p, r = inr p -> Q p.

Lemma sound_inr (Q : t -> Prop) p : Q p -> sound Q (inr p).
Proof. intros Hp. split; [done|]. by intros ? [= <-]. Qed.

Lemma sound_bind (Q R : t -> Prop) r f : sound Q r -> (forall p, Q p -> sound R (f p)) ->
  sound R (match r with inl x => inl x | inr p => f p end).
Proof. intros [Hs Hq] Hf. destruct r as [x|p]; [|by apply Hf, Hq]. split; [by intros [= ->]; apply Hs|done]. Qed.

Lemma run_typed all ks id f p :
  ks ⊆ all -> is_Some (links p !! id) ->
  (forall s, w_down (world s) = w_down (shared p) -> f s <> inl CFreed) ->
  (forall s, w_down (world s) = w_down (shared p) -> apart well_typed dead s -> stays well_typed dead (world s) (f s)) ->
  typed ks p -> sound (typed ks) (run all id f p).
Proof.
  intros Hks [lk El] Hs Hf Hp. unfold run. apply (sound_bind (typed ks)).
  - split; [|intros p'; by apply act_typed]. unfold act. rewrite El.
    pose proof (Hs (focus lk (shared p)) eq_refl) as Hn. destruct (f _); [intros [= ->]; by apply Hn|done].
  - intros p' Hp'. apply sound_inr. by apply release_typed.
Qed.

Lemma on_event_typed id f p :
  (forall s, f s <> inl CFreed) -> (forall s, apart well_typed dead s -> stays well_typed dead (world s) (f s)) ->
  typed [] p -> sound (typed []) (on_event id f p).
Proof.
  intros Hs Hf Hp. unfold on_event. destruct (links p !! id) as [lk|] eqn:El; [|by apply sound_inr].
  destruct (is_closed lk); [by apply sound_inr|]. apply run_typed; auto; done.
Qed.

Lemma handle_typed fuel e p : typed [] p -> sound (typed []) (handle fuel e p).
Proof.
  intros Hp. destruct e as [id fd os|id now r|id|id]; cbn [handle].
  - destruct (links p !! id) eqn:Ei; [by apply sound_inr|]. unfold connect.
    apply run_typed; [done|cbn; rewrite lookup_insert_eq; by eexists|intros; apply safe_establish| |by apply typed_connecting].
    intros s _. exact (stays_establish _ _ s).
  - apply on_event_typed; [apply safe_read|intros s; exact (stays_read _ _ fuel now r s)|done].
  - apply on_event_typed; [apply safe_tcp| |done]. intros s. apply (stays_tcp _ _). intros cb. apply hushed_handleWrite.
  - apply on_event_typed; [apply safe_tcp| |done]. intros s. apply (stays_tcp _ _). intros cb. apply hushed_handleClose.
Qed.

Lemma handleAll_typed fuel es : forall p, typed [] p -> sound (typed []) (handleAll fuel es p).
Proof.
  induction es as [|e es IH]; intros p Hp; cbn [handleAll]; [by apply sound_inr|].
  apply (sound_bind (typed [])); [by apply handle_typed|apply IH].
Qed.

Lemma runFunctors_typed all ks : forall p, ks ⊆ all -> typed ks p -> sound (typed []) (runFunctors all ks p).
Proof.
  induction ks as [|[id k] ks IH]; intros p Hks Hp; cbn [runFunctors]; [by apply sound_inr|].
  pose proof (ty_tasks _ _ Hp) as Ht. apply Forall_cons in Ht as [[Hi Hk] _]. cbn in Hi, Hk.
  assert (ks ⊆ all) as Hks' by set_solver.
  apply (sound_bind (typed ks)); [|intros; by apply IH]. apply run_typed; try done.
  - intros s Es. apply safe_runTask. intros cb -> i Ei. rewrite Es. by apply (Hk cb).
  - intros s Es Hs. apply (stays_runTask _ _); [|done]. intros cb ->.
    apply alive_not_dead. intros i Ei. rewrite Es. by apply (Hk cb).
  - by eapply typed_done.
Qed.

Lemma turn_typed fuel es p : typed [] p -> sound (typed []) (turn fuel es p).
Proof.
  intros Hp. unfold turn. apply (sound_bind (typed [])); [by apply handleAll_typed|]. intros p1 [Hw Hl Ht].
  unfold doPendingFunctors. apply (sound_bind (typed [])).
  - apply runFunctors_typed; [done|]. split; cbn; rewrite ?app_nil_r; done.
  - intros p2 Hp2. apply sound_inr. by apply release_typed, destroy_typed.
Qed.

Lemma loop_typed fuel ts : forall p, typed [] p -> sound (typed []) (loop fuel ts p).
Proof.
  induction ts as [|es ts IH]; intros p Hp; cbn [loop]; [by apply sound_inr|].
  apply (sound_bind (typed [])); [by apply turn_typed|apply IH].
Qed.

Lemma start_typed w : well_typed w -> typed [] (start w).
Proof. by split. Qed.

(** A turn ends with what is held, and no more. *)
Lemma turn_releases fuel es p p' : turn fuel es p = inr p' -> exists p1, p' = release [] p1.
Proof.
  unfold turn, doPendingFunctors. destruct (handleAll fuel es p); [done|].
  destruct (runFunctors _ _ _); [done|]. intros [= <-]. by eexists.
Qed.

Lemma captured_elem cb i : i ∈ captured cb -> cb = CbDownload i.
Proof. destruct cb as [|j]; intros Hi; [by apply not_elem_of_nil in Hi|]. by apply list_elem_of_singleton in Hi as ->. Qed.

Lemma typed_held p i : typed [] p -> i ∈ held [] p -> is_Some (w_down (shared p) !! i).
Proof.
  intros [Hw Hl Ht] [(c & lk & El & Hi)|(k & Hk & Hi)]%held_inv.
  - destruct (sn_apart _ _ (Hl c lk El)) as [[_ _ Hc Hb _] _]. apply elem_of_app in Hi as [Hi|Hi].
    + unfold context_holds in Hi. destruct (l_context lk) as [x|] eqn:Ex; cbn in Hi; [|by apply not_elem_of_nil in Hi].
      destruct (HttpContext.customContext_ x) as [[u|j]|] eqn:Ej; [by apply not_elem_of_nil in Hi| |by apply not_elem_of_nil in Hi].
      apply list_elem_of_singleton in Hi as ->. by apply (Hc x).
    + destruct (TcpConnection.writeCompleteCallback_ _) as [cb|] eqn:Ecb; [|by apply not_elem_of_nil in Hi].
      apply captured_elem in Hi as ->. by apply Hb.
  - destruct (proj1 (Forall_forall _ _) Ht k Hk) as [_ Ha]. unfold functor_holds in Hi.
    destruct (k.2) as [|cb| | | |] eqn:Ek; try by apply not_elem_of_nil in Hi.
    apply captured_elem in Hi as ->. by apply (Ha _ eq_refl).
Qed.

End typed.
