(* ===== verification/Downloads.v ===== *)
(** * A download among others

    A client downloads a file while the loop serves any number of other
    connections: what they do, and what the application does for them, does not
    touch the download but for the file it reads, and it ends as on a connection
    that is alone. *)

From S2P Require Import Prelude CxxString TimeStamp ByteBuffer OrdMap HttpParse HttpRequest HttpContext HttpResponse World.
From S2P Require Import Session Accounts Upload Download Files Share Routes Handlers Requests Streaming.
From S2P Require Import Channel TcpConnection TcpStream HttpServer HttpServing Delivery Program ProgramFacts WellTyped ProgramTyped.
Import HttpServer Program.

Section ongoing.
Context `{Platform} (live : bool) (base file : bytes) (c id : nat).
Abbreviation task := (TcpConnection.task callback).

(** ** No download is made, and no file written *)

(** What identities are used, and whether the file of the download was written. *)
Definition mark (w : World) : nat * option bool := (w_next w, d_written <$> w_down w !! id).

#[export] Instance mark_stable x : stable (fun w => mark w = x).
Proof. by split. Qed.

Lemma keeps_onConnection_mark x b : keeps (fun w => mark w = x) (Routes.onConnection b).
Proof. unfold Routes.onConnection, getUpload. destruct b; keeps; by apply keeps_modify. Qed.

Lemma on_tcp_mark f s s' : on_tcp Routes.onConnection f s = inr s' -> mark (world s') = mark (world s).
Proof.
  unfold on_tcp. destruct (f (tcp s)) as [tc|]; [|done]. destruct (_ && _); [|by intros [= <-]].
  unfold connectionCallback. pose proof (keeps_onConnection_mark _ false (world s) eq_refl) as Hk.
  cbn [world]. destruct (Routes.onConnection false (world s)) as [[a|e|] w]; [by intros [= <-]|done|done].
Qed.

Lemma readNextChunk_written d : d_written (FileDownContext.readNextChunk d).2 = d_written d.
Proof.
  unfold FileDownContext.readNextChunk. destruct (d_isComplete d); [done|].
  destruct (_ =? 0)%Z; [done|]. by destruct (FileDownContext.stream_read d _).
Qed.

Lemma keeps_callback_mark x cb : keeps (fun w => mark w = x) (run_callback cb).
Proof.
  intros w <-. destruct cb as [|i]; [done|]. cbn [run_callback]. rewrite get_bind.
  destruct (w_down w !! i) as [d|] eqn:Ed; [|done]. rewrite (bind_ok (of_option (Some d)) _ w d w) by done.
  pose proof (readNextChunk_written d) as Hw. destruct (FileDownContext.readNextChunk d) as [ch d'].
  cbn in Hw.
  change (mark (set_down (<[i := d']> (w_down w)) (w_next w) w) = mark w). unfold mark. cbn [w_down w_next set_down].
  apply (f_equal (pair _)). destruct (decide (i = id)) as [->|Hi]; [by rewrite lookup_insert_eq, Ed; cbn; rewrite Hw|].
  by rewrite lookup_insert_ne.
Qed.

Lemma runTask_mark k s s' : Delivery.runTask k s = inr s' -> mark (world s') = mark (world s).
Proof.
  destruct k as [|cb| | | |]; cbn [runTask]; try apply on_tcp_mark.
  unfold writeComplete. destruct (freed cb _); [done|].
  pose proof (keeps_callback_mark _ cb (world s) eq_refl) as Hk.
  destruct (run_callback cb (world s)) as [[[chunk|]|e|] w]; cbn in Hk; [|by intros [= <-]|done|done].
  unfold send. intros E%on_tcp_mark. by rewrite E.
Qed.

(** ** The connection's own functors *)

Definition own (ks : list (nat * task)) : list task := snd <$> List.filter (fun k => k.1 =? c) ks.

Lemma own_app ks ks' : own (ks ++ ks') = own ks ++ own ks'.
Proof. unfold own. by rewrite List.filter_app, fmap_app. Qed.

Lemma own_same q : own (pair c <$> q) = q.
Proof. unfold own. induction q as [|k q IH]; [done|]. cbn. rewrite Nat.eqb_refl. cbn. by f_equal. Qed.

Lemma own_other c' q : c' <> c -> own (pair c' <$> q) = [].
Proof.
  intros Hc. unfold own. induction q as [|k q IH]; [done|]. cbn.
  by destruct (Nat.eqb_spec c' c).
Qed.

Lemma own_cons c' k ks : own ((c', k) :: ks) = if c' =? c then k :: own ks else own ks.
Proof. unfold own. cbn. by destruct (c' =? c). Qed.

(** ** What the other connections know *)

Definition mine (_ : World) (cb : callback) : Prop := cb = CbDownload id.

#[export] Instance unaware_separated x : separated (unaware id x) mine.
Proof.
  split.
  - by intros r w [].
  - by intros r w [].
  - intros k k0 w Ek Ec [Hd Hn Hc Hw]. split; cbn; try done. intros ? [= <-] E.
    destruct Ec as [Ec|Ec]; [|congruence]. apply (Hc k0); [done|congruence].
  - intros w cb [Hd Hn Hc Hw] ->. done.
  - by intros.
  - intros w Hw. split; [by apply keeps_onRequest_unaware|done].
  - intros w k Hw Hk. split; [by apply keeps_callback_unaware|done].
  - intros b w Hw. split; [by apply keeps_onConnection_unaware|done].
Qed.

(** Another connection, and another connection's functor. *)
Record far (lk : link) : Prop := {
  fa_context x : l_context lk = Some x -> HttpContext.customContext_ x <> Some (CDown id);
  fa_tcp : mute (CbDownload id) (l_tcp lk)
}.

Definition foreign (k : nat * task) : Prop := k.1 <> c -> k.2 <> TcpConnection.TWriteComplete (CbDownload id).

Lemma far_apart lk w d : far lk -> w_down w !! id = Some d -> id < w_next w -> apart (unaware id d) mine (focus lk w).
Proof.
  intros [Hc Ht] Hd Hn. split; [split; cbn; try done; [by exists d|apply Ht]|]. by intros cb ->.
Qed.

Lemma apart_far x s : apart (unaware id x) mine s ->
  far (mkLink (TcpConnection.clearQueue (tcp s)) (w_ctx (world s))).
Proof.
  intros [[Hd Hn Hc Hw] Hm]. split; [done|]. destruct (Hm (CbDownload id) eq_refl) as [Hwcc Hq].
  split; [done|]. apply not_elem_of_nil.
Qed.

(** ** The download goes on *)

(** What the download sends: the file, unless somebody writes it meanwhile, and
    in any case as many bytes. *)
Definition honest (w : World) (body : bytes) : Prop :=
  length body = length file /\ exists d, w_down w !! id = Some d /\ (d_written d = false -> body = file).

(** [ks] are the functors that the loop has taken and not run yet. *)
Record ongoing (ks : list (nat * task)) (m : nat) (p : t) : Prop := {
  og_own : exists lk body, links p !! c = Some lk /\ TcpConnection.queue (l_tcp lk) = [] /\
    honest (shared p) body /\ progress live base body id (own (ks ++ pending p)) (focus lk (shared p)) m;
  og_next : id < w_next (shared p);
  og_others c' lk : links p !! c' = Some lk -> c' <> c -> far lk;
  og_tasks : Forall foreign (ks ++ pending p)
}.

(** The connection's functors go to the loop, and its state is put away. *)
Lemma progress_moves body rest s m tc w :
  progress live base body id rest s m -> tc = TcpConnection.clearQueue (tcp s) -> w_down w !! id = w_down (world s) !! id ->
  progress live base body id (rest ++ TcpConnection.queue (tcp s)) (mkConn tc w) m.
Proof.
  intros [part out d Hs Hst Hcb Hh Hd Hp Ht Hw Hl|Hs Hst Hcb Hw] -> Ew.
  - apply (pr_sending _ _ _ _ _ (mkConn _ _) part); cbn; try done;
      [by destruct Hs|by rewrite Ew|by rewrite app_nil_r].
  - apply pr_done; cbn; [by destruct Hs|done..|by rewrite app_nil_r].
Qed.

(** The rest of the program does something to the file: what is still to be
    sent may change, and no more than that. *)
Lemma progress_elsewhere body rest s m w d d' :
  progress live base body id rest s m -> honest (world s) body ->
  w_down (world s) !! id = Some d -> w_down w !! id = Some d' -> evolves d d' ->
  exists body', honest w body' /\ progress live base body' id rest (mkConn (tcp s) w) m.
Proof.
  intros Hp (Hlen & d0 & Hd0 & Hw0) Hd Hd' He. rewrite Hd in Hd0. injection Hd0 as <-.
  destruct Hp as [part out d0 Hs Hst Hcb Hh Hd0 Hstr Ht Hw Hl|Hs Hst Hcb Hw].
  - rewrite Hd in Hd0. injection Hd0 as <-. exists (part ++ remaining d'). split; [split|].
    + rewrite <- Hlen, <- Ht, !length_app, !length_remaining. by rewrite (evolves_unsent _ _ He).
    + exists d'. split; [done|]. intros Hf. rewrite (evolves_remaining _ _ He Hf), Ht. by apply Hw0, (ev_written _ _ He).
    + rewrite <- (evolves_unsent _ _ He) in *. apply (pr_sending _ _ _ _ _ (mkConn _ _) part); try done.
      by eapply evolves_streaming.
  - exists body. split; [|by apply pr_done]. split; [done|]. exists d'. split; [done|].
    intros Hf. by apply Hw0, (ev_written _ _ He).
Qed.

Lemma honest_mark w w' body : mark w' = mark w -> honest w body -> honest w' body.
Proof.
  intros [= _ E] (Hl & d & Hd & Hf). split; [done|]. rewrite Hd in E. cbn in E.
  destruct (w_down w' !! id) as [d'|]; [|done]. exists d'. split; [done|]. injection E as ->. done.
Qed.

(** What the connection does itself. *)
Lemma act_own f ks ks' m m' p lk body s :
  ongoing ks m p -> links p !! c = Some lk -> f (focus lk (shared p)) = inr s -> honest (shared p) body ->
  progress live base body id (own (ks' ++ pending p)) s m' -> mark (world s) = mark (shared p) -> Forall foreign ks' ->
  exists p', act c f p = inr p' /\ ongoing ks' m' p' /\
    own (pending p') = own (pending p) ++ TcpConnection.queue (tcp s).
Proof.
  intros [_ Hn Ho Ht] Hlk E Hh Hp Em Hks. pose proof (f_equal fst Em) as En. cbn in En. unfold act. rewrite Hlk, E. eexists. split; [reflexivity|].
  split; [split; cbn [links pending shared]|cbn [pending]; by rewrite own_app, own_same].
  - do 2 eexists. split; [apply lookup_insert_eq|]. split; [done|]. split; [by eapply honest_mark|].
    rewrite app_assoc, own_app, own_same. by eapply progress_moves.
  - by rewrite En.
  - intros c' lk' [[<- _]|[_ Hl]]%lookup_insert_Some Hc; [done|by apply (Ho c')].
  - apply Forall_app in Ht as [_ Ht]. apply Forall_app. split; [done|]. apply Forall_app. split; [done|].
    apply Forall_forall. intros k (k0 & -> & _)%list_elem_of_fmap. by intros [].
Qed.

(** What another connection does. *)
Lemma act_other c' f ks m p p' : c' <> c ->
  (forall d s, apart (unaware id d) mine s -> stays (unaware id d) mine (world s) (f s)) ->
  ongoing ks m p -> act c' f p = inr p' ->
  ongoing ks m p' /\ own (pending p') = own (pending p).
Proof.
  intros Hc Hf [(lk & body & Hlk & Hq & Hh & Hp) Hn Ho Ht]. pose proof Hh as (_ & d & Hd & _). unfold act.
  destruct (links p !! c') as [lk'|] eqn:El; [|done].
  pose proof (far_apart lk' (shared p) d (Ho c' lk' El Hc) Hd Hn) as Ha. specialize (Hf _ _ Ha).
  destruct (f (focus lk' (shared p))) as [e|s] eqn:Ef; [done|]. intros [= <-].
  destruct (Hf s eq_refl) as [Ha' _]. pose proof (ap_world _ _ _ Ha') as [(d' & Hd' & He) Hn' _ _].
  split; [split; cbn [links pending shared]|cbn [pending]; by rewrite own_app, own_other, app_nil_r].
  - destruct (progress_elsewhere body _ (focus lk (shared p)) m (world (focus lk (world s))) d d' Hp Hh Hd Hd' He) as (body' & Hh' & Hp').
    exists lk, body'. split; [by rewrite lookup_insert_ne|]. split; [done|]. split; [exact Hh'|].
    rewrite app_assoc, own_app, own_other, app_nil_r by done. exact Hp'.
  - done.
  - intros i lk2 [[<- <-]|[_ Hl]]%lookup_insert_Some Hi; [by eapply apart_far|by apply (Ho i)].
  - rewrite app_assoc. apply Forall_app. split; [done|].
    apply Forall_forall. intros k (k0 & -> & Hk0)%list_elem_of_fmap _ E. cbn in E. subst.
    by destruct (ap_tcp _ _ _ Ha' (CbDownload id) eq_refl).
Qed.

(** A new connection knows nothing. *)
Lemma connecting_ongoing c' fd outcomes ks m p : links p !! c' = None ->
  ongoing ks m p ->
  ongoing ks m (mk (<[c' := mkLink (TcpConnection.create fd outcomes) None]> (links p)) (pending p) (shared p)).
Proof.
  intros El [(lk & body & Hlk & Hq & Hp) Hn Ho Ht]. split; cbn [links pending shared]; [|done| |done].
  - exists lk, body. split; [|done]. rewrite lookup_insert_ne; [done|congruence].
  - intros i lk' [[_ <-]|[_ Hl]]%lookup_insert_Some Hi; [|by apply (Ho i)].
    split; [done|]. split; [done|]. apply not_elem_of_nil.
Qed.

(** *** Releasing *)

Lemma progress_callback body rest s m : progress live base body id rest s m ->
  TcpConnection.writeCompleteCallback_ (tcp s) = Some (CbDownload id) /\
  (TcpConnection.state_ (tcp s) = TcpConnection.kConnected \/ TcpConnection.state_ (tcp s) = TcpConnection.kDisconnecting).
Proof. intros [part out d Hs Hst Hcb _ _ _ _ _ _|Hs Hst Hcb _]; auto. Qed.

(** The connection's callback holds the download. *)
Lemma release_ongoing all ks m p : ongoing ks m p -> ongoing ks m (release all p).
Proof.
  intros [(lk & body & Hlk & Hq & Hh & Hp) Hn Ho Ht]. destruct (progress_callback _ _ _ _ Hp) as [Hcb _].
  assert (w_down (shared (release all p)) !! id = w_down (shared p) !! id) as Ed.
  { destruct Hh as (_ & d & Hd & _). rewrite Hd. apply release_lookup. split; [done|].
    eapply held_link; [exact Hlk|by apply link_holds_callback]. }
  split; [|done..]. exists lk, body. split; [done|]. split; [done|]. split.
  - destruct Hh as (Hl & d & Hd & Hf). split; [done|]. exists d. by rewrite Ed.
  - assert (l_tcp lk = TcpConnection.clearQueue (l_tcp lk)) as Eq by (destruct (l_tcp lk); cbn in *; by subst).
    pose proof (progress_moves _ _ _ _ _ (world (focus lk (shared (release all p)))) Hp Eq Ed) as Hp'.
    cbn [focus tcp] in Hp'. by rewrite Hq, app_nil_r in Hp'.
Qed.

(** The connection is not closed. *)
Lemma ongoing_open ks m p : ongoing ks m p -> exists lk, links p !! c = Some lk /\ is_closed lk = false.
Proof.
  intros [(lk & body & Hlk & _ & _ & Hp) _ _ _]. exists lk. split; [done|].
  destruct (progress_callback _ _ _ _ Hp) as [_ [E|E]]; cbn in E; unfold is_closed; by rewrite E.
Qed.

Lemma destroy_ongoing m p0 p : ongoing [] m p -> c ∉ closed p0 -> ongoing [] m (destroy (closed p0) p).
Proof.
  intros [(lk & body & Hlk & Hrest) Hn Ho Ht] Hc. split; cbn [destroy links pending shared]; [|done| |done].
  - exists lk, body. split; [|done]. apply map_lookup_filter_Some. split; [done|]. by intros.
  - intros c' lk' [El _]%map_lookup_filter_Some. by apply Ho.
Qed.

Lemma open_not_closed p lk : links p !! c = Some lk -> is_closed lk = false -> c ∉ closed p.
Proof.
  intros El Hf Hin. unfold closed in Hin. apply list_elem_of_fmap in Hin as ([c' lk'] & -> & Hin).
  apply list_elem_of_In, filter_In in Hin as [Hin Hcl]. apply list_elem_of_In, elem_of_map_to_list in Hin.
  cbn in *. congruence.
Qed.

(** Whether a call of the callback waits. *)
Definition due (p : t) : Prop := 0 < calls (own (pending p)).

Lemma due_more p p' q : own (pending p') = own (pending p) ++ q -> due p -> due p'.
Proof. unfold due. intros ->. rewrite calls_app. lia. Qed.

Lemma write_ongoing m p : ongoing [] m p ->
  exists p' m', run [] c (on_tcp Routes.onConnection TcpConnection.handleWrite) p = inr p' /\ ongoing [] m' p' /\
    m' <= m /\ (due p -> due p') /\ (live = true -> m' < m \/ m' = 0 \/ due p').
Proof.
  intros Hp. pose proof Hp as [(lk & body & Hlk & Hq & Hh & Hpr) _ _ _].
  destruct (handleWrite_progress _ _ _ _ _ _ _ Hpr) as (s & m' & E & Hpr' & Hm & Hlive).
  destruct (act_own (on_tcp Routes.onConnection TcpConnection.handleWrite) [] [] m m' p lk body s)
    as (p' & Ep & Hp' & Eq); try done.
  { by apply on_tcp_mark in E. }
  exists (release [] p'), m'. split; [unfold run; by rewrite Ep|]. split; [by apply release_ongoing|]. split; [lia|].
  split; [by eapply due_more|].
  intros Hl. destruct (Hlive Hl) as [?|[?|Hc]]; [by left|by right; left|]. right; right.
  unfold due. cbn [release pending]. rewrite Eq. cbn [app] in Hc. lia.
Qed.

Lemma run_other all c' f ks m p p' : c' <> c ->
  (forall d s, apart (unaware id d) mine s -> stays (unaware id d) mine (world s) (f s)) ->
  ongoing ks m p -> run all c' f p = inr p' ->
  ongoing ks m p' /\ own (pending p') = own (pending p).
Proof.
  intros Hc Hf Hp. unfold run. destruct (act c' f p) as [e|p1] eqn:E; [done|]. intros [= <-].
  destruct (act_other c' f ks m p p1 Hc Hf Hp E). split; [by apply release_ongoing|done].
Qed.

Lemma on_event_other c' f m p p' : c' <> c ->
  (forall d s, apart (unaware id d) mine s -> stays (unaware id d) mine (world s) (f s)) ->
  ongoing [] m p -> on_event c' f p = inr p' ->
  ongoing [] m p' /\ own (pending p') = own (pending p).
Proof.
  intros Hc Hf Hp. unfold on_event. destruct (links p !! c') as [lk|]; [|by intros [= <-]].
  destruct (is_closed lk); [by intros [= <-]|]. by apply run_other.
Qed.

(** Without a word of the client. *)
Lemma handle_ongoing fuel e m p p' : silent c e -> ongoing [] m p -> handle fuel e p = inr p' ->
  exists m', ongoing [] m' p' /\ m' <= m /\ (due p -> due p') /\
    (live = true -> writes c [e] = true -> m' < m \/ m' = 0 \/ due p').
Proof.
  intros Hs Hp. assert (forall p', ongoing [] m p' /\ own (pending p') = own (pending p) -> writes c [e] = false ->
    exists m', ongoing [] m' p' /\ m' <= m /\ (due p -> due p') /\
      (live = true -> writes c [e] = true -> m' < m \/ m' = 0 \/ due p')) as Hsame.
  { intros p1 [Hp1 Eq] Hw. exists m. split; [done|]. split; [done|]. split; [unfold due; by rewrite Eq|congruence]. }
  destruct e as [i fd os|i now r|i|i]; cbn in Hs; cbn [handle].
  - destruct (links p !! i) eqn:El; [intros [= <-]; by apply Hsame|]. intros E. apply Hsame; [|done].
    refine (run_other [] i establish [] m (mk _ (pending p) (shared p)) p' Hs _ (connecting_ongoing _ _ _ _ _ _ El Hp) E).
    intros d s. exact (stays_establish _ _ s).
  - intros E. apply Hsame; [|done]. eapply (on_event_other i); [done| |exact Hp|exact E].
    intros d s. exact (stays_read _ _ fuel now r s).
  - destruct (decide (i = c)) as [->|Hi].
    + destruct (ongoing_open _ _ _ Hp) as (lk & Hlk & Hcl). unfold on_event. rewrite Hlk, Hcl.
      destruct (write_ongoing m p Hp) as (p1 & m' & -> & Hp1 & Hm & Hd & Hl). intros [= <-].
      exists m'. split; [done|]. split; [done|]. split; [done|]. auto.
    + intros E. apply Hsame; [|cbn; by destruct (Nat.eqb_spec i c)]. eapply (on_event_other i); [done| |exact Hp|exact E].
      intros d s. apply (stays_tcp _ _). intros cb. apply hushed_handleWrite.
  - intros E. apply Hsame; [|done]. eapply (on_event_other i); [done| |exact Hp|exact E].
    intros d s. apply (stays_tcp _ _). intros cb. apply hushed_handleClose.
Qed.

Lemma handleAll_ongoing fuel es : forall m p p', Forall (silent c) es -> ongoing [] m p -> handleAll fuel es p = inr p' ->
  exists m', ongoing [] m' p' /\ m' <= m /\ (due p -> due p') /\
    (live = true -> writes c es = true -> m' < m \/ m' = 0 \/ due p').
Proof.
  induction es as [|e es IH]; intros m p p' Hs Hp; [intros [= <-]; by exists m|].
  apply Forall_cons in Hs as [He Hs]. cbn [handleAll]. destruct (handle fuel e p) as [x|p1] eqn:E; [done|].
  destruct (handle_ongoing _ _ _ _ _ He Hp E) as (m1 & Hp1 & Hm1 & Hd1 & Hl1). intros E'.
  destruct (IH _ _ _ Hs Hp1 E') as (m' & Hp' & Hm' & Hd' & Hl').
  exists m'. split; [done|]. split; [lia|]. split; [auto|]. intros Hl Hw.
  change (writes c ([e] ++ es) = true) in Hw. unfold writes in Hw. rewrite existsb_app in Hw.
  apply orb_true_iff in Hw as [Hw|Hw].
  - destruct (Hl1 Hl Hw) as [?|[?|?]]; [lia|lia|auto].
  - destruct (Hl' Hl Hw) as [?|[?|?]]; [lia|lia|auto].
Qed.

Lemma runFunctors_ongoing all ks : forall m p p', ongoing ks m p -> runFunctors all ks p = inr p' ->
  exists m', ongoing [] m' p' /\ m' <= m /\ (0 < calls (own ks) -> m' < m).
Proof.
  induction ks as [|[i k] ks IH]; intros m p p' Hp; [intros [= <-]; exists m; split; [done|]; split; [done|cbn; lia]|].
  cbn [runFunctors]. pose proof Hp as [(lk & body & Hlk & Hq & Hh & Hpr) Hn Ho Ht]. apply Forall_cons in Ht as [Hk Ht].
  rewrite own_cons. cbn [app] in Hpr. rewrite own_cons in Hpr. destruct (Nat.eqb_spec i c) as [->|Hi].
  - destruct (runTask_progress _ _ _ _ _ _ _ _ Hpr) as (s & m1 & E & Hpr1 & Hm1 & Hc1).
    destruct (act_own (Delivery.runTask k) ((c, k) :: ks) ks m m1 p lk body s) as (p1 & E1 & Hp1 & _); try done.
    { by rewrite (runTask_mark _ _ _ E). }
    { by apply Forall_app in Ht as [? _]. }
    unfold run. rewrite E1.
    intros E'. destruct (IH _ _ _ (release_ongoing all _ _ _ Hp1) E') as (m' & Hp' & Hm' & Hc').
    exists m'. split; [done|]. split; [lia|]. unfold calls in *. cbn [List.filter].
    destruct (is_call k); [specialize (Hc1 eq_refl); lia|]. intros Hc. specialize (Hc' Hc). lia.
  - destruct (run all i _ p) as [x|p1] eqn:E; [done|].
    assert (ongoing ks m p) as Hp0 by (split; [by exists lk, body|done..]).
    eapply (run_other all i) in E as [Hp1 _]; [|done| |exact Hp0]; [by apply IH|].
    intros d s Hs. apply (stays_runTask _ _); [|done]. intros cb -> ->. by apply Hk.
Qed.

Lemma turn_ongoing fuel es m p p' : Forall (silent c) es -> ongoing [] m p -> turn fuel es p = inr p' ->
  exists m', ongoing [] m' p' /\ m' <= m /\ (live = true -> writes c es = true -> m' < m \/ m' = 0).
Proof.
  intros Hs Hp. unfold turn. destruct (handleAll fuel es p) as [x|p1] eqn:E; [done|]. unfold doPendingFunctors.
  destruct (runFunctors _ _ _) as [x|p2] eqn:E'; [done|]. intros [= <-].
  destruct (handleAll_ongoing _ _ _ _ _ Hs Hp E) as (m1 & Hp1 & Hm1 & _ & Hl1).
  destruct (ongoing_open _ _ _ Hp1) as (lk1 & Hlk1 & Hcl1).
  destruct Hp1 as [(lk & body & Hlk & Hq & Hh & Hpr) Hn Ho Ht].
  assert (ongoing (pending p1) m1 (mk (links p1) [] (shared p1))) as Hp2.
  { split; cbn [links pending shared]; rewrite ?app_nil_r; [by exists lk, body|done..]. }
  destruct (runFunctors_ongoing _ _ _ _ _ Hp2 E') as (m' & Hp' & Hm' & Hc').
  exists m'. split; [apply release_ongoing, destroy_ongoing; [done|by eapply open_not_closed]|]. split; [lia|].
  intros Hl Hw. destruct (Hl1 Hl Hw) as [?|[?|Hd]]; [lia|lia|].
  left. specialize (Hc' Hd). lia.
Qed.

Lemma loop_ongoing fuel ts : forall m p p', Forall (Forall (silent c)) ts -> ongoing [] m p -> loop fuel ts p = inr p' ->
  exists m', ongoing [] m' p' /\ m' <= m /\ (live = true -> m' <= m - writables c ts).
Proof.
  induction ts as [|es ts IH]; intros m p p' Hs Hp; [intros [= <-]; exists m; split; [done|]; split; [done|cbn; lia]|].
  apply Forall_cons in Hs as [Hes Hs]. cbn [loop]. destruct (turn fuel es p) as [x|p1] eqn:E; [done|]. intros E'.
  destruct (turn_ongoing _ _ _ _ _ Hes Hp E) as (m1 & Hp1 & Hm1 & Hl1).
  destruct (IH _ _ _ Hs Hp1 E') as (m' & Hp' & Hm' & Hl').
  exists m'. split; [done|]. split; [lia|]. intros Hl. specialize (Hl' Hl).
  unfold writables in *. cbn [List.filter]. destruct (writes c es); [|lia].
  specialize (Hl1 Hl eq_refl). cbn [length]. lia.
Qed.

End ongoing.

(** What the client of the connection [c] has got. *)
Definition sent_to `{Platform} (c : nat) (p : t) : bytes :=
  match links p !! c with Some lk => TcpConnection.sent (l_tcp lk) | None => [] end.

Definition finished `{Platform} (total : bytes) (c : nat) (p : t) : Prop :=
  sent_to c p = total /\ exists lk, links p !! c = Some lk /\ TcpConnection.writeShut (l_tcp lk) = true.

Lemma ongoing_sent `{Platform} live base file c id m p : ongoing live base file c id [] m p ->
  exists body, honest file id (shared p) body /\
    sent_to c p `prefix_of` base ++ body /\ (m = 0 -> finished (base ++ body) c p).
Proof.
  intros [(lk & body & Hlk & _ & Hh & Hpr) _ _ _]. exists body. split; [done|]. unfold finished, sent_to. rewrite Hlk.
  split; [by apply (progress_sent _ _ _ _ _ _ _ Hpr)|]. intros ->.
  destruct (progress_done _ _ _ _ _ _ Hpr) as (Hs & Hw & _). split; [done|]. by exists lk.
Qed.

(** ** The request *)

Section request.
Context `{Platform}.

(** The input of a connection that has read nothing but what it has parsed. *)
Definition drained (lk : link) : Prop := Buffer.holds (TcpConnection.inputBuffer_ (l_tcp lk)) [].

Lemma idle_reads s data ctx bytes :
  idle s data ctx -> Buffer.holds (TcpConnection.inputBuffer_ (tcp s)) [] -> bytes <> [] ->
  length bytes <= Buffer.readv_room (TcpConnection.inputBuffer_ (tcp s)) ->
  exists s1, on_tcp Routes.onConnection (fun c => TcpConnection.handleRead c (inr bytes)) s = inr s1 /\
    idle s1 data ctx /\ Buffer.holds (TcpConnection.inputBuffer_ (tcp s1)) bytes /\ world s1 = world s /\
    TcpConnection.outcomes (tcp s1) = TcpConnection.outcomes (tcp s).
Proof.
  intros [Hs Hst Hq Hh Hctx Hf] Hb Hne Hroom.
  destruct (Buffer.readFd_spec _ [] bytes Hb Hroom) as (b & E & Hb').
  assert (TcpConnection.handleRead (tcp s) (inr bytes) =
    Some (TcpConnection.emit (TcpConnection.setInput (tcp s) b) TcpConnection.EMessage)) as Er.
  { unfold TcpConnection.handleRead. rewrite E. cbn. destruct bytes; [done|]. done. }
  eexists. split; [apply (on_tcp_up _ (fun c => TcpConnection.handleRead c (inr bytes)) _ _ Er); cbn; by rewrite Hst|].
  split; [split; cbn; try done; by destruct Hs|]. done.
Qed.

(** No link knows the next download. *)
Lemma typed_far ks p c lk : typed ks p -> links p !! c = Some lk -> far (w_next (shared p)) lk.
Proof.
  intros [Hw Hl _] El. destruct (Hl c lk El) as [_ [[_ _ Hc _ _] Hm]].
  assert (w_down (shared p) !! w_next (shared p) = None) as Hfree.
  { destruct (w_down (shared p) !! w_next (shared p)) eqn:E; [|done].
    assert (w_next (shared p) < w_next (shared p)); [|lia]. apply (wt_fresh _ Hw). by rewrite E. }
  split.
  - intros x Ex Ecc. destruct (Hc x _ Ex Ecc) as [d Hd]. cbn in Hd. congruence.
  - apply Hm. by exists (w_next (shared p)).
Qed.

Lemma request_ongoing live fuel now p c lk data ctx m path query v hs body server original content r :
  typed [] p -> links p !! c = Some lk -> Forall (fun k => k.1 <> c) (pending p) ->
  idle (focus lk (shared p)) data ctx -> drained lk ->
  m <> kInvalid -> v <> kUnknown -> good_target path query ->
  Forall good_header hs -> Forall plain hs -> (Z.of_nat (length body) < 2 ^ 31)%Z ->
  let request := complete_request m path query v hs body in
  length request <= Buffer.readv_room (TcpConnection.inputBuffer_ (l_tcp lk)) ->
  wants_close (parsed ctx now m path query v hs body) = false ->
  (forall k, HttpContext.request_ k = parsed ctx now m path query v hs body ->
     HttpContext.customContext_ k = HttpContext.customContext_ ctx ->
     exists w0, serves (callback_world false k (world (focus lk (shared p)))) w0 server original content r) ->
  (Z.of_nat (length content) < 2 ^ 64)%Z ->
  let head := HttpResponse.serialize
    (download_response (HttpResponse.create false) original (Z.of_nat (length content)) r) in
  let file := range_body content r in
  (live = true -> eager (TcpConnection.outcomes (l_tcp lk)) /\
     length head + length file <= length (TcpConnection.outcomes (l_tcp lk))) ->
  exists p1 k, handle (S (S (S fuel))) (EvRead c now (inr request)) p = inr p1 /\
    k <= S (2 * length file + length head) /\
    ongoing live (data ++ head) file c (w_next (shared p)) [] k p1.
Proof.
  intros Hty Hlk Hpend Hidle Hdr Hm Hv Ht Hg Hpl Hl request Hroom Hclose Hserves Hmax head file Hlive.
  assert (request <> []) as Hne by (unfold request, complete_request, request_line; by destruct m).
  destruct (idle_reads _ _ _ request Hidle Hdr Hne Hroom) as (s1 & E1 & Hidle1 & Hb1 & Hw1 & Ho1).
  rewrite <- (app_nil_r request) in Hb1.
  destruct (download_request live fuel now s1 data ctx m path query v hs body [] server original content r)
    as (s2 & E2 & Hn & Hpr); try done.
  { rewrite Hclose, Hw1. exact Hserves. }
  { rewrite Hclose, Ho1. exact Hlive. }
  rewrite Hclose in Hpr. rewrite Hw1 in Hpr, Hn.
  change (w_next (world (focus lk (shared p)))) with (w_next (shared p)) in Hpr, Hn.
  destruct Hpr as (k & Hk & Hpr & d & Hd & Hwr).
  assert (read (S (S (S fuel))) now (inr request) (focus lk (shared p)) = inr s2) as Er.
  { unfold read. rewrite E1. by destruct request. }
  assert (is_closed lk = false) as Hopen.
  { pose proof (id_open _ _ _ Hidle) as Hst. cbn in Hst. unfold is_closed. by rewrite Hst. }
  eexists. exists k. cbn [handle]. unfold on_event, run, act. rewrite Hlk, Hopen, Er.
  split; [reflexivity|]. split; [done|]. apply release_ongoing. split; cbn [links pending shared].
  - do 2 eexists. split; [apply lookup_insert_eq|]. split; [done|]. split; [split; [reflexivity|by exists d]|]. cbn [app].
    assert (own c (pending p) = []) as Hown.
    { clear -Hpend. induction Hpend as [|[i k] ks Hi _ IH]; [done|]. rewrite own_cons. cbn in Hi.
      by destruct (Nat.eqb_spec i c). }
    rewrite own_app, own_same, Hown. by apply (progress_moves _ _ _ _ [] s2).
  - lia.
  - intros i lk' [[<- _]|[_ Hl']]%lookup_insert_Some Hi; [done|by eapply typed_far].
  - cbn [app]. apply Forall_app. split.
    + apply Forall_forall. intros [i k0] Hk0 _ E. cbn in E. subst k0.
      pose proof (ty_tasks _ _ Hty) as Hall. rewrite Forall_forall in Hall. destruct (Hall _ Hk0) as [_ Ha].
      destruct (Ha (CbDownload (w_next (shared p))) eq_refl _ eq_refl) as [d0 Hd0].
      pose proof (wt_fresh _ (ty_world _ _ Hty) (w_next (shared p))) as Hf. rewrite Hd0 in Hf.
      specialize (Hf ltac:(done)). lia.
    + apply Forall_forall. intros k1 (k0 & -> & _)%list_elem_of_fmap. by intros [].
Qed.

End request.
