(* ===== verification/UtilTheorems.v ===== *)
(** * The libraries: dates, logging, queues, thread pools, buffers

    The properties of the utility classes and of the accepting socket, each with
    a concrete instance. *)

From S2P Require Import Prelude CxxString ByteBuffer Calendar Date FileUtil LogFile LogStream.
From S2P Require Import AsyncLogging Logging Sync Queues ThreadPool LinkedBuffer Sockets Acceptor.

#[local] Open Scope Z_scope.

(** ** Dates *)

(** C39: a [Date] made from a valid calendar date gives year, month and day back,
    for every year it can represent; the day number of the next calendar day is
    one more; and the day of the week it reports is three more, modulo seven,
    than the day counted from Sunday. *)
Theorem date_calendar (d : civil) :
  valid_date d -> Date.in_range d ->
  Date.yearMonthDay (Date.of_civil d) = Date.YMD (c_day d) (c_month d) (c_year d) /\
  (Date.in_range (next_day d) ->
   Date.julianDayNumber (Date.of_civil (next_day d)) = Date.julianDayNumber (Date.of_civil d) + 1) /\
  (-1721120 <= day_number d -> Date.weekOfDay (Date.of_civil d) = (weekday d + 3) mod 7).
Proof.
  intros Hv Hr. split; [by apply Date.yearMonthDay_of_civil|]. split.
  - intros Hn. destruct (Date.julianDayNumber_of_civil d Hv Hr) as [-> _].
    destruct (Date.julianDayNumber_of_civil (next_day d) (next_day_valid d Hv) Hn) as [-> _].
    rewrite day_number_next by done. lia.
  - intros Hn. apply Date.weekOfDay_of_civil; [done|done|lia].
Qed.

(** ** Logging *)

(** C40: a log statement whose level is enabled hands on one line and changes
    nothing else, never writing outside the buffer of the stream: the thread's
    cached time, which is never set, ".000000 ", the level, the error, the
    operands and the place in the source, each left out when it does not fit;
    when everything fits with 48 bytes to spare the line is their
    concatenation.  Only [FATAL] flushes and aborts. *)
Theorem log_statement_writes_line (strerror_tl : Z -> bytes) tv errno path line m os p th :
  Logger.t_lastSecond th = 0 ->
  let ops := Logger.operands strerror_tl (Logger.t_time th) errno path line m os in
  Forall LogStream.operand_ok ops ->
  Logger.log strerror_tl tv errno path line m os p th =
    Some (if Logger.macro_enabled (Logger.g_logLevel p) m
          then Logger.emit p (Logger.macro_level m) (LogStream.spec_puts [] ops) else p, th) /\
  ((sum_list_with (fun o => length (LogStream.text o)) ops + 48 <= smallBufferLen)%nat ->
   LogStream.spec_puts [] ops = mjoin (map LogStream.text ops)).
Proof.
  intros Hth ops Hops. split.
  - destruct (Logger.macro_enabled _ m) eqn:E; [by apply Logger.log_spec|].
    unfold Logger.log. by rewrite E.
  - intros Hl. by rewrite LogStream.spec_puts_fit.
Qed.

(** C28: no line is lost between the threads that log and the log file: in every
    interleaving of appends, stops and steps of the back end nothing fails, and
    what the back end took followed by what is buffered is all the lines, in
    order; as long as the back end was not overrun (more than 25 buffers at
    once), a log file that is given its output holds exactly what was taken,
    however often it rolls; and a running back end with fewer than 25 full
    buffers writes everything within four steps of its own. *)
Theorem async_log_keeps_lines (SIZE : nat) localtime hostName pid cfg (ops : list AsyncLogging.op) :
  Forall AsyncLogging.op_ok ops ->
  exists s, AsyncLogging.run SIZE (AsyncLogging.start SIZE (AsyncLogging.create SIZE)) ops = Some s /\
    AsyncLogging.taken s ++ AsyncLogging.pending s = AsyncLogging.appended SIZE ops /\
    (AsyncLogging.overrun s = false -> forall f calls f', is_Some (LogFile.file_ f) ->
       map LogFile.c_line calls = AsyncLogging.outputs (AsyncLogging.events s) ->
       Forall (fun c => Forall (fun w => w.2 = 0) (LogFile.c_writes c)) calls ->
       LogFile.appends localtime hostName pid cfg f calls = Some f' ->
       LogFile.logged f' = LogFile.logged f ++ AsyncLogging.taken s) /\
    (AsyncLogging.thread_ s = AsyncLogging.PLoop -> AsyncLogging.running_ s = true ->
     (length (AsyncLogging.buffers_ s) < 25)%nat -> forall tv, exists n s',
       (n <= 4)%nat /\ AsyncLogging.run SIZE s (replicate n (AsyncLogging.OBackend tv)) = Some s' /\
       AsyncLogging.taken s' = AsyncLogging.appended SIZE ops /\ AsyncLogging.pending s' = []).
Proof.
  intros Hok.
  destruct (AsyncLogging.async_start_inv SIZE _ (AsyncLogging.async_create_inv SIZE)) as (Hinv & Hp & Ht).
  destruct (AsyncLogging.async_run_inv SIZE _ ops Hinv Hok) as (s & E & Hs & Hall).
  assert (AsyncLogging.taken s ++ AsyncLogging.pending s = AsyncLogging.appended SIZE ops) as Hkeep by done.
  exists s. split; [done|]. split; [done|]. split.
  - intros Ho f calls f' Hf Hc Hw Ha.
    destruct (LogFile.appends_spec localtime hostName pid cfg f calls f' Hf Hw Ha) as [_ ->].
    by rewrite Hc, AsyncLogging.outputs_taken.
  - intros Hpc Hr Hl tv.
    destruct (AsyncLogging.backend_flushes SIZE s tv Hs Hpc Hr Hl) as (n & s' & l & Hn & Er & _ & Hp' & Hev & Hjoin).
    exists n, s'. split; [done|]. split; [done|]. split; [|done].
    rewrite <- Hkeep, <- Hjoin. unfold AsyncLogging.taken. rewrite Hev, map_app, join_app. f_equal.
    f_equal. rewrite map_map. apply map_id.
Qed.

(** ** Queues and pools *)

(** C31: a bounded queue in any run of its producers and consumers, whatever
    wakes them: it never holds more than its capacity; consumers receive the
    elements in the order they were pushed, none twice and none left out; and
    no wake-up is lost: while a consumer sleeps, every element of the queue has
    a consumer that was woken for it, and these consumers can take them all at
    once; while a producer sleeps, every free place has a producer that was
    woken for it, and these producers can fill the queue with the elements they
    hold. *)
Theorem bounded_queue_correct {T} (capacity : nat) (ops : list (BoundedBlockingQueue.op T))
    (q : BoundedBlockingQueue.t T) :
  BoundedBlockingQueue.run capacity BoundedBlockingQueue.create ops = Some q ->
  let held := BoundedBlockingQueue.queue_ q in
  let room := (capacity - length held)%nat in
  (length held <= capacity)%nat /\
  BoundedBlockingQueue.received q ++ held =
    BoundedBlockingQueue.all_pushed capacity BoundedBlockingQueue.create ops /\
  ((0 < PCondition.sleeping (BoundedBlockingQueue.notEmpty_ q))%nat ->
   (length held <= PCondition.woken (BoundedBlockingQueue.notEmpty_ q))%nat /\
   exists q', BoundedBlockingQueue.run capacity q (replicate (length held) BoundedBlockingQueue.OTakeWake) = Some q' /\
     BoundedBlockingQueue.queue_ q' = [] /\
     BoundedBlockingQueue.received q' = BoundedBlockingQueue.received q ++ held) /\
  ((0 < PCondition.sleeping (BoundedBlockingQueue.notFull_ q))%nat ->
   (room <= PCondition.woken (BoundedBlockingQueue.notFull_ q))%nat /\
   exists q', BoundedBlockingQueue.run capacity q (replicate room (BoundedBlockingQueue.OPutWake 0)) = Some q' /\
     BoundedBlockingQueue.queue_ q' = held ++ take room (BoundedBlockingQueue.blocked q) /\
     BoundedBlockingQueue.full capacity q' = true).
Proof.
  intros Hr.
  destruct (BoundedBlockingQueue.bounded_run_inv capacity ops _ q (BoundedBlockingQueue.bounded_create_inv capacity) Hr)
    as [Hi Hf].
  split; [by apply BoundedBlockingQueue.inv_size|]. split; [exact Hf|].
  split; [by apply BoundedBlockingQueue.sleeping_consumers|by apply BoundedBlockingQueue.sleeping_producers].
Qed.

(** C29: a thread pool in any run of its callers and workers: tasks are started
    in the order they entered the queue, each once; the queue keeps its bound;
    every worker is accounted for; and a queued task always has a worker that
    is not asleep, unless all of them have left. *)
Theorem pool_starts_tasks_in_order {Task} (name : bytes) (maxSize numThreads : nat)
    (ops : list (ThreadPool.op Task)) (p0 p : ThreadPool.t Task) :
  ThreadPool.start name (ThreadPool.setMaxQueueSize ThreadPool.create maxSize) numThreads = Some p0 ->
  ThreadPool.run p0 ops = Some p ->
  ThreadPool.started p ++ ThreadPool.queue_ p = ThreadPool.all_pushed p0 ops /\
  ((0 < ThreadPool.maxQueueSize_ p)%nat ->
   (length (ThreadPool.queue_ p) <= ThreadPool.maxQueueSize_ p)%nat) /\
  (ThreadPool.idle p + ThreadPool.entering p + PCondition.sleeping (ThreadPool.notEmpty_ p) +
   PCondition.woken (ThreadPool.notEmpty_ p) + length (ThreadPool.busy p) + ThreadPool.exited p =
   ThreadPool.threadSize_ p)%nat /\
  ((0 < length (ThreadPool.queue_ p))%nat -> (ThreadPool.exited p < ThreadPool.threadSize_ p)%nat ->
   (0 < ThreadPool.idle p + ThreadPool.entering p + PCondition.woken (ThreadPool.notEmpty_ p) +
        length (ThreadPool.busy p))%nat).
Proof.
  intros Hs Hr. destruct (ThreadPool.create_started_inv name maxSize numThreads p0 Hs) as [Hi Hnil].
  destruct (ThreadPool.pool_run_inv ops p0 p Hi Hr) as [Hp Hf].
  split; [by rewrite Hf, app_assoc, Hnil|].
  split; [by apply ThreadPool.inv_size|]. split; [by apply ThreadPool.inv_workers|].
  by apply ThreadPool.worker_available.
Qed.

(** C30: a stopped pool comes to an end: from every state reached after [stop],
    some schedule of the workers lets [stop] return, and no schedule is longer
    than [steps_left]; but only the workers that were already past their test
    of [running_] take a task, so the rest of the queue is dropped. *)
Theorem stopped_pool_terminates {Task} (name : bytes) (maxSize numThreads : nat)
    (ops : list (ThreadPool.op Task)) (p0 p : ThreadPool.t Task) :
  ThreadPool.start name (ThreadPool.setMaxQueueSize ThreadPool.create maxSize) numThreads = Some p0 ->
  ThreadPool.run p0 ops = Some p -> ThreadPool.running_ p = false ->
  (exists ws p', ThreadPool.run p (map ThreadPool.OWorker ws) = Some p' /\ ThreadPool.joined p' = true) /\
  (forall ws p', ThreadPool.run p (map ThreadPool.OWorker ws) = Some p' ->
     (length ws <= ThreadPool.steps_left p)%nat /\
     (length (ThreadPool.queue_ p) <= length (ThreadPool.queue_ p') + ThreadPool.takers p)%nat).
Proof.
  intros Hs Hr Hstop. destruct (ThreadPool.create_started_inv name maxSize numThreads p0 Hs) as [Hi _].
  destruct (ThreadPool.pool_run_inv ops p0 p Hi Hr) as [Hp _].
  destruct (ThreadPool.stopped_terminates p Hp Hstop) as [Hex Hmax]. split; [done|].
  intros ws p' Hw. split; [by apply (Hmax ws p')|]. by apply (ThreadPool.stopped_drops ws p p').
Qed.

(** ** Buffers *)

(** C26: the linked buffer is equivalent to the contiguous one: on buffers with
    the same content every sequence of appends, reads and shrinks gives the
    same bytes and leaves the same content, or fails an assertion in both. *)
Theorem linked_buffer_equals_buffer (os : list Buffer.op) (b : Buffer.t) (l : LinkedBuffer.t) (c : bytes) :
  Buffer.holds b c -> LinkedBuffer.holds l c -> forallb LinkedBuffer.shared os = true ->
  match Buffer.run Buffer.step b os, Buffer.run LinkedBuffer.step l os with
  | Some (out, b'), Some (out', l') => out = out' /\ Buffer.content b' = LinkedBuffer.gathered l'
  | None, None => True
  | _, _ => False
  end.
Proof.
  intros Hb Hl Ho. pose proof (Buffer.run_simulates os b c Hb) as H1.
  pose proof (LinkedBuffer.run_queue os l c Hl Ho) as H2. unfold Buffer.simulates in H1.
  destruct (Buffer.run Buffer.queue_step c os) as [[out c']|].
  - destruct H1 as (b' & -> & [_ Hb']), H2 as (l' & -> & [_ Hl']). by rewrite Hb', Hl'.
  - by rewrite H1, H2.
Qed.

(** ** The accepting socket *)

(** C38: an acceptor loses no descriptor: whatever [accept] answers, each
    descriptor the system handed out was given to the callback, was closed, or
    is in the acceptor's hands; after its destructor it holds none. *)
Theorem acceptor_accounts_descriptors (sockfd idle bindret ret : Z) (ws : list Acceptor.answers)
    (a0 a1 a : Acceptor.t) :
  Acceptor.create sockfd idle bindret = Some a0 ->
  Acceptor.listen (Acceptor.setNewConnectionCallback a0) ret = Some a1 ->
  Acceptor.run a1 ws = Some a ->
  let opened := (sockfd :: Acceptor.valid idle) ++ mjoin (map Acceptor.handed_out ws) in
  opened ≡ₚ Acceptor.delivered a ++ Acceptor.closed a ++ Acceptor.held a /\
  opened ≡ₚ Acceptor.delivered (Acceptor.destroy a) ++ Acceptor.closed (Acceptor.destroy a).
Proof.
  intros Hc Hl Hr opened. pose proof (Acceptor.create_accounted _ _ _ _ Hc) as H0.
  assert (Acceptor.accounted (sockfd :: Acceptor.valid idle) a1) as H1.
  { unfold Acceptor.listen in Hl. destruct (SocketsOps.listenOrDie ret); [|done]. by simplify_eq. }
  pose proof (Acceptor.run_accounted ws _ a1 a H1 Hr) as Ha. fold opened in Ha.
  split; [exact Ha|]. apply Acceptor.destroy_closes; [|exact Ha].
  rewrite (Acceptor.run_socket ws a1 a Hr), (Acceptor.listen_socket _ _ _ Hl).
  by apply (Acceptor.create_socket sockfd idle bindret).
Qed.

(** ** Instances *)

Lemma date_calendar_witness :
  Date.yearMonthDay (Date.of_civil (Civil 2024 2 29)) = Date.YMD 29 2 2024 /\
  Date.julianDayNumber (Date.of_civil (Civil 2024 3 1)) =
    Date.julianDayNumber (Date.of_civil (Civil 2024 2 29)) + 1 /\
  weekday (Civil 2024 2 29) = 4 /\ Date.weekOfDay (Date.of_civil (Civil 2024 2 29)) = 0.
Proof.
  destruct (date_calendar (Civil 2024 2 29)) as (H1 & H2 & H3);
    [apply (bool_decide_unpack _); vm_compute; done|by vm_compute|].
  split; [exact H1|]. split; [apply H2; by vm_compute|]. split; [reflexivity|]. apply H3. by vm_compute.
Defined.

(** [LOG_SYSERR << "port " << 80;] *)
Definition no_port : list LogStream.operand := [LogStream.CString (Some $"port "); LogStream.Int 80].
Definition strerror (errno : Z) : bytes := $"Address already in use".

Lemma log_statement_writes_line_witness :
  Logger.log strerror (0, 0) 98 ($"src/main.cpp") 12 Logger.LOG_SYSERR no_port Logger.process_init
    Logger.thread_init =
  Some (Logger.emit Logger.process_init Logger.ERROR
          ($".000000 ERROR Address already in use(errno = 98) port 80 - main.cpp:12" ++ [chr 10]),
        Logger.thread_init).
Proof.
  destruct (log_statement_writes_line strerror (0, 0) 98 ($"src/main.cpp") 12 Logger.LOG_SYSERR no_port
              Logger.process_init Logger.thread_init) as [E Efit].
  - reflexivity.
  - repeat (apply Forall_cons; split); try (by apply Forall_nil); try done; vm_compute; done.
  - rewrite E, Efit; [vm_compute; reflexivity|]. apply Nat.leb_le. vm_compute. reflexivity.
Defined.

(** Buffers of eight bytes: the third line does not fit in the first. *)
Definition three_lines : list AsyncLogging.op :=
  [AsyncLogging.OAppend ($"one"); AsyncLogging.OBackend (0, 0); AsyncLogging.OAppend ($"two");
   AsyncLogging.OAppend ($"three"); AsyncLogging.OBackend (0, 0); AsyncLogging.OBackend (0, 0)].

Lemma async_log_keeps_lines_witness :
  exists s, AsyncLogging.run 8 (AsyncLogging.start 8 (AsyncLogging.create 8)) three_lines = Some s /\
    AsyncLogging.taken s ++ AsyncLogging.pending s = $"onetwothree" /\
    (AsyncLogging.overrun s = false -> forall f calls f', is_Some (LogFile.file_ f) ->
       map LogFile.c_line calls = AsyncLogging.outputs (AsyncLogging.events s) ->
       Forall (fun c => Forall (fun w => w.2 = 0) (LogFile.c_writes c)) calls ->
       LogFile.appends gmtime ($"host") 42 (LogFile.Config ($"server") 1000 3 1024 true) f calls = Some f' ->
       LogFile.logged f' = LogFile.logged f ++ AsyncLogging.taken s) /\
    (AsyncLogging.thread_ s = AsyncLogging.PLoop -> AsyncLogging.running_ s = true ->
     (length (AsyncLogging.buffers_ s) < 25)%nat -> forall tv, exists n s',
       (n <= 4)%nat /\ AsyncLogging.run 8 s (replicate n (AsyncLogging.OBackend tv)) = Some s' /\
       AsyncLogging.taken s' = $"onetwothree" /\ AsyncLogging.pending s' = []).
Proof.
  apply (async_log_keeps_lines 8 gmtime ($"host") 42 (LogFile.Config ($"server") 1000 3 1024 true) three_lines).
  unfold three_lines. repeat (apply Forall_cons; split); done.
Defined.

(** A queue for two elements on which two consumers sleep when the first
    element comes: one of them was woken for it. *)
Definition two_takes : list (BoundedBlockingQueue.op nat) :=
  [BoundedBlockingQueue.OTake; BoundedBlockingQueue.OTake; BoundedBlockingQueue.OPut 1]%nat.

Lemma bounded_queue_correct_witness :
  exists q, BoundedBlockingQueue.run 2 BoundedBlockingQueue.create two_takes = Some q /\
    let held := BoundedBlockingQueue.queue_ q in
    let room := (2 - length held)%nat in
    (length held <= 2)%nat /\
    BoundedBlockingQueue.received q ++ held = [1]%nat /\
    ((0 < PCondition.sleeping (BoundedBlockingQueue.notEmpty_ q))%nat ->
     (length held <= PCondition.woken (BoundedBlockingQueue.notEmpty_ q))%nat /\
     exists q', BoundedBlockingQueue.run 2 q (replicate (length held) BoundedBlockingQueue.OTakeWake) = Some q' /\
       BoundedBlockingQueue.queue_ q' = [] /\
       BoundedBlockingQueue.received q' = BoundedBlockingQueue.received q ++ held) /\
    ((0 < PCondition.sleeping (BoundedBlockingQueue.notFull_ q))%nat ->
     (room <= PCondition.woken (BoundedBlockingQueue.notFull_ q))%nat /\
     exists q', BoundedBlockingQueue.run 2 q (replicate room (BoundedBlockingQueue.OPutWake 0)) = Some q' /\
       BoundedBlockingQueue.queue_ q' = held ++ take room (BoundedBlockingQueue.blocked q) /\
       BoundedBlockingQueue.full 2 q' = true).
Proof.
  eexists. split; [vm_compute; reflexivity|].
  apply (bounded_queue_correct 2 two_takes). vm_compute. reflexivity.
Defined.

(** Two workers, a queue of one task; the second worker sleeps when the third
    task is queued. *)
Definition started_pool : ThreadPool.t nat :=
  default ThreadPool.create (ThreadPool.start ($"pool") (ThreadPool.setMaxQueueSize ThreadPool.create 1) 2).
Definition pool_run : list (ThreadPool.op nat) :=
  let w := ThreadPool.OWorker in
  [ThreadPool.ORun 10; w ThreadPool.WHead; w ThreadPool.WEnter; w ThreadPool.WHead; w ThreadPool.WEnter;
   ThreadPool.ORun 11; w ThreadPool.WWake; ThreadPool.ORun 12]%nat.

Lemma pool_starts_tasks_in_order_witness :
  exists p, ThreadPool.run started_pool pool_run = Some p /\
  ThreadPool.started p ++ ThreadPool.queue_ p = [10; 11; 12]%nat /\
  ((0 < ThreadPool.maxQueueSize_ p)%nat ->
   (length (ThreadPool.queue_ p) <= ThreadPool.maxQueueSize_ p)%nat) /\
  (ThreadPool.idle p + ThreadPool.entering p + PCondition.sleeping (ThreadPool.notEmpty_ p) +
   PCondition.woken (ThreadPool.notEmpty_ p) + length (ThreadPool.busy p) + ThreadPool.exited p =
   ThreadPool.threadSize_ p)%nat /\
  ((0 < length (ThreadPool.queue_ p))%nat -> (ThreadPool.exited p < ThreadPool.threadSize_ p)%nat ->
   (0 < ThreadPool.idle p + ThreadPool.entering p + PCondition.woken (ThreadPool.notEmpty_ p) +
        length (ThreadPool.busy p))%nat).
Proof.
  eexists. split; [vm_compute; reflexivity|].
  apply (pool_starts_tasks_in_order ($"pool") 1 2 pool_run started_pool); vm_compute; reflexivity.
Defined.

Lemma stopped_pool_terminates_witness :
  exists p, ThreadPool.run started_pool (pool_run ++ [ThreadPool.OStop]) = Some p /\
  (exists ws p', ThreadPool.run p (map ThreadPool.OWorker ws) = Some p' /\ ThreadPool.joined p' = true) /\
  (forall ws p', ThreadPool.run p (map ThreadPool.OWorker ws) = Some p' ->
     (length ws <= ThreadPool.steps_left p)%nat /\
     (length (ThreadPool.queue_ p) <= length (ThreadPool.queue_ p') + ThreadPool.takers p)%nat).
Proof.
  eexists. split; [vm_compute; reflexivity|].
  apply (stopped_pool_terminates ($"pool") 1 2 (pool_run ++ [ThreadPool.OStop]) started_pool);
    vm_compute; reflexivity.
Defined.

Definition buffer_ops : list Buffer.op :=
  [Buffer.OAppend ($"GET / HTTP"); Buffer.ORetrieve 4; Buffer.OShrink 16; Buffer.ORetrieveAsString 1].

Lemma linked_buffer_equals_buffer_witness :
  match Buffer.run Buffer.step Buffer.create_default buffer_ops,
        Buffer.run LinkedBuffer.step LinkedBuffer.create buffer_ops with
  | Some (out, b'), Some (out', l') => out = out' /\ Buffer.content b' = LinkedBuffer.gathered l'
  | None, None => True
  | _, _ => False
  end.
Proof.
  apply (linked_buffer_equals_buffer buffer_ops Buffer.create_default LinkedBuffer.create []).
  - split; [apply Buffer.buffer_wf_create|apply Buffer.content_create].
  - apply LinkedBuffer.create_holds.
  - reflexivity.
Defined.

(** A connection, and then no descriptors left: the spare one is given up to
    accept and close the next connection, and opened again. *)
Definition busy_day : list Acceptor.answers :=
  [Acceptor.Answers 7 0 0 (-1) (-1);
   Acceptor.Answers (-1) SocketsOps.EMFILE SocketsOps.EMFILE 4 4].

Lemma acceptor_accounts_descriptors_witness :
  exists a, Acceptor.run (Acceptor.mk 3 true true 4 true [] []) busy_day = Some a /\
    [3; 4; 7; 4; 4] ≡ₚ Acceptor.delivered a ++ Acceptor.closed a ++ Acceptor.held a /\
    [3; 4; 7; 4; 4] ≡ₚ Acceptor.delivered (Acceptor.destroy a) ++ Acceptor.closed (Acceptor.destroy a).
Proof.
  eexists. split; [vm_compute; reflexivity|].
  apply (acceptor_accounts_descriptors 3 4 0 0 busy_day (Acceptor.mk 3 false false 4 false [] [])
           (Acceptor.mk 3 true true 4 true [] [])); vm_compute; reflexivity.
Defined.
