(* ===== verification/AppTheorems.v ===== *)
(** * The application: what its requests do

    The properties of the request handlers of [HttpUploadHandler], each with a
    concrete instance. *)

From S2P Require Import Prelude CxxString OrdMap Regex TimeStamp HttpRequest HttpContext.
From S2P Require Import HttpResponse World Sample Session Accounts Upload Download Files.
From S2P Require Import Share Routes Handlers Access Streaming Uploading UploadMessages.
From S2P Require Import Serving FileMapping Accounting SessionStore Sharing Startup WellTyped SqlSafety.

(** ** Access control *)

Section access_control.
Context `{Platform}.

(** C1: a request that is routed to a handler that needs a login, without a live
    session, is answered 401 and shuts the connection down; the only statement
    sent to the database looks the session up, and no file, upload or download
    is touched. *)
Theorem unauthenticated_refused w h ps body :
  let w1 := set_req (HttpRequest.setPathParams (w_req w) ps) w in
  findRoute initRoutes (HttpRequest.method_ (w_req w)) (HttpRequest.path_ (w_req w)) = Some (h, ps) ->
  needs_login h = true ->
  session_row (HttpRequest.getHeader (w_req w) ($"X-Session-ID")) w = None ->
  json_dump (error_body no_login k401Unauthorized) = inr body ->
  onRequest w =
    (Ok true, answered no_login k401Unauthorized body
                (session_asked (HttpRequest.getHeader (w_req w) ($"X-Session-ID")) w1)).
Proof. intros w1. apply onRequest_refuses. Qed.

(** C2: a download callback is installed by [handleDownload] only when the
    database has a row for the requested name (and share code), and its caller
    owns the file or holds a share that lets it in: public, protected with the
    right extraction code, or shared with that user; and the same for
    [handleShareDownload], where a share code is compulsory. *)
Theorem download_only_if_permitted w id :
  w_wcc w = None ->
  (w_wcc (handleDownload w).2 = Some (CbDownload id) ->
   exists auth userId w1 shareCode extractCode r,
    downloadUser w = (Ok (auth, userId), w1) /\
    HttpRequest.getQuery (w_req w) ($"code") [] = Some shareCode /\
    HttpRequest.getQuery (w_req w) ($"extract_code") [] = Some extractCode /\
    first_row (answer (download_query w1 (HttpRequest.getPathParam (w_req w) ($"filename"))
                         shareCode) w1) = Some r /\
    may_download auth userId shareCode extractCode r) /\
  (w_wcc (handleShareDownload w).2 = Some (CbDownload id) ->
   exists user w1 shareCode extractCode r,
    validateSession (HttpRequest.getHeader (w_req w) ($"X-Session-ID")) w = (Ok user, w1) /\
    HttpRequest.getQuery (w_req w) ($"code") [] = Some shareCode /\ shareCode <> [] /\
    HttpRequest.getQuery (w_req w) ($"extract_code") [] = Some extractCode /\
    first_row (answer (share_download_select
                         (escaped w1 (HttpRequest.getPathParam (w_req w) ($"filename")))
                         (escaped w1 shareCode)) w1) = Some r /\
    may_download (bool_decide (is_Some user)) (default 0%Z (fst <$> user)) shareCode extractCode r).
Proof.
  intros Hw. assert (no_download w) as Hn by (intros i; by rewrite Hw).
  split; [by apply handleDownload_permitted|by apply handleShareDownload_permitted].
Qed.

(** Conversely, a caller who may download is served the file of the row. *)
Theorem permitted_download_served w auth uid w1 shareCode extractCode r i owner type withId dbCode
    server original :
  HttpRequest.getPathParam (w_req w) ($"filename") <> [] ->
  downloadUser w = (Ok (auth, uid), w1) ->
  HttpRequest.getQuery (w_req w) ($"code") [] = Some shareCode ->
  HttpRequest.getQuery (w_req w) ($"extract_code") [] = Some extractCode ->
  let q := download_query w1 (HttpRequest.getPathParam (w_req w) ($"filename")) shareCode in
  first_row (answer q w1) = Some r ->
  (exists s, r !! 0 = Some (Some s) /\ stoi s = inr i) ->
  r !! 1 = Some (Some server) -> r !! 2 = Some (Some original) ->
  share_columns_of r owner type withId dbCode ->
  may_download auth uid shareCode extractCode r ->
  handleDownload w = serveFile server original (asked q w1).
Proof. apply handleDownload_serves. Qed.

(** C5: serving a file answers 200, or 206 for a satisfiable range, and installs
    a callback which sends as many bytes as the file had from the start of the
    range to its end, in non-empty chunks of at most 1 MiB, and then asks for the
    shutdown, whatever the rest of the program does before each chunk, the
    context left alone: remove the file, write it, put another in its place.
    Unless the opened file itself was written meanwhile, they are the bytes it
    had. *)
Theorem download_delivers server original content c r w :
  w_fs w !! upload_path server = Some content ->
  (Z.of_nat (length content) < 2 ^ 64)%Z ->
  HttpRequest.method_ (w_req w) <> kHead ->
  parseRange (HttpRequest.getHeader (w_req w) ($"Range")) (Z.of_nat (length content)) = inr r ->
  r <> RangeUnsatisfiable ->
  w_ctx w = Some c -> HttpContext.customContext_ c = None ->
  open_in_ok (upload_path server) = true ->
  exists W id, serveFile server original w = (Ok true, W) /\ w_wcc W = Some (CbDownload id) /\
    w_resp W = download_response (w_resp w) original (Z.of_nat (length content)) r /\
    forall others, (forall k v, meanwhile id v (others k v)) ->
      exists chunks w' d, stream (S (length content)) others (CbDownload id) W = (Ok (Some chunks), w') /\
        Forall good_chunk chunks /\
        length (concat chunks) = length content - Z.to_nat (range_start r) /\
        w_down w' !! id = Some d /\
        (d_written d = false -> concat chunks = drop (Z.to_nat (range_start r)) content).
Proof.
  intros Hfs Hmax Hm Hr Hu Hc Hcc Ho.
  exists (downloading (upload_path server) original content c r w), (w_next w).
  split; [by apply serveFile_starts|]. split; [done|]. split; [done|]. intros others Hothers.
  assert (0 <= range_start r <= Z.of_nat (length content))%Z as Hb.
  { destruct r as [|s e|]; cbn; [lia| |lia]. apply parseRange_bounds in Hr. lia. }
  set (p := Z.to_nat (range_start r)). assert (range_start r = Z.of_nat p) as Hp by (unfold p; lia).
  destruct (create_streaming (upload_path server) original content p) as (Hs & Hl & Hrem & Hw); [done|lia|].
  set (d0 := FileDownContext.seekTo _ _) in *.
  destruct (stream_rest others (w_next w) Hothers (S (length content)) d0 (downloading (upload_path server) original content c r w))
    as (chunks & w' & d & E & Hlen & Hall & Hd & Hsame); [|done|lia|].
  { unfold downloading, d0. rewrite Hp. apply lookup_insert_eq. }
  exists chunks, w', d. rewrite Hlen, Hl. split; [done|]. split; [done|]. split; [done|]. split; [done|].
  intros Hf. rewrite <- Hrem. by apply Hsame.
Qed.

(** C3: no request can change a statement: from any state, whatever the request,
    every statement it sends to the database reads, outside its string literals,
    as one of the program's own with nothing but numbers filled in; and without
    a connection nothing is sent. *)
Theorem statements_are_the_programs w : escapes ->
  exists new, w_sql (onRequest w).2 = w_sql w ++ new /\
    Forall (fun q => exists p t, program_statement p /\ sql_text q = Some t /\ sql_text p = Some t) new /\
    (w_mysql w = false -> new = []).
Proof.
  intros He. destruct (onRequest_harmless w He) as (new & Hs & Hn & Hc). exists new. split; [done|].
  split; [|done]. eapply Forall_impl; [exact Hn|]. intros q (p & Hp & t & Hq & Ht). by exists p, t.
Qed.

End access_control.

(** Somebody tries to log in as ann without her password. *)
Definition escaping : Platform :=
  platform_with mysql_escape unit (fun _ db => (Some (Some []), db)).
Definition injection_request : HttpReq :=
  sample_request kPost ($"/login") [] [] ($"{" ++ [quote] ++ $"username" ++ [quote] ++ $":" ++ [quote] ++
    $"ann' OR '1'='1" ++ [quote] ++ $"," ++ [quote] ++ $"password" ++ [quote] ++ $":" ++ [quote] ++ $"x" ++
    [quote] ++ $"}").
Definition injection_world : @World escaping :=
  @mkWorld escaping injection_request (HttpResponse.create false) None (Some HttpContext.create) ∅ 0 true tt []
    None ∅ [] (fun n => Z.of_nat n) 0 1000%Z.

Lemma statements_are_the_programs_witness :
  length (w_sql (@onRequest escaping injection_world).2) = 1 /\
  exists new, w_sql (@onRequest escaping injection_world).2 = [] ++ new /\
    Forall (fun q => exists p t, @program_statement p /\ sql_text q = Some t /\ sql_text p = Some t) new /\
    (true = false -> new = []).
Proof.
  split; [vm_compute; reflexivity|]. apply (@statements_are_the_programs escaping injection_world).
  intros s. split; [apply mysql_escape_quotable|apply mysql_escape_no_nul].
Defined.

Definition files_request : HttpReq := sample_request kGet ($"/files") [] [] [].

Lemma unauthenticated_refused_witness :
  onRequest (sample_world files_request [] ∅) =
    (Ok true, answered no_login k401Unauthorized (print_json 8 (error_body no_login k401Unauthorized))
                (set_req (HttpRequest.setPathParams files_request ∅) (sample_world files_request [] ∅))).
Proof.
  apply (unauthenticated_refused (sample_world files_request [] ∅) HListFiles ∅ _);
    vm_compute; reflexivity.
Defined.

(** Ann asks for her own file. *)
Definition photo_row (owner : bytes) (share : list (option bytes)) : row :=
  [Some ($"1"); Some ($"upload_1_2"); Some ($"photo.jpg"); Some owner] ++ share.
Definition photo : bytes := $"JPEGDATA".
Definition photo_request (query : bytes) (headers : list (bytes * bytes)) : HttpReq :=
  routed [($"filename", $"upload_1_2")]
    (sample_request kGet ($"/download/upload_1_2") query headers []).
Definition photo_fs : gmap bytes bytes := {[ upload_path ($"upload_1_2") := photo ]}.

Definition own_photo : World :=
  sample_world (photo_request [] [session_header])
    (ann_session ++ [rows [photo_row ($"7") [None; None; None]]]) photo_fs.

(** Somebody without a session presents a protected share and its code. *)
Definition shared_photo : World :=
  sample_world (photo_request ($"?code=abc&extract_code=XY") [])
    [rows [photo_row ($"9") [Some ($"protected"); None; Some ($"XY"); None; None]]] photo_fs.

Lemma download_only_if_permitted_witness :
  (exists auth userId w1 shareCode extractCode r,
    downloadUser own_photo = (Ok (auth, userId), w1) /\
    HttpRequest.getQuery (w_req own_photo) ($"code") [] = Some shareCode /\
    HttpRequest.getQuery (w_req own_photo) ($"extract_code") [] = Some extractCode /\
    first_row (answer (download_query w1 (HttpRequest.getPathParam (w_req own_photo) ($"filename"))
                         shareCode) w1) = Some r /\
    may_download auth userId shareCode extractCode r) /\
  exists user w1 shareCode extractCode r,
    validateSession (HttpRequest.getHeader (w_req shared_photo) ($"X-Session-ID")) shared_photo
      = (Ok user, w1) /\
    HttpRequest.getQuery (w_req shared_photo) ($"code") [] = Some shareCode /\ shareCode <> [] /\
    HttpRequest.getQuery (w_req shared_photo) ($"extract_code") [] = Some extractCode /\
    first_row (answer (share_download_select
                         (escaped w1 (HttpRequest.getPathParam (w_req shared_photo) ($"filename")))
                         (escaped w1 shareCode)) w1) = Some r /\
    may_download (bool_decide (is_Some user)) (default 0%Z (fst <$> user)) shareCode extractCode r.
Proof.
  split.
  - apply (download_only_if_permitted own_photo 0); vm_compute; reflexivity.
  - apply (download_only_if_permitted shared_photo 0); vm_compute; reflexivity.
Defined.

Definition own_photo_found : World := (downloadUser own_photo).2.

Lemma permitted_download_served_witness :
  handleDownload own_photo =
  serveFile ($"upload_1_2") ($"photo.jpg")
    (asked (download_query own_photo_found
              (HttpRequest.getPathParam (w_req own_photo) ($"filename")) []) own_photo_found).
Proof.
  refine (permitted_download_served own_photo true 7 own_photo_found [] []
            (photo_row ($"7") [None; None; None]) 1 7 [] 0 [] ($"upload_1_2") ($"photo.jpg")
            _ _ _ _ _ _ _ _ _ _).
  - vm_compute. done.
  - apply run_outcome. vm_compute. reflexivity.
  - vm_compute. reflexivity.
  - vm_compute. reflexivity.
  - vm_compute. reflexivity.
  - exists ($"1"). split; vm_compute; reflexivity.
  - reflexivity.
  - reflexivity.
  - split; [exists ($"7"); split; vm_compute; reflexivity|vm_compute; reflexivity..].
  - apply (download_owner _ _ _ _ _ ($"7")); vm_compute; reflexivity.
Defined.

(** Bytes 2 to 4 of the photo. *)
Definition photo_part : World :=
  sample_world (photo_request [] [($"Range", $"bytes=2-4")]) [] photo_fs.

(** The photo is removed at once, and another is stored under its name. *)
Definition replaced (_ : nat) (w : World) : World :=
  put_file (upload_path ($"upload_1_2")) ($"another") (remove_file (upload_path ($"upload_1_2")) w).

Lemma replaced_meanwhile id k w : meanwhile id w (replaced k w).
Proof.
  intros d Ed. exists (written (upload_path ($"upload_1_2")) ($"another") (unlinked (upload_path ($"upload_1_2")) d)).
  split; [cbn; by rewrite !lookup_fmap, Ed|]. etransitivity; [apply evolves_unlinked|apply evolves_put].
Qed.

Lemma download_delivers_witness :
  exists W id, serveFile ($"upload_1_2") ($"photo.jpg") photo_part = (Ok true, W) /\
    w_wcc W = Some (CbDownload id) /\
    w_resp W = download_response (w_resp photo_part) ($"photo.jpg") 8 (RangePart 2 4) /\
    forall others, (forall k v, meanwhile id v (others k v)) ->
      exists chunks w' d, stream 9 others (CbDownload id) W = (Ok (Some chunks), w') /\
        Forall good_chunk chunks /\ length (concat chunks) = 6 /\ w_down w' !! id = Some d /\
        (d_written d = false -> concat chunks = $"EGDATA").
Proof.
  apply (download_delivers ($"upload_1_2") ($"photo.jpg") photo HttpContext.create (RangePart 2 4)
           photo_part); first [vm_compute; reflexivity | done].
Defined.

(** What the client gets, whatever [others] do. *)
Definition photo_sent (others : nat -> World -> World) : option bytes :=
  match serveFile ($"upload_1_2") ($"photo.jpg") photo_part with
  | (Ok _, w) =>
      match w_wcc w with
      | Some cb =>
          match stream 9 others cb w with (Ok (Some chunks), _) => Some (concat chunks) | _ => None end
      | None => None
      end
  | _ => None
  end.

(** The photo removed and replaced by another is sent all the same; truncated,
    it is filled up with zeros. *)
Lemma replaced_photo_sent : photo_sent replaced = Some ($"EGDATA").
Proof. vm_compute. reflexivity. Qed.
Lemma truncated_photo_padded :
  photo_sent (fun _ => put_file (upload_path ($"upload_1_2")) ($"JPEG")) = Some ($"EG" ++ replicate 4 (chr 0)).
Proof. vm_compute. reflexivity. Qed.

(** ** Uploads *)

Section uploads.
Context `{Platform}.

(** C4: an upload that arrives in several messages, split anywhere in the
    content but not across its closing boundary, leaves a file with exactly the
    bytes between the header of the part and the closing boundary, records its
    size and original name in the database for the user of the session, answers
    only the last message, and detaches the upload from the connection.  The
    session must be found by the lookups the messages make, one each, in the
    states of the database these lookups leave ([session_lasts]): a live session
    of a table of sessions is ([live_session_lasts]). *)
Theorem upload_reassembled sid uid w c b original head d0 mids dn tail :
  let boundary := $"--" ++ b in
  session_lasts (2 + length mids) sid uid (w_db w) ->
  upload_request w c sid b original -> HttpContext.gotAll c = false ->
  part_header head -> find (boundary ++ $"--") (first_part head d0) 0 = None ->
  Forall (data_part boundary) mids ->
  find (boundary ++ $"--") (dn ++ boundary ++ $"--") 0 = Some (length dn) ->
  (forall id v, u_originalFilename v = original -> exists s, json_dump (upload_answer id v) = inr s) ->
  let content := d0 ++ concat mids ++ dn in
  exists W v, post_parts (first_part head d0 :: mids ++ [end_part boundary dn tail]) w =
      (Ok (false :: replicate (length mids) false ++ [true]), W) /\
    alike w v /\
    uploaded c (complete_upload w original b (length content)) content v uid W.
Proof. apply upload_messages. Qed.

(** The same for a form that arrives in one message.  In a multipart form
    the closing boundary is preceded by a CRLF that belongs to the delimiter:
    the stored file is [file] and that CRLF, two bytes more than was sent. *)
Theorem upload_keeps_delimiter_crlf sid uid w c b original head file tail :
  let boundary := $"--" ++ b in
  let crlf := [chr 13; chr 10] in
  session_lasts 1 sid uid (w_db w) -> upload_request w c sid b original -> part_header head ->
  find (boundary ++ $"--") (first_part head (file ++ crlf) ++ boundary ++ $"--") 0 =
    Some (length (first_part head (file ++ crlf))) ->
  (Z.of_nat (length (end_part boundary (first_part head (file ++ crlf)) tail)) < 2 ^ 64)%Z ->
  (forall id v, u_originalFilename v = original -> exists s, json_dump (upload_answer id v) = inr s) ->
  exists W, post_parts [end_part boundary (first_part head (file ++ crlf)) tail] w = (Ok [true], W) /\
    w_fs W !! upload_file w = Some (file ++ crlf) /\
    (forall p, p <> upload_file w -> w_fs W !! p = w_fs w !! p).
Proof.
  intros boundary crlf Hl Hu Hh He Hlen Hj.
  destruct (upload_one_message sid uid w c b original head (file ++ crlf) tail Hl Hu Hh He Hlen Hj)
    as (W & v & E & Ha & []).
  exists W. split; [exact E|]. destruct (alike_keeps _ _ Ha) as (_ & _ & Hfs & _).
  cbn [u_filename complete_upload with_state advance with_total new_upload] in up_fs.
  rewrite up_fs, Hfs. split; [by rewrite lookup_insert_eq|].
  intros p Hp. by rewrite lookup_insert_ne.
Qed.

End uploads.

Definition form_request : HttpReq :=
  sample_request kPost ($"/upload") []
    [($"X-Session-ID", code_a); ($"Content-Type", $"multipart/form-data; boundary=XYZ");
     ($"X-File-Name", $"a%20b.txt")] [].

(** Ann's session is in the table. *)
Definition form_world : @World table_platform := table_world form_request ann_tables.

Lemma form_upload_request :
  @upload_request table_platform form_world HttpContext.create code_a ($"XYZ") ($"a b.txt").
Proof.
  split; try (vm_compute; reflexivity).
  - exists ($"a%20b.txt"). split; [vm_compute; reflexivity|]. split; [done|vm_compute; reflexivity].
  - split; [done|]. repeat constructor.
Qed.

Definition form_head : bytes := $"--XYZ" ++ [chr 13; chr 10] ++ $"Content-Type: text/plain".

Lemma upload_reassembled_witness :
  exists W v,
    @post_parts table_platform
      (first_part form_head ($"Hel") :: [$"lo,"; $" wor"] ++ [end_part ($"--XYZ") ($"ld") []]) form_world =
      (Ok [false; false; false; true], W) /\
    alike form_world v /\
    uploaded HttpContext.create (complete_upload form_world ($"a b.txt") ($"XYZ") 12)
      ($"Hello, world") v 7 W.
Proof.
  refine (@upload_reassembled table_platform code_a 7 form_world HttpContext.create ($"XYZ")
    ($"a b.txt") form_head ($"Hel") [$"lo,"; $" wor"] ($"ld") [] _ _ _ _ _ _ _ _).
  - apply ann_session_lasts.
  - apply form_upload_request.
  - done.
  - vm_compute. reflexivity.
  - vm_compute. reflexivity.
  - repeat constructor; done.
  - vm_compute. reflexivity.
  - intros id v _. by eexists.
Defined.

Lemma upload_keeps_delimiter_crlf_witness :
  exists W,
    @post_parts table_platform
      [end_part ($"--XYZ") (first_part form_head ($"Hi" ++ [chr 13; chr 10])) []] form_world =
      (Ok [true], W) /\
    w_fs W !! ($"uploads/upload_1000_1000") = Some ($"Hi" ++ [chr 13; chr 10]) /\
    (forall p, p <> $"uploads/upload_1000_1000" -> w_fs W !! p = None).
Proof.
  refine (@upload_keeps_delimiter_crlf table_platform code_a 7 form_world HttpContext.create ($"XYZ")
    ($"a b.txt") form_head ($"Hi") [] _ _ _ _ _ _).
  - apply ann_session_lasts.
  - apply form_upload_request.
  - vm_compute. reflexivity.
  - vm_compute. reflexivity.
  - vm_compute. reflexivity.
  - intros id v _. by eexists.
Defined.

(** ** Stored files *)

Section stored_files.
Context `{Platform}.

(** In every state the program reaches from its start, by connections that
    come and go, requests that are parsed and dispatched, and callbacks that
    run, the name mapping is an ordered map, the download contexts that the
    connection and its callback refer to are alive, and each knows the size of
    its file; and the installed callback runs, without touching a dead object. *)
Theorem reachable_states_well_typed numThreads dir_exists answers db fs random clock h w :
  Startup.construct numThreads dir_exists answers db fs random clock = Some h ->
  rtc step (Startup.h_world h) w ->
  well_typed w /\
  forall cb, w_wcc w = Some cb -> exists a w', run_callback cb w = (Ok a, w') /\ well_typed w'.
Proof.
  intros Hc Hs. assert (well_typed w) as Hw by (apply (steps_typed _ _ Hs); by eapply construct_typed).
  split; [done|]. intros cb. by apply callback_runs.
Qed.

(** C14: a request changes the stored files or the name mapping only when it is
    routed to the upload or the delete handler. *)
Theorem only_upload_and_delete_write w :
  ~ same_files w (onRequest w).2 ->
  exists h ps,
    findRoute initRoutes (HttpRequest.method_ (w_req w)) (HttpRequest.path_ (w_req w)) = Some (h, ps) /\
    (h = HFileUpload \/ h = HDelete).
Proof.
  intros Hn. assert (forall m : M bool, keeps (same_files w) m ->
    keeps (same_files w)
      (try_catch m (fun _ => sendError ($"Internal Server Error") k500InternalServerError;; mret true)))
    as Htry by (intros m Hm; apply keeps_try; [done|intros ?; keeps]).
  destruct (findRoute _ _ _) as [[h ps]|] eqn:E.
  - exists h, ps. split; [done|]. destruct (reads_only h) eqn:Er.
    + exfalso. apply Hn. unfold onRequest, try_catch. rewrite get_bind, E. cbv iota. clear E.
      pose proof (Htry (modify (fun w => set_req (HttpRequest.setPathParams (w_req w) ps) w);;
                        run_handler h)) as Hk.
      apply Hk; [|done]. apply keeps_bind; [by apply keeps_modify|intros ?].
      by apply (keeps_reads_only (same_files w)).
    + clear E. destruct h; try discriminate Er; auto.
  - exfalso. apply Hn. unfold onRequest, try_catch. rewrite get_bind, E. cbv iota. clear E.
    apply (Htry handleNotFound); [keeps|done].
Qed.

(** C13: [handleDelete] changes nothing on disk unless the session is valid and
    the database says that its user owns the file named in the path; and deleting
    one's file deletes its shares and its record, removes it from the disk and
    from the name mapping, leaves every other file alone except for the
    mapping's own, and answers success. *)
Theorem delete_outcomes w :
  (~ same_files w (handleDelete w).2 ->
   exists uid name w1 r,
     validateSession (HttpRequest.getHeader (w_req w) ($"X-Session-ID")) w = (Ok (Some (uid, name)), w1) /\
     first_row (answer (own_file_select (escaped w1 (HttpRequest.getPathParam (w_req w) ($"filename")))
                          uid) w1) = Some r) /\
  (forall uid name w1 r s fileId filename body,
   validateSession (HttpRequest.getHeader (w_req w) ($"X-Session-ID")) w = (Ok (Some (uid, name)), w1) ->
   HttpRequest.getPathParam (w_req w) ($"filename") = filename -> filename <> [] ->
   first_row (answer (own_file_select (escaped w1 filename) uid) w1) = Some r ->
   r !! 0 = Some (Some s) -> stoi s = inr fileId ->
   let w2 := asked (own_file_select (escaped w1 filename) uid) w1 in
   (delete_records fileId w2).1 = Ok true ->
   uploadDir ++ $"/" ++ filename <> mappingFile -> OrdMap.sorted (w_mapping w) ->
   (forall p, w_fs w !! p <> None -> unlink_ok p = true) ->
   json_dump delete_answer = inr body ->
   exists W, handleDelete w = (Ok true, W) /\ deleted w2 filename fileId body W).
Proof. split; [apply handleDelete_owner|]. intros. by eapply handleDelete_ok. Qed.

(** A name added to the persistent mapping is read back for the server's
    file name, through the JSON document on disk. *)
Theorem mapping_add_get w server original :
  OrdMap.sorted (w_mapping w) ->
  open_out_ok mappingFile = true -> open_in_ok mappingFile = true ->
  (forall n, write_ok mappingFile n = true) ->
  (forall m, loadFilenameMappingInternal w = (Ok tt, set_mapping m w) ->
     roundtrips (OrdMap.insert server original m)) ->
  exists w', addFilenameMapping server original w = (Ok tt, w') /\
    (getOriginalFilename server w').1 = Ok original.
Proof. apply add_then_get. Qed.

End stored_files.

(** The program starts; somebody connects and asks for the list of files. *)
Definition start_db : Db := [rows []].
Definition started_world : World :=
  (loadFilenameMappingInternal
     (Startup.initial_world true start_db photo_fs (fun n => Z.of_nat n) 1000%Z)).2.
Definition listed_world : World :=
  (onRequest (set_resp (HttpResponse.create false)
     (set_req files_request (Routes.onConnection true started_world).2))).2.

Lemma reachable_states_well_typed_witness :
  well_typed listed_world /\
  exists a w', run_callback CbShutdown listed_world = (Ok a, w') /\ well_typed w'.
Proof.
  assert (exists h, Startup.construct 4 true (Startup.MysqlAnswers true true true) start_db
    photo_fs (fun n => Z.of_nat n) 1000%Z = Some h /\ Startup.h_world h = started_world) as (h & Hc & Hh).
  { unfold started_world, Startup.construct. cbn [Startup.initDatabase negb Startup.init_ok
      Startup.connect_ok Startup.charset_ok].
    destruct (loadFilenameMappingInternal _) as [r w]. eexists. split; reflexivity. }
  destruct (reachable_states_well_typed 4 true (Startup.MysqlAnswers true true true) start_db
    photo_fs (fun n => Z.of_nat n) 1000%Z h listed_world Hc) as [Hw Hcb].
  - rewrite Hh. eapply rtc_l; [apply (step_connection true)|]. eapply rtc_l; [apply (step_request false files_request)|].
    apply rtc_refl.
  - split; [exact Hw|]. apply Hcb. vm_compute. reflexivity.
Defined.

Definition delete_request : HttpReq :=
  routed [($"filename", $"upload_1_2")]
    (sample_request kDelete ($"/delete/upload_1_2") [] [session_header] []).
Definition delete_world : World :=
  sample_world delete_request (ann_session ++ [rows [[Some ($"12")]]; done_sql; done_sql]) photo_fs.

Lemma changed_files w v p : w_fs v !! p <> w_fs w !! p -> ~ same_files w v.
Proof. intros Hn [Hfs _]. by rewrite Hfs in Hn. Qed.

Lemma only_upload_and_delete_write_witness :
  exists h ps, findRoute initRoutes kDelete ($"/delete/upload_1_2") = Some (h, ps) /\
    (h = HFileUpload \/ h = HDelete).
Proof.
  apply (only_upload_and_delete_write delete_world).
  apply (changed_files _ _ ($"uploads/upload_1_2")). vm_compute. done.
Defined.

Definition delete_session : World := (validateSession ($"s1") delete_world).2.

Lemma delete_outcomes_witness :
  (exists uid name w1 r,
    validateSession ($"s1") delete_world = (Ok (Some (uid, name)), w1) /\
    first_row (answer (own_file_select (escaped w1 ($"upload_1_2")) uid) w1) = Some r) /\
  exists W, handleDelete delete_world = (Ok true, W) /\
    deleted (asked (own_file_select (escaped delete_session ($"upload_1_2")) 7) delete_session)
      ($"upload_1_2") 12 (print_json 8 delete_answer) W.
Proof.
  split.
  - apply (proj1 (delete_outcomes delete_world)).
    apply (changed_files _ _ ($"uploads/upload_1_2")). vm_compute. done.
  - refine (proj2 (delete_outcomes delete_world) 7%Z ($"ann") delete_session [Some ($"12")] ($"12") 12%Z
      ($"upload_1_2") _ _ _ _ _ _ _ _ _ _ _ _).
    + apply run_outcome. vm_compute. reflexivity.
    + vm_compute. reflexivity.
    + done.
    + vm_compute. reflexivity.
    + reflexivity.
    + vm_compute. reflexivity.
    + vm_compute. reflexivity.
    + vm_compute. done.
    + constructor.
    + done.
    + reflexivity.
Defined.

Definition empty_world : World := sample_world files_request [] ∅.

Lemma mapping_add_get_witness :
  exists w', addFilenameMapping ($"upload_1_2") ($"photo.jpg") empty_world = (Ok tt, w') /\
    (getOriginalFilename ($"upload_1_2") w').1 = Ok ($"photo.jpg").
Proof.
  apply (mapping_add_get empty_world ($"upload_1_2") ($"photo.jpg")); try done.
  - constructor.
  - intros m Hm. apply (f_equal (fun p => w_mapping p.2)) in Hm.
    assert (m = []) as -> by (symmetry; exact Hm).
    do 2 eexists. split; [vm_compute; reflexivity|]. split; vm_compute; reflexivity.
Defined.
