(* ===== verification/HttpTheorems.v ===== *)
(** * The HTTP layer: parsing, serializing, serving

    The properties of buffers, of the request parser, of the response
    serializer, and of the server's message handler. *)

From S2P Require Import Prelude CxxString ByteBuffer TimeStamp HttpRequest HttpContext.
From S2P Require Import HttpParse OrdMap HttpResponse World Sample Session Accounts Upload Download.
From S2P Require Import Files Share Routes Handlers Channel TcpConnection TcpStream HttpServer.
From S2P Require Import Access Streaming Uploading UploadMessages HttpServing Wire Delivery SessionStore AppTheorems.

(** C21: a [Buffer] behaves as a queue of bytes: any sequence of appends, reads,
    unwrites, reservations and shrinks on a buffer holding [c] gives the output
    of the same sequence on the queue [c], fails an [assert] exactly when the
    queue refuses, and leaves a well-formed buffer holding the queue's content. *)
Theorem buffer_refines_queue (os : list Buffer.op) (b : Buffer.t) (c : bytes) :
  Buffer.holds b c -> Buffer.simulates (Buffer.run Buffer.step b os) (Buffer.run Buffer.queue_step c os).
Proof. apply Buffer.run_simulates. Qed.

Section parser.
Context {C : Type}.
Implicit Types (c : HttpContext.t C).

(** C15: the parser inverts a client's rendering: of a complete request followed
    by anything it makes the request with that method, path, query, version,
    headers and body, leaves exactly what follows in the buffer, and says so. *)
Theorem parse_inverts_render fuel now c b m path query v hs body rest :
  fresh c -> m <> kInvalid -> v <> kUnknown -> good_target path query ->
  Forall good_header hs -> Forall plain hs -> (Z.of_nat (length body) < 2 ^ 31)%Z ->
  Buffer.holds b (complete_request m path query v hs body ++ rest) ->
  exists c' b', HttpContext.parseRequest (S (S (S fuel))) now c b = Finished (c', b', kGotRequest) /\
    HttpContext.state_ c' = kGotAll /\ HttpContext.request_ c' = parsed c now m path query v hs body /\
    HttpContext.customContext_ c' = HttpContext.customContext_ c /\ Buffer.holds b' rest.
Proof. apply parse_complete_request. Qed.

(** C16: the parser of a connection, in any sequence of messages and whatever
    bytes they hold, however many turns its loop takes: until it has reported an
    error, no [assert] fails, and it reads outside its buffer only for a
    Content-Length line without a value.  After an error the refused line stays
    in the buffer: whatever arrives next is answered by the same error when the
    line's method was unknown, and fails the [assert] of [setMethod], which ends
    the process, when it was known. *)
Theorem parser_aborts_only_after_error fuel now c b :
  conversing c b ->
  HttpContext.parseRequest fuel now c b <> Aborted /\
  (HttpContext.parseRequest fuel now c b = Overrun -> has_blank_length (Buffer.content b)) /\
  forall c' b', HttpContext.parseRequest fuel now c b = Finished (c', b', kError) ->
    forall fuel' now' more b2, Buffer.append b' more = Some b2 ->
      HttpContext.parseRequest (S fuel') now' c' b2 =
        if decide (HttpRequest.method_ (HttpContext.request_ c') = kInvalid)
        then Finished (c', b2, kError) else Aborted.
Proof.
  intros [Hr Hb]%conversing_ready. unfold HttpContext.parseRequest at 1 2 3.
  destruct (parse_loop_safe fuel now c b kNeedMore Hr Hb) as [->|[[-> Hbl]|(c1 & b1 & r & -> & Hw & Hz)]];
    [done..|].
  do 2 (split; [done|]). intros c' b' [= -> -> ->]. rewrite decide_True in Hz by done.
  intros fuel' now' more b2. by apply refused_again.
Qed.

(** C32: a header block that arrives in two pieces hangs the parser: on a
    request line, any complete header lines and the beginning of another line,
    its loop runs for ever, and so does [onMessage]. *)
Theorem partial_headers_hang `{Platform} (cb : M bool) (cc : bool -> M unit) now (s : HttpServer.conn) ctx m path query v hs part :
  w_ctx (HttpServer.world s) = Some ctx -> fresh ctx -> m <> kInvalid -> v <> kUnknown ->
  good_target path query -> Forall good_header hs -> Forall plain hs -> chr 13 ∉ part ->
  Buffer.holds (TcpConnection.inputBuffer_ (HttpServer.tcp s))
    (request_line m path query v ++ Buffer.kCRLF ++ render_headers hs ++ part) ->
  forall fuel, HttpServer.onMessage cb cc fuel now s = inl HttpServer.CForever.
Proof.
  intros Hctx Hf Hm Hv Ht Hg Hp Hpart Hb fuel. unfold HttpServer.onMessage. rewrite Hctx.
  by rewrite (parse_partial_headers fuel now ctx _ m path query v hs part).
Qed.

(** A query string that a client renders from parameters with
    percent-encoded values is read back: [getQuery] returns the first value
    given for the key, byte for byte, or the default. *)
Theorem query_roundtrip (r : HttpReq) key d kv l :
  Forall (fun kv => good_key kv.1) (kv :: l) ->
  HttpRequest.query_ r = "?"%char :: render_query kv l ->
  HttpRequest.getQuery r key d = Some (default d (first_param key (kv :: l))).
Proof. apply getQuery_render. Qed.

End parser.

Section server.
Context `{Platform}.
Variables (cb : M bool) (cc : bool -> M unit).

(** C17: when a complete request has arrived on an open connection and the
    callback answers it with [r], the serialization of [r] follows all that was
    sent or buffered before, the parser is reset for the next request, and the
    connection is half-closed exactly when the response says so. *)
Theorem request_is_answered fuel now s data out ctx m path query v hs body rest r w1 :
  sending (HttpServer.tcp s) data out ->
  TcpConnection.state_ (HttpServer.tcp s) = TcpConnection.kConnected ->
  w_ctx (HttpServer.world s) = Some ctx -> fresh ctx -> m <> kInvalid -> v <> kUnknown ->
  good_target path query ->
  Forall good_header hs -> Forall plain hs -> (Z.of_nat (length body) < 2 ^ 31)%Z ->
  Buffer.holds (TcpConnection.inputBuffer_ (HttpServer.tcp s))
    (complete_request m path query v hs body ++ rest) ->
  let req := parsed ctx now m path query v hs body in
  (forall c, HttpContext.request_ c = req ->
     HttpContext.customContext_ c = HttpContext.customContext_ ctx ->
     exists w, cb (callback_world (HttpServer.wants_close req) c (HttpServer.world s)) = (Ok true, w) /\
       w_resp w = r /\ (HttpContext.reset <$> w_ctx (HttpServer.store_request w)) = w1) ->
  exists s' out', HttpServer.onMessage cb cc (S (S (S fuel))) now s = inr s' /\
    sending (HttpServer.tcp s') (data ++ HttpResponse.serialize r) out' /\
    w_ctx (HttpServer.world s') = w1 /\
    TcpConnection.state_ (HttpServer.tcp s') =
      (if HttpResponse.closeConnection_ r then TcpConnection.kDisconnecting
       else TcpConnection.kConnected).
Proof. apply serve_complete_request. Qed.

(** C12: from the wire and back: on an open connection, whatever else it sends, a
    complete request for a route that needs a login, without a live session, is
    answered with exactly the bytes of the 401 response, after all that was sent
    or buffered before; no file, name or download changes, and the database is
    asked for nothing but the session. *)
Theorem refused_on_the_wire fuel now s data out ctx m path query v hs body rest h ps text :
  sending (HttpServer.tcp s) data out ->
  TcpConnection.state_ (HttpServer.tcp s) = TcpConnection.kConnected ->
  w_ctx (HttpServer.world s) = Some ctx -> fresh ctx -> m <> kInvalid -> v <> kUnknown ->
  good_target path query ->
  Forall good_header hs -> Forall plain hs -> (Z.of_nat (length body) < 2 ^ 31)%Z ->
  Buffer.holds (TcpConnection.inputBuffer_ (HttpServer.tcp s))
    (complete_request m path query v hs body ++ rest) ->
  findRoute initRoutes m path = Some (h, ps) -> needs_login h = true ->
  let req := parsed ctx now m path query v hs body in
  let sid := HttpRequest.getHeader req ($"X-Session-ID") in
  session_row sid (HttpServer.world s) = None ->
  json_dump (error_body no_login k401Unauthorized) = inr text ->
  exists s' out', HttpServer.onMessage onRequest onConnection (S (S (S fuel))) now s = inr s' /\
    sending (HttpServer.tcp s')
      (data ++ HttpResponse.serialize (login_refusal (HttpServer.wants_close req) text)) out' /\
    untouched sid (HttpServer.world s) (HttpServer.world s') /\
    TcpConnection.state_ (HttpServer.tcp s') =
      (if HttpServer.wants_close req then TcpConnection.kDisconnecting else TcpConnection.kConnected).
Proof. apply refused_request_served. Qed.

(** C8: an upload on the wire: on an open connection, whatever else it sends, a
    complete request with a form that holds [file], from a logged-in client, is
    answered 200 with the name and the size of what was stored, after all that
    was sent or buffered before; the stored file is [file] and the CRLF that
    belongs to the closing delimiter, two bytes more than was sent; no other file
    and no name changes. *)
Theorem upload_on_the_wire fuel now s data out ctx query v hs rest sid uid b original head file tail :
  let content := file ++ [chr 13; chr 10] in
  let body := end_part ($"--" ++ b) (first_part head content) tail in
  sending (HttpServer.tcp s) data out ->
  TcpConnection.state_ (HttpServer.tcp s) = TcpConnection.kConnected ->
  w_ctx (HttpServer.world s) = Some ctx -> fresh ctx -> HttpContext.customContext_ ctx = None ->
  v <> kUnknown -> good_target ($"/upload") query ->
  Forall good_header hs -> Forall plain hs -> (Z.of_nat (length body) < 2 ^ 31)%Z ->
  Buffer.holds (TcpConnection.inputBuffer_ (HttpServer.tcp s))
    (complete_request kPost ($"/upload") query v hs body ++ rest) ->
  session_lasts 1 sid uid (w_db (HttpServer.world s)) ->
  upload_client (parsed ctx now kPost ($"/upload") query v hs body) (HttpServer.world s) sid b original ->
  part_header head ->
  find (($"--" ++ b) ++ $"--") (first_part head content ++ ($"--" ++ b) ++ $"--") 0 =
    Some (length (first_part head content)) ->
  (forall id v, u_originalFilename v = original -> exists s, json_dump (upload_answer id v) = inr s) ->
  exists s' out' W, HttpServer.onMessage onRequest onConnection (S (S (S fuel))) now s = inr s' /\
    sending (HttpServer.tcp s') (data ++ HttpResponse.serialize (w_resp W)) out' /\
    stored (HttpServer.world s) original content W /\
    w_fs (HttpServer.world s') = w_fs W /\ w_mapping (HttpServer.world s') = w_mapping W.
Proof. intros content body. apply upload_request_served. Qed.

(** C6: a download on the wire, from the bytes of the request to the last byte of
    the file.  On an idle connection, a complete request that the application
    answers with a file is answered with the header of the response followed by
    the file from the start of the range.  However the kernel splits the writes,
    no assertion fails in any turn of the loop, and what was sent is a beginning
    of that; when every write takes something, as many turns in which the socket
    is writable as there are bytes, twice for those of the file, are enough to
    send all of it and close the sending side.  But a client that asks to close
    the connection, or speaks HTTP/1.0, never gets a byte of the file: the server
    shuts the sending side down after the header, and the connection drops the
    chunks. *)
Theorem download_on_the_wire fuel now s data ctx m path query v hs body rest server original content r :
  idle s data ctx -> m <> kInvalid -> v <> kUnknown -> good_target path query ->
  Forall good_header hs -> Forall plain hs -> (Z.of_nat (length body) < 2 ^ 31)%Z ->
  Buffer.holds (TcpConnection.inputBuffer_ (HttpServer.tcp s))
    (complete_request m path query v hs body ++ rest) ->
  let close := HttpServer.wants_close (parsed ctx now m path query v hs body) in
  (forall c, HttpContext.request_ c = parsed ctx now m path query v hs body ->
     HttpContext.customContext_ c = HttpContext.customContext_ ctx ->
     exists w0, serves (callback_world close c (HttpServer.world s)) w0 server original content r) ->
  (Z.of_nat (length content) < 2 ^ 64)%Z ->
  let head := HttpResponse.serialize
    (download_response (HttpResponse.create close) original (Z.of_nat (length content)) r) in
  let file := range_body content r in
  exists s1, HttpServer.onMessage onRequest onConnection (S (S (S fuel))) now s = inr s1 /\
    if close then
      forall ws, exists s2, turns ws s1 = inr s2 /\
        TcpConnection.sent (HttpServer.tcp s2) `prefix_of` data ++ head
    else
      (forall ws, exists s2, turns ws s1 = inr s2 /\
        TcpConnection.sent (HttpServer.tcp s2) `prefix_of` data ++ head ++ file) /\
      (eager (TcpConnection.outcomes (HttpServer.tcp s)) ->
       length head + length file <= length (TcpConnection.outcomes (HttpServer.tcp s)) ->
       forall ws, 2 * length file + length head < writables ws ->
         exists s2, turns ws s1 = inr s2 /\ TcpConnection.sent (HttpServer.tcp s2) = data ++ head ++ file /\
           TcpConnection.writeShut (HttpServer.tcp s2) = true).
Proof.
  intros Hi Hm Hv Ht Hg Hp Hl Hb close Hs Hmax head file.
  destruct (download_request false fuel now s data ctx m path query v hs body rest server original content r)
    as (s1 & E & _ & Hpr); try done. set (id := w_next _) in Hpr.
  assert (eager (TcpConnection.outcomes (HttpServer.tcp s)) ->
    length head + length file <= length (TcpConnection.outcomes (HttpServer.tcp s)) ->
    if close then closing (data ++ head) id [] s1
      else exists k, k <= S (2 * length file + length head) /\ progress true (data ++ head) file id [] s1 k)
    as Hlive.
  { intros He Ho.
    destruct (download_request true fuel now s data ctx m path query v hs body rest server original content r)
      as (s1' & E' & _ & Hpr'); try done. rewrite E in E'. injection E' as <-.
    revert Hpr'. fold close head file. destruct close; [done|]. intros (k & ? & ? & _). by exists k. }
  exists s1. split; [exact E|]. fold close head file in Hpr. clearbody head. clear Hs. destruct close.
  - intros ws. destruct (turns_closing _ _ ws _ Hpr) as (s2 & E2 & Hc). exists s2. split; [done|].
    by apply closing_sent in Hc.
  - destruct Hpr as (k & Hk & Hpr & _). rewrite app_assoc. split.
    + intros ws. destruct (turns_progress _ _ _ _ ws _ _ Hpr) as (s2 & m2 & E2 & Hp2 & _).
      exists s2. split; [done|]. by eapply progress_sent.
    + intros He Ho ws Hws. destruct (Hlive He Ho) as (k' & Hk' & Hpr').
      destruct (turns_progress _ _ _ _ ws _ _ Hpr') as (s2 & m2 & E2 & Hp2 & _ & Hm2).
      specialize (Hm2 eq_refl). assert (m2 = 0) as -> by lia.
      exists s2. split; [done|]. by destruct (progress_done _ _ _ _ _ _ Hp2) as (? & ? & _).
Qed.

End server.

(** ** Instances *)

(** A buffer with some content. *)
Definition filled (s : bytes) : Buffer.t := default Buffer.create_default (Buffer.append Buffer.create_default s).

Lemma filled_holds s : Buffer.holds (filled s) s.
Proof.
  destruct (Buffer.append_spec Buffer.create_default [] s) as (b & E & Hb);
    [split; [apply Buffer.buffer_wf_create|apply Buffer.content_create]|].
  unfold filled. by rewrite E.
Qed.

Lemma buffer_refines_queue_witness :
  Buffer.simulates
    (Buffer.run Buffer.step (filled ($"abc")) [Buffer.ORetrieve 1; Buffer.OAppend ($"d"); Buffer.ORetrieveAsString 3])
    (Some ($"bcd", [])).
Proof.
  apply (buffer_refines_queue [Buffer.ORetrieve 1; Buffer.OAppend ($"d"); Buffer.ORetrieveAsString 3]
           (filled ($"abc")) ($"abc")).
  apply filled_holds.
Defined.

Definition host : list header := [($"Host", $"h")].

Lemma host_good : Forall good_header host /\ Forall plain host.
Proof.
  split; (constructor; [|done]).
  - split; try (apply (bool_decide_unpack _); vm_compute; done); vm_compute; reflexivity.
  - split; vm_compute; reflexivity.
Qed.

Lemma target_good : good_target ($"/nope") ($"?a=1").
Proof.
  split; try (apply (bool_decide_unpack _); vm_compute; done). right. by eexists.
Qed.

Definition nope : bytes := complete_request kGet ($"/nope") ($"?a=1") kHttp11 host ($"hi").

Lemma create_fresh {C} : fresh (HttpContext.create : HttpContext.t C).
Proof. by split. Qed.

Lemma parse_inverts_render_witness :
  exists c' b', HttpContext.parseRequest 3 TimeStamp.default (HttpContext.create : HttpContext.t unit)
      (filled (nope ++ $"GET")) = Finished (c', b', kGotRequest) /\
    HttpContext.state_ c' = kGotAll /\
    HttpContext.request_ c' =
      parsed (HttpContext.create : HttpContext.t unit) TimeStamp.default kGet ($"/nope") ($"?a=1")
        kHttp11 host ($"hi") /\
    HttpContext.customContext_ c' = None /\ Buffer.holds b' ($"GET").
Proof.
  apply (parse_inverts_render 0 TimeStamp.default HttpContext.create (filled (nope ++ $"GET")) kGet
           ($"/nope") ($"?a=1") kHttp11 host ($"hi") ($"GET")); try done.
  - apply target_good.
  - apply host_good.
  - apply host_good.
  - apply filled_holds.
Defined.

(** A line with a known method and nothing else, and one more byte. *)
Definition get_line : bytes := $"GET /nope" ++ Buffer.kCRLF.

Lemma parser_aborts_only_after_error_witness :
  let c := HttpContext.create : HttpContext.t unit in
  HttpContext.parseRequest 100 TimeStamp.default c (filled get_line) <> Aborted /\
  (HttpContext.parseRequest 100 TimeStamp.default c (filled get_line) = Overrun ->
   has_blank_length (Buffer.content (filled get_line))) /\
  forall c' b', HttpContext.parseRequest 100 TimeStamp.default c (filled get_line) = Finished (c', b', kError) ->
    forall fuel' now' more b2, Buffer.append b' more = Some b2 ->
      HttpContext.parseRequest (S fuel') now' c' b2 =
        if decide (HttpRequest.method_ (HttpContext.request_ c') = kInvalid)
        then Finished (c', b2, kError) else Aborted.
Proof. apply parser_aborts_only_after_error. apply conv_start, filled_holds. Defined.

(** An open connection with some input. *)
Definition open_conn (input : bytes) : HttpServer.conn :=
  HttpServer.mkConn
    (TcpConnection.setInput
       (default (TcpConnection.create 5 []) (TcpConnection.connectEstablished (TcpConnection.create 5 [])))
       (filled input))
    (sample_world (sample_request kGet [] [] [] []) [] ∅).

(** More bytes arrive on a connection. *)
Definition receive (more : bytes) (s : HttpServer.conn) : HttpServer.crash + HttpServer.conn :=
  match Buffer.append (TcpConnection.inputBuffer_ (HttpServer.tcp s)) more with
  | Some b => inr (HttpServer.mkConn (TcpConnection.setInput (HttpServer.tcp s) b) (HttpServer.world s))
  | None => inl HttpServer.CAssert
  end.

(** A client ends the server's process with two messages: a malformed line with
    a known method is answered 400, and on the byte that follows it an
    [assert] of the parser fails. *)
Definition assert_failed (r : HttpServer.crash + HttpServer.conn) : bool :=
  match r with inl HttpServer.CAssert => true | _ => false end.

Theorem malformed_line_ends_server :
  match HttpServer.onMessage onRequest onConnection 3 TimeStamp.default (open_conn get_line) with
  | inl e => false
  | inr s1 =>
      match receive ($"x") s1 with
      | inl e => false
      | inr s2 => assert_failed (HttpServer.onMessage onRequest onConnection 3 TimeStamp.default s2)
      end
  end = true.
Proof. vm_compute. reflexivity. Qed.

Lemma open_conn_sending input : sending (HttpServer.tcp (open_conn input)) [] [].
Proof.
  destruct (established_sending (W:=callback) 5 []) as (c & E & Hc); [done|].
  unfold open_conn. cbn [HttpServer.tcp]. rewrite E. by destruct Hc.
Qed.

Lemma partial_headers_hang_witness :
  HttpServer.onMessage onRequest onConnection 1000 TimeStamp.default
    (open_conn (request_line kGet ($"/nope") ($"?a=1") kHttp11 ++ Buffer.kCRLF ++
                render_headers host ++ $"Acc")) = inl HttpServer.CForever.
Proof.
  apply (partial_headers_hang onRequest onConnection TimeStamp.default (open_conn _) HttpContext.create kGet ($"/nope")
           ($"?a=1") kHttp11 host ($"Acc")); try done.
  - apply target_good.
  - apply host_good.
  - apply host_good.
  - apply (bool_decide_unpack _). vm_compute. done.
  - apply filled_holds.
Defined.

Definition two_params : HttpReq :=
  HttpRequest.setQuery HttpRequest.create
    ($"?" ++ render_query ($"code", $"a&b=c") [($"extract_code", $"100%")]).

Lemma query_roundtrip_witness :
  HttpRequest.getQuery two_params ($"extract_code") [] = Some ($"100%").
Proof.
  apply (query_roundtrip two_params ($"extract_code") [] ($"code", $"a&b=c") [($"extract_code", $"100%")]).
  - repeat constructor; apply (bool_decide_unpack _); vm_compute; done.
  - reflexivity.
Defined.

(** The application answers the request for [/nope] with its 404. *)
Definition nope_request : HttpReq :=
  parsed (HttpContext.create : HttpContext.t custom) TimeStamp.default kGet ($"/nope") ($"?a=1") kHttp11
    host ($"hi").
Definition nope_response : HttpResponse.t :=
  w_resp (handleNotFound (callback_world false HttpContext.create (HttpServer.world (open_conn nope)))).2.
Definition next_context : HttpContext.t custom :=
  HttpContext.reset (HttpContext.setRequest HttpContext.create nope_request).

Lemma nope_not_found w :
  HttpRequest.method_ (w_req w) = kGet -> HttpRequest.path_ (w_req w) = $"/nope" ->
  w_resp w = HttpResponse.create false ->
  exists w', onRequest w = (Ok true, w') /\ w_resp w' = nope_response /\ w_req w' = w_req w /\
    w_ctx w' = w_ctx w.
Proof.
  intros Hm Hp Hr. unfold onRequest, try_catch. rewrite get_bind, Hm, Hp.
  assert (findRoute initRoutes kGet ($"/nope") = None) as -> by (vm_compute; reflexivity).
  destruct w; simpl in Hr; subst. eexists. split; [reflexivity|]. done.
Qed.

Lemma request_is_answered_witness :
  exists s' out', HttpServer.onMessage onRequest onConnection 3 TimeStamp.default (open_conn nope) = inr s' /\
    sending (HttpServer.tcp s') (HttpResponse.serialize nope_response) out' /\
    w_ctx (HttpServer.world s') = Some next_context /\
    TcpConnection.state_ (HttpServer.tcp s') = TcpConnection.kConnected.
Proof.
  apply (request_is_answered onRequest onConnection 0 TimeStamp.default (open_conn nope) [] [] HttpContext.create kGet
           ($"/nope") ($"?a=1") kHttp11 host ($"hi") [] nope_response (Some next_context)); try done.
  - apply open_conn_sending.
  - apply target_good.
  - apply host_good.
  - apply host_good.
  - rewrite app_nil_r. apply filled_holds.
  - intros c Hreq _. fold nope_request in Hreq |- *.
    destruct (nope_not_found (callback_world (HttpServer.wants_close nope_request) c
                                (HttpServer.world (open_conn nope)))) as (w & E & Hr & Hq & Hc).
    + cbn. by rewrite Hreq.
    + cbn. by rewrite Hreq.
    + assert (HttpServer.wants_close nope_request = false) as -> by (vm_compute; reflexivity). done.
    + exists w. split; [exact E|]. split; [exact Hr|].
      unfold HttpServer.store_request. cbn [w_ctx set_ctx]. rewrite Hc, Hq. cbn. by rewrite Hreq.
Defined.

(** The list of files, asked for by nobody. *)
Definition anonymous_list : bytes := complete_request kGet ($"/files") [] kHttp11 host [].
Definition anonymous_request : HttpReq :=
  parsed (HttpContext.create : HttpContext.t custom) TimeStamp.default kGet ($"/files") [] kHttp11 host [].

Lemma refused_on_the_wire_witness :
  exists s' out', HttpServer.onMessage onRequest onConnection 3 TimeStamp.default (open_conn anonymous_list) = inr s' /\
    sending (HttpServer.tcp s')
      (HttpResponse.serialize
         (login_refusal false (print_json 8 (error_body no_login k401Unauthorized)))) out' /\
    untouched [] (HttpServer.world (open_conn anonymous_list)) (HttpServer.world s') /\
    TcpConnection.state_ (HttpServer.tcp s') = TcpConnection.kConnected.
Proof.
  apply (refused_on_the_wire 0 TimeStamp.default (open_conn anonymous_list) [] [] HttpContext.create kGet
           ($"/files") [] kHttp11 host [] [] HListFiles ∅); try done.
  - apply open_conn_sending.
  - split; try (apply (bool_decide_unpack _); vm_compute; done). by left.
  - apply host_good.
  - apply host_good.
  - rewrite app_nil_r. apply filled_holds.
Defined.

(** Somebody without a session opens a public share of a file of eight bytes,
    over a socket that takes seven bytes at a time. *)
Definition share_row : row :=
  [Some ($"1"); Some ($"upload_1_2"); Some ($"photo.jpg"); Some ($"9"); Some ($"public"); None; None].
Definition share_fs : gmap bytes bytes := {[ upload_path ($"upload_1_2") := $"JPEGDATA" ]}.
Definition share_path : bytes := $"/download/upload_1_2".
Definition share_input : bytes := complete_request kGet share_path ($"?code=abc") kHttp11 host [].
Definition share_request : HttpReq :=
  parsed (HttpContext.create : HttpContext.t custom) TimeStamp.default kGet share_path ($"?code=abc") kHttp11
    host [].
Definition seven_each : list write_outcome := replicate 300 (Wrote 7).
Definition share_conn : HttpServer.conn :=
  HttpServer.mkConn
    (TcpConnection.setInput
       (default (TcpConnection.create 5 []) (TcpConnection.connectEstablished (TcpConnection.create 5 seven_each)))
       (filled share_input))
    (sample_world (sample_request kGet [] [] [] []) [rows [share_row]] share_fs).

Lemma seven_each_eager : eager seven_each.
Proof. apply Forall_replicate. by exists 6. Qed.

Lemma share_conn_idle : idle share_conn [] HttpContext.create.
Proof.
  destruct (established_sending (W:=callback) 5 seven_each) as (c & E & Hc); [by apply Forall_replicate|].
  unfold share_conn. split; cbn [HttpServer.tcp HttpServer.world]; rewrite ?E; try done.
  - by destruct Hc.
  - injection E as <-. done.
  - injection E as <-. done.
  - injection E as <-. done.
Qed.

Lemma routed_to {A} (x : option (A * gmap bytes bytes)) h :
  fst <$> x = Some h -> x = Some (h, default ∅ (snd <$> x)).
Proof. destruct x as [[]|]; [|done]. by intros [= ->]. Qed.

Lemma share_served c :
  HttpContext.request_ c = share_request -> HttpContext.customContext_ c = None ->
  exists w0, serves (callback_world false c (HttpServer.world share_conn)) w0 ($"upload_1_2") ($"photo.jpg")
    ($"JPEGDATA") RangeWhole.
Proof.
  intros Hreq Hcc. destruct c as [st req cu]; cbn in Hreq, Hcc. subst.
  eexists. eapply (permitted_serves _ _ false 0 _ ($"abc") [] share_row 1 9 ($"public") 0 []).
  - apply routed_to. vm_compute. reflexivity.
  - vm_compute. done.
  - apply run_outcome. vm_compute. reflexivity.
  - vm_compute. reflexivity.
  - vm_compute. reflexivity.
  - vm_compute. reflexivity.
  - exists ($"1"). by split.
  - done.
  - done.
  - split; [by exists ($"9")|done..].
  - apply download_share; [done|]. by apply share_public.
  - vm_compute. reflexivity.
  - done.
  - done.
  - vm_compute. reflexivity.
  - done.
  - eexists. by split.
Qed.

Definition share_head : bytes :=
  HttpResponse.serialize (download_response (HttpResponse.create false) ($"photo.jpg") 8 RangeWhole).

Lemma download_on_the_wire_witness :
  exists s1 s2, HttpServer.onMessage onRequest onConnection 3 TimeStamp.default share_conn = inr s1 /\
    turns (replicate 400 true) s1 = inr s2 /\
    TcpConnection.sent (HttpServer.tcp s2) = share_head ++ $"JPEGDATA" /\
    TcpConnection.writeShut (HttpServer.tcp s2) = true.
Proof.
  assert (HttpServer.wants_close share_request = false) as Hclose by (vm_compute; reflexivity).
  destruct (download_on_the_wire 0 TimeStamp.default share_conn [] HttpContext.create kGet share_path
    ($"?code=abc") kHttp11 host [] [] ($"upload_1_2") ($"photo.jpg") ($"JPEGDATA") RangeWhole) as (s1 & E & Hs).
  - apply share_conn_idle.
  - done.
  - done.
  - split; try (apply (bool_decide_unpack _); vm_compute; done). right. by eexists.
  - apply host_good.
  - apply host_good.
  - done.
  - rewrite app_nil_r. apply filled_holds.
  - fold share_request. rewrite Hclose. apply share_served.
  - done.
  - fold share_request in Hs. rewrite Hclose in Hs. destruct Hs as [_ Hs].
    destruct (Hs seven_each_eager ltac:(apply Nat.leb_le; vm_compute; reflexivity) (replicate 400 true)
      ltac:(apply Nat.ltb_lt; vm_compute; reflexivity)) as (s2 & E2 & Hsent & Hshut).
    exists s1, s2. by split_and!.
Defined.

(** Ann uploads a form with the file "Hi". *)
Definition upload_headers : list header :=
  [($"X-Session-ID", code_a); ($"Content-Type", $"multipart/form-data; boundary=XYZ"); ($"X-File-Name", $"a%20b.txt")].
Definition upload_body : bytes :=
  end_part ($"--XYZ") (first_part form_head ($"Hi" ++ [chr 13; chr 10])) [].
Definition upload_input : bytes := complete_request kPost ($"/upload") [] kHttp11 upload_headers upload_body.
Definition upload_conn : @HttpServer.conn table_platform :=
  @HttpServer.mkConn table_platform
    (TcpConnection.setInput
       (default (TcpConnection.create 5 []) (TcpConnection.connectEstablished (TcpConnection.create 5 [])))
       (filled upload_input))
    (table_world (sample_request kGet [] [] [] []) ann_tables).

Lemma upload_headers_good : Forall good_header upload_headers /\ Forall plain upload_headers.
Proof.
  split; repeat (constructor; [|]); try done;
    first [ split; try (apply (bool_decide_unpack _); vm_compute; done); vm_compute; reflexivity ].
Qed.

Lemma upload_on_the_wire_witness :
  exists s' out' W, @HttpServer.onMessage table_platform (@onRequest table_platform) (@onConnection table_platform) 3 TimeStamp.default
      upload_conn = inr s' /\
    sending (HttpServer.tcp s') (HttpResponse.serialize (w_resp W)) out' /\
    stored (HttpServer.world upload_conn) ($"a b.txt") ($"Hi" ++ [chr 13; chr 10]) W /\
    w_fs (HttpServer.world s') = w_fs W /\ w_mapping (HttpServer.world s') = w_mapping W.
Proof.
  apply (@upload_on_the_wire table_platform 0 TimeStamp.default upload_conn [] [] HttpContext.create [] kHttp11
    upload_headers [] code_a 7 ($"XYZ") ($"a b.txt") form_head ($"Hi") []); try done.
  - destruct (established_sending (W:=callback) 5 []) as (c & E & Hc); [done|].
    unfold upload_conn. cbn [HttpServer.tcp]. rewrite E. by destruct Hc.
  - split; try (apply (bool_decide_unpack _); vm_compute; done). by left.
  - apply upload_headers_good.
  - apply upload_headers_good.
  - rewrite app_nil_r. apply filled_holds.
  - apply ann_session_lasts.
  - split; try (vm_compute; reflexivity).
    + exists ($"a%20b.txt"). split; [vm_compute; reflexivity|]. split; [done|vm_compute; reflexivity].
    + split; [done|]. repeat constructor.
  - intros id v _. by eexists.
Defined.
