(* ===== verification/AccountTheorems.v ===== *)
(** * Accounts, shares and routes

    The properties of logins, registrations, share links and of the route
    table, each with a concrete instance. *)

From S2P Require Import Prelude CxxString OrdMap Regex TimeStamp HttpRequest HttpContext.
From S2P Require Import HttpResponse World Sample Session Accounts Upload Download Files.
From S2P Require Import Share Routes Handlers Access Streaming Serving FileMapping.
From S2P Require Import Accounting SessionStore Sharing.

(** ** Sessions *)

(** C23: [saveSession], [validateSession] and [endSession] implement a map from
    session ids to users: against any database whose tables of users and sessions
    behave as SQL and the schema say, every sequence of the three answers what the
    same sequence on the map answers, and leaves the tables holding the resulting
    map.  Saving a session whose id is taken, or whose user does not exist,
    changes nothing. *)
Theorem sessions_implement_store `{SessionTable} (os : list session_op) (w : World) (t : tables) :
  holds w t -> Forall session_op_ok os ->
  exists W, session_run os w = (Ok (store_run t os).1, W) /\ holds W (store_run t os).2.
Proof. apply session_run_store. Qed.

(** ** Logins and registrations *)

Section accounts.
Context `{Platform}.

(** C22: a login with the name and password hash of a row of the database draws
    a new session id, 32 lower-case letters and digits made of the next 32 random
    numbers, which it uses up; it sends the INSERT that saves the
    session for the user of the row, and answers the id with the user's id and
    name.  The result of the INSERT is ignored: the answer is 200 also when it
    fails.  When the row's user is in the table of users and the id is not in
    the table of sessions, the new session is live for that user.  Without such
    a row the login is answered 401, and the lookup is the only statement sent. *)
Theorem login_outcomes w user password :
  credentials (HttpRequest.body_ (w_req w)) user password ->
  let q := login_query w user password in
  let found := first_row (answer q w) in
  let sid := next_session_id w in
  (forall r s uid name, w_mysql w = true -> found = Some r ->
     r !! 0 = Some (Some s) -> stoi s = inr uid -> r !! 1 = Some (Some name) ->
     (exists t, json_dump (login_answer sid uid name) = inr t) ->
     let q2 := session_insert (escaped w sid) uid (escaped w name) in
     exists W, handleLogin w = (Ok true, W) /\ good_code sid /\ w_draws W = w_draws w + 32 /\
       w_sql W = w_sql w ++ [q; q2] /\ w_db W = (mysql_query q2 (w_db (asked q w))).2 /\
       HttpResponse.statusCode_ (w_resp W) = k200Ok /\
       json_dump (login_answer sid uid name) = inr (HttpResponse.body_ (w_resp W)) /\
       forall (T : SessionTable), let t := content (w_db (asked q w)) in
         uid ∈ t_users t -> name_ok name -> t_sessions t !! sid = None ->
         live_user (t_sessions (content (w_db W))) sid = Some (uid, name)) /\
  (forall body, found = None -> json_dump (error_body wrong_login k401Unauthorized) = inr body ->
     handleLogin w =
       (Ok true, answered wrong_login k401Unauthorized body (asked q w))).
Proof.
  intros Hc q found sid. split.
  - intros r s uid name Hm Hf H0 Hs H1 Hj q2.
    destruct (handleLogin_ok w user password r s uid name) as (W & E & Hd & Hq & Hdb & Hst & Hb); try done.
    pose proof (drawn_code (w_random w) (w_draws w)) as Hg. exists W. split_and!; try done.
    intros T t Hu Hn Hfree. rewrite Hdb. rewrite (escaped_code w), (escaped_name w) by done.
    rewrite insert_session; [|done|by eapply users_int|done]. by apply saved_session_live.
  - intros body Hf. by apply handleLogin_wrong.
Qed.

(** C25: registering a free name stores the user with the hash of the password
    and answers the id the database gave to the row ([mysql_insert_id], as an
    [int]); registering a name that is taken is answered 400 and stores
    nothing. *)
Theorem registration_outcomes w d user password email :
  json_parse (HttpRequest.body_ (w_req w)) = inr d -> doc_string d ($"username") = inr user ->
  doc_string d ($"password") = inr password -> doc_value d ($"email") [] = inr email ->
  user <> [] -> password <> [] ->
  let q1 := user_by_name (escaped w user) in
  let q2 := user_insert (escaped w user) (escaped w (sha256 password)) (email_sql w email) in
  (w_mysql w = true -> first_row (answer q1 w) = None ->
   is_Some (mysql_query q2 (w_db (asked q1 w))).1 ->
   let db := (mysql_query q2 (w_db (asked q1 w))).2 in
   let uid := swrap 32 (mysql_insert_id db) in
   (exists t, json_dump (register_answer uid) = inr t) ->
   exists W, handleRegister w = (Ok true, W) /\ w_sql W = w_sql w ++ [q1; q2] /\ w_db W = db /\
     HttpResponse.statusCode_ (w_resp W) = k200Ok /\
     json_dump (register_answer uid) = inr (HttpResponse.body_ (w_resp W))) /\
  (forall r body, first_row (answer q1 w) = Some r ->
   json_dump (error_body name_taken k400BadRequest) = inr body ->
   handleRegister w = (Ok true, answered name_taken k400BadRequest body (asked q1 w))).
Proof.
  intros Hd Hu Hp He Hun Hpn q1 q2. split.
  - intros Hm Hf Hq db uid Hj. by apply (handleRegister_ok w d user password email).
  - intros r body Hf Hj. by apply (handleRegister_taken w d user password email r).
Qed.

(** ** Shares *)

(** C24: sharing one's file publicly stores a share with a fresh code, which
    the server's own format check accepts, and answers the code; sharing a file
    of somebody else is answered 403, and no share is stored. *)
Theorem share_outcomes w uid w1 d fileId type :
  share_request w uid w1 d fileId type ->
  let mine := first_row (answer (own_file_check fileId uid) w1) in
  (forall r, type = $"public" -> doc_contains d ($"expireTime") = false -> mine = Some r ->
   (forall code, good_code code ->
      is_Some (mysql_query (public_insert w fileId uid code)
                 (w_db (asked (own_file_check fileId uid) w1))).1) ->
   (forall id code, good_code code -> exists t, json_dump (public_answer id code) = inr t) ->
   exists W code id, handleShareFile w = (Ok true, W) /\ good_code code /\
     w_sql W = w_sql w1 ++ [own_file_check fileId uid; public_insert w fileId uid code] /\
     HttpResponse.statusCode_ (w_resp W) = k200Ok /\
     json_dump (public_answer id code) = inr (HttpResponse.body_ (w_resp W))) /\
  (forall body, mine = None -> json_dump (error_body not_your_file k403Forbidden) = inr body ->
   handleShareFile w =
     (Ok true, answered not_your_file k403Forbidden body (asked (own_file_check fileId uid) w1))).
Proof.
  intros Hs mine. split.
  - intros r -> He Hm Hq Hj. by apply (handleShareFile_public w uid w1 d fileId r).
  - intros body Hm Hj. by apply (handleShareFile_refused w uid w1 d fileId type).
Qed.

(** C33: opening a live share through its link fails with an internal error
    whenever column 13 of its row, which the query fills with the owner's user
    name, is not a number: the handler reads that column as the owner's id. *)
Theorem share_of_named_owner_fails w code extract user w1 r ps type name e body :
  let wr := set_req (HttpRequest.setPathParams (w_req w) ps) w in
  findRoute initRoutes (HttpRequest.method_ (w_req w)) (HttpRequest.path_ (w_req w)) =
    Some (HShareAccess, ps) ->
  opens_share wr code extract user w1 r ->
  r !! 4 = Some (Some type) -> r !! 13 = Some (Some name) -> stoi name = inl e ->
  json_dump (error_body ($"Internal Server Error") k500InternalServerError) = inr body ->
  onRequest w =
    (Ok true, answered ($"Internal Server Error") k500InternalServerError body
                (asked (share_access_select (escaped w1 code) (escaped w1 extract)) w1)).
Proof.
  intros wr Hr Ho H4 H13 He Hj. unfold onRequest.
  rewrite (try_exn _ _ _ e (asked (share_access_select (escaped w1 code) (escaped w1 extract)) w1)).
  - by rewrite (bind_ok _ _ _ _ _ (sendError_ok _ _ _ _ Hj)).
  - rewrite get_bind, Hr. cbv iota. rewrite (bind_ok (modify _) _ w tt wr) by done.
    cbn [run_handler]. rewrite (handleShareAccess_row _ _ _ _ _ _ Ho).
    by apply (shareAccessRow_name _ _ _ _ _ _ type name).
Qed.

End accounts.

(** ** Routes *)

(** C20: the route table, with its regular expressions, dispatches every method
    and path as the plain specification [route_spec] says, and every path
    parameter a handler gets is one non-empty segment, without a slash. *)
Theorem dispatch_spec (m : Method) (path : bytes) :
  findRoute initRoutes m path = route_spec m path /\
  forall h ps n v, findRoute initRoutes m path = Some (h, ps) -> ps !! n = Some v ->
    v <> [] /\ "/"%char ∉ v.
Proof.
  split; [apply findRoute_initRoutes|]. intros h ps n v. rewrite findRoute_initRoutes.
  apply route_spec_safe.
Qed.

(** C27: [bytes=s-e] selects the bytes [s] to [e], cut at the end of the file,
    and every accepted header selects a range that starts inside the file. *)
Theorem range_header_spec (s e size : Z) :
  (0 <= s < 2 ^ 64)%Z -> (0 <= e < 2 ^ 64)%Z ->
  parseRange ($"bytes=" ++ to_string s ++ $"-" ++ to_string e) size =
    inr (if (size <=? s)%Z then RangeUnsatisfiable else RangePart s (Z.min e (size - 1))) /\
  forall h s' e', parseRange h size = inr (RangePart s' e') -> (0 <= s' < size /\ e' < size)%Z.
Proof.
  intros Hs He. split; [by apply parseRange_closed|]. intros h s' e'. apply parseRange_bounds.
Qed.

(** ** Instances *)

Definition object (l : list (bytes * bytes)) : bytes := print_json 8 (JObj (prod_map id JStr <$> l)).

Definition login_world (found : list row) : World :=
  sample_world (sample_request kPost ($"/login") [] []
                  (object [($"username", $"ann"); ($"password", $"pw")]))
    [rows found; done_sql] ∅.

Definition code_b : bytes := replicate 32 "b"%char.
(** A session is opened for user 7, found, closed, and not found any more; user 8
    does not exist. *)
Definition life : list session_op :=
  [OSave code_a 7 ($"ann"); OValidate code_a; OSave code_b 8 ($"bob"); OValidate code_b; OEnd code_a;
   OValidate code_a].
Definition only_ann : tables := Tables {[ 7%Z ]} ∅.

Lemma sessions_implement_store_witness :
  exists W, @session_run table_platform life (table_world (sample_request kGet [] [] [] []) only_ann) =
    (Ok [None; Some (7%Z, $"ann"); None; None; None; None], W) /\
    @holds table_platform session_table W only_ann.
Proof.
  refine (@sessions_implement_store table_platform session_table life _ only_ann _ _).
  - split; reflexivity.
  - pose proof code_a_good as Hg. assert (good_code code_b) as Hb by (split; vm_compute; reflexivity).
    assert ((chr 0 ∉ $"ann") /\ ("'"%char ∉ $"ann")) as Hn by (apply (bool_decide_unpack _); vm_compute; done).
    assert ((chr 0 ∉ $"bob") /\ ("'"%char ∉ $"bob")) as Hn' by (apply (bool_decide_unpack _); vm_compute; done).
    by repeat (apply Forall_cons; split; [first [done|by split]|]).
Defined.

Lemma ann_credentials found :
  credentials (HttpRequest.body_ (w_req (login_world found))) ($"ann") ($"pw").
Proof.
  exists [($"username", $"ann"); ($"password", $"pw")].
  split; [vm_compute; reflexivity|]. split; [vm_compute; reflexivity|].
  split; [vm_compute; reflexivity|]. split; discriminate.
Qed.

(** The session id of Ann's login: the draws are 0, 1, 2, .. *)
Definition first_sid : bytes := $"abcdefghijklmnopqrstuvwxyz012345".

Lemma login_outcomes_witness :
  (exists W, handleLogin (login_world [ann]) = (Ok true, W) /\ good_code first_sid /\ w_draws W = 32 /\
    w_sql W = [login_query (login_world [ann]) ($"ann") ($"pw"); session_insert first_sid 7 ($"ann")] /\
    w_db W = [] /\
    HttpResponse.statusCode_ (w_resp W) = k200Ok /\
    json_dump (login_answer first_sid 7 ($"ann")) = inr (HttpResponse.body_ (w_resp W)) /\
    forall (T : SessionTable), let t := content [done_sql] in
      7%Z ∈ t_users t -> name_ok ($"ann") -> t_sessions t !! first_sid = None ->
      live_user (t_sessions (content (w_db W))) first_sid = Some (7%Z, $"ann")) /\
  exists body, handleLogin (login_world []) =
    (Ok true, answered wrong_login k401Unauthorized body
                (asked (login_query (login_world []) ($"ann") ($"pw")) (login_world []))).
Proof.
  split.
  - refine (proj1 (login_outcomes (login_world [ann]) ($"ann") ($"pw") (ann_credentials _))
              ann ($"7") 7%Z ($"ann") _ _ _ _ _ _).
    + vm_compute. reflexivity.
    + vm_compute. reflexivity.
    + reflexivity.
    + vm_compute. reflexivity.
    + reflexivity.
    + by eexists.
  - exists (print_json 8 (error_body wrong_login k401Unauthorized)).
    refine (proj2 (login_outcomes (login_world []) ($"ann") ($"pw") (ann_credentials _)) _ _ _).
    + vm_compute. reflexivity.
    + reflexivity.
Defined.

Definition register_doc : list (bytes * bytes) :=
  [($"username", $"bob"); ($"password", $"pw"); ($"email", $"b@x.org")].
Definition register_world (found : list row) : World :=
  sample_world (sample_request kPost ($"/register") [] [] (object register_doc))
    [rows found; done_sql] ∅.

Lemma registration_outcomes_witness :
  (exists W, handleRegister (register_world []) = (Ok true, W) /\
    w_sql W = [user_by_name ($"bob");
               user_insert ($"bob") (sha256 ($"pw")) ($"'b@x.org'")] /\
    w_db W = [] /\
    HttpResponse.statusCode_ (w_resp W) = k200Ok /\
    json_dump (register_answer 7) = inr (HttpResponse.body_ (w_resp W))) /\
  exists body, handleRegister (register_world [[Some ($"3")]]) =
    (Ok true, answered name_taken k400BadRequest body
                (asked (user_by_name ($"bob")) (register_world [[Some ($"3")]]))).
Proof.
  split.
  - refine (proj1 (registration_outcomes (register_world []) register_doc ($"bob") ($"pw") ($"b@x.org")
              _ _ _ _ _ _) _ _ _ _).
    1-4: vm_compute; reflexivity.
    1-2: discriminate.
    + vm_compute. reflexivity.
    + vm_compute. reflexivity.
    + vm_compute. by eexists.
    + by eexists.
  - exists (print_json 8 (error_body name_taken k400BadRequest)).
    refine (proj2 (registration_outcomes (register_world [[Some ($"3")]]) register_doc ($"bob") ($"pw")
              ($"b@x.org") _ _ _ _ _ _) [Some ($"3")] _ _ _).
    1-4: vm_compute; reflexivity.
    1-2: discriminate.
    + vm_compute. reflexivity.
    + reflexivity.
Defined.

Definition share_doc : list (bytes * bytes) := [($"fileId", $"12"); ($"shareType", $"public")].
Definition share_world (found : list row) : World :=
  sample_world (sample_request kPost ($"/share") [] [session_header] (object share_doc))
    (ann_session ++ [rows found; done_sql]) ∅.
Definition share_session (found : list row) : World := (validateSession ($"s1") (share_world found)).2.

Lemma ann_shares found :
  (validateSession ($"s1") (share_world found)).1 = Ok (Some (7%Z, $"ann")) ->
  share_request (share_world found) 7 (share_session found) share_doc 12 ($"public").
Proof.
  intros Hv. split; [|vm_compute; reflexivity..]. exists ($"ann"). by apply run_outcome.
Qed.

Lemma share_outcomes_witness :
  (exists W code id, handleShareFile (share_world [[Some ($"1")]]) = (Ok true, W) /\ good_code code /\
    w_sql W = w_sql (share_session [[Some ($"1")]]) ++
      [own_file_check 12 7; public_insert (share_world [[Some ($"1")]]) 12 7 code] /\
    HttpResponse.statusCode_ (w_resp W) = k200Ok /\
    json_dump (public_answer id code) = inr (HttpResponse.body_ (w_resp W))) /\
  exists body, handleShareFile (share_world []) =
    (Ok true, answered not_your_file k403Forbidden body
                (asked (own_file_check 12 7) (share_session []))).
Proof.
  split.
  - refine (proj1 (share_outcomes (share_world [[Some ($"1")]]) 7 (share_session [[Some ($"1")]]) share_doc 12
              ($"public") _) [Some ($"1")] _ _ _ _ _).
    + apply ann_shares. vm_compute. reflexivity.
    + reflexivity.
    + vm_compute. reflexivity.
    + vm_compute. reflexivity.
    + intros code _. by eexists.
    + intros id code _. by eexists.
  - exists (print_json 8 (error_body not_your_file k403Forbidden)).
    refine (proj2 (share_outcomes (share_world []) 7 (share_session []) share_doc 12 ($"public") _) _ _ _).
    + apply ann_shares. vm_compute. reflexivity.
    + vm_compute. reflexivity.
    + reflexivity.
Defined.

(** A public share of Ann's photo, opened by the page's script. *)
Definition share_code : bytes := $"abcdefghijklmnopqrstuvwxyz012345".
Definition shared_row : row :=
  [Some ($"1"); Some ($"12"); Some ($"7"); None; Some ($"public"); Some share_code;
   Some ($"2024-01-01"); None; None; Some ($"upload_1_2"); Some ($"photo.jpg"); Some ($"8");
   Some ($"image"); Some ($"ann"); Some ($"7")].
Definition open_world : World :=
  sample_world (sample_request kGet ($"/share/" ++ share_code) []
                  [($"X-Requested-With", $"XMLHttpRequest")] [])
    [rows [shared_row]] ∅.
Definition open_params : gmap bytes bytes := {[ ($"code" : bytes) := share_code ]}.

Lemma share_of_named_owner_fails_witness :
  exists body W, onRequest open_world =
    (Ok true, answered ($"Internal Server Error") k500InternalServerError body W).
Proof.
  exists (print_json 8 (error_body ($"Internal Server Error") k500InternalServerError)).
  eexists.
  refine (share_of_named_owner_fails open_world share_code [] None
            (set_req (HttpRequest.setPathParams (w_req open_world) open_params) open_world)
            shared_row open_params ($"public") ($"ann") ($"stoi") _ _ _ _ _ _ _).
  - vm_compute. reflexivity.
  - split.
    + vm_compute. reflexivity.
    + split; vm_compute; reflexivity.
    + vm_compute. reflexivity.
    + vm_compute. reflexivity.
    + reflexivity.
    + vm_compute. reflexivity.
  - reflexivity.
  - reflexivity.
  - vm_compute. reflexivity.
  - reflexivity.
Defined.

Lemma range_header_spec_witness :
  parseRange ($"bytes=2-9") 8 = inr (RangePart 2 7) /\
  forall h s' e', parseRange h 8 = inr (RangePart s' e') -> (0 <= s' < 8 /\ e' < 8)%Z.
Proof. apply (range_header_spec 2 9 8); lia. Defined.
