(* ===== verification/NetTheorems.v ===== *)
(** * The network library: connections, pollers, timers, loops

    The properties of the reactor underneath the HTTP layer, each with a
    concrete instance. *)

From S2P Require Import Prelude CxxString ByteBuffer TimeStamp Channel Poller TcpConnection TcpStream.
From S2P Require Import EPollPoller PollPoller TimerQueue TimerFacts EventLoop LoopObject Connector TcpServer.

#[local] Open Scope Z_scope.

(** ** Connections *)

(** C18: whatever sends, shutdowns and write events happen to an established
    connection, and however much the kernel takes of each write, no assertion
    fails, and what was sent followed by what is buffered is all the data
    accepted, in order: no byte is lost, duplicated or reordered. *)
Theorem stream_is_kept {W} (fd : Z) (outs : list write_outcome) (os : list op) :
  Forall (fun o => fatal o = false) outs ->
  exists c acc c' out',
    TcpConnection.connectEstablished (TcpConnection.create (W:=W) fd outs) = Some c /\
    run c os = Some (acc, c') /\
    TcpConnection.sent c' ++ out' = acc /\ Buffer.holds (TcpConnection.outputBuffer_ c') out' /\
    Channel.isWriting (TcpConnection.channel_ c') = negb (length out' =? 0)%nat.
Proof.
  intros Ho. destruct (established_sending (W:=W) fd outs Ho) as (c & Ec & Hc).
  destruct (run_sending os c [] [] Hc) as (acc & c' & out' & Er & []).
  by exists c, acc, c', out'.
Qed.

(** ** Pollers *)

(** C37: both pollers implement the contract of a poller: in every run of event
    changes and removals that the contract allows, no assertion fails, no
    [epoll_ctl] is refused, and the kernel is asked, for each descriptor, for
    exactly the events of the channel registered under it; [PollPoller] with its
    vector of [pollfd]s, the last of which takes the place of a removed one; and
    so the poller that a loop gets, whatever the environment variable says. *)
Theorem pollers_implement_contract (h : gmap nat Channel.t) (os : list poller_op) (a : watchlist) :
  new_channels h -> spec_run (Channel.fd_ <$> h) nothing os = Some a ->
  (exists p, impl_run (EPollPoller.create h) os = Some p /\ shows p a) /\
  (exists p, impl_run (PollPoller.create h) os = Some p /\ shows p a) /\
  forall getenv, exists p, impl_run (newDefaultPoller getenv h) os = Some p /\ shows p a.
Proof.
  intros Hn Ha. split_and!.
  - exact (run_refines (P:=EPollPoller.t) h os a Hn Ha).
  - exact (run_refines (P:=PollPoller.t) h os a Hn Ha).
  - intros getenv. by apply default_poller_refines.
Qed.

(** ** Timers *)

(** C34: [TimerQueue::handleRead] takes out of the queue exactly the timers that
    are due and runs them in the order of their times, their callbacks' commands
    one after the other on the queue without them; then the fired timers that
    repeat and were not cancelled by a callback, and no others, are put back at
    their new times beside the timers the callbacks left; and the two sets of
    the queue stay in step. *)
Theorem expiry_runs_due_timers (q : TimerQueue.t) (callback : TimerQueue.Timer -> list TimerQueue.command)
    (now : TimeStamp.t) :
  TimerFacts.wf q ->
  (forall q1 expired, TimerQueue.getExpired (TimerQueue.readTimerfd q) now = Some (expired, q1) ->
     commands_ok (TimerQueue.set_calling q1 true ∅) (flat_map callback (timers_of q1 expired))) ->
  exists fired q1 q2 q',
    TimerQueue.getExpired (TimerQueue.readTimerfd q) now = Some (fired, q1) /\
    fired ++ TimerQueue.timers_ q1 = TimerQueue.timers_ q /\
    Forall (due now) fired /\ Forall (fun e => ~ due now e) (TimerQueue.timers_ q1) /\
    TimerQueue.timers_heap q1 = TimerQueue.timers_heap q /\
    TimerQueue.run_commands (TimerQueue.set_calling q1 true ∅) (flat_map callback (timers_of q fired)) = Some q2 /\
    (forall e, e ∈ fired -> TimerQueue.timers_heap q2 !! e.2 = TimerQueue.timers_heap q !! e.2) /\
    TimerQueue.handleRead q callback now = Some (fired.*2, q') /\ TimerFacts.wf q' /\
    TimerQueue.timers_ q' ≡ₚ
      (restarted q2 now <$> filter (fun e => restarts q2 e = true) fired) ++ TimerQueue.timers_ q2.
Proof. intros Hwf Hok. exact (handleRead_wf q callback now Hwf Hok). Qed.

(** Timers stop for good at the first expiry of a repeating timer: every
    computed time stamp is 0, so the timer descriptor is not armed again, and no
    timer added afterwards arms it. *)
Theorem repeating_timer_stalls (q : TimerQueue.t) (now : TimeStamp.t) :
  TimerFacts.wf q -> repeats_now q now ->
  exists fired q', TimerQueue.handleRead q (fun _ => []) now = Some (fired, q') /\
    TimerQueue.timerfd q' = None /\
    forall l, Forall (fun p : Z * TimerQueue.Timer =>
                later_timer p.2 /\ p.1 < TimerQueue.UINTPTR_MAX /\
                TimerQueue.timers_heap q' !! p.1 = None) l -> NoDup l.*1 ->
      exists q'', add_all q' l = Some q'' /\ TimerQueue.timerfd q'' = None.
Proof.
  intros Hwf Hr. destruct (handleRead_stalls q now Hwf Hr) as (fired & q' & E & Hw & Hfd & Ho).
  exists fired, q'. split; [done|]. split; [done|]. intros l Hl Hnd. by apply add_all_stalled.
Qed.

(** ** Loops, servers, connectors *)

(** A turn of the event loop runs the handlers of the active channels, then
    the functors that were pending, then those the handlers queued, each once
    and in the order they were queued; functors queued meanwhile wait for the
    next turn, for which the loop has been woken. *)
Theorem loop_turn_runs_functors {F} (run_functor : F -> list F * bool) (handlers : list F) (woken : bool)
    (l : EventLoop.t F) :
  EventLoop.callingPendingFunctors_ l = false ->
  EventLoop.executed (EventLoop.turn run_functor handlers woken l) =
    EventLoop.executed l ++ handlers ++ EventLoop.pendingFunctors_ l ++
    EventLoop.queued_by run_functor handlers /\
  EventLoop.prompt (EventLoop.turn run_functor handlers woken l).
Proof. intros Hc. split; [apply EventLoop.turn_runs|by apply EventLoop.turn_prompt]. Qed.

(** C35: timers from any thread: on a new loop, in any sequence of additions and
    cancellations of timers by any thread, functors that anybody queues, and
    rounds of pending functors in the loop, nothing fails; after one more round
    the queue of timers is in order and holds every timer that was added and
    never cancelled, and no timer that was not added. *)
Theorem timers_from_any_thread {P} `{Poller P} {F} (u : @LoopObject.user F) tls me self heap wake timer
    (l : @LoopObject.t P F) tls' (cs : list (@LoopObject.call F)) :
  LoopObject.create tls me self heap wake timer = Some (l, tls') ->
  (forall f, Forall LoopObject.harmless (LoopObject.on_functor u f)) ->
  LoopObject.calls_fit u cs l ->
  exists l1 l2, LoopObject.run u cs l = Some l1 /\ LoopObject.doPendingFunctors u l1 = Some l2 /\
    let q := LoopObject.timerQueue_ l2 in
    TimerFacts.wf q /\
    (forall a, a ∈ (TimerQueue.timers_ q).*2 -> a ∈ LoopObject.added cs) /\
    (forall a, a ∈ LoopObject.added cs -> a ∉ LoopObject.cancelled cs -> a ∈ (TimerQueue.timers_ q).*2).
Proof.
  intros Hc Hu Hf. destruct (LoopObject.run_tracked u Hu cs [] [] l) as (l1 & A & C & E1 & Ht & HA & HC).
  { by eapply LoopObject.create_tracked. }
  { done. }
  destruct (LoopObject.pending_tracked u Hu A C l1 Ht) as (l2 & E2 & [Hs Hadd Hk _] & Ep & _).
  exists l1, l2. split; [done|]. split; [done|]. rewrite Ep in Hadd, Hk. split; [by destruct Hs|]. split.
  - intros a Ha. destruct (proj1 (HA a)) as [?%not_elem_of_nil|?]; [apply Hadd; by left|done|done].
  - intros a Ha Hn. destruct (Hk a) as [?|?%not_elem_of_nil]; [apply HA; by right| |done|done].
    intros [?%not_elem_of_nil|?]%HC; done.
Qed.

(** C36: a connector leaks no descriptor: after any sequence of events, every
    socket it opened was closed, handed to the new connection, or is the one
    being connected; and every retry is set between 500 and 30000 milliseconds. *)
Theorem connector_keeps_descriptors (os : list Connector.op) (opd : list Z) (c : Connector.t) :
  Connector.run Connector.create os = Some (opd, c) ->
  opd ≡ₚ Connector.closed c ++ Connector.delivered c ++ Connector.current c /\
  Forall (fun ms => 500 <= ms <= 30000) (Connector.timers c).
Proof.
  intros E. destruct (Connector.run_inv os Connector.create [] opd c) as (fds & Hp & Hi); [|done|].
  { split; simpl; try done; [apply Connector.good_delay_init| |]; unfold Connector.at_most_one_reset; simpl; lia || set_solver. }
  destruct Hi as [_ Ht _ _ _ Hf]. rewrite app_nil_r in Hp. rewrite <- Hp. split; [done|].
  eapply Forall_impl; [exact Ht|]. apply Connector.good_delay_bound.
Qed.

(** ** Instances *)

Lemma stream_is_kept_witness :
  exists c acc c' out',
    TcpConnection.connectEstablished (TcpConnection.create (W:=nat) 5 [Wrote 2; WriteError 11]) = Some c /\
    run c [OpSend ($"hello"); OpWritable; OpShutdown] = Some (acc, c') /\
    TcpConnection.sent c' ++ out' = acc /\ Buffer.holds (TcpConnection.outputBuffer_ c') out' /\
    Channel.isWriting (TcpConnection.channel_ c') = negb (length out' =? 0)%nat.
Proof. apply stream_is_kept. by repeat constructor. Defined.

(** Two channels: the first is watched, changed, silenced and removed while the
    second, registered after it, stays. *)
Definition two_channels : gmap nat Channel.t := {[ 0%nat := Channel.create 5; 1%nat := Channel.create 6 ]}.
Definition channel_life : list poller_op :=
  [Change 0 Channel.kReadEvent; Change 1 Channel.kReadEvent;
   Change 0 (Z.lor Channel.kReadEvent Channel.kWriteEvent); Change 0 Channel.kNoneEvent; Remove 0].
Definition one_left : watchlist := mkWatch {[ 1%nat := (6, Channel.kReadEvent) ]} {[ 0%nat ]}.

Lemma two_new : new_channels two_channels.
Proof.
  unfold two_channels. intros id c [[<- <-]|[_ [_ <-]%lookup_singleton_Some]]%lookup_insert_Some; done.
Qed.

Lemma channel_life_allowed : spec_run (Channel.fd_ <$> two_channels) nothing channel_life = Some one_left.
Proof. vm_compute. reflexivity. Qed.

Lemma pollers_implement_contract_witness :
  (exists p, impl_run (EPollPoller.create two_channels) channel_life = Some p /\ shows p one_left) /\
  (exists p, impl_run (PollPoller.create two_channels) channel_life = Some p /\ shows p one_left) /\
  forall getenv, exists p,
    impl_run (newDefaultPoller getenv two_channels) channel_life = Some p /\ shows p one_left.
Proof. apply pollers_implement_contract; [apply two_new|apply channel_life_allowed]. Defined.

(** A repeating timer at address 1. *)
Definition tick : TimerQueue.Timer := TimerQueue.mkTimer TimeStamp.default 1000000 true 1.
Definition ticking : TimerQueue.t :=
  TimerQueue.mk [(0, 1)] {[ (1, 1) ]} false ∅ {[ 1 := tick ]} (Some TimeStamp.default).

Lemma ticking_wf : TimerFacts.wf ticking.
Proof.
  split; cbn.
  - repeat constructor.
  - repeat constructor. set_solver.
  - constructor; [|constructor]. split; [done|]. exists tick. split; [apply lookup_singleton_eq|done].
  - unfold active_of. cbn. set_solver.
Qed.

(** Two repeating timers; the callback of the first cancels the second. *)
Definition tock : TimerQueue.Timer := TimerQueue.mkTimer TimeStamp.default 1000000 true 2.
Definition two_ticking : TimerQueue.t :=
  TimerQueue.mk [(0, 1); (0, 2)] {[ (1, 1); (2, 2) ]} false ∅ {[ 1 := tick; 2 := tock ]} (Some TimeStamp.default).
Definition cancels_tock (tm : TimerQueue.Timer) : list TimerQueue.command :=
  if TimerQueue.sequence_ tm =? 1 then [TimerQueue.CCancel 2 2] else [].

Lemma two_ticking_wf : TimerFacts.wf two_ticking.
Proof.
  split; cbn.
  - repeat constructor.
  - repeat constructor; set_solver.
  - repeat constructor; [exists tick|exists tock]; done.
  - unfold active_of. cbn. set_solver.
Qed.

Lemma expiry_runs_due_timers_witness :
  exists fired q1 q2 q',
    TimerQueue.getExpired (TimerQueue.readTimerfd two_ticking) TimeStamp.default = Some (fired, q1) /\
    fired ++ TimerQueue.timers_ q1 = [(0, 1); (0, 2)] /\
    Forall (due TimeStamp.default) fired /\
    Forall (fun e => ~ due TimeStamp.default e) (TimerQueue.timers_ q1) /\
    TimerQueue.timers_heap q1 = TimerQueue.timers_heap two_ticking /\
    TimerQueue.run_commands (TimerQueue.set_calling q1 true ∅)
      (flat_map cancels_tock (timers_of two_ticking fired)) = Some q2 /\
    (forall e, e ∈ fired -> TimerQueue.timers_heap q2 !! e.2 = TimerQueue.timers_heap two_ticking !! e.2) /\
    TimerQueue.handleRead two_ticking cancels_tock TimeStamp.default = Some (fired.*2, q') /\
    TimerFacts.wf q' /\
    TimerQueue.timers_ q' ≡ₚ
      (restarted q2 TimeStamp.default <$> filter (fun e => restarts q2 e = true) fired) ++ TimerQueue.timers_ q2.
Proof.
  apply (expiry_runs_due_timers two_ticking cancels_tock); [apply two_ticking_wf|].
  intros q1 expired _. generalize (TimerQueue.set_calling q1 true ∅).
  induction (timers_of q1 expired) as [|tm l IH]; intros q; [done|]. cbn. unfold cancels_tock at 1.
  destruct (_ =? _); cbn; [|apply IH]. split; [done|]. intros q' _. apply IH.
Defined.

Lemma repeating_timer_stalls_witness :
  exists fired q', TimerQueue.handleRead ticking (fun _ => []) TimeStamp.default = Some (fired, q') /\
    TimerQueue.timerfd q' = None /\
    forall l, Forall (fun p : Z * TimerQueue.Timer =>
                later_timer p.2 /\ p.1 < TimerQueue.UINTPTR_MAX /\
                TimerQueue.timers_heap q' !! p.1 = None) l -> NoDup l.*1 ->
      exists q'', add_all q' l = Some q'' /\ TimerQueue.timerfd q'' = None.
Proof.
  apply repeating_timer_stalls; [apply ticking_wf|]. exists (0, 1), tick.
  split; [by left|]. split; [done|]. split; [apply lookup_singleton_eq|done].
Defined.

(** A loop with functor 3 pending; functor 1 queues functor 7. *)
Definition functor (n : nat) : list nat * bool := (if (n =? 1)%nat then [7%nat] else [], false).
Definition pending_loop : EventLoop.t nat := EventLoop.mk false false false [3%nat] 1 [].

Lemma loop_turn_runs_functors_witness :
  EventLoop.executed (EventLoop.turn functor [1; 2]%nat true pending_loop) = [1; 2; 3; 7]%nat /\
  EventLoop.prompt (EventLoop.turn functor [1; 2]%nat true pending_loop).
Proof. exact (loop_turn_runs_functors functor [1; 2]%nat true pending_loop eq_refl). Defined.

(** An attempt that is refused, retried, connects and is handed over. *)
Definition attempt : list Connector.op :=
  [Connector.OpStart 5 Connector.ECONNREFUSED; Connector.OpTimer 6 Connector.EINPROGRESS;
   Connector.OpWrite 0 false].

Lemma connector_keeps_descriptors_witness :
  exists c, Connector.run Connector.create attempt = Some ([5; 6], c) /\
    [5; 6] ≡ₚ Connector.closed c ++ Connector.delivered c ++ Connector.current c /\
    Forall (fun ms => 500 <= ms <= 30000) (Connector.timers c).
Proof.
  eexists. split; [vm_compute; reflexivity|].
  apply (connector_keeps_descriptors attempt). vm_compute. reflexivity.
Defined.

(** The thread 1 has a loop; the thread 2 adds two timers and cancels the second,
    and the loop's thread adds one of its own. *)
Definition no_user : @LoopObject.user unit := LoopObject.mkUser (fun _ => []) (fun _ => []) (fun _ _ => []).
Definition loop_heap : gmap nat Channel.t := {[ 10%nat := Channel.create 3; 11%nat := Channel.create 4 ]}.
Definition new_loop : option (@LoopObject.t EPollPoller.t unit * gmap Z nat) :=
  LoopObject.create ∅ 1 0 loop_heap 10 11.
Definition timer_at (when seq : Z) : TimerQueue.Timer := TimerQueue.mkTimer (TimeStamp.mk when) 0 false seq.
Definition timer_calls : list (@LoopObject.call unit) :=
  [LoopObject.TAdd 2 100 (timer_at 70 0); LoopObject.TAdd 2 200 (timer_at 50 1); LoopObject.TCancel 2 200 1;
   LoopObject.TAdd 1 300 (timer_at 60 2); LoopObject.TQueue 2 tt].

Ltac calls_fit :=
  repeat first [exact I | split; [vm_compute; by repeat split|]; let l := fresh "l" in let E := fresh in
    intros l E; vm_compute in E; injection E as <-].

Lemma timers_from_any_thread_witness : exists l tls l1 l2,
  new_loop = Some (l, tls) /\ LoopObject.run no_user timer_calls l = Some l1 /\
  LoopObject.doPendingFunctors no_user l1 = Some l2 /\
  100 ∈ (TimerQueue.timers_ (LoopObject.timerQueue_ l2)).*2 /\
  300 ∈ (TimerQueue.timers_ (LoopObject.timerQueue_ l2)).*2.
Proof.
  destruct new_loop as [[l tls]|] eqn:E; [|by vm_compute in E]. exists l, tls. unfold new_loop in E.
  destruct (timers_from_any_thread (P:=EPollPoller.t) no_user ∅ 1 0 loop_heap 10 11 l tls timer_calls E)
    as (l1 & l2 & E1 & E2 & _ & _ & Hin).
  - intros f. constructor.
  - vm_compute in E. injection E as <- <-. calls_fit.
  - exists l1, l2. split; [done|]. split; [exact E1|]. split; [exact E2|].
    split; apply Hin; try (apply (bool_decide_unpack _); vm_compute; done).
Defined.

(** A cancellation in the loop's thread overtakes an addition from another
    thread, and is lost: the timer is put in afterwards. *)
Lemma cancel_overtakes_add : exists l tls l1,
  new_loop = Some (l, tls) /\
  LoopObject.run no_user [LoopObject.TAdd 2 100 (timer_at 70 0); LoopObject.TCancel 1 100 0; LoopObject.TRun] l = Some l1 /\
  (TimerQueue.timers_ (LoopObject.timerQueue_ l1)).*2 = [100].
Proof. do 3 eexists. split; [vm_compute; reflexivity|]. split; vm_compute; reflexivity. Qed.
