(* ===== verification/ProgramTheorems.v ===== *)
(** * The program with all its connections

    What holds of every run of [main], whoever connects and whatever they send. *)

From S2P Require Import Prelude CxxString TimeStamp ByteBuffer OrdMap HttpParse HttpRequest HttpContext HttpResponse.
From S2P Require Import World Sample Session Accounts Upload Download Files Share Routes Handlers Requests Streaming.
From S2P Require Import Channel TcpConnection TcpStream HttpServer HttpServing Delivery Program ProgramFacts Startup WellTyped.
From S2P Require Import ProgramTyped Downloads HttpTheorems.
Import HttpServer Program.

Section program.
Context `{Platform}.


Lemma eager_or_not os n : eager os /\ n <= length os \/ ~ (eager os /\ n <= length os).
Proof.
  destruct (decide (n <= length os)); [|right; by intros []].
  assert (eager os \/ ~ eager os) as He.
  { clear. induction os as [|o os [IH|IH]]; [left; constructor| |right; by intros [? ?]%Forall_cons].
    destruct o as [[|k]|e]; [right|left|right].
    - by intros [[k E] _]%Forall_cons.
    - apply Forall_cons. split; [by exists k|done].
    - by intros [[k E] _]%Forall_cons. }
  destruct He; [by left|right; by intros []].
Qed.

(** C7: a download among others.  In a state that the program has reached, an
    idle, kept-alive connection sends a complete request that the application
    answers with a file, and then nothing more; other connections come, send,
    and go in any order, and as long as the program runs, what the client was
    sent is a beginning of what it got before, the header of the response and
    the announced number of bytes, which are the file from the start of the
    range unless somebody wrote that very file while it was open (removing or
    replacing it makes no difference).  When its writes all take something,
    as many turns in which its socket is writable as there are bytes, twice for
    those of the file, are enough: all of it is sent, and the sending side is
    shut down. *)
Theorem download_among_others fuel0 fuel w ts0 p c lk data ctx now m path query v hs body server original content r :
  well_typed w -> loop fuel0 ts0 (start w) = inr p ->
  links p !! c = Some lk -> Forall (fun k => k.1 <> c) (pending p) ->
  idle (focus lk (shared p)) data ctx -> drained lk ->
  m <> kInvalid -> v <> kUnknown -> good_target path query ->
  Forall good_header hs -> Forall plain hs -> (Z.of_nat (length body) < 2 ^ 31)%Z ->
  let request := complete_request m path query v hs body in
  length request <= Buffer.readv_room (TcpConnection.inputBuffer_ (l_tcp lk)) ->
  wants_close (parsed ctx now m path query v hs body) = false ->
  (forall k, HttpContext.request_ k = parsed ctx now m path query v hs body ->
     HttpContext.customContext_ k = HttpContext.customContext_ ctx ->
     exists w0, serves (callback_world false k (world (focus lk (shared p)))) w0 server original content r) ->
  (Z.of_nat (length content) < 2 ^ 64)%Z ->
  let head := HttpResponse.serialize
    (download_response (HttpResponse.create false) original (Z.of_nat (length content)) r) in
  let file := range_body content r in
  forall es ts p', Forall (silent c) es -> Forall (Forall (silent c)) ts ->
    loop (S (S (S fuel))) ((EvRead c now (inr request) :: es) :: ts) p = inr p' ->
    exists content' d, length content' = length file /\
      w_down (shared p') !! w_next (shared p) = Some d /\ (d_written d = false -> content' = file) /\
      sent_to c p' `prefix_of` data ++ head ++ content' /\
      (eager (TcpConnection.outcomes (l_tcp lk)) ->
       length head + length file <= length (TcpConnection.outcomes (l_tcp lk)) ->
       2 * length file + length head < writables c (es :: ts) ->
       finished (data ++ head ++ content') c p').
Proof.
  intros Hw Hl0 Hlk Hpend Hidle Hdr Hm Hv Ht Hg Hpl Hlen request Hroom Hclose Hserves Hmax head file es ts p' Hes Hts E.
  assert (typed [] p) as Hty by (eapply loop_typed; [by apply start_typed|exact Hl0]).
  assert (forall live, (live = true -> eager (TcpConnection.outcomes (l_tcp lk)) /\
      length head + length file <= length (TcpConnection.outcomes (l_tcp lk))) ->
    exists content', honest file (w_next (shared p)) (shared p') content' /\
      sent_to c p' `prefix_of` (data ++ head) ++ content' /\
      (live = true -> 2 * length file + length head < writables c (es :: ts) -> finished ((data ++ head) ++ content') c p'))
    as Hrun.
  { intros live Hlive.
    destruct (request_ongoing live fuel now p c lk data ctx m path query v hs body server original content r)
      as (p1 & k & E1 & Hk & Hon); try done.
    assert (loop (S (S (S fuel))) (es :: ts) p1 = inr p') as E'.
    { rewrite <- E. cbn [loop]. unfold turn. cbn [handleAll]. fold request in E1. by rewrite E1. }
    destruct (loop_ongoing live _ _ c _ _ (es :: ts) k p1 p' ltac:(by constructor) Hon E') as (m' & Hp' & _ & Hm').
    destruct (ongoing_sent _ _ _ _ _ _ _ Hp') as (content' & Hh & Hs & Hf). exists content'. split; [done|].
    split; [done|]. intros Hl Hwr. specialize (Hm' Hl). fold head file in Hk. apply Hf. lia. }
  destruct (eager_or_not (TcpConnection.outcomes (l_tcp lk)) (length head + length file)) as [Hl|Hl].
  - destruct (Hrun true) as (content' & (Hcl & d & Hd & Hw') & Hs & Hf); [done|].
    exists content', d. rewrite app_assoc. split; [done|]. split; [done|]. split; [done|]. split; [done|]. auto.
  - destruct (Hrun false) as (content' & (Hcl & d & Hd & Hw') & Hs & _); [done|].
    exists content', d. rewrite app_assoc. split; [done|]. split; [done|]. split; [done|]. split; [done|].
    intros He Ho. by destruct Hl.
Qed.

End program.

(** ** Instances *)

Lemma runs_to {A B} (x : A + B) : (if x is inr _ then true else false) = true -> exists b, x = inr b.
Proof. destruct x as [a|b]; [done|by exists b]. Qed.

(** Two clients connect; the first asks for the shared file, the second sends a
    request for nothing and hangs up, while the first is sent the file seven
    bytes at a time. *)
Definition share_world : World := world share_conn.
Definition two_clients : list (list event) := [[EvConnect 1 5 seven_each; EvConnect 2 6 []]].
Definition client (fd : Z) (outcomes : list write_outcome) : link :=
  mkLink (default (TcpConnection.create fd []) (TcpConnection.connectEstablished (TcpConnection.create fd outcomes)))
    (Some HttpContext.create).
Definition two_connected : t :=
  mk (<[2 := client 6 []]> {[1 := client 5 seven_each]}) []
    (set_wcc None (set_ctx None share_world)).

Lemma two_clients_connect : loop 3 two_clients (start share_world) = inr two_connected.
Proof. reflexivity. Qed.

Definition others_meanwhile : list event := [EvRead 2 TimeStamp.default (inr nope)].
Definition writable_turns : list (list event) := replicate 300 [EvWrite 1] ++ [[EvHangup 2]].
Definition share_run : crash + t :=
  loop 3 ((EvRead 1 TimeStamp.default (inr share_input) :: others_meanwhile) :: writable_turns) two_connected.

Lemma share_run_ends : exists p, share_run = inr p.
Proof. apply runs_to. vm_compute. reflexivity. Qed.

Lemma sample_typed req db fs : well_typed (sample_world req db fs).
Proof.
  split; cbn.
  - constructor.
  - intros i [d E]. by rewrite lookup_empty in E.
  - intros c i [= <-]. done.
  - done.
  - apply map_Forall_empty.
Qed.

Lemma client_idle : idle (focus (client 5 seven_each) (shared two_connected)) [] HttpContext.create.
Proof.
  destruct (established_sending (W:=callback) 5 seven_each) as (c & E & Hc); [by apply Forall_replicate|].
  unfold client. split; cbn [l_tcp focus tcp world]; rewrite ?E; try done; by injection E as <-.
Qed.

Lemma client_drained : drained (client 5 seven_each).
Proof. split; [apply (bool_decide_unpack _); vm_compute; done|reflexivity]. Qed.

Lemma download_among_others_witness :
  exists p content d, share_run = inr p /\ w_down (shared p) !! 0 = Some d /\ length content = 8 /\
    (d_written d = false -> content = $"JPEGDATA") /\ finished (share_head ++ content) 1 p.
Proof.
  destruct share_run_ends as [p Ep]. exists p.
  assert (wants_close share_request = false) as Hclose by (vm_compute; reflexivity).
  destruct (download_among_others 3 0 share_world two_clients two_connected 1 (client 5 seven_each) []
    HttpContext.create TimeStamp.default kGet share_path ($"?code=abc") kHttp11 host [] ($"upload_1_2")
    ($"photo.jpg") ($"JPEGDATA") RangeWhole) with (es := others_meanwhile) (ts := writable_turns) (p' := p)
    as (content & d & Hlen & Hd & Hw & _ & Hf); cycle -1.
  { exists content, d. split; [exact Ep|]. split; [exact Hd|]. split; [exact Hlen|]. split; [exact Hw|].
    apply Hf.
    - apply seven_each_eager.
    - apply Nat.leb_le. vm_compute. reflexivity.
    - apply Nat.ltb_lt. vm_compute. reflexivity. }
  - apply sample_typed.
  - apply two_clients_connect.
  - reflexivity.
  - constructor.
  - apply client_idle.
  - apply client_drained.
  - done.
  - done.
  - split; try (apply (bool_decide_unpack _); vm_compute; done). right. by eexists.
  - apply host_good.
  - apply host_good.
  - done.
  - apply Nat.leb_le. vm_compute. reflexivity.
  - exact Hclose.
  - apply share_served.
  - done.
  - by constructor.
  - apply Forall_app. split; [apply Forall_replicate|]; by repeat constructor.
  - exact Ep.
Defined.

(** The program starts, and a client is in the middle of a download. *)
Definition shared_rows : Db := [rows [share_row]].
Definition built : option Startup.Handler :=
  Startup.construct 4 true (Startup.MysqlAnswers true true true) shared_rows share_fs (fun n => Z.of_nat n) 1000%Z.
Definition beginning : list (list event) :=
  [[EvConnect 1 5 seven_each]; [EvRead 1 TimeStamp.default (inr share_input)]; [EvWrite 1]].

(** Whether the connection 1 and the download 0 are alive. *)
Definition lives (p : t) : bool * bool :=
  (match links p !! 1 with Some _ => true | None => false end,
   match w_down (shared p) !! 0 with Some _ => true | None => false end).


(** The client hangs up in the middle of the download: its context is freed with
    the connection. *)
Lemma hangup_frees_download :
  match built with
  | Some h =>
      match loop 3 (beginning ++ [[EvHangup 1]]) (start (Startup.h_world h)) with
      | inr p => bool_decide (lives p = (false, false))
      | inl _ => false
      end
  | None => false
  end = true.
Proof. vm_compute. reflexivity. Qed.
