(* ===== verification/ServerTheorems.v ===== *)
(** * The server at work: what its threads keep, whatever their interleaving

    The properties of the composed server, over any poller that implements the
    contract, each with a concrete run. *)

From S2P Require Import Prelude CxxString ByteBuffer Channel Poller TcpConnection Lifecycle EventLoop TcpServer EPollPoller.
From S2P Require Import ServerLoops ServerFacts ServerSteps.
Import ServerLoops.

(** ** A run with two loops

    The base loop 0 and the loop 1 of the pool; the acceptor is the channel 41,
    the connection the channel 2. *)

Definition demo_wake (l : nat) : nat := 4 * l + 1.
Definition demo_timer (l : nat) : nat := 4 * l + 3.
Definition demo_channels : list (nat * Channel.t) :=
  (fun x => (x.1, Channel.create x.2)) <$>
    [(demo_wake 0, 3%Z); (demo_timer 0, 4%Z); (demo_wake 1, 6%Z); (demo_timer 1, 7%Z); (41, 5%Z); (2, 8%Z)].
Definition demo_heap : gmap nat Channel.t := list_to_map demo_channels.
Definition demo_fds : gmap nat Z := Channel.fd_ <$> demo_heap.
Definition demo_quiet : @answer unit := mkAnswer (inl 0%Z) [] None.

(** The connection is accepted, established in the loop 1, and closed by its
    peer; the base loop has not heard of it. *)
Definition demo_steps : list (@step unit) :=
  [SPoll 0 [(5, POLLIN)%Z]; SHandle 0 (mkAnswer (inl 0%Z) [] (Some (2, []))); SCall 0; SReturn 0;
   SPoll 1 [(6, POLLIN)%Z]; SHandle 1 demo_quiet; SCall 1; SRun 1 [USend ($"hi")]; SReturn 1;
   SPoll 1 [(8, POLLIN)%Z]; SHandle 1 (mkAnswer (inr []) [] None)].

Definition demo_start : option (t unit EPollPoller.t) :=
  start demo_wake demo_timer 41 demo_heap ($"S") ($"0.0.0.0:80") 0 S 1.

Definition demo_exec (k : @step unit) (s : t unit EPollPoller.t) : option (t unit EPollPoller.t) :=
  exec demo_fds demo_wake demo_timer 41 None k s.

Fixpoint demo_run (ks : list (@step unit)) (s : t unit EPollPoller.t) : option (t unit EPollPoller.t) :=
  match ks with [] => Some s | k :: ks' => s' ← demo_exec k s; demo_run ks' s' end.

(** The connection is closed, still listed, and the base loop owes it its end. *)
Example demo_closes :
  (s ← demo_start; s ← demo_run demo_steps s;
   o ← objects s !! 2; B ← loops s !! 0;
   Some (TcpConnection.state_ (o_tcp o), map_to_list (TcpServer.connections_ (server s)), todo B)) =
  Some (TcpConnection.kDisconnected, [($"S-0.0.0.0:80#1", 2)], [FRemove 2]).
Proof. vm_compute. reflexivity. Qed.

(** The channels are as the system gives them. *)
Lemma demo_own : own_channels demo_wake demo_timer 41 demo_heap 0 (map S (seq 0 1)).
Proof.
  split.
  - intros id c E. apply elem_of_list_to_map_2 in E. unfold demo_channels in E. cbn in E.
    repeat (apply elem_of_cons in E as [[= -> ->]|E]; [cbn; lia|]). by apply not_elem_of_nil in E.
  - cbn. repeat constructor; set_solver.
  - intros l [->|[->|E%not_elem_of_nil]%elem_of_cons]%elem_of_cons; [exists 4%Z, 3%Z|exists 7%Z, 6%Z|done];
      (split; [by vm_compute|split; [by vm_compute|done]]).
  - exists 5%Z. split; [by vm_compute|]. split; vm_compute; congruence.
Qed.

Abbreviation demo_reach := (reach demo_fds demo_wake demo_timer 41 None).

(** The two descriptors 5 and 8 are of the acceptor and of the connection. *)
Lemma demo_fd_8 id : demo_fds !! id = Some 8%Z -> id = 2.
Proof.
  unfold demo_fds. rewrite lookup_fmap. intros (c & Hc & E)%fmap_Some. apply elem_of_list_to_map_2 in Hc.
  unfold demo_channels in Hc. cbn in Hc.
  repeat (apply elem_of_cons in Hc as [[= -> ->]|Hc]; [by cbn in E|]). by apply not_elem_of_nil in Hc.
Qed.

(** The states of the run. *)
Definition demo_at (i : nat) : option (t unit EPollPoller.t) := s ← demo_start; demo_run (take i demo_steps) s.

Lemma run_reach (ks : list (@step unit)) : forall (s0 s s' : t unit EPollPoller.t),
  demo_reach s0 s -> demo_run ks s = Some s' ->
  (forall i k s1, ks !! i = Some k -> demo_run (take i ks) s = Some s1 -> enabled demo_fds demo_wake demo_timer 41 k s1) ->
  demo_reach s0 s'.
Proof.
  induction ks as [|k ks IH]; intros s0 s s' Hr E Hen; cbn in E; [by injection E as <-|].
  destruct (demo_exec k s) as [s1|] eqn:E1; [|done]. cbn in E. apply (IH s0 s1 s'); [|done|].
  - apply (reach_step _ _ _ _ _ _ k s); [done| |done]. by apply (Hen 0).
  - intros i k' s2 Hi Hs. apply (Hen (S i)); [done|]. cbn. by rewrite E1.
Qed.

Lemma demo_sees {A} (f : t unit EPollPoller.t -> A) i s x :
  demo_at i = Some s -> f <$> demo_at i = Some x -> f s = x.
Proof. intros ->. by intros [= <-]. Qed.

Lemma demo_loop_at i l s L :
  demo_at i = Some s -> demo_at i ≫= (fun s => loops s !! l) = Some L -> loops s !! l = Some L.
Proof. by intros ->. Qed.

Ltac demo_loop H l := split; [refine (demo_loop_at _ l _ _ H _); vm_compute; reflexivity|].

Lemma demo_acceptable s : demo_at 1 = Some s -> acceptable demo_fds demo_wake demo_timer 41 s 2.
Proof.
  intros H. assert (forall l, ~ service demo_wake demo_timer 41 (baseLoop s) l 2) as Hns.
  { intros l [E|[E|[_ E]]]; unfold demo_wake, demo_timer in E; lia. }
  assert (objects s !! 2 = None) as Ho by (apply (demo_sees (fun s => objects s !! 2) 1 s None H); vm_compute; reflexivity).
  assert (retired s = ∅) as Er by (apply (demo_sees retired 1 s ∅ H); vm_compute; reflexivity).
  split; [rewrite Er; set_solver|]. split; [done|]. split; [done|]. exists 8%Z. split; [by vm_compute|]. split; [done|].
  by intros id' ->%demo_fd_8.
Qed.

Lemma readable_reported (p : EPollPoller.t) f : (0 <= f)%Z -> p_asked p f <> 0%Z -> kernel_reports p [(f, POLLIN)].
Proof.
  intros Hf Ha. split; [apply NoDup_singleton|]. constructor; [|done]. split; [|done]. split; [done|]. by vm_compute.
Qed.

Ltac demo_flags := split; [by split|first [reflexivity|discriminate]].

(** Every step of the run can happen. *)
Lemma demo_enabled i k s : demo_steps !! i = Some k -> demo_at i = Some s -> enabled demo_fds demo_wake demo_timer 41 k s.
Proof.
  intros Hk H. unfold demo_steps in Hk.
  destruct i as [|[|[|[|[|[|[|[|[|[|[|i]]]]]]]]]]]; simpl in Hk;
    [injection Hk as <-..|discriminate Hk].
  - eexists. demo_loop H 0. split; [by split|]. apply readable_reported; vm_compute; congruence.
  - eexists _, _, _, _. demo_loop H 0. split; [by split|]. split; [reflexivity|]. split; [by intros o d _ [=]|]. intros new outs [= <- <-]. by apply demo_acceptable.
  - eexists. demo_loop H 0. demo_flags.
  - eexists. demo_loop H 0. demo_flags.
  - eexists. demo_loop H 1. split; [by split|]. apply readable_reported; vm_compute; congruence.
  - eexists _, _, _, _. demo_loop H 1. split; [by split|]. split; [reflexivity|]. split; [|discriminate]. by intros o d _ [=].
  - eexists. demo_loop H 1. demo_flags.
  - eexists. demo_loop H 1. demo_flags.
  - eexists. demo_loop H 1. demo_flags.
  - eexists. demo_loop H 1. split; [by split|]. apply readable_reported; vm_compute; congruence.
  - eexists _, _, _, _. demo_loop H 1. split; [by split|]. split; [reflexivity|]. split; [|discriminate]. intros o d _ [= <-]. cbn. lia.
Qed.

(** The connection of the run is closed in a state that the server reaches. *)
Lemma demo_reaches : exists s0 s, demo_start = Some s0 /\ demo_reach s0 s /\ closed s 2.
Proof.
  destruct demo_start as [s0|] eqn:E0; [|by vm_compute in E0].
  destruct (demo_run demo_steps s0) as [s|] eqn:E.
  - exists s0, s. split; [done|]. split.
    + apply (run_reach demo_steps s0 s0 s); [apply reach_start|done|]. intros i k s1 Hk H1.
      apply (demo_enabled i k s1 Hk). unfold demo_at. by rewrite E0.
    + assert (demo_at 11 = Some s) as H by (unfold demo_at; by rewrite E0).
      assert ((fun o => TcpConnection.state_ (o_tcp o)) <$> objects s !! 2 = Some TcpConnection.kDisconnected) as (o & Ho & Hc)%fmap_Some.
      { apply (demo_sees (fun s => (fun o => TcpConnection.state_ (o_tcp o)) <$> objects s !! 2) 11 s _ H). vm_compute. reflexivity. }
      exists o. exact (conj Ho (eq_sym Hc)).
  - assert (demo_at 11 = None) as H by (unfold demo_at; by rewrite E0).
    assert (is_Some ((fun _ => tt) <$> demo_at 11)) as [x Hx] by (vm_compute; by eexists). by rewrite H in Hx.
Qed.


(** C9: a server started over any poller that keeps the contract: however the
    threads of its loops are interleaved, and whatever its connections, their
    callbacks and the kernel do, no step fails: no assertion, no operation in
    the wrong thread or on a connection that is gone, no refused call of a
    poller; and no loop is ever stuck. *)
Theorem server_never_fails {W P} {HP : Poller P} {HS : PollerSpec P} (heap : gmap nat Channel.t)
    (wake timer : nat -> nat) (acceptor : nat) (wcc : option W) (name ipPort : bytes)
    (b : nat) (fresh : nat -> nat) (n : nat) :
  own_channels wake timer acceptor heap b (map fresh (seq 0 n)) ->
  let fds := Channel.fd_ <$> heap in
  exists s0 : t W P, start wake timer acceptor heap name ipPort b fresh n = Some s0 /\
    forall s, reach fds wake timer acceptor wcc s0 s ->
      (forall k, enabled fds wake timer acceptor k s -> is_Some (exec fds wake timer acceptor wcc k s)) /\
      (forall l L, loops s !! l = Some L -> exists k, step_of l k /\ enabled fds wake timer acceptor k s).
Proof.
  intros Hown fds. destruct (start_inv (W:=W) (P:=P) wake timer acceptor heap name ipPort b fresh n Hown) as (s0 & E & H0).
  exists s0. split; [done|]. intros s Hr. destruct (reach_inv _ _ _ _ wcc b s0 s ∅ H0 Hr) as [stg Hinv]. split.
  - intros k Hen. destruct (exec_inv _ _ _ _ wcc b stg s k Hinv Hen) as (s' & stg' & Es & _). by exists s'.
  - intros l L HL. by eapply loop_steps.
Qed.

(** C19: in every state the server's table lists only connections that exist,
    and every open one under its own name; each open connection's events, no
    more and no fewer, are what its loop's poller asks the kernel for; no two
    connections share a descriptor; a closed connection that no pending functor
    mentions is out of the table and out of the poller; and a loop with pending
    functors that is about to poll has been woken. *)
Theorem server_accounts_connections {W P} {HP : Poller P} {HS : PollerSpec P} (heap : gmap nat Channel.t)
    (wake timer : nat -> nat) (acceptor : nat) (wcc : option W) (name ipPort : bytes)
    (b : nat) (fresh : nat -> nat) (n : nat) (s0 s : t W P) :
  own_channels wake timer acceptor heap b (map fresh (seq 0 n)) ->
  start wake timer acceptor heap name ipPort b fresh n = Some s0 ->
  reach (Channel.fd_ <$> heap) wake timer acceptor wcc s0 s -> accounted s.
Proof.
  intros Hown E Hr. destruct (start_inv (W:=W) (P:=P) wake timer acceptor heap name ipPort b fresh n Hown) as (s1 & E1 & H0).
  rewrite E in E1. injection E1 as <-. destruct (reach_inv _ _ _ _ wcc b s0 s ∅ H0 Hr) as [stg Hinv]. by eapply inv_accounted.
Qed.

(** C10: a connection that has closed, in whatever thread, leaves the server's
    table by the time the base loop has run as many functors as it had to run,
    and its channel leaves its loop's poller by the time that loop has run as
    many as it then had, however the threads are interleaved. *)
Theorem closing_completes {W P} {HP : Poller P} {HS : PollerSpec P} (heap : gmap nat Channel.t)
    (wake timer : nat -> nat) (acceptor : nat) (wcc : option W) (name ipPort : bytes)
    (b : nat) (fresh : nat -> nat) (n : nat) (s0 s : t W P) (id : nat) :
  own_channels wake timer acceptor heap b (map fresh (seq 0 n)) ->
  let fds := Channel.fd_ <$> heap in
  start wake timer acceptor heap name ipPort b fresh n = Some s0 ->
  reach fds wake timer acceptor wcc s0 s -> closed s id ->
  leads fds wake timer acceptor wcc b s (fun s1 => on_its_way fds wake timer acceptor wcc s1 id).
Proof.
  intros Hown fds E Hr Hc. destruct (start_inv (W:=W) (P:=P) wake timer acceptor heap name ipPort b fresh n Hown) as (s1 & E1 & H0).
  rewrite E in E1. injection E1 as <-. destruct (reach_inv _ _ _ _ wcc b s0 s ∅ H0 Hr) as [stg Hinv]. by eapply closed_leads.
Qed.

(** ** Instances *)

Lemma server_never_fails_witness :
  own_channels demo_wake demo_timer 41 demo_heap 0 (map S (seq 0 1)) /\
  exists s0, demo_start = Some s0 /\ forall s, demo_reach s0 s ->
    (forall k, enabled demo_fds demo_wake demo_timer 41 k s -> is_Some (exec demo_fds demo_wake demo_timer 41 None k s)) /\
    (forall l L, loops s !! l = Some L -> exists k, step_of l k /\ enabled demo_fds demo_wake demo_timer 41 k s).
Proof.
  split; [exact demo_own|].
  exact (server_never_fails (W:=unit) (P:=EPollPoller.t) demo_heap demo_wake demo_timer 41 None ($"S") ($"0.0.0.0:80") 0 S 1 demo_own).
Defined.

Lemma server_accounts_connections_witness :
  exists s0 s, demo_start = Some s0 /\ demo_reach s0 s /\ closed s 2 /\ accounted s.
Proof.
  destruct demo_reaches as (s0 & s & E & Hr & Hc). exists s0, s. split; [exact E|]. split; [exact Hr|]. split; [exact Hc|].
  exact (server_accounts_connections demo_heap demo_wake demo_timer 41 None ($"S") ($"0.0.0.0:80") 0 S 1 s0 s demo_own E Hr).
Defined.

Lemma closing_completes_witness :
  exists s0 s, demo_start = Some s0 /\ demo_reach s0 s /\ closed s 2 /\
    leads demo_fds demo_wake demo_timer 41 None 0 s (fun s1 => on_its_way demo_fds demo_wake demo_timer 41 None s1 2).
Proof.
  destruct demo_reaches as (s0 & s & E & Hr & Hc). exists s0, s. split; [exact E|]. split; [exact Hr|]. split; [exact Hc|].
  exact (closing_completes demo_heap demo_wake demo_timer 41 None ($"S") ($"0.0.0.0:80") 0 S 1 s0 s 2 demo_own E Hr Hc).
Defined.
